(** * Sentimeter crawler: a shallow embedding of the crawling pipeline

    The development follows the crawler sources:
    - [deduplicator.ts]  content fingerprints            (module [Deduplicator])
    - [fetcher.ts]       retrying fetcher, rate limiter  (module [Fetcher])
    - [parser.ts]        link and article extraction     (module [Parser])
    - [orchestrator.ts]  the crawl orchestrator          (modules [Crawler], [Async])

    JavaScript strings are sequences of UTF-16 code units; numbers that
    the code uses as integers (milliseconds, counters, status codes) are
    integers here.  Platform services the sources call but do not define
    (the case mapping of strings, the DOM library, the URL class, the
    database, the network, the timers and the clock) are interfaces or
    oracles; everything the repository itself defines is translated
    function by function.

    The orchestrator is read twice.  Module [Crawler] follows one call of
    [crawlPortal] from its start to its end.  Module [Async] follows the
    calls that [Promise.all] runs together: each is suspended at every
    [await] and goes on, in an order the platform chooses, from the state
    the other calls have left.  A call that runs alone computes the same in
    both readings. *)

From Stdlib Require Import ZArith NArith List Bool Lia Sorted.
From Stdlib Require Import Strings.String Strings.Ascii.
From Stdlib Require Import DecimalPos DecimalN.
From stdpp Require Import base option list numbers gmap.

Import ListNotations.
Local Open Scope N_scope.

(* ===================================================================== *)
(** ** JavaScript strings *)
(* ===================================================================== *)

Module JS.

(** A string is the list of its UTF-16 code units. *)
Abbreviation jsstring := (list N).

(** Literals are written as Rocq strings of ASCII characters. *)
Fixpoint lit (s : string) : jsstring :=
  match s with
  | EmptyString => []
  | String a r => N_of_ascii a :: lit r
  end.

(** JavaScript truthiness of a string: non-empty. *)
Definition truthy (s : jsstring) : bool :=
  match s with [] => false | _ => true end.

(** The regular-expression class [\s], which is also the set removed by
    [String.prototype.trim]: WhiteSpace and LineTerminator code points. *)
Definition is_space (u : N) : bool :=
  ((9 <=? u) && (u <=? 13)) || (u =? 32) || (u =? 0xA0) || (u =? 0x1680)
  || ((0x2000 <=? u) && (u <=? 0x200A))
  || (u =? 0x2028) || (u =? 0x2029) || (u =? 0x202F) || (u =? 0x205F)
  || (u =? 0x3000) || (u =? 0xFEFF).

Definition is_digit (u : N) : bool := (48 <=? u) && (u <=? 57).

Fixpoint trimStart (s : jsstring) : jsstring :=
  match s with
  | [] => []
  | u :: r => if is_space u then trimStart r else s
  end.

Definition trimEnd (s : jsstring) : jsstring := rev (trimStart (rev s)).

Definition trim (s : jsstring) : jsstring := trimEnd (trimStart s).

(** [s.replace(/\s+/g, SPACE)]: every maximal run of white space becomes one
    space.  [in_run] records that the previous unit belonged to a run that
    has already been replaced. *)
Fixpoint collapse_from (in_run : bool) (s : jsstring) : jsstring :=
  match s with
  | [] => []
  | u :: r =>
      if is_space u
      then (if in_run then collapse_from true r else 32 :: collapse_from true r)
      else u :: collapse_from false r
  end.

Definition replace_space_runs (s : jsstring) : jsstring := collapse_from false s.

(** [s.replace(/[...]/g, c)] for a character class given as a predicate. *)
Definition replace_class (cls : N -> bool) (c : N) (s : jsstring) : jsstring :=
  map (fun u => if cls u then c else u) s.

(** The lower-case form of a Basic Latin unit: the letters A-Z move to
    a-z, every other unit below 128 stays. *)
Definition ascii_lower (u : N) : N :=
  if (65 <=? u) && (u <=? 90) then u + 32 else u.

Definition basic_latin (s : jsstring) : bool := forallb (fun u => u <? 128) s.

(** [s.slice(0, n)] *)
Definition slice0 (n : nat) (s : jsstring) : jsstring := take n s.

Definition unit_eqb (a b : N) : bool := a =? b.

(** [a === b] on strings *)
Fixpoint str_eqb (a b : jsstring) : bool :=
  match a, b with
  | [], [] => true
  | x :: a', y :: b' => unit_eqb x y && str_eqb a' b'
  | _, _ => false
  end.

(** [s.startsWith(p)] *)
Fixpoint startsWith (s p : jsstring) {struct p} : bool :=
  match p, s with
  | [], _ => true
  | _ :: _, [] => false
  | a :: p', b :: s' => unit_eqb a b && startsWith s' p'
  end.

(** [s.includes(p)] *)
Fixpoint includes (s p : jsstring) : bool :=
  startsWith s p ||
  match s with
  | [] => false
  | _ :: r => includes r p
  end.

(** [s.replace(p, r)] with a string pattern: only the first occurrence. *)
Fixpoint replace_first (s p r : jsstring) : jsstring :=
  if startsWith s p then r ++ drop (length p) s
  else match s with
       | [] => []
       | u :: s' => u :: replace_first s' p r
       end.

(** [s.split(sep)] for a one-unit separator *)
Fixpoint split_on (sep : N) (s : jsstring) : list jsstring :=
  match s with
  | [] => [[]]
  | u :: r =>
      if unit_eqb u sep then [] :: split_on sep r
      else match split_on sep r with
           | [] => [[u]]
           | w :: ws => (u :: w) :: ws
           end
  end.

(** [s.replace(/\n\s*\n/g, LF LF)].  [blank_span s] is the length of the
    longest prefix of [s] made of white space and ending in a line feed. *)
Fixpoint blank_span (s : jsstring) : option nat :=
  match s with
  | [] => None
  | u :: r =>
      if is_space u then
        match blank_span r with
        | Some n => Some (S n)
        | None => if u =? 10 then Some 1%nat else None
        end
      else None
  end.

Fixpoint replace_blank_lines_from (skip : nat) (s : jsstring) : jsstring :=
  match s with
  | [] => []
  | u :: r =>
      match skip with
      | S k => replace_blank_lines_from k r
      | O =>
          if u =? 10 then
            match blank_span r with
            | Some n => 10 :: 10 :: replace_blank_lines_from n r
            | None => u :: replace_blank_lines_from 0 r
            end
          else u :: replace_blank_lines_from 0 r
      end
  end.

Definition replace_blank_lines (s : jsstring) : jsstring :=
  replace_blank_lines_from 0 s.

(** [arr.join(sep)] *)
Fixpoint join (sep : jsstring) (l : list jsstring) : jsstring :=
  match l with
  | [] => []
  | [x] => x
  | x :: r => x ++ sep ++ join sep r
  end.

(** Decimal rendering of a non-negative integer, as template literals and
    [String(n)] produce it. *)
Fixpoint units_of_uint (d : Decimal.uint) : jsstring :=
  match d with
  | Decimal.Nil => []
  | Decimal.D0 r => 48 :: units_of_uint r
  | Decimal.D1 r => 49 :: units_of_uint r
  | Decimal.D2 r => 50 :: units_of_uint r
  | Decimal.D3 r => 51 :: units_of_uint r
  | Decimal.D4 r => 52 :: units_of_uint r
  | Decimal.D5 r => 53 :: units_of_uint r
  | Decimal.D6 r => 54 :: units_of_uint r
  | Decimal.D7 r => 55 :: units_of_uint r
  | Decimal.D8 r => 56 :: units_of_uint r
  | Decimal.D9 r => 57 :: units_of_uint r
  end.

Definition string_of_N (n : N) : jsstring := units_of_uint (N.to_uint n).

Definition string_of_Z (z : Z) : jsstring :=
  if (z <? 0)%Z then 45 :: string_of_N (Z.to_N (- z)) else string_of_N (Z.to_N z).

(** [parseInt(s, 10)] on a string of decimal digits. *)
Fixpoint uint_of_units (s : jsstring) : Decimal.uint :=
  match s with
  | [] => Decimal.Nil
  | u :: r =>
      let k := uint_of_units r in
      if u =? 48 then Decimal.D0 k else if u =? 49 then Decimal.D1 k
      else if u =? 50 then Decimal.D2 k else if u =? 51 then Decimal.D3 k
      else if u =? 52 then Decimal.D4 k else if u =? 53 then Decimal.D5 k
      else if u =? 54 then Decimal.D6 k else if u =? 55 then Decimal.D7 k
      else if u =? 56 then Decimal.D8 k else if u =? 57 then Decimal.D9 k
      else Decimal.Nil
  end.

Definition parseInt10 (s : jsstring) : N := N.of_uint (uint_of_units s).

(** The encoding [CryptoHasher.update] applies to a string: UTF-8, with
    surrogate pairs combined and lone surrogates replaced by U+FFFD. *)
Definition is_high_surrogate (u : N) : bool := (0xD800 <=? u) && (u <=? 0xDBFF).
Definition is_low_surrogate (u : N) : bool := (0xDC00 <=? u) && (u <=? 0xDFFF).

Definition utf8_code_point (c : N) : list N :=
  if c <? 0x80 then [c]
  else if c <? 0x800 then
    [N.lor 0xC0 (N.shiftr c 6); N.lor 0x80 (N.land c 0x3F)]
  else if c <? 0x10000 then
    [N.lor 0xE0 (N.shiftr c 12); N.lor 0x80 (N.land (N.shiftr c 6) 0x3F);
     N.lor 0x80 (N.land c 0x3F)]
  else
    [N.lor 0xF0 (N.shiftr c 18); N.lor 0x80 (N.land (N.shiftr c 12) 0x3F);
     N.lor 0x80 (N.land (N.shiftr c 6) 0x3F); N.lor 0x80 (N.land c 0x3F)].

Fixpoint utf8 (s : jsstring) : list N :=
  match s with
  | [] => []
  | u :: r =>
      if is_high_surrogate u then
        match r with
        | v :: r' =>
            if is_low_surrogate v
            then utf8_code_point (0x10000 + (u - 0xD800) * 0x400 + (v - 0xDC00))
                   ++ utf8 r'
            else utf8_code_point 0xFFFD ++ utf8 r
        | [] => utf8_code_point 0xFFFD
        end
      else if is_low_surrogate u then utf8_code_point 0xFFFD ++ utf8 r
      else utf8_code_point u ++ utf8 r
  end.

End JS.

Export JS.

(** [String.prototype.toLowerCase] maps a string by the case tables of the
    Unicode version the platform ships, special casing and the
    context-dependent final sigma included; the result is neither a map
    over code units nor of the same length in general.  The sources only
    rely on it being a function, and on what it does to Basic Latin
    text. *)
Class StringApi := {
  toLowerCase : jsstring -> jsstring;
  toLowerCase_basic_latin :
    forall s, basic_latin s = true -> toLowerCase s = map ascii_lower s
}.

(* ===================================================================== *)
(** ** SHA-256, as [Bun.CryptoHasher("sha256")] computes it *)
(* ===================================================================== *)

Module Sha256.

Definition mask32 : N := 0xFFFFFFFF.
Definition add32 (x y : N) : N := N.land (x + y) mask32.
Definition rotr (n x : N) : N :=
  N.land (N.lor (N.shiftr x n) (N.shiftl x (32 - n))) mask32.
Definition shr (n x : N) : N := N.shiftr x n.
Definition not32 (x : N) : N := N.lxor x mask32.

Definition Ch (x y z : N) : N := N.lxor (N.land x y) (N.land (not32 x) z).
Definition Maj (x y z : N) : N :=
  N.lxor (N.lxor (N.land x y) (N.land x z)) (N.land y z).
Definition Sigma0 (x : N) : N := N.lxor (N.lxor (rotr 2 x) (rotr 13 x)) (rotr 22 x).
Definition Sigma1 (x : N) : N := N.lxor (N.lxor (rotr 6 x) (rotr 11 x)) (rotr 25 x).
Definition sigma0 (x : N) : N := N.lxor (N.lxor (rotr 7 x) (rotr 18 x)) (shr 3 x).
Definition sigma1 (x : N) : N := N.lxor (N.lxor (rotr 17 x) (rotr 19 x)) (shr 10 x).

(** The round constants are the first 32 bits of the fractional parts of
    the cube roots of the first sixty-four primes, the initial hash value
    those of the square roots of the first eight. *)
Definition is_prime (n : nat) : bool :=
  (1 <? n)%nat && forallb (fun d => negb (n mod d =? 0)%nat) (seq 2 (n - 2)).

Definition primes (count : nat) : list N :=
  map N.of_nat (firstn count (List.filter is_prime (seq 2 310))).

(** The largest [x] below [2 ^ bits] with [x ^ 3 <= t], bit by bit. *)
Fixpoint cube_root_from (bits : nat) (x t : N) : N :=
  match bits with
  | O => x
  | S k =>
      let y := x + N.shiftl 1 (N.of_nat k) in
      if y * y * y <=? t then cube_root_from k y t else cube_root_from k x t
  end.

Definition K : list N :=
  Eval vm_compute in
    map (fun p => N.land (cube_root_from 40 0 (N.shiftl p 96)) mask32) (primes 64).

Definition H0 : list N :=
  Eval vm_compute in
    map (fun p => N.land (N.sqrt (N.shiftl p 64)) mask32) (primes 8).

(** Big-endian bytes of a number, [n] bytes wide. *)
Fixpoint be_bytes (n : nat) (x : N) : list N :=
  match n with
  | O => []
  | S n' => be_bytes n' (N.shiftr x 8) ++ [N.land x 0xFF]
  end.

(** Padding: a one bit, zeros up to 56 modulo 64, the bit length on 64 bits. *)
Definition pad (msg : list N) : list N :=
  let len := N.of_nat (length msg) in
  let zeros := N.to_nat ((119 - len mod 64) mod 64) in
  msg ++ [0x80] ++ repeat 0 zeros ++ be_bytes 8 (8 * len).

Fixpoint words_of_bytes (fuel : nat) (bs : list N) : list N :=
  match fuel, bs with
  | S f, a :: b :: c :: d :: r =>
      (N.shiftl a 24 + N.shiftl b 16 + N.shiftl c 8 + d) :: words_of_bytes f r
  | _, _ => []
  end.

(** The message schedule: sixteen block words extended to sixty-four. *)
Fixpoint extend (n : nat) (w : list N) : list N :=
  match n with
  | O => w
  | S n' =>
      let t := length w in
      let g i := nth (t - i) w 0 in
      extend n' (w ++ [add32 (add32 (sigma1 (g 2%nat)) (g 7%nat))
                              (add32 (sigma0 (g 15%nat)) (g 16%nat))])
  end.

Record regs := Regs { ra : N; rb : N; rc : N; rd : N; re : N; rf : N; rg : N; rh : N }.

Definition round (s : regs) (kw : N * N) : regs :=
  let t1 := add32 (add32 (add32 (rh s) (Sigma1 (re s)))
                         (add32 (Ch (re s) (rf s) (rg s)) (fst kw))) (snd kw) in
  let t2 := add32 (Sigma0 (ra s)) (Maj (ra s) (rb s) (rc s)) in
  Regs (add32 t1 t2) (ra s) (rb s) (rc s) (add32 (rd s) t1) (re s) (rf s) (rg s).

Definition regs_of_list (h : list N) : regs :=
  Regs (nth 0 h 0) (nth 1 h 0) (nth 2 h 0) (nth 3 h 0)
       (nth 4 h 0) (nth 5 h 0) (nth 6 h 0) (nth 7 h 0).

Definition list_of_regs (s : regs) : list N :=
  [ra s; rb s; rc s; rd s; re s; rf s; rg s; rh s].

Definition compress (h : list N) (block : list N) : list N :=
  let w := extend 48 block in
  let s := fold_left round (combine K w) (regs_of_list h) in
  map (fun p => add32 (fst p) (snd p)) (combine h (list_of_regs s)).

Fixpoint blocks (fuel : nat) (ws : list N) : list (list N) :=
  match fuel, ws with
  | S f, _ :: _ => firstn 16 ws :: blocks f (skipn 16 ws)
  | _, _ => []
  end.

Definition digest (msg : list N) : list N :=
  let bs := pad msg in
  let ws := words_of_bytes (length bs) bs in
  fold_left compress (blocks (length ws) ws) H0.

Definition hex_unit (d : N) : N := if d <? 10 then 48 + d else 87 + d.

Fixpoint hex_word (n : nat) (x : N) : jsstring :=
  match n with
  | O => []
  | S n' => hex_word n' (N.shiftr x 4) ++ [hex_unit (N.land x 0xF)]
  end.

(** [hasher.digest("hex")] *)
Definition hex_digest (msg : list N) : jsstring :=
  flat_map (hex_word 8) (digest msg).

End Sha256.

(* ===================================================================== *)
(** ** deduplicator.ts *)
(* ===================================================================== *)

Module Deduplicator.

(** The class of the first punctuation replacement, whose replacement is
    the straight double quote (unit 34): the class lists the straight
    double quote and the straight single quote, each of them twice. *)
Definition is_quote (u : N) : bool := (u =? 34) || (u =? 39).

(** The class of the second replacement, whose replacement is the hyphen
    (unit 45): EN DASH and EM DASH. *)
Definition is_dash (u : N) : bool := (u =? 0x2013) || (u =? 0x2014).

Section WithPlatform.
Context `{StringApi}.

Definition normalizeText (text : jsstring) : jsstring :=
  trim
    (replace_class is_dash 45
       (replace_class is_quote 34
          (replace_space_runs (toLowerCase text)))).

(** [content ? normalizeText(content) : empty] *)
Definition normalizeContent (content : option jsstring) : jsstring :=
  match content with
  | Some c => if truthy c then normalizeText c else []
  | None => []
  end.

Definition generateContentHash (title : jsstring) (content : option jsstring) : jsstring :=
  let normalizedTitle := normalizeText title in
  let normalizedContent := normalizeContent content in
  let contentSample := slice0 500 normalizedContent in
  let combined := normalizedTitle ++ lit "|" ++ contentSample in
  Sha256.hex_digest (utf8 combined).

End WithPlatform.

End Deduplicator.

(* ===================================================================== *)
(** ** fetcher.ts *)
(* ===================================================================== *)

Module Fetcher.

(** *** Errors *)

(** A thrown [Error].  [err_code] is present exactly for instances of the
    class [FetchError], whose constructor builds the message from the code. *)
Record JsError := mkError {
  err_name : jsstring;
  err_message : jsstring;
  err_code : option jsstring
}.

Definition FetchError (code message : jsstring) : JsError :=
  {| err_name := lit "FetchError";
     err_message := lit "[" ++ code ++ lit "] " ++ message;
     err_code := Some code |}.

(** A computation that returns a value or throws. *)
Definition Result (A : Type) : Type := JsError + A.

(** *** The world: clock, timers and network *)

(** An error raised by the platform (a [TypeError], a [DOMException]): it
    is not an instance of [FetchError]. *)
Definition platform_error (name message : jsstring) : JsError :=
  {| err_name := name; err_message := message; err_code := None |}.

(** What [response.text()] can produce: the text, or a rejection. *)
Inductive Body :=
  | BodyText (html : jsstring)
  | BodyFails (name message : jsstring).

(** What one [fetch(url)] can produce: a response, or a rejection (among
    them the [AbortError] the timeout provokes). *)
Inductive FetchOutcome :=
  | Response (status : N) (statusText : jsstring) (body : Body)
  | Rejected (name message : jsstring).

Inductive Event :=
  | EvFetch (url : jsstring)
  | EvSleep (ms : Z).

(** [network k url] is the outcome of the [k]-th request issued in this
    world, when it is a request for [url]; [jitter k] is the time the
    [k]-th suspension takes beyond what was asked for.  Both are arbitrary.
    [trace] records the requests and timer waits in the order they happen. *)
Record World := mkWorld {
  now : Z;
  requests : nat;
  suspensions : nat;
  network : nat -> jsstring -> FetchOutcome;
  jitter : nat -> N;
  trace : list Event
}.

(** The delay a timer really has: a duration that does not fit a signed
    32-bit integer is replaced by 1 ms, a negative one counts as zero. *)
Definition TIMEOUT_MAX : Z := 2147483647.

Definition timer_delay (ms : Z) : Z :=
  if (TIMEOUT_MAX <? ms)%Z then 1%Z else Z.max 0 ms.

(** [await sleep(ms)], which is [setTimeout(resolve, ms)]: the timer fires
    no earlier than its delay. *)
Definition sleep (ms : Z) (w : World) : World :=
  {| now := now w + timer_delay ms + Z.of_N (jitter w (suspensions w));
     requests := requests w;
     suspensions := S (suspensions w);
     network := network w;
     jitter := jitter w;
     trace := trace w ++ [EvSleep ms] |}.

(** [await fetch(url, ...)] and the reading of the body. *)
Definition http_get (url : jsstring) (w : World) : FetchOutcome * World :=
  (network w (requests w) url,
   {| now := now w + Z.of_N (jitter w (suspensions w));
      requests := S (requests w);
      suspensions := S (suspensions w);
      network := network w;
      jitter := jitter w;
      trace := trace w ++ [EvFetch url] |}).

(** *** fetchWithRetry *)

(** A property of an options object: the key is missing, or it is present
    and holds [undefined] or a number. *)
Inductive Setting :=
  | Missing
  | Undefined
  | Num (z : Z).

Record FetchOptions := mkOptions {
  timeout : Setting;
  retries : Setting;
  retryDelayMs : Setting
}.

Definition DEFAULT_FETCH_OPTIONS : FetchOptions :=
  {| timeout := Num 15000; retries := Num 2; retryDelayMs := Num 1000 |}.

(** The default value of the parameter [options]: the empty object. *)
Definition no_options : FetchOptions :=
  {| timeout := Missing; retries := Missing; retryDelayMs := Missing |}.

(** A spread copies every key its operand has, also one that holds
    [undefined]. *)
Definition override (d o : Setting) : Setting :=
  match o with Missing => d | _ => o end.

(** [{ ...DEFAULT_FETCH_OPTIONS, ...options }] *)
Definition spread (d o : FetchOptions) : FetchOptions :=
  {| timeout := override (timeout d) (timeout o);
     retries := override (retries d) (retries o);
     retryDelayMs := override (retryDelayMs d) (retryDelayMs o) |}.

(** [x ?? d] *)
Definition nullish (d : Z) (x : Setting) : Z :=
  match x with Num z => z | _ => d end.

Definition response_ok (status : N) : bool := (200 <=? status) && (status <=? 299).

(** The body of the [try] block for one attempt: the value returned, or
    the error thrown. *)
Definition attempt_result (o : FetchOutcome) : Result (list N) :=
  match o with
  | Rejected name message => inl (platform_error name message)
  | Response status statusText body =>
      if negb (response_ok status)
      then inl (FetchError (lit "HTTP_ERROR")
                  (lit "HTTP " ++ string_of_N status ++ lit ": " ++ statusText))
      else match body with
           | BodyText html => inr html
           | BodyFails name message => inl (platform_error name message)
           end
  end.

Fixpoint take_digits (s : jsstring) : jsstring :=
  match s with
  | [] => []
  | u :: r => if is_digit u then u :: take_digits r else []
  end.

(** [message.match(/HTTP (\d+)/)]: the digits captured by the leftmost match. *)
Fixpoint match_http_status (s : jsstring) : option (list N) :=
  match s with
  | [] => None
  | _ :: r =>
      if startsWith s (lit "HTTP ") then
        match take_digits (skipn 5 s) with
        | [] => match_http_status r
        | ds => Some ds
        end
      else match_http_status r
  end.

Definition is_abort (e : JsError) : bool := str_eqb (err_name e) (lit "AbortError").

(** A property read into a template literal. *)
Definition render_number (x : Setting) : jsstring :=
  match x with Num t => string_of_Z t | _ => lit "undefined" end.

(** The error kept in [lastError] after the [catch] block has looked at it. *)
Definition classify (timeout : Setting) (e : JsError) : JsError :=
  if is_abort e
  then FetchError (lit "TIMEOUT")
         (lit "Request timed out after " ++ render_number timeout ++ lit "ms")
  else e.

Definition has_code (e : JsError) (c : jsstring) : bool :=
  match err_code e with Some c' => str_eqb c' c | None => false end.

(** The status the [catch] block reads back from the message. *)
Definition status_of_message (e : JsError) : N :=
  match match_http_status (err_message e) with
  | Some ds => parseInt10 ds
  | None => 0
  end.

(** The test guarding [throw lastError]: a 4xx status other than 429. *)
Definition no_retry (lastError : JsError) : bool :=
  has_code lastError (lit "HTTP_ERROR") &&
  (let status := status_of_message lastError in
   (400 <=? status) && (status <? 500) && negb (status =? 429)).

(** The [for] loop; [fuel] is the number of iterations left, [attempt] the
    loop variable. *)
Fixpoint retry_loop (fuel : nat) (attempt : Z) (url : jsstring)
    (opts : FetchOptions) (lastError : option JsError) (w : World)
    : Result (list N) * World :=
  match fuel with
  | O =>
      (inl (default (FetchError (lit "UNKNOWN") (lit "Unknown fetch error")) lastError), w)
  | S fuel' =>
      let '(o, w1) := http_get url w in
      match attempt_result o with
      | inr html => (inr html, w1)
      | inl error =>
          let lastError := classify (timeout opts) error in
          if no_retry lastError then (inl lastError, w1)
          else
            let w2 :=
              if (attempt <? nullish 2 (retries opts))%Z
              then sleep (nullish 1000 (retryDelayMs opts) * (attempt + 1))%Z w1
              else w1 in
            retry_loop fuel' (attempt + 1)%Z url opts (Some lastError) w2
      end
  end.

Definition fetchWithRetry (url : jsstring) (options : FetchOptions) (w : World)
    : Result (list N) * World :=
  let opts := spread DEFAULT_FETCH_OPTIONS options in
  retry_loop (Z.to_nat (nullish 2 (retries opts) + 1)%Z) 0%Z url opts None w.

(** *** RateLimiter *)

Record RateLimiter := mkLimiter {
  lastRequestTime : gmap (list N) Z;
  defaultDelayMs : Z
}.

Definition newRateLimiter (defaultDelayMs : Z) : RateLimiter :=
  {| lastRequestTime := ∅; defaultDelayMs := defaultDelayMs |}.

Definition waitForDomain (rl : RateLimiter) (domain : jsstring) (delayMs : option Z)
    (w : World) : RateLimiter * World :=
  let delay := default (defaultDelayMs rl) delayMs in
  let lastTime := default 0%Z (lastRequestTime rl !! domain) in
  let elapsed := (now w - lastTime)%Z in
  let w1 := if (elapsed <? delay)%Z then sleep (delay - elapsed)%Z w else w in
  ({| lastRequestTime := <[domain := now w1]> (lastRequestTime rl);
      defaultDelayMs := defaultDelayMs rl |}, w1).

(** The global instance: [new RateLimiter(1500)]. *)
Definition rateLimiter : RateLimiter := newRateLimiter 1500.

End Fetcher.

(* ===================================================================== *)
(** ** types.ts *)
(* ===================================================================== *)

Module Types.

Record NewsPortalConfig := mkConfig {
  name : jsstring;
  baseUrl : jsstring;
  articleLinkSelector : jsstring;
  titleSelector : jsstring;
  contentSelector : jsstring;
  dateSelector : option (list N);
  removeSelectors : option (list (list N));
  delayMs : option Z
}.

(** A [Date] object: built from a string the platform could parse, built
    from year, month index and day, or the invalid date. *)
Inductive JsDate :=
  | DateOfString (s : jsstring)
  | DateOfParts (year month day : Z)
  | InvalidDate.

Record RawArticle := mkArticle {
  url : jsstring;
  title : jsstring;
  content : option (list N);
  publishedAt : option JsDate;
  portal : jsstring
}.

Record CrawlResult := mkResult {
  r_portal : jsstring;
  success : bool;
  articlesFound : Z;
  articlesCrawled : Z;
  newArticles : Z;
  errors : list (list N);
  durationMs : Z
}.

Record CrawlSummary := mkSummary {
  totalPortals : Z;
  successfulPortals : Z;
  failedPortals : Z;
  totalArticlesFound : Z;
  totalNewArticles : Z;
  totalDurationMs : Z;
  results : list CrawlResult
}.

End Types.

Export Types.

(* ===================================================================== *)
(** ** Platform interfaces used by the parser *)
(* ===================================================================== *)

(** The part of the cheerio API the parser calls.  A selection is the list
    of matched elements in document order. *)
Class Dom := {
  Document : Type;
  Element : Type;
  (** [cheerio.load(html)] *)
  load : jsstring -> Document;
  (** [$(selector)] *)
  select : Document -> jsstring -> list Element;
  (** [$(selector).remove()] *)
  remove : Document -> jsstring -> Document;
  (** [element.find(selector)] *)
  find : Document -> Element -> jsstring -> list Element;
  (** [$(element).text()] *)
  text : Document -> Element -> jsstring;
  (** [$(element).attr(name)] *)
  attr : Document -> Element -> jsstring -> option (list N)
}.

(** The part of the WHATWG URL class the sources call; [None] stands for
    the [TypeError] the constructor throws on an invalid URL. *)
Class UrlApi := {
  (** [new URL(href, base).toString()] *)
  url_resolve : jsstring -> jsstring -> option (list N);
  (** [new URL(url).hostname] *)
  url_hostname : jsstring -> option (list N)
}.

(** [!isNaN(new Date(s).getTime())] *)
Class DateApi := {
  date_string_valid : jsstring -> bool
}.

(* ===================================================================== *)
(** ** parser.ts *)
(* ===================================================================== *)

Module Parser.

Section WithPlatform.
Context `{StringApi} `{Dom} `{UrlApi} `{DateApi}.

(** [$(sel).first()] *)
Definition first (doc : Document) (sel : jsstring) : option Element :=
  head (select doc sel).

(** [.text()] of a selection of at most one element *)
Definition text_of (doc : Document) (e : option Element) : jsstring :=
  match e with Some x => text doc x | None => [] end.

Definition attr_of (doc : Document) (e : option Element) (a : jsstring)
    : option (list N) :=
  match e with Some x => attr doc x a | None => None end.

Definition cleanText (t : jsstring) : jsstring :=
  trim (replace_blank_lines (replace_space_runs t)).

Definition resolveUrl (href baseUrl : jsstring) : option (list N) :=
  if startsWith href (lit "http") then Some href
  else url_resolve href baseUrl.

Definition skipPatterns : list (list N) :=
  [lit "/tag/"; lit "/tags/"; lit "/category/"; lit "/kategori/";
   lit "/author/"; lit "/penulis/"; lit "/page/"; lit "/search";
   lit "/login"; lit "/register"; lit "#"; lit "javascript:"].

Definition isValidArticleUrl (url : jsstring) (config : NewsPortalConfig) : bool :=
  let lowercaseUrl := toLowerCase url in
  if existsb (fun pattern => includes lowercaseUrl pattern) skipPatterns then false
  else
    match url_hostname url, url_hostname (baseUrl config) with
    | Some urlDomain, Some baseDomain =>
        if negb (includes urlDomain (replace_first baseDomain (lit "www.") []))
        then false else true
    | _, _ => false
    end.

(** The callback of [.each], applied to the [href] of one matched element;
    [links] and [seen] are the two collections it updates. *)
Definition visit_link (config : NewsPortalConfig)
    (st : list (list N) * gset (list N)) (href : option (list N))
    : list (list N) * gset (list N) :=
  let '(links, seen) := st in
  match href with
  | None => st
  | Some href =>
      if negb (truthy href) then st
      else
        match resolveUrl href (baseUrl config) with
        | None => st
        | Some fullUrl =>
            if negb (truthy fullUrl) || bool_decide (fullUrl ∈ seen) then st
            else if isValidArticleUrl fullUrl config
                 then (links ++ [fullUrl], {[ fullUrl ]} ∪ seen)
                 else st
        end
  end.

(** The [href] attributes of the elements matched by the link selector. *)
Definition link_hrefs (html : jsstring) (config : NewsPortalConfig)
    : list (option (list N)) :=
  let doc := load html in
  map (fun e => attr doc e (lit "href")) (select doc (articleLinkSelector config)).

Definition parseArticleLinks (html : jsstring) (config : NewsPortalConfig)
    : list (list N) :=
  fst (fold_left (visit_link config) (link_hrefs html config) ([], ∅)).

(** [selector.split(COMMA).map(s => s.trim())] *)
Definition selectors_of (selector : jsstring) : list (list N) :=
  map trim (split_on 44 selector).

Fixpoint title_from (doc : Document) (selectors : list (list N)) : option (list N) :=
  match selectors with
  | [] => None
  | sel :: rest =>
      let text := trim (text_of doc (first doc sel)) in
      if truthy text && (10 <? length text)%nat then Some (cleanText text)
      else title_from doc rest
  end.

Definition extractTitle (doc : Document) (selector : jsstring) : option (list N) :=
  title_from doc (selectors_of selector).

(** The paragraphs the inner [.each] pushes. *)
Definition long_paragraphs (doc : Document) (element : Element) : list (list N) :=
  filter (fun t => truthy t && (20 <? length t)%nat = true)
         (map (fun p => trim (text doc p)) (find doc element (lit "p"))).

Fixpoint content_from (doc : Document) (selectors : list (list N)) : option (list N) :=
  match selectors with
  | [] => None
  | sel :: rest =>
      match first doc sel with
      | None => content_from doc rest
      | Some element =>
          let paragraphs := long_paragraphs doc element in
          if (0 <? length paragraphs)%nat
          then Some (cleanText (join [10; 10] paragraphs))
          else
            let fullText := trim (text doc element) in
            if truthy fullText && (50 <? length fullText)%nat
            then Some (cleanText fullText)
            else content_from doc rest
      end
  end.

Definition extractContent (doc : Document) (selector : jsstring) : option (list N) :=
  content_from doc (selectors_of selector).

(** *** Dates *)

(** The [months] object literal. *)
Definition months : list (list N * Z) :=
  [(lit "januari", 0); (lit "jan", 0); (lit "februari", 1); (lit "feb", 1);
   (lit "maret", 2); (lit "mar", 2); (lit "april", 3); (lit "apr", 3);
   (lit "mei", 4); (lit "may", 4); (lit "juni", 5); (lit "jun", 5);
   (lit "juli", 6); (lit "jul", 6); (lit "agustus", 7); (lit "agu", 7);
   (lit "aug", 7); (lit "september", 8); (lit "sep", 8); (lit "oktober", 9);
   (lit "okt", 9); (lit "oct", 9); (lit "november", 10); (lit "nov", 10);
   (lit "desember", 11); (lit "des", 11); (lit "dec", 11)]%Z.

(** The value of [months[key]]: a number for an own key, an object for the
    two keys of [Object.prototype] a lowercased word can spell, otherwise
    [undefined]. *)
Inductive MonthValue :=
  | MonthNumber (m : Z)
  | MonthObject
  | MonthUndefined.

Fixpoint own_month (table : list (list N * Z)) (key : jsstring) : option Z :=
  match table with
  | [] => None
  | (k, v) :: rest => if str_eqb k key then Some v else own_month rest key
  end.

Definition month_value (key : jsstring) : MonthValue :=
  match own_month months key with
  | Some m => MonthNumber m
  | None =>
      if str_eqb key (lit "constructor") || str_eqb key (lit "__proto__")
      then MonthObject else MonthUndefined
  end.

(** The class [\w] *)
Definition is_word (u : N) : bool :=
  is_digit u || ((65 <=? u) && (u <=? 90)) || ((97 <=? u) && (u <=? 122)) || (u =? 95).

(** The longest prefix whose units satisfy [p], and the rest. *)
Fixpoint span (p : N -> bool) (s : jsstring) : list N * list N :=
  match s with
  | [] => ([], [])
  | u :: r => if p u then let '(a, b) := span p r in (u :: a, b) else ([], s)
  end.

(** [/(\d{1,2})\s+(\w+)\s+(\d{4})/i] matched at the start of [s]: every
    quantifier is followed by a class disjoint from its own, so the greedy
    choice is the only one that can succeed. *)
Definition date_pattern_here (s : jsstring) : option (list N * list N * list N) :=
  let day := fst (span is_digit (take 2 s)) in
  let '(sp1, r2) := span is_space (drop (length day) s) in
  let '(word, r3) := span is_word r2 in
  let '(sp2, r4) := span is_space r3 in
  let year := fst (span is_digit (take 4 r4)) in
  if truthy day && truthy sp1 && truthy word && truthy sp2 && (length year =? 4)%nat
  then Some (day, word, year) else None.

(** [text.match(datePattern)]: the leftmost match. *)
Fixpoint date_pattern (s : jsstring) : option (list N * list N * list N) :=
  match date_pattern_here s with
  | Some m => Some m
  | None => match s with [] => None | _ :: r => date_pattern r end
  end.

(** [/\d{4}-\d{2}-\d{2}/] matched at the start of [s]. *)
Definition iso_pattern_here (s : jsstring) : option (list N) :=
  let m := take 10 s in
  match m with
  | [a; b; c; d; h1; e; f; h2; g; i] =>
      if forallb is_digit [a; b; c; d; e; f; g; i] && (h1 =? 45) && (h2 =? 45)
      then Some m else None
  | _ => None
  end.

Fixpoint iso_pattern (s : jsstring) : option (list N) :=
  match iso_pattern_here s with
  | Some m => Some m
  | None => match s with [] => None | _ :: r => iso_pattern r end
  end.

Definition iso_fallback (text : jsstring) : option JsDate :=
  match iso_pattern text with
  | Some m => if date_string_valid m then Some (DateOfString m) else None
  | None => None
  end.

Definition parseIndonesianDate (text : jsstring) : option JsDate :=
  match date_pattern text with
  | Some (d, w, y) =>
      let day := Z.of_N (parseInt10 d) in
      let monthStr := toLowerCase w in
      let year := Z.of_N (parseInt10 y) in
      match month_value monthStr with
      | MonthNumber month =>
          if (0 <? day)%Z && (2000 <? year)%Z
          then Some (DateOfParts year month day) else iso_fallback text
      | MonthObject =>
          if (0 <? day)%Z && (2000 <? year)%Z
          then Some InvalidDate else iso_fallback text
      | MonthUndefined => iso_fallback text
      end
  | None => iso_fallback text
  end.

Fixpoint date_from (doc : Document) (selectors : list (list N)) : option JsDate :=
  match selectors with
  | [] => None
  | sel :: rest =>
      let element := first doc sel in
      let from_attribute :=
        match attr_of doc element (lit "datetime") with
        | Some datetime =>
            if truthy datetime && date_string_valid datetime
            then Some (DateOfString datetime) else None
        | None => None
        end in
      match from_attribute with
      | Some parsed => Some parsed
      | None =>
          let text := trim (text_of doc element) in
          match (if truthy text then parseIndonesianDate text else None) with
          | Some parsed => Some parsed
          | None => date_from doc rest
          end
      end
  end.

Definition extractDate (doc : Document) (selector : option (list N)) : option JsDate :=
  match selector with
  | None => None
  | Some selector =>
      if negb (truthy selector) then None
      else date_from doc (selectors_of selector)
  end.

(** *** parseArticle *)

(** The document after [config.removeSelectors.forEach(...)]. *)
Definition strip (doc : Document) (config : NewsPortalConfig) : Document :=
  match removeSelectors config with
  | Some selectors => fold_left remove selectors doc
  | None => doc
  end.

Definition parseArticle (html url : jsstring) (config : NewsPortalConfig)
    : option RawArticle :=
  let doc := strip (load html) config in
  match extractTitle doc (titleSelector config) with
  | None => None
  | Some title =>
      if negb (truthy title) then None
      else
        let content := extractContent doc (contentSelector config) in
        let publishedAt := extractDate doc (dateSelector config) in
        Some {| url := url; title := title; content := content;
                publishedAt := publishedAt; portal := name config |}
  end.

End WithPlatform.

End Parser.

(* ===================================================================== *)
(** ** The article store *)
(* ===================================================================== *)

Record NewsArticleInsert := mkInsert {
  ins_url : jsstring;
  ins_title : jsstring;
  ins_content : option (list N);
  ins_portal : jsstring;
  ins_publishedAt : option JsDate;
  contentHash : jsstring
}.

(** Modelled from the spec: the queries module of the database
    ([getNewsArticleByHash], [insertNewsArticle]) is not among the sources.
    The specification describes the store as an opaque collaborator with
    a lookup by fingerprint that returns an existing record or none, and an
    insertion of one record; an insertion may be refused, which the caller
    sees as a thrown error. *)
Class Database := {
  Store : Type;
  getNewsArticleByHash : Store -> jsstring -> option NewsArticleInsert;
  insertNewsArticle : Store -> NewsArticleInsert -> Fetcher.JsError + Store
}.

(* ===================================================================== *)
(** ** orchestrator.ts *)
(* ===================================================================== *)

Module Crawler.

Import Fetcher.

Definition MAX_ARTICLES_PER_PORTAL : nat := 15.
Definition MAX_CONCURRENT_PORTALS : nat := 3.

Inductive LogLevel := LogInfo | LogSuccess | LogError.

Section WithPlatform.
Context `{StringApi} `{Dom} `{UrlApi} `{DateApi} `{Database}.

(** The state a crawl runs in: the world, the global rate limiter, the
    store, the log emitter's entries, and the local variables of the
    running [crawlPortal] that its [catch] blocks read. *)
Record Frame := mkFrame {
  world : World;
  limiter : RateLimiter;
  store : Store;
  log : list (LogLevel * list N);
  loc_errors : list (list N);
  loc_articlesFound : Z;
  loc_articlesCrawled : Z;
  loc_newArticles : Z
}.

(** *** Computations that may throw *)

Definition M (A : Type) : Type := Frame -> Result A * Frame.

Definition ret {A} (a : A) : M A := fun f => (inr a, f).

Definition bind {A B} (m : M A) (k : A -> M B) : M B :=
  fun f => match m f with
           | (inl e, f') => (inl e, f')
           | (inr a, f') => k a f'
           end.

Definition try_catch {A} (m : M A) (handler : JsError -> M A) : M A :=
  fun f => match m f with
           | (inl e, f') => handler e f'
           | (inr a, f') => (inr a, f')
           end.

Definition modify (g : Frame -> Frame) : M unit := fun f => (inr tt, g f).

Definition gets {A} (g : Frame -> A) : M A := fun f => (inr (g f), f).

Notation "x <- m ;; k" := (bind m (fun x => k))
  (at level 100, m at next level, right associativity).
Notation "m ;;; k" := (bind m (fun _ => k))
  (at level 100, right associativity).

Definition set_world (w : World) (f : Frame) : Frame :=
  mkFrame w (limiter f) (store f) (log f)
          (loc_errors f) (loc_articlesFound f) (loc_articlesCrawled f) (loc_newArticles f).

Definition set_limiter (rl : RateLimiter) (f : Frame) : Frame :=
  mkFrame (world f) rl (store f) (log f)
          (loc_errors f) (loc_articlesFound f) (loc_articlesCrawled f) (loc_newArticles f).

Definition set_store (s : Store) (f : Frame) : Frame :=
  mkFrame (world f) (limiter f) s (log f)
          (loc_errors f) (loc_articlesFound f) (loc_articlesCrawled f) (loc_newArticles f).

Definition emit (level : LogLevel) (message : jsstring) : M unit :=
  modify (fun f =>
    mkFrame (world f) (limiter f) (store f) (log f ++ [(level, message)])
            (loc_errors f) (loc_articlesFound f) (loc_articlesCrawled f) (loc_newArticles f)).

(** [errors.push(message)] *)
Definition push_error (message : jsstring) : M unit :=
  modify (fun f =>
    mkFrame (world f) (limiter f) (store f) (log f)
            (loc_errors f ++ [message]) (loc_articlesFound f)
            (loc_articlesCrawled f) (loc_newArticles f)).

Definition set_articlesFound (n : Z) : M unit :=
  modify (fun f =>
    mkFrame (world f) (limiter f) (store f) (log f)
            (loc_errors f) n (loc_articlesCrawled f) (loc_newArticles f)).

(** [articlesCrawled++] *)
Definition incr_articlesCrawled : M unit :=
  modify (fun f =>
    mkFrame (world f) (limiter f) (store f) (log f)
            (loc_errors f) (loc_articlesFound f) (loc_articlesCrawled f + 1)%Z
            (loc_newArticles f)).

(** [newArticles++] *)
Definition incr_newArticles : M unit :=
  modify (fun f =>
    mkFrame (world f) (limiter f) (store f) (log f)
            (loc_errors f) (loc_articlesFound f) (loc_articlesCrawled f)
            (loc_newArticles f + 1)%Z).

(** The declarations that open [crawlPortal]. *)
Definition init_locals (f : Frame) : Frame :=
  mkFrame (world f) (limiter f) (store f) (log f) [] 0%Z 0%Z 0%Z.

(** [Date.now()] *)
Definition date_now : M Z := gets (fun f => now (world f)).

(** [await sleep(ms)] *)
Definition sleepM (ms : Z) : M unit :=
  modify (fun f => set_world (sleep ms (world f)) f).

(** [await rateLimiter.waitForDomain(domain, delayMs)] *)
Definition waitForDomainM (domain : jsstring) (delayMs : option Z) : M unit :=
  modify (fun f =>
    let '(rl, w) := waitForDomain (limiter f) domain delayMs (world f) in
    set_world w (set_limiter rl f)).

(** [await fetchWithRetry(url)] *)
Definition fetchWithRetryM (url : jsstring) : M (list N) :=
  fun f =>
    let '(r, w) := fetchWithRetry url no_options (world f) in
    (r, set_world w f).

(** [insertNewsArticle(articleInsert)] *)
Definition insertM (a : NewsArticleInsert) : M unit :=
  fun f =>
    match insertNewsArticle (store f) a with
    | inl e => (inl e, f)
    | inr s => (inr tt, set_store s f)
    end.

(** [isArticleDuplicate(hash)] of deduplicator.ts *)
Definition isArticleDuplicate (hash : jsstring) : M bool :=
  gets (fun f => match getNewsArticleByHash (store f) hash with
                 | Some _ => true
                 | None => false
                 end).

(** [RateLimiter.getDomain(url)] *)
Definition getDomain (url : jsstring) : jsstring :=
  match url_hostname url with
  | Some hostname => hostname
  | None => url
  end.

(** *** crawlPortal *)

(** The [try] block of one iteration of the article loop; returning early
    is the [continue] of the source. *)
Definition article_try (config : NewsPortalConfig) (domain url : jsstring) : M unit :=
  waitForDomainM domain (delayMs config) ;;;
  articleHtml <- fetchWithRetryM url ;;
  match Parser.parseArticle articleHtml url config with
  | None => ret tt
  | Some article =>
      if negb (truthy (title article)) then ret tt
      else
        incr_articlesCrawled ;;;
        let hash := Deduplicator.generateContentHash (title article) (content article) in
        duplicate <- isArticleDuplicate hash ;;
        if duplicate then ret tt
        else
          insertM {| ins_url := Types.url article;
                     ins_title := title article;
                     ins_content := content article;
                     ins_portal := portal article;
                     ins_publishedAt := publishedAt article;
                     contentHash := hash |} ;;;
          incr_newArticles
  end.

(** One iteration: the [try] block and its [catch]. *)
Definition article_step (config : NewsPortalConfig) (domain url : jsstring) : M unit :=
  try_catch (article_try config domain url)
    (fun articleError =>
       push_error (lit "Article error (" ++ url ++ lit "): " ++ err_message articleError)).

(** [for (const url of urls) body] *)
Fixpoint for_each (urls : list (list N)) (body : jsstring -> M unit) : M unit :=
  match urls with
  | [] => ret tt
  | url :: rest => body url ;;; for_each rest body
  end.

(** The record both [return] statements build. *)
Definition finish (config : NewsPortalConfig) (ok : bool) (startTime : Z) : M CrawlResult :=
  fun f =>
    (inr {| r_portal := name config;
            success := ok;
            articlesFound := loc_articlesFound f;
            articlesCrawled := loc_articlesCrawled f;
            newArticles := loc_newArticles f;
            errors := loc_errors f;
            durationMs := (now (world f) - startTime)%Z |}, f).

(** The [try] block of [crawlPortal], in its three phases: the listing is
    fetched; its links are extracted and processed one by one; the result
    is built. *)
Definition open_listing (config : NewsPortalConfig) : M (list N) :=
  emit LogInfo (lit "Crawling " ++ name config ++ lit "...") ;;;
  let domain := getDomain (baseUrl config) in
  waitForDomainM domain (delayMs config) ;;;
  fetchWithRetryM (baseUrl config).

Definition crawl_articles (config : NewsPortalConfig) (listingHtml : jsstring) : M unit :=
  let domain := getDomain (baseUrl config) in
  let articleUrls := Parser.parseArticleLinks listingHtml config in
  set_articlesFound (Z.of_nat (length articleUrls)) ;;;
  found <- gets loc_articlesFound ;;
  emit LogInfo (lit "Found " ++ string_of_Z found ++ lit " articles on " ++ name config) ;;;
  let urlsToProcess := take MAX_ARTICLES_PER_PORTAL articleUrls in
  for_each urlsToProcess (article_step config domain) ;;;
  new <- gets loc_newArticles ;;
  emit LogSuccess (name config ++ lit ": " ++ string_of_Z new ++ lit " new articles saved").

Definition portal_try (config : NewsPortalConfig) (startTime : Z) : M CrawlResult :=
  listingHtml <- open_listing config ;;
  crawl_articles config listingHtml ;;;
  finish config true startTime.

Definition portal_catch (config : NewsPortalConfig) (startTime : Z) (error : JsError)
    : M CrawlResult :=
  let errorMsg := err_message error in
  emit LogError (name config ++ lit ": " ++ errorMsg) ;;;
  push_error (lit "Portal error: " ++ errorMsg) ;;;
  finish config false startTime.

Definition crawlPortal (config : NewsPortalConfig) : M CrawlResult :=
  modify init_locals ;;;
  startTime <- date_now ;;
  try_catch (portal_try config startTime) (portal_catch config startTime).

(** *** crawlAllPortals *)

(** [array.slice(i, j)] *)
Definition slice {A} (i j : nat) (array : list A) : list A :=
  take (j - i) (drop i array).

(** The loop of [chunkArray]: [fuel] bounds the iterations, [i] is the
    loop variable. *)
Fixpoint chunk_loop {A} (fuel : nat) (array : list A) (size i : nat) : list (list A) :=
  match fuel with
  | O => []
  | S fuel' =>
      if (i <? length array)%nat
      then slice i (i + size) array :: chunk_loop fuel' array size (i + size)
      else []
  end.

Definition chunkArray {A} (array : list A) (size : nat) : list (list A) :=
  chunk_loop (length array) array size 0.

(** [results.reduce((sum, r) => sum + field(r), 0)] *)
Definition sum_of (field : CrawlResult -> Z) (results : list CrawlResult) : Z :=
  fold_left (fun sum r => (sum + field r)%Z) results 0%Z.

End WithPlatform.

Notation "x <- m ;; k" := (bind m (fun x => k))
  (at level 100, m at next level, right associativity).
Notation "m ;;; k" := (bind m (fun _ => k))
  (at level 100, right associativity).

End Crawler.

(* ===================================================================== *)
(** ** orchestrator.ts, several portals at a time *)
(* ===================================================================== *)

(** [crawlAllPortals] starts the crawls of a batch together and awaits
    them with [Promise.all]: each crawl runs until it reaches an [await],
    and goes on, when what it waits for has happened, from the state the
    other crawls have left.  The functions of fetcher.ts and of
    orchestrator.ts that contain an [await] are therefore given once more,
    as computations that can be suspended; module [Crawler] is what they
    do when nothing else runs in between. *)
Module Async.

Import Fetcher.

Declare Scope async_scope.
Delimit Scope async_scope with async.

Section WithPlatform.
Context `{StringApi} `{Dom} `{UrlApi} `{DateApi} `{Database}.

Local Abbreviation Frame := Crawler.Frame.

(** *** Suspended computations *)

(** A call of an [async] function: it has settled, with a value or with an
    error, or it is suspended at an [await].  In both cases [f] is the
    state in which it stopped running; a suspended call goes on from the
    state it finds when it is resumed. *)
Inductive Co (A : Type) : Type :=
  | Settled (r : Result A) (f : Frame)
  | Pending (f : Frame) (resume : Frame -> Co A).

Arguments Settled {A} r f.
Arguments Pending {A} f resume.

Definition frame_of {A} (c : Co A) : Frame :=
  match c with
  | Settled _ f => f
  | Pending f _ => f
  end.

(** The body of an [async] function, from the state it is called in. *)
Definition Async (A : Type) : Type := Frame -> Co A.

(** What follows once [c] has settled. *)
Fixpoint and_then {A B} (c : Co A) (k : Result A -> Async B) : Co B :=
  match c with
  | Settled r f => k r f
  | Pending f resume => Pending f (fun f' => and_then (resume f') k)
  end.

Definition ret {A} (a : A) : Async A := Settled (inr a).

Definition throw {A} (e : JsError) : Async A := Settled (inl e).

Definition bind {A B} (m : Async A) (k : A -> Async B) : Async B :=
  fun f => and_then (m f) (fun r => match r with
                                    | inr a => k a
                                    | inl e => throw e
                                    end).

Definition try_catch {A} (m : Async A) (handler : JsError -> Async A) : Async A :=
  fun f => and_then (m f) (fun r => match r with
                                    | inr a => ret a
                                    | inl e => handler e
                                    end).

(** Statements without an [await]. *)
Definition lift {A} (m : Crawler.M A) : Async A :=
  fun f => let '(r, f') := m f in Settled r f'.

(** [await m(...)] for an [async] function [m]: the caller goes on in a
    later job than the one in which the call settles. *)
Definition await {A} (m : Async A) : Async A :=
  fun f => and_then (m f) (fun r f' => Pending f' (Settled r)).

Notation "x <- m ;; k" := (bind m (fun x => k))
  (at level 100, m at next level, right associativity) : async_scope.
Notation "m ;;; k" := (bind m (fun _ => k))
  (at level 100, right associativity) : async_scope.

Local Open Scope async_scope.

(** *** fetcher.ts *)

(** [setTimeout(resolve, ms)] sets the timer; when it has fired, at the
    time it was due or later, the computation goes on. *)
Definition arm (ms : Z) (w : World) : World :=
  {| now := now w; requests := requests w; suspensions := suspensions w;
     network := network w; jitter := jitter w;
     trace := trace w ++ [EvSleep ms] |}.

Definition fire (due : Z) (w : World) : World :=
  {| now := Z.max (now w) due + Z.of_N (jitter w (suspensions w));
     requests := requests w; suspensions := S (suspensions w);
     network := network w; jitter := jitter w; trace := trace w |}.

(** [await sleep(ms)] *)
Definition sleep (ms : Z) : Async unit :=
  fun f =>
    let due := (now (Crawler.world f) + timer_delay ms)%Z in
    Pending (Crawler.set_world (arm ms (Crawler.world f)) f)
            (fun f' => Settled (inr tt)
                         (Crawler.set_world (fire due (Crawler.world f')) f')).

(** [fetch(url, ...)] sends the request; the answer comes in later. *)
Definition send (url : jsstring) (w : World) : FetchOutcome * World :=
  (network w (requests w) url,
   {| now := now w; requests := S (requests w); suspensions := suspensions w;
      network := network w; jitter := jitter w;
      trace := trace w ++ [EvFetch url] |}).

Definition receive (w : World) : World :=
  {| now := now w + Z.of_N (jitter w (suspensions w));
     requests := requests w; suspensions := S (suspensions w);
     network := network w; jitter := jitter w; trace := trace w |}.

(** [await fetch(url, ...)] *)
Definition fetch (url : jsstring) : Async FetchOutcome :=
  fun f =>
    let '(o, w) := send url (Crawler.world f) in
    Pending (Crawler.set_world w f)
            (fun f' => Settled (inr o)
                         (Crawler.set_world (receive (Crawler.world f')) f')).

(** [response.text()] *)
Definition response_text (body : Body) : Async (list N) :=
  match body with
  | BodyText html => ret html
  | BodyFails name message => throw (platform_error name message)
  end.

(** The [try] block of one attempt. *)
Definition attempt (url : jsstring) : Async (list N) :=
  o <- fetch url ;;
  match o with
  | Rejected name message => throw (platform_error name message)
  | Response status statusText body =>
      if negb (response_ok status)
      then throw (FetchError (lit "HTTP_ERROR")
                    (lit "HTTP " ++ string_of_N status ++ lit ": " ++ statusText))
      else await (response_text body)
  end.

(** The [for] loop of [fetchWithRetry], the [catch] block included. *)
Fixpoint retry_loop (fuel : nat) (attempt_no : Z) (url : jsstring)
    (opts : FetchOptions) (lastError : option JsError) : Async (list N) :=
  match fuel with
  | O => throw (default (FetchError (lit "UNKNOWN") (lit "Unknown fetch error")) lastError)
  | S fuel' =>
      try_catch (attempt url)
        (fun error =>
           let lastError := classify (timeout opts) error in
           if no_retry lastError then throw lastError
           else
             (if (attempt_no <? nullish 2 (retries opts))%Z
              then sleep (nullish 1000 (retryDelayMs opts) * (attempt_no + 1))%Z
              else ret tt) ;;;
             retry_loop fuel' (attempt_no + 1)%Z url opts (Some lastError))
  end.

Definition fetchWithRetry (url : jsstring) (options : FetchOptions) : Async (list N) :=
  let opts := spread DEFAULT_FETCH_OPTIONS options in
  retry_loop (Z.to_nat (nullish 2 (retries opts) + 1)%Z) 0%Z url opts None.

(** [lastRequestTime.set(domain, Date.now())] on the global rate limiter *)
Definition record_request (domain : jsstring) (f : Frame) : Frame :=
  Crawler.set_limiter
    {| lastRequestTime :=
         <[domain := now (Crawler.world f)]> (lastRequestTime (Crawler.limiter f));
       defaultDelayMs := defaultDelayMs (Crawler.limiter f) |} f.

(** [rateLimiter.waitForDomain(domain, delayMs)] *)
Definition waitForDomain (domain : jsstring) (delayMs : option Z) : Async unit :=
  fun f =>
    let delay := default (defaultDelayMs (Crawler.limiter f)) delayMs in
    let lastTime := default 0%Z (lastRequestTime (Crawler.limiter f) !! domain) in
    let elapsed := (now (Crawler.world f) - lastTime)%Z in
    ((if (elapsed <? delay)%Z then sleep (delay - elapsed)%Z else ret tt) ;;;
     lift (Crawler.modify (record_request domain))) f.

(** *** orchestrator.ts: crawlPortal *)

Definition article_try (config : NewsPortalConfig) (domain url : jsstring) : Async unit :=
  await (waitForDomain domain (delayMs config)) ;;;
  articleHtml <- await (fetchWithRetry url no_options) ;;
  match Parser.parseArticle articleHtml url config with
  | None => ret tt
  | Some article =>
      if negb (truthy (title article)) then ret tt
      else
        lift Crawler.incr_articlesCrawled ;;;
        let hash := Deduplicator.generateContentHash (title article) (content article) in
        duplicate <- lift (Crawler.isArticleDuplicate hash) ;;
        if duplicate then ret tt
        else
          lift (Crawler.insertM {| ins_url := Types.url article;
                                   ins_title := title article;
                                   ins_content := content article;
                                   ins_portal := portal article;
                                   ins_publishedAt := publishedAt article;
                                   contentHash := hash |}) ;;;
          lift Crawler.incr_newArticles
  end.

Definition article_step (config : NewsPortalConfig) (domain url : jsstring) : Async unit :=
  try_catch (article_try config domain url)
    (fun articleError =>
       lift (Crawler.push_error
               (lit "Article error (" ++ url ++ lit "): " ++ err_message articleError))).

Fixpoint for_each (urls : list (list N)) (body : jsstring -> Async unit) : Async unit :=
  match urls with
  | [] => ret tt
  | url :: rest => body url ;;; for_each rest body
  end.

Definition open_listing (config : NewsPortalConfig) : Async (list N) :=
  lift (Crawler.emit Crawler.LogInfo (lit "Crawling " ++ name config ++ lit "...")) ;;;
  let domain := Crawler.getDomain (baseUrl config) in
  await (waitForDomain domain (delayMs config)) ;;;
  await (fetchWithRetry (baseUrl config) no_options).

Definition crawl_articles (config : NewsPortalConfig) (listingHtml : jsstring) : Async unit :=
  let domain := Crawler.getDomain (baseUrl config) in
  let articleUrls := Parser.parseArticleLinks listingHtml config in
  lift (Crawler.set_articlesFound (Z.of_nat (length articleUrls))) ;;;
  found <- lift (Crawler.gets Crawler.loc_articlesFound) ;;
  lift (Crawler.emit Crawler.LogInfo
          (lit "Found " ++ string_of_Z found ++ lit " articles on " ++ name config)) ;;;
  let urlsToProcess := take Crawler.MAX_ARTICLES_PER_PORTAL articleUrls in
  for_each urlsToProcess (article_step config domain) ;;;
  new <- lift (Crawler.gets Crawler.loc_newArticles) ;;
  lift (Crawler.emit Crawler.LogSuccess
          (name config ++ lit ": " ++ string_of_Z new ++ lit " new articles saved")).

Definition portal_try (config : NewsPortalConfig) (startTime : Z) : Async CrawlResult :=
  listingHtml <- open_listing config ;;
  crawl_articles config listingHtml ;;;
  lift (Crawler.finish config true startTime).

Definition crawlPortal (config : NewsPortalConfig) : Async CrawlResult :=
  lift (Crawler.modify Crawler.init_locals) ;;;
  startTime <- lift Crawler.date_now ;;
  try_catch (portal_try config startTime)
            (fun error => lift (Crawler.portal_catch config startTime error)).

(** *** Running suspended computations *)

(** A computation that is resumed, each time, in the state it stopped in:
    nothing else runs in between. *)
Fixpoint finish {A} (c : Co A) : Result A * Frame :=
  match c with
  | Settled r f => (r, f)
  | Pending f resume => finish (resume f)
  end.

Definition run {A} (m : Async A) : Crawler.M A := fun f => finish (m f).

(** The local variables of a call are its own; everything else in a frame
    is shared by all calls. *)
Definition with_locals (own shared : Frame) : Frame :=
  Crawler.mkFrame (Crawler.world shared) (Crawler.limiter shared)
                  (Crawler.store shared) (Crawler.log shared)
                  (Crawler.loc_errors own) (Crawler.loc_articlesFound own)
                  (Crawler.loc_articlesCrawled own) (Crawler.loc_newArticles own).

(** A suspended call goes on from the shared state as it is now. *)
Definition resume_in {A} (shared : Frame) (c : Co A) : Co A :=
  match c with
  | Pending own resume => resume (with_locals own shared)
  | Settled _ _ => c
  end.

Definition is_pending {A} (c : Co A) : bool :=
  match c with Pending _ _ => true | Settled _ _ => false end.

(** *** Promise.all *)

(** [batch.map(config => crawlPortal(config))]: each call runs, in turn,
    up to its first [await]. *)
Fixpoint start_all (batch : list NewsPortalConfig) (f : Frame)
    : list (Co CrawlResult) * Frame :=
  match batch with
  | [] => ([], f)
  | config :: rest =>
      let c := crawlPortal config f in
      let '(cs, f') := start_all rest (frame_of c) in
      (c :: cs, f')
  end.

(** The promise [Promise.all] returns: rejected as soon as one of the
    calls is, fulfilled with all values when all calls are, pending
    otherwise. *)
Fixpoint all_settled {A} (calls : list (Co A)) : option (Result (list A)) :=
  match calls with
  | [] => Some (inr [])
  | c :: rest =>
      match c, all_settled rest with
      | Settled (inl e) _, _ => Some (inl e)
      | _, Some (inl e) => Some (inl e)
      | Settled (inr a) _, Some (inr values) => Some (inr (a :: values))
      | _, _ => None
      end
  end.

(** One turn of the event loop: the [n]-th of the suspended calls goes on. *)
Fixpoint resume_nth {A} (n : nat) (calls : list (Co A)) (shared : Frame)
    : list (Co A) * Frame :=
  match calls with
  | [] => ([], shared)
  | c :: rest =>
      if is_pending c then
        match n with
        | O => let c' := resume_in shared c in (c' :: rest, frame_of c')
        | S n' => let '(rest', f') := resume_nth n' rest shared in (c :: rest', f')
        end
      else let '(rest', f') := resume_nth n rest shared in (c :: rest', f')
  end.

(** A call runs to its end, if it has not yet. *)
Definition settle {A} (shared : Frame) (c : Co A) : Result A * Frame :=
  match c with
  | Settled r _ => (r, shared)
  | Pending _ _ => finish (resume_in shared c)
  end.

(** The calls that are still suspended run to their end, one call after
    the other. *)
Fixpoint drain {A} (calls : list (Co A)) (shared : Frame) : Result (list A) * Frame :=
  match calls with
  | [] => (inr [], shared)
  | c :: rest =>
      match settle shared c with
      | (inl e, f) => (inl e, f)
      | (inr a, f) =>
          match drain rest f with
          | (inl e, f') => (inl e, f')
          | (inr values, f') => (inr (a :: values), f')
          end
      end
  end.

(** [await Promise.all(calls)].  In which order suspended calls go on is
    for the platform to decide; [schedule] lists its choices, turn by
    turn, each a number among the calls suspended at that time, and when
    the list is used up the remaining calls run one after the other.
    Every order the platform can choose is of this form. *)
Fixpoint event_loop {A} (schedule : list nat) (calls : list (Co A)) (shared : Frame)
    : Result (list A) * Frame :=
  match all_settled calls with
  | Some r => (r, shared)
  | None =>
      match schedule with
      | [] => drain calls shared
      | n :: later =>
          let '(calls', shared') :=
            resume_nth (n mod length (List.filter is_pending calls)) calls shared in
          event_loop later calls' shared'
      end
  end.

Definition promise_all (schedule : list nat) (batch : list NewsPortalConfig)
    : Crawler.M (list CrawlResult) :=
  fun f => let '(calls, f') := start_all batch f in event_loop schedule calls f'.

(** *** crawlAllPortals *)

(** The loop over the batches; [order n] is the schedule of the [n]-th. *)
Fixpoint batches_loop (order : nat -> list nat) (n : nat)
    (batches : list (list NewsPortalConfig)) (results : list CrawlResult)
    : Crawler.M (list CrawlResult) :=
  match batches with
  | [] => Crawler.ret results
  | batch :: rest =>
      Crawler.bind (promise_all (order n) batch) (fun batchResults =>
      Crawler.bind (Crawler.sleepM 2000) (fun _ =>
      batches_loop order (S n) rest (results ++ batchResults)))
  end.

Definition crawlAllPortals (order : nat -> list nat)
    (PORTAL_CONFIGS : list NewsPortalConfig) : Crawler.M CrawlSummary :=
  Crawler.bind Crawler.date_now (fun startTime =>
  let batches := Crawler.chunkArray PORTAL_CONFIGS Crawler.MAX_CONCURRENT_PORTALS in
  Crawler.bind (batches_loop order 0 batches []) (fun results =>
  let successfulPortals :=
    Z.of_nat (length (filter (fun r => success r = true) results)) in
  let totalArticlesFound := Crawler.sum_of articlesFound results in
  let totalNewArticles := Crawler.sum_of newArticles results in
  Crawler.bind Crawler.date_now (fun endTime =>
  Crawler.ret {| totalPortals := Z.of_nat (length PORTAL_CONFIGS);
                 successfulPortals := successfulPortals;
                 failedPortals := (Z.of_nat (length PORTAL_CONFIGS) - successfulPortals)%Z;
                 totalArticlesFound := totalArticlesFound;
                 totalNewArticles := totalNewArticles;
                 totalDurationMs := (endTime - startTime)%Z;
                 results := results |}))).

End WithPlatform.

Arguments Settled {_ A} r f.
Arguments Pending {_ A} f resume.

End Async.

(* ===================================================================== *)
(** ** Vocabulary for the fingerprint *)
(* ===================================================================== *)

Module DeduplicatorSpec.

(** The dashes that count as variants of the hyphen: EN DASH and EM DASH. *)
Definition spec_is_dash (u : N) : bool := (u =? 0x2013) || (u =? 0x2014).

Section WithPlatform.
Context `{StringApi}.

(** The normal form of a text, in the order the steps are listed:
    lowercase, every run of white space collapsed to one space, en and em
    dashes unified to a hyphen, trimmed.  Quotes are no part of it. *)
Definition spec_normalizeText (text : jsstring) : jsstring :=
  trim (replace_class spec_is_dash 45 (replace_space_runs (toLowerCase text))).

(** The normal form of a body; a missing or empty body has the empty one. *)
Definition spec_normalizeContent (content : option jsstring) : jsstring :=
  match content with
  | Some ((_ :: _) as c) => spec_normalizeText c
  | _ => []
  end.

End WithPlatform.

(** What the first punctuation replacement of [normalizeText] makes of one
    code unit. *)
Definition quote_unit (u : N) : N := if Deduplicator.is_quote u then 34 else u.

(** A title in curly quotes and the same title in straight quotes. *)
Definition curly_title : jsstring := [0x201C] ++ lit "Bank BCA" ++ [0x201D].
Definition straight_title : jsstring := [34] ++ lit "Bank BCA" ++ [34].

End DeduplicatorSpec.

(* ===================================================================== *)
(** ** Vocabulary for the retry policy *)
(* ===================================================================== *)

Module FetcherSpec.

Import Fetcher.

(** The options in force once the defaults have been applied. *)
Definition effective_retries (options : FetchOptions) : Z :=
  nullish 2%Z (retries (spread DEFAULT_FETCH_OPTIONS options)).

Definition effective_delay (options : FetchOptions) : Z :=
  nullish 1000%Z (retryDelayMs (spread DEFAULT_FETCH_OPTIONS options)).

Definition effective_timeout (options : FetchOptions) : Setting :=
  timeout (spread DEFAULT_FETCH_OPTIONS options).

(** The outcome of the [j]-th request issued from world [w] on, when it
    asks for [url]. *)
Definition outcome_at (w : World) (url : jsstring) (j : nat) : FetchOutcome :=
  network w (requests w + j)%nat url.

(** A response whose status lies in 400-499 and is not 429. *)
Definition client_error (o : FetchOutcome) : bool :=
  match o with
  | Response s _ _ => (400 <=? s) && (s <? 500) && negb (s =? 429)
  | Rejected _ _ => false
  end.

(** The failure an attempt with outcome [o] ends in, if it fails: the
    error thrown, a timeout being reported as a [TIMEOUT] error. *)
Definition failure_of (timeout : Setting) (o : FetchOutcome) : option JsError :=
  match attempt_result o with
  | inl e => Some (classify timeout e)
  | inr _ => None
  end.

(** Every failure other than a client error: timeouts, network errors,
    429, 5xx and the remaining statuses outside 200-299. *)
Definition retryable (o : FetchOutcome) : bool :=
  match attempt_result o with
  | inl _ => negb (client_error o)
  | inr _ => false
  end.

(** [k] failed attempts, numbered from [i], each followed by its wait. *)
Fixpoint backoff_waits (url : jsstring) (d : Z) (i k : nat) : list Event :=
  match k with
  | O => []
  | S k' => EvFetch url :: EvSleep (d * (Z.of_nat i + 1)) :: backoff_waits url d (S i) k'
  end.

(** The events of a call that makes [n] attempts: between attempt [a] and
    attempt [a + 1] (counting from 1) lies a wait of [d * a]. *)
Definition backoff_trace (url : jsstring) (d : Z) (n : nat) : list Event :=
  match n with
  | O => []
  | S k => backoff_waits url d 0 k ++ [EvFetch url]
  end.

Definition sleeps (t : list Event) : list Z :=
  flat_map (fun e => match e with EvSleep ms => [ms] | EvFetch _ => [] end) t.

Definition fetches (t : list Event) : list (list N) :=
  flat_map (fun e => match e with EvFetch u => [u] | EvSleep _ => [] end) t.

(** A world for examples: the clock reads a date in November 2023, timers
    and requests take no extra time, nothing has happened yet. *)
Definition quiet_world (net : nat -> jsstring -> FetchOutcome) : World :=
  {| now := 1700000000000; requests := 0; suspensions := 0;
     network := net; jitter := fun _ => 0; trace := [] |}.

Definition always (o : FetchOutcome) : nat -> jsstring -> FetchOutcome :=
  fun _ _ => o.

Definition not_found : FetchOutcome :=
  Response 404 (lit "Not Found") (BodyText []).

Definition unavailable : FetchOutcome :=
  Response 503 (lit "Service Unavailable") (BodyText []).

Definition example_url : jsstring := lit "https://example.com/read/1".

Definition zero_delay : FetchOptions :=
  {| timeout := Missing; retries := Missing; retryDelayMs := Num 0 |}.

End FetcherSpec.

(* ===================================================================== *)
(** ** Vocabulary for the rate limiter *)
(* ===================================================================== *)

Module LimiterSpec.

Import Fetcher.

(** What a caller does between and around its calls to the limiter: it
    calls [waitForDomain], or time passes while it does something else. *)
Inductive Action :=
  | Wait (domain : jsstring) (delayMs : option Z)
  | Pass (ms : N).

Definition elapse (ms : N) (w : World) : World :=
  {| now := now w + Z.of_N ms; requests := requests w;
     suspensions := suspensions w; network := network w;
     jitter := jitter w; trace := trace w |}.

(** One completed call: the domain, the delay in force, the time recorded. *)
Record Dispatch := mkDispatch {
  d_domain : jsstring;
  d_delay : Z;
  d_time : Z
}.

(** A sequence of actions, each call completing before the next action
    starts; the result lists the dispatches in the order they were recorded. *)
Fixpoint run (acts : list Action) (rl : RateLimiter) (w : World)
    : list Dispatch * (RateLimiter * World) :=
  match acts with
  | [] => ([], (rl, w))
  | Wait domain delayMs :: rest =>
      let '(rl1, w1) := waitForDomain rl domain delayMs w in
      let '(log, final) := run rest rl1 w1 in
      (mkDispatch domain (default (defaultDelayMs rl) delayMs) (now w1) :: log, final)
  | Pass ms :: rest => run rest rl (elapse ms w)
  end.

(** Consecutive dispatches of [domain] in [log] lie at least the delay of
    the later one apart; [last] is the dispatch time before the log starts. *)
Fixpoint spaced (domain : jsstring) (last : option Z) (log : list Dispatch) : Prop :=
  match log with
  | [] => True
  | x :: rest =>
      if str_eqb (d_domain x) domain
      then match last with
           | Some t => (t + d_delay x <= d_time x)%Z
           | None => True
           end /\ spaced domain (Some (d_time x)) rest
      else spaced domain last rest
  end.

(** The delays of the calls of [acts] are delays a timer can take. *)
Definition timer_delays (defaultDelay : Z) (acts : list Action) : Prop :=
  Forall (fun a => match a with
                   | Wait _ delayMs => (default defaultDelay delayMs <= TIMEOUT_MAX)%Z
                   | Pass _ => True
                   end) acts.

(** The times recorded for [domain], in the order they were recorded. *)
Definition times_of (domain : jsstring) (log : list Dispatch) : list Z :=
  map d_time (List.filter (fun x => str_eqb (d_domain x) domain) log).

End LimiterSpec.

(* ===================================================================== *)
(** ** Vocabulary for the parser *)
(* ===================================================================== *)

Module ParserSpec.

(** The host test as the specification words it: equal hosts, a leading [www.] on
    either side being ignored. *)
Definition strip_www (host : jsstring) : jsstring :=
  if startsWith host (lit "www.") then drop 4 host else host.

Definition spec_same_host (host configured : jsstring) : bool :=
  str_eqb (strip_www host) (strip_www configured).

(** [host] is the configured host or one of its subdomains, a leading
    [www.] of the configured host being ignored: the configured name with
    nothing, or with labels that end in a dot, in front of it. *)
Definition on_site (host configured : jsstring) : Prop :=
  exists labels,
    host = labels ++ strip_www configured
    /\ (labels = [] \/ exists l, labels = l ++ [46]).

(** A configured host in which [www.] stands in front or nowhere. *)
Definition www_in_front (configured : jsstring) : bool :=
  startsWith configured (lit "www.") || negb (includes configured (lit "www.")).

(** The parts of a comma-separated selector list. *)
Definition fallback_list (selector : jsstring) : list jsstring :=
  map trim (split_on 44 selector).

Definition all_of (p : N -> bool) (s : jsstring) : Prop :=
  Forall (fun u => p u = true) s.

(** A day-month-year group somewhere in a text: one or two digits, white
    space, a word, white space, four digits. *)
Definition dmy_reading (text day word year : jsstring) : Prop :=
  exists pre sp1 sp2 post,
    text = pre ++ day ++ sp1 ++ word ++ sp2 ++ year ++ post
    /\ all_of is_digit day /\ (1 <= length day <= 2)%nat
    /\ all_of is_space sp1 /\ sp1 <> []
    /\ all_of Parser.is_word word /\ word <> []
    /\ all_of is_space sp2 /\ sp2 <> []
    /\ all_of is_digit year /\ length year = 4%nat.

(** A group of the shape YYYY-MM-DD somewhere in a text. *)
Definition iso_reading (text m : jsstring) : Prop :=
  exists pre post y mo d,
    text = pre ++ m ++ post
    /\ m = y ++ [45] ++ mo ++ [45] ++ d
    /\ all_of is_digit y /\ length y = 4%nat
    /\ all_of is_digit mo /\ length mo = 2%nat
    /\ all_of is_digit d /\ length d = 2%nat.

Section WithPlatform.
Context `{StringApi} `{Dom} `{UrlApi} `{DateApi}.

(** *** Links *)

(** The URL an anchor stands for: its [href], when present and non-empty,
    passed through when it starts with [http] and resolved against the
    base URL otherwise. *)
Definition candidate (config : NewsPortalConfig) (href : option (list N))
    : option (list N) :=
  match href with
  | Some ((_ :: _) as h) =>
      if startsWith h (lit "http") then Some h else url_resolve h (baseUrl config)
  | _ => None
  end.

(** The candidates of a listing: those of the elements its link selector
    matches, in document order. *)
Definition candidates (html : jsstring) (config : NewsPortalConfig) : list (list N) :=
  omap (fun e => candidate config (attr (load html) e (lit "href")))
       (select (load html) (articleLinkSelector config)).

(** No non-document pattern occurs in the lowercased URL. *)
Definition document_like (url : jsstring) : Prop :=
  Forall (fun pattern => includes (toLowerCase url) pattern = false) Parser.skipPatterns.

(** *** Articles *)

(** The document the extraction works on: the markup without the elements
    the removal selectors match. *)
Definition stripped (html : jsstring) (config : NewsPortalConfig) : Document :=
  fold_left remove (default [] (removeSelectors config)) (load html).

(** The rendered text of the first element a selector matches. *)
Definition rendered (doc : Document) (sel : jsstring) : jsstring :=
  match select doc sel with
  | e :: _ => trim (text doc e)
  | [] => []
  end.

(** A title selector qualifies: its text is non-empty and longer than ten
    units. *)
Definition qualifies (doc : Document) (sel : jsstring) : bool :=
  truthy (rendered doc sel) && (10 <? length (rendered doc sel))%nat.

(** A content selector yields a body: it matches an element with a paragraph
    of more than twenty units, or with a text of more than fifty. *)
Definition yields_body (doc : Document) (sel : jsstring) : bool :=
  match select doc sel with
  | e :: _ =>
      existsb (fun p => (20 <? length (trim (text doc p)))%nat) (find doc e (lit "p"))
      || (50 <? length (trim (text doc e)))%nat
  | [] => false
  end.

(** *** Timestamps *)

(** A word that is a key of the table of month names. *)
Definition month_name (word : jsstring) : bool :=
  match Parser.own_month Parser.months (toLowerCase word) with
  | Some _ => true
  | None => false
  end.

(** A word that, lowercased, names a property every object inherits. *)
Definition inherited_name (word : jsstring) : bool :=
  str_eqb (toLowerCase word) (lit "constructor")
  || str_eqb (toLowerCase word) (lit "__proto__").

(** A text that cannot be read as a date: the word of none of its
    day-month-year groups is a month name (or an inherited name), and none
    of its ISO groups is a date for the platform. *)
Definition unparseable (text : jsstring) : Prop :=
  (forall day word year,
     dmy_reading text day word year ->
     month_name word = false /\ inherited_name word = false)
  /\ (forall m, iso_reading text m -> date_string_valid m = false).

(** A date selector finds no timestamp: it matches nothing, or its first
    element has no [datetime] attribute the platform can parse and a text
    that cannot be read as a date. *)
Definition dateless (doc : Document) (sel : jsstring) : Prop :=
  match select doc sel with
  | [] => True
  | e :: _ =>
      match attr doc e (lit "datetime") with
      | Some ((_ :: _) as datetime) => date_string_valid datetime = false
      | _ => True
      end
      /\ unparseable (trim (text doc e))
  end.

End WithPlatform.

End ParserSpec.

(* ===================================================================== *)
(** ** Small concrete platforms for examples *)
(* ===================================================================== *)

Module Toy.

(** A platform whose case tables cover the Basic Latin letters; the
    examples contain no other letters. *)
Definition strings : StringApi :=
  {| toLowerCase := map ascii_lower;
     toLowerCase_basic_latin := fun s _ => eq_refl |}.

(** A document is a list of nodes in document order; a node records the
    selector it matches, its text, two attributes and the texts of the
    paragraphs below it. *)
Record Node := mkNode {
  n_selector : jsstring;
  n_text : jsstring;
  n_href : option (list N);
  n_datetime : option (list N);
  n_paragraphs : list (list N)
}.

Fixpoint page_of (pages : list (list N * list Node)) (html : jsstring) : list Node :=
  match pages with
  | [] => []
  | (h, doc) :: rest => if str_eqb h html then doc else page_of rest html
  end.

Definition matches (sel : jsstring) (n : Node) : bool := str_eqb (n_selector n) sel.

(** Markup is looked up in a table of pages. *)
Definition dom (pages : list (list N * list Node)) : Dom :=
  {| Document := list Node;
     Element := Node;
     load := page_of pages;
     select := fun doc sel => List.filter (matches sel) doc;
     remove := fun doc sel => List.filter (fun n => negb (matches sel n)) doc;
     find := fun _ e sel =>
       if str_eqb sel (lit "p")
       then map (fun t => mkNode (lit "p") t None None []) (n_paragraphs e)
       else [];
     text := fun _ e => n_text e;
     attr := fun _ e a =>
       if str_eqb a (lit "href") then n_href e
       else if str_eqb a (lit "datetime") then n_datetime e
       else None |}.

(** The part of [s] after the first occurrence of [p]. *)
Fixpoint after (p : jsstring) (s : jsstring) : option (list N) :=
  if startsWith s p then Some (skipn (length p) s)
  else match s with
       | [] => None
       | _ :: r => after p r
       end.

Definition until_slash (s : jsstring) : jsstring :=
  fst (Parser.span (fun u => negb (u =? 47)) s).

(** Host names of URLs of the shape [scheme://host/path]. *)
Definition hostname (url : jsstring) : option (list N) :=
  match after (lit "://") url with
  | Some rest => Some (until_slash rest)
  | None => None
  end.

Definition origin (url : jsstring) : option (list N) :=
  match after (lit "://") url with
  | Some rest =>
      Some (take (length url - length rest) url ++ until_slash rest)
  | None => None
  end.

(** Absolute URLs stay as they are, paths from the root are put on the
    origin of the base; other references are not needed in the examples. *)
Definition resolve (href base : jsstring) : option (list N) :=
  match hostname href with
  | Some _ => Some href
  | None =>
      if startsWith href (lit "/")
      then match origin base with
           | Some o => Some (o ++ href)
           | None => None
           end
      else None
  end.

Definition urls : UrlApi :=
  {| url_resolve := resolve; url_hostname := hostname |}.

(** The platform parses a date string exactly when it is an ISO date. *)
Definition dates : DateApi :=
  {| date_string_valid := fun s =>
       match Parser.iso_pattern_here s with Some _ => true | None => false end |}.

(** A store that keeps the inserted records in a list and refuses nothing. *)
Fixpoint by_hash (rows : list NewsArticleInsert) (hash : jsstring)
    : option NewsArticleInsert :=
  match rows with
  | [] => None
  | r :: rest => if str_eqb (contentHash r) hash then Some r else by_hash rest hash
  end.

Definition database : Database :=
  {| Store := list NewsArticleInsert;
     getNewsArticleByHash := by_hash;
     insertNewsArticle := fun rows r => inr (rows ++ [r]) |}.

(** A portal whose pages are addressed by a few simple selectors. *)
Definition detik : NewsPortalConfig :=
  {| name := lit "Detik";
     baseUrl := lit "https://www.detik.com/";
     articleLinkSelector := lit "a.link";
     titleSelector := lit "h1.title, h1";
     contentSelector := lit "div.body";
     dateSelector := Some (lit "time");
     removeSelectors := Some [lit "script"];
     delayMs := Some 1500%Z |}.

Definition anchor (href : jsstring) : Node :=
  mkNode (lit "a.link") [] (Some href) None [].

Definition heading (t : jsstring) : Node :=
  mkNode (lit "h1") t None None [].

(** A listing with an article, links into a subdomain and into a foreign
    host that contains the name of the configured one, and three links
    that are not documents. *)
Definition listing : list Node :=
  [anchor (lit "/read/123");
   anchor (lit "https://finance.detik.com/read/1");
   anchor (lit "/tag/finance");
   anchor (lit "https://detik.com.example.org/read/2");
   anchor (lit "/category/x");
   anchor (lit "#top");
   anchor (lit "/read/123")].

Definition listing_dom : Dom := dom [(lit "LISTING", listing)].

(** An article page whose heading contains runs of two spaces, and a page
    without any heading. *)
Definition article_page : list Node :=
  [mkNode (lit "script") (lit "var x = 1;") None None [];
   heading (lit "Saham  BBCA  naik");
   mkNode (lit "div.body") (lit "Profit up.") None None []].

Definition bare_page : list Node :=
  [mkNode (lit "div.body") (lit "Profit up.") None None []].

(** A page whose time element reads like a date but names no month. *)
Definition odd_page : list Node :=
  [heading (lit "Saham BBCA naik lagi");
   mkNode (lit "time") (lit "3 constructor 2025") None None []].

Definition article_dom : Dom :=
  dom [(lit "LISTING", listing); (lit "ARTICLE", article_page); (lit "BARE", bare_page);
       (lit "ODD", odd_page)].

End Toy.

(* ===================================================================== *)
(** ** Vocabulary for the orchestrator *)
(* ===================================================================== *)

Module CrawlerSpec.

Import Fetcher Crawler.

(** How the processing of one link ends. *)
Inductive LinkKind :=
  | FetchFailed
  | ParseFailed
  | Duplicate
  | InsertRefused
  | Stored.

(** A successfully parsed document, duplicate or not. *)
Definition parsed (k : LinkKind) : bool :=
  match k with
  | Duplicate | InsertRefused | Stored => true
  | FetchFailed | ParseFailed => false
  end.

(** A successfully parsed, non-duplicate, persisted document. *)
Definition stored (k : LinkKind) : bool :=
  match k with Stored => true | _ => false end.

(** A link whose processing threw. *)
Definition threw (k : LinkKind) : bool :=
  match k with FetchFailed | InsertRefused => true | _ => false end.

(** What a counter gains in one step. *)
Definition bump (b : bool) : Z := if b then 1%Z else 0%Z.

Section WithPlatform.
Context `{StringApi} `{Dom} `{UrlApi} `{DateApi} `{Database}.

Definition insert_of (article : RawArticle) : NewsArticleInsert :=
  {| ins_url := Types.url article;
     ins_title := title article;
     ins_content := content article;
     ins_portal := portal article;
     ins_publishedAt := publishedAt article;
     contentHash :=
       Deduplicator.generateContentHash (title article) (content article) |}.

(** The world in which the document at [url] is fetched from frame [f]:
    the one the rate limiter leaves. *)
Definition fetch_world (config : NewsPortalConfig) (domain : jsstring) (f : Frame) : World :=
  snd (waitForDomain (limiter f) domain (delayMs config) (world f)).

(** How the link [url] fares when it is processed from frame [f]: is it
    fetched, does it parse into a document with a title, is its
    fingerprint already stored, does the store accept it. *)
Definition link_kind (config : NewsPortalConfig) (domain url : jsstring) (f : Frame)
    : LinkKind :=
  match fst (fetchWithRetry url no_options (fetch_world config domain f)) with
  | inl _ => FetchFailed
  | inr html =>
      match Parser.parseArticle html url config with
      | None => ParseFailed
      | Some article =>
          if negb (truthy (title article)) then ParseFailed
          else
            match getNewsArticleByHash (store f) (contentHash (insert_of article)) with
            | Some _ => Duplicate
            | None =>
                match insertNewsArticle (store f) (insert_of article) with
                | inl _ => InsertRefused
                | inr _ => Stored
                end
            end
      end
  end.

(** The kinds of the links of a list, each processed from the frame the
    previous ones leave. *)
Fixpoint link_kinds (config : NewsPortalConfig) (domain : jsstring)
    (urls : list (list N)) (f : Frame) : list LinkKind :=
  match urls with
  | [] => []
  | url :: rest =>
      link_kind config domain url f
      :: link_kinds config domain rest (snd (article_step config domain url f))
  end.

Definition count (p : LinkKind -> bool) (ks : list LinkKind) : Z :=
  Z.of_nat (length (List.filter p ks)).

(** The frame in which the article loop of [crawlPortal] starts, when the
    listing has been fetched, and the links it goes through. *)
Definition listing_links (config : NewsPortalConfig) (listingHtml : jsstring)
    : list (list N) :=
  Parser.parseArticleLinks listingHtml config.

Definition loop_frame (config : NewsPortalConfig) (listingHtml : jsstring) (f : Frame)
    : Frame :=
  snd ((set_articlesFound (Z.of_nat (length (listing_links config listingHtml))) ;;;
        found <- gets loc_articlesFound ;;
        emit LogInfo (lit "Found " ++ string_of_Z found ++ lit " articles on "
                      ++ name config)) f).

(** The record the processing of [url] from frame [f] adds to the store,
    if it adds one. *)
Definition link_row (config : NewsPortalConfig) (domain url : jsstring) (f : Frame)
    : option NewsArticleInsert :=
  match fst (fetchWithRetry url no_options (fetch_world config domain f)) with
  | inl _ => None
  | inr html =>
      match Parser.parseArticle html url config with
      | None => None
      | Some article =>
          if stored (link_kind config domain url f)
          then Some (insert_of article) else None
      end
  end.

(** The records the links of a list add to the store, each link processed
    from the frame the previous ones leave. *)
Fixpoint stored_rows (config : NewsPortalConfig) (domain : jsstring)
    (urls : list (list N)) (f : Frame) : list NewsArticleInsert :=
  match urls with
  | [] => []
  | url :: rest =>
      match link_row config domain url f with
      | Some row => row :: stored_rows config domain rest
                             (snd (article_step config domain url f))
      | None => stored_rows config domain rest (snd (article_step config domain url f))
      end
  end.

(** The store after the records of a list have been inserted one after
    the other, all of them accepted. *)
Fixpoint insert_all (s : Store) (rows : list NewsArticleInsert) : option Store :=
  match rows with
  | [] => Some s
  | row :: rest =>
      match insertNewsArticle s row with
      | inl _ => None
      | inr s' => insert_all s' rest
      end
  end.

(** A network on which every request for [url] is answered with a page,
    and one on which every request for it fails. *)
Definition serves (net : nat -> jsstring -> FetchOutcome) (url : jsstring) : Prop :=
  forall k, exists html, attempt_result (net k url) = inr html.

Definition refuses (net : nat -> jsstring -> FetchOutcome) (url : jsstring) : Prop :=
  forall k, exists e, attempt_result (net k url) = inl e.

(** The result of a crawl whose listing could not be fetched. *)
Definition listing_failure (config : NewsPortalConfig) (r : CrawlResult) : Prop :=
  success r = false
  /\ articlesFound r = 0%Z /\ articlesCrawled r = 0%Z /\ newArticles r = 0%Z
  /\ exists message, errors r = [lit "Portal error: " ++ message].

(** The requests of a trace: [n] requests for each URL in turn. *)
Fixpoint request_blocks (urls : list (list N)) (counts : list nat) : list (list N) :=
  match urls, counts with
  | u :: urls', n :: counts' => repeat u n ++ request_blocks urls' counts'
  | _, _ => []
  end.

End WithPlatform.

End CrawlerSpec.

(* ===================================================================== *)
(** ** Vocabulary for crawls that run together *)
(* ===================================================================== *)

Module AsyncSpec.

Import Fetcher Crawler CrawlerSpec.

Section WithPlatform.
Context `{StringApi} `{Dom} `{UrlApi} `{DateApi} `{Database}.

(** While a call is suspended the other calls change the shared state.
    Whatever they do, they leave the network as it is, and the local
    variables of a call are out of their reach. *)
Definition same_network (f f' : Frame) : Prop :=
  network (world f') = network (world f).

Definition same_locals (f f' : Frame) : Prop :=
  loc_errors f' = loc_errors f
  /\ loc_articlesFound f' = loc_articlesFound f
  /\ loc_articlesCrawled f' = loc_articlesCrawled f
  /\ loc_newArticles f' = loc_newArticles f.

(** A property of frames that the other calls cannot invalidate. *)
Definition stable (P : Frame -> Prop) : Prop :=
  forall f f', P f -> same_locals f f' -> same_network f f' -> P f'.

(** A call ends well: in whatever frames it is resumed, as long as its
    local variables and the network are what they were when it stopped,
    it leaves the network alone and settles with [Q]. *)
Inductive safe {A} (Q : Result A -> Frame -> Prop) : Async.Co A -> Prop :=
  | safe_settled r f : Q r f -> safe Q (Async.Settled r f)
  | safe_pending f resume :
      (forall f', same_locals f f' -> same_network f f' ->
                  same_network f' (Async.frame_of (resume f'))) ->
      (forall f', same_locals f f' -> same_network f f' -> safe Q (resume f')) ->
      safe Q (Async.Pending f resume).

(** Called in a frame with [P], the function leaves the network alone up
    to its first [await] and ends well. *)
Definition triple {A} (P : Frame -> Prop) (m : Async.Async A)
    (Q : Result A -> Frame -> Prop) : Prop :=
  forall f, P f -> same_network f (Async.frame_of (m f)) /\ safe Q (m f).

(** A property of the local variables of a call, and the frames of a run
    on the network [net] in which it holds. *)
Definition local (L : Frame -> Prop) : Prop :=
  forall f f', same_locals f f' -> L f -> L f'.

Definition on_network (net : nat -> jsstring -> FetchOutcome) (L : Frame -> Prop)
    (f : Frame) : Prop :=
  network (world f) = net /\ L f.

(** The local variables as [crawlPortal] declares them. *)
Definition initial_locals (f : Frame) : Prop :=
  loc_errors f = [] /\ loc_articlesFound f = 0%Z
  /\ loc_articlesCrawled f = 0%Z /\ loc_newArticles f = 0%Z.

(** The outcome of [fetchWithRetry(url)] on the network [net]: the page
    one of the requests was answered with, or an error after one of the
    requests has failed. *)
Definition fetched (net : nat -> jsstring -> FetchOutcome) (url : jsstring)
    (r : Result (list N)) : Prop :=
  match r with
  | inr html => exists k, attempt_result (net k url) = inr html
  | inl _ => exists k e, attempt_result (net k url) = inl e
  end.

(** What the result of a crawl of [config] is like on the network [net],
    whatever the other crawls do meanwhile.  It names the portal.  It
    reports success, and then the number of links of a listing page the
    network has answered a request with; or it reports the failure of the
    listing, and then a request for the listing has failed.  So the crawl
    succeeds when every request for its listing is answered with a page,
    and fails in the way described when none is. *)
Definition crawled (net : nat -> jsstring -> FetchOutcome)
    (config : NewsPortalConfig) (r : CrawlResult) : Prop :=
  r_portal r = name config
  /\ ((success r = true
       /\ exists k listingHtml,
            attempt_result (net k (baseUrl config)) = inr listingHtml
            /\ articlesFound r
               = Z.of_nat (length (Parser.parseArticleLinks listingHtml config)))
      \/ (listing_failure config r
          /\ exists k e, attempt_result (net k (baseUrl config)) = inl e))
  /\ (serves net (baseUrl config) -> success r = true)
  /\ (refuses net (baseUrl config) -> listing_failure config r).

End WithPlatform.

End AsyncSpec.

(* ===================================================================== *)
(** ** A small site for examples *)
(* ===================================================================== *)

Module Site.

Import Fetcher FetcherSpec Crawler.

Fixpoint anchors_from (k n : nat) : list Toy.Node :=
  match n with
  | O => []
  | S n' => Toy.anchor (lit "/read/" ++ string_of_N (N.of_nat k)) :: anchors_from (S k) n'
  end.

(** The pages of the site: a listing with one link, a listing with
    seventeen links, a listing without links, an article with a heading
    and an article without one. *)
Definition pages : list (list N * list Toy.Node) :=
  [(lit "ONE", [Toy.anchor (lit "/read/123")]);
   (lit "MANY", anchors_from 1 17);
   (lit "NINE", [Toy.anchor (lit "/read/9")]);
   (lit "EMPTY", []);
   (lit "ARTICLE", Toy.article_page);
   (lit "BARE", Toy.bare_page)].

Definition dom : Dom := Toy.dom pages.

Definition ok (body : jsstring) : FetchOutcome :=
  Response 200 (lit "OK") (BodyText body).

(** A network that serves the listing [listing] at the base URL and the
    page [article] at the address of the first article, and answers 404
    everywhere else. *)
Definition serving (listing article : jsstring) : nat -> jsstring -> FetchOutcome :=
  fun _ url =>
    if str_eqb url (lit "https://www.detik.com/") then ok listing
    else if str_eqb url (lit "https://www.detik.com/read/123") then ok article
    else not_found.

(** The frame of a fresh process: nothing stored, nothing logged, the
    global rate limiter without entries. *)
Definition fresh (net : nat -> jsstring -> FetchOutcome) : @Frame Toy.database :=
  @mkFrame Toy.database (quiet_world net) rateLimiter [] [] [] 0%Z 0%Z 0%Z.

(** A second portal, and a network on which the first portal is gone
    while the second serves a listing with one article. *)
Definition kontan : NewsPortalConfig :=
  {| name := lit "Kontan";
     baseUrl := lit "https://www.kontan.co.id/";
     articleLinkSelector := lit "a.link";
     titleSelector := lit "h1";
     contentSelector := lit "div.body";
     dateSelector := None;
     removeSelectors := None;
     delayMs := None |}.

Definition second_only : nat -> jsstring -> FetchOutcome :=
  fun _ url =>
    if str_eqb url (lit "https://www.kontan.co.id/") then ok (lit "NINE")
    else if str_eqb url (lit "https://www.kontan.co.id/read/9") then ok (lit "ARTICLE")
    else not_found.

Definition url123 : list N := lit "https://www.detik.com/read/123".
Definition host : list N := lit "www.detik.com".

Definition crawl (net : nat -> jsstring -> FetchOutcome)
    : Result CrawlResult * @Frame Toy.database :=
  @crawlPortal Toy.strings dom Toy.urls Toy.dates Toy.database Toy.detik (fresh net).

End Site.

(* ===================================================================== *)
(** ** deduplicator.ts: URL fingerprints and title signatures *)
(* ===================================================================== *)

(** The part of the WHATWG URL class [normalizeUrl] calls: a parsed URL,
    whose query parameters can be deleted and which can be serialised.
    [None] stands for the [TypeError] the constructor throws. *)
Class UrlObjects := {
  URL : Type;
  (** [new URL(url)] *)
  url_parse : jsstring -> option URL;
  (** [parsed.searchParams.delete(param)] *)
  searchParams_delete : URL -> jsstring -> URL;
  (** [parsed.toString()] *)
  url_toString : URL -> jsstring
}.

Module UrlDeduplicator.

Fixpoint drop_slashes (s : jsstring) : jsstring :=
  match s with
  | [] => []
  | u :: r => if u =? 47 then drop_slashes r else s
  end.

(** [s.replace(/\/+$/, empty)]: the leftmost position from which only
    slashes follow up to the end is the start of the last run of slashes,
    so the replacement removes all trailing slashes. *)
Definition strip_trailing_slashes (s : jsstring) : jsstring :=
  rev (drop_slashes (rev s)).

Definition trackingParams : list (list N) :=
  [lit "utm_source"; lit "utm_medium"; lit "utm_campaign"; lit "ref"; lit "source"].

Section WithPlatform.
Context `{StringApi} `{UrlObjects}.

Definition normalizeUrl (url : jsstring) : jsstring :=
  match url_parse url with
  | Some parsed =>
      let parsed := fold_left searchParams_delete trackingParams parsed in
      let normalized := toLowerCase (url_toString parsed) in
      strip_trailing_slashes normalized
  | None => strip_trailing_slashes (toLowerCase url)
  end.

Definition generateUrlHash (url : jsstring) : jsstring :=
  let normalizedUrl := normalizeUrl url in
  Sha256.hex_digest (utf8 normalizedUrl).

(** [extractSignatures]: the first five words of the normalised title
    that are longer than three units, joined by single spaces. *)
Definition extractSignatures (title : jsstring) : list (list N) :=
  let normalized := Deduplicator.normalizeText title in
  let words := List.filter (fun w => (3 <? length w)%nat) (split_on 32 normalized) in
  let signature := join (lit " ") (take 5 words) in
  [signature].

End WithPlatform.

End UrlDeduplicator.

(* ===================================================================== *)
(** ** Vocabulary for the shapes of strings *)
(* ===================================================================== *)

Module Shapes.

(** A digit of a lowercase hexadecimal numeral. *)
Definition is_hex_digit (u : N) : bool :=
  is_digit u || ((97 <=? u) && (u <=? 102)).

(** [s.endsWith(u)] for one unit. *)
Definition ends_with (u : N) (s : jsstring) : bool :=
  match last s with
  | Some v => v =? u
  | None => false
  end.

(** A text made of white space only; the empty text is one. *)
Definition blank (s : jsstring) : Prop := Forall (fun u => is_space u = true) s.

(** A text in which white space occurs only as single spaces inside it. *)
Definition single_spaced (s : jsstring) : Prop :=
  replace_space_runs s = s /\ trim s = s.

End Shapes.

(* ===================================================================== *)
(** ** A small URL class for examples *)
(* ===================================================================== *)

Module ToyUrl.

(** A URL is kept as the text before its query and the list of its query
    parameters; a string is accepted when it has a scheme and a host. *)
Record Url := mkUrl {
  u_front : jsstring;
  u_query : list (list N * list N)
}.

Definition param_of (s : jsstring) : list N * list N :=
  let '(k, v) := Parser.span (fun u => negb (u =? 61)) s in (k, skipn 1 v).

Definition parse (url : jsstring) : option Url :=
  match Toy.hostname url with
  | None => None
  | Some _ =>
      let '(front, rest) := Parser.span (fun u => negb (u =? 63)) url in
      Some (mkUrl front
              (match rest with
               | [] => []
               | _ :: q => map param_of (split_on 38 q)
               end))
  end.

Definition delete (u : Url) (name : jsstring) : Url :=
  mkUrl (u_front u) (List.filter (fun p => negb (str_eqb (fst p) name)) (u_query u)).

Definition render (u : Url) : jsstring :=
  match u_query u with
  | [] => u_front u
  | q => u_front u ++ lit "?"
         ++ join (lit "&") (map (fun p => fst p ++ lit "=" ++ snd p) q)
  end.

Definition objects : UrlObjects :=
  {| URL := Url; url_parse := parse; searchParams_delete := delete;
     url_toString := render |}.

End ToyUrl.

(* ===================================================================== *)
(** ** Vocabulary for the limiter's entries *)
(* ===================================================================== *)

Module LimiterView.

Import Fetcher.

(** No entry of the limiter lies after the present reading of the clock:
    this holds for a new limiter and is kept by every call. *)
Definition no_future_entries (rl : RateLimiter) (w : World) : Prop :=
  forall (domain : jsstring) (t : Z),
    lastRequestTime rl !! domain = Some t -> (t <= now w)%Z.

(** A server that never answers in time: every request is aborted. *)
Definition aborted : FetchOutcome :=
  Rejected (lit "AbortError") (lit "The operation was aborted.").

Definition no_retries : FetchOptions :=
  {| timeout := Missing; retries := Num (-1)%Z; retryDelayMs := Missing |}.

End LimiterView.

(* ===================================================================== *)
(** ** Vocabulary and examples for the parser *)
(* ===================================================================== *)

Module ParserView.

(** The ten digits, and all strings of [k] digits. *)
Definition digits : list N := map N.of_nat (seq 48 10).

Fixpoint digit_strings (k : nat) : list (list N) :=
  match k with
  | O => [[]]
  | S k' => flat_map (fun d => map (cons d) (digit_strings k')) digits
  end.

(** The first unit of [s], if there is one, is not in the class [p]. *)
Definition stops (p : N -> bool) (s : jsstring) : Prop :=
  match s with
  | [] => True
  | u :: _ => p u = false
  end.

(** An article page whose body has two long paragraphs and a short one. *)
Definition story_page : list Toy.Node :=
  [Toy.heading (lit "Saham BBCA naik tajam");
   Toy.mkNode (lit "div.body") (lit "Harga saham naik.") None None
     [lit "Harga saham naik  dua persen hari ini."; lit "Singkat.";
      lit "Investor asing mencatat beli bersih."]].

Definition story_dom : Dom := Toy.dom [(lit "STORY", story_page)].

End ParserView.

(* ===================================================================== *)
(** ** Vocabulary for the messages of a crawl *)
(* ===================================================================== *)

Module CrawlerView.

Import Fetcher Crawler.

(** The entry [crawlPortal] records for a link whose processing threw. *)
Definition article_error (url : jsstring) (e : JsError) : jsstring :=
  lit "Article error (" ++ url ++ lit "): " ++ err_message e.

(** The three entries a crawl that fetched its listing sends to the log. *)
Definition success_log (config : NewsPortalConfig) (found new : Z)
    : list (LogLevel * list N) :=
  [(LogInfo, lit "Crawling " ++ name config ++ lit "...");
   (LogInfo, lit "Found " ++ string_of_Z found ++ lit " articles on " ++ name config);
   (LogSuccess, name config ++ lit ": " ++ string_of_Z new ++ lit " new articles saved")].

(** The two entries of a crawl whose listing could not be fetched. *)
Definition failure_log (config : NewsPortalConfig) (e : JsError)
    : list (LogLevel * list N) :=
  [(LogInfo, lit "Crawling " ++ name config ++ lit "...");
   (LogError, name config ++ lit ": " ++ err_message e)].

(** A site whose pages are all gone. *)
Definition gone : nat -> jsstring -> FetchOutcome := FetcherSpec.always FetcherSpec.not_found.

End CrawlerView.

(* ===================================================================== *)
(** ** Computations over a state that may throw *)
(* ===================================================================== *)

Module StateExn.

Import Fetcher.

Section Over.
Variable S : Type.

Definition M (A : Type) : Type := S -> Result A * S.

Definition ret {A} (a : A) : M A := fun s => (inr a, s).

Definition bind {A B} (m : M A) (k : A -> M B) : M B :=
  fun s => match m s with
           | (inl e, s') => (inl e, s')
           | (inr a, s') => k a s'
           end.

(** [try { m } catch (e) { handler(e) }] *)
Definition try_catch {A} (m : M A) (handler : JsError -> M A) : M A :=
  fun s => match m s with
           | (inl e, s') => handler e s'
           | (inr a, s') => (inr a, s')
           end.

Definition modify (g : S -> S) : M unit := fun s => (inr tt, g s).

Definition gets {A} (g : S -> A) : M A := fun s => (inr (g s), s).

End Over.

Arguments ret {S A} a _.
Arguments bind {S A B} m k _.
Arguments try_catch {S A} m handler _.
Arguments modify {S} g _.
Arguments gets {S A} g _.

Notation "x <- m ;; k" := (bind m (fun x => k))
  (at level 100, m at next level, right associativity).
Notation "m ;;; k" := (bind m (fun _ => k))
  (at level 100, right associativity).

End StateExn.

(* ===================================================================== *)
(** ** log-emitter.ts *)
(* ===================================================================== *)

Module LogEmitter.

Import Fetcher StateExn.

Inductive LogLevel := LevelInfo | LevelSuccess | LevelWarning | LevelError | LevelStep.

(** The string a level is in the source. *)
Definition level_name (l : LogLevel) : jsstring :=
  match l with
  | LevelInfo => lit "info"
  | LevelSuccess => lit "success"
  | LevelWarning => lit "warning"
  | LevelError => lit "error"
  | LevelStep => lit "step"
  end.

Record LogEntry := mkEntry {
  timestamp : jsstring;
  level : LogLevel;
  message : jsstring;
  entry_step : option Z;
  totalSteps : option Z
}.

(** A listener is a function object; the emitter tells listeners apart by
    identity only. *)
Definition Listener := nat.

(** The emitter (the set of listeners in the order they were added, the
    job and the entries) and what surrounds it: the readings of the
    clock, the console, and the listeners' code.  [throws s l entry] tells
    whether calling listener [l] with [entry] in state [s] throws; [calls]
    records the calls made.  Listeners do not call back into the emitter
    and leave the entries they are given as they are. *)
Record State := mkState {
  listeners : list Listener;
  currentJobId : option Z;
  logs : list LogEntry;
  stamps : nat -> jsstring;
  readings : nat;
  console : list jsstring;
  throws : Listener -> list (Listener * LogEntry) -> LogEntry -> option JsError;
  calls : list (Listener * LogEntry)
}.

Definition M (A : Type) : Type := StateExn.M State A.

(** [for (const x of xs) body] *)
Fixpoint for_of {A} (xs : list A) (body : A -> M unit) : M unit :=
  match xs with
  | [] => ret tt
  | x :: rest => body x ;;; for_of rest body
  end.

Definition set_listeners (ls : list Listener) (s : State) : State :=
  mkState ls (currentJobId s) (logs s) (stamps s) (readings s) (console s)
          (throws s) (calls s).

Definition set_currentJobId (j : option Z) (s : State) : State :=
  mkState (listeners s) j (logs s) (stamps s) (readings s) (console s)
          (throws s) (calls s).

Definition set_logs (l : list LogEntry) (s : State) : State :=
  mkState (listeners s) (currentJobId s) l (stamps s) (readings s) (console s)
          (throws s) (calls s).

(** [listener(entry)] *)
Definition call (listener : Listener) (entry : LogEntry) : M unit :=
  fun s =>
    (match throws s listener (calls s) entry with
     | Some e => inl e
     | None => inr tt
     end,
     mkState (listeners s) (currentJobId s) (logs s) (stamps s) (readings s)
             (console s) (throws s) (calls s ++ [(listener, entry)])).

(** [new Date().toISOString()] *)
Definition now_iso : M (list N) :=
  fun s =>
    (inr (stamps s (readings s)),
     mkState (listeners s) (currentJobId s) (logs s) (stamps s) (S (readings s))
             (console s) (throws s) (calls s)).

(** [console.log(line)] *)
Definition console_log (line : jsstring) : M unit :=
  modify (fun s =>
    mkState (listeners s) (currentJobId s) (logs s) (stamps s) (readings s)
            (console s ++ [line]) (throws s) (calls s)).

Definition has (listener : Listener) (ls : list Listener) : bool :=
  existsb (Nat.eqb listener) ls.

(** [set.add(listener)] *)
Definition set_add (listener : Listener) (ls : list Listener) : list Listener :=
  if has listener ls then ls else ls ++ [listener].

(** [set.delete(listener)] *)
Definition set_delete (listener : Listener) (ls : list Listener) : list Listener :=
  List.filter (fun x => negb (Nat.eqb listener x)) ls.

(** [toUpperCase] on Basic Latin letters; the names of the levels have no
    others. *)
Definition upper_unit (u : N) : N :=
  if (97 <=? u) && (u <=? 122) then u - 32 else u.

Definition toUpperCase (s : jsstring) : jsstring := map upper_unit s.

(** An optional parameter read into a template literal. *)
Definition render_optional (x : option Z) : jsstring :=
  match x with Some n => string_of_Z n | None => lit "undefined" end.

Definition prefix_of (level : LogLevel) (step totalSteps : option Z) : jsstring :=
  match level with
  | LevelStep =>
      lit "[" ++ render_optional step ++ lit "/" ++ render_optional totalSteps ++ lit "]"
  | _ => lit "[" ++ toUpperCase (level_name level) ++ lit "]"
  end.

Definition emit (level : LogLevel) (message : jsstring) (step totalSteps : option Z)
    : M unit :=
  stamp <- now_iso ;;
  let entry := {| timestamp := stamp; level := level; message := message;
                  entry_step := step; totalSteps := totalSteps |} in
  modify (fun s => set_logs (logs s ++ [entry]) s) ;;;
  let prefix := prefix_of level step totalSteps in
  console_log (prefix ++ lit " " ++ message) ;;;
  targets <- gets listeners ;;
  for_of targets (fun listener =>
    try_catch (call listener entry) (fun _ => ret tt)).

(** [subscribe(listener)]; the function it returns is [unsubscribe]. *)
Definition subscribe (listener : Listener) : M unit :=
  modify (fun s => set_listeners (set_add listener (listeners s)) s) ;;;
  existing <- gets logs ;;
  for_of existing (fun log => call listener log).

Definition unsubscribe (listener : Listener) : M bool :=
  fun s => (inr (has listener (listeners s)),
            set_listeners (set_delete listener (listeners s)) s).

Definition startJob (jobId : Z) : M unit :=
  modify (set_currentJobId (Some jobId)) ;;;
  modify (set_logs []) ;;;
  emit LevelInfo (lit "Starting job " ++ string_of_Z jobId ++ lit "...") None None.

Definition endJob (success : bool) : M unit :=
  (if success
   then emit LevelSuccess (lit "Job completed successfully!") None None
   else emit LevelError (lit "Job failed.") None None) ;;;
  modify (set_currentJobId None).

Definition step (stepNumber totalSteps : Z) (message : jsstring) : M unit :=
  emit LevelStep message (Some stepNumber) (Some totalSteps).

Definition info (message : jsstring) : M unit := emit LevelInfo message None None.
Definition success (message : jsstring) : M unit := emit LevelSuccess message None None.
Definition warn (message : jsstring) : M unit := emit LevelWarning message None None.
Definition error (message : jsstring) : M unit := emit LevelError message None None.

Definition isRunning (s : State) : bool :=
  match currentJobId s with Some _ => true | None => false end.

Definition getJobId (s : State) : option Z := currentJobId s.

(** The global singleton: [new LogEmitter()]. *)
Definition logEmitter (stamps : nat -> jsstring)
    (throws : Listener -> list (Listener * LogEntry) -> LogEntry -> option JsError)
    : State :=
  mkState [] None [] stamps 0 [] throws [].

End LogEmitter.

(* ===================================================================== *)
(** ** Vocabulary for the log emitter *)
(* ===================================================================== *)

Module LogEmitterView.

Import Fetcher LogEmitter.

(** What a client of the emitter can do. *)
Inductive Op :=
  | OpInfo (message : jsstring)
  | OpSuccess (message : jsstring)
  | OpWarn (message : jsstring)
  | OpError (message : jsstring)
  | OpStep (stepNumber totalSteps : Z) (message : jsstring)
  | OpStartJob (jobId : Z)
  | OpEndJob (success : bool)
  | OpSubscribe (listener : Listener)
  | OpUnsubscribe (listener : Listener).

(** The state after one operation; an operation that throws leaves the
    state it had reached. *)
Definition perform (op : Op) (s : State) : State :=
  match op with
  | OpInfo m => snd (info m s)
  | OpSuccess m => snd (LogEmitter.success m s)
  | OpWarn m => snd (warn m s)
  | OpError m => snd (LogEmitter.error m s)
  | OpStep n t m => snd (step n t m s)
  | OpStartJob j => snd (startJob j s)
  | OpEndJob b => snd (endJob b s)
  | OpSubscribe l => snd (subscribe l s)
  | OpUnsubscribe l => snd (unsubscribe l s)
  end.

Definition run (ops : list Op) (s : State) : State := fold_left (fun s op => perform op s) ops s.

(** The entries listener [l] has been called with, in order. *)
Definition received_of (l : Listener) (cs : list (Listener * LogEntry)) : list LogEntry :=
  map snd (List.filter (fun c => Nat.eqb l (fst c)) cs).

Definition received (l : Listener) (s : State) : list LogEntry :=
  received_of l (calls s).

Definition unsubscribes (l : Listener) (op : Op) : bool :=
  match op with OpUnsubscribe l' => Nat.eqb l l' | _ => false end.

Definition subscribes (l : Listener) (op : Op) : bool :=
  match op with OpSubscribe l' => Nat.eqb l l' | _ => false end.

Definition starts_job (op : Op) : bool :=
  match op with OpStartJob _ => true | _ => false end.

Definition ends_job (op : Op) : bool :=
  match op with OpEndJob _ => true | _ => false end.

(** The message an operation adds to the log, if it adds one. *)
Definition message_of (op : Op) : list (list N) :=
  match op with
  | OpInfo m | OpSuccess m | OpWarn m | OpError m | OpStep _ _ m => [m]
  | OpStartJob j => [lit "Starting job " ++ string_of_Z j ++ lit "..."]
  | OpEndJob true => [lit "Job completed successfully!"]
  | OpEndJob false => [lit "Job failed."]
  | OpSubscribe _ | OpUnsubscribe _ => []
  end.

(** Readings of the clock for examples: the number of the reading. *)
Definition numbered : nat -> jsstring := fun k => string_of_N (N.of_nat k).

(** Listener 1 throws on every call, the others never do. *)
Definition first_throws : Listener -> list (Listener * LogEntry) -> LogEntry -> option JsError :=
  fun l _ _ =>
    if Nat.eqb l 1 then Some (platform_error (lit "TypeError") (lit "stream closed"))
    else None.

Definition quiet : State := logEmitter numbered first_throws.

End LogEmitterView.

(* ===================================================================== *)
(** ** The portal test helper *)
(* ===================================================================== *)

Module PortalTest.

Import Fetcher StateExn.

Record PortalTestResult := mkTestResult {
  t_portal : jsstring;
  listingAccessible : bool;
  t_articlesFound : Z;
  articleParseable : bool;
  sampleTitle : option (list N);
  t_error : option (list N)
}.

(** The options both fetches of the helper pass. *)
Definition test_options : FetchOptions :=
  {| timeout := Num 15000%Z; retries := Num 1%Z; retryDelayMs := Missing |}.

(** The five markers of a page that says it was not found; two of them
    contain straight double quotes (unit 34). *)
Definition is404Page (articleHtml : jsstring) : bool :=
  includes articleHtml (lit "p404__")
  || includes articleHtml (lit "class=" ++ [34] ++ lit "not-found" ++ [34])
  || includes articleHtml (lit "id=" ++ [34] ++ lit "not-found" ++ [34])
  || includes articleHtml (lit "<title>404")
  || includes articleHtml (lit "Halaman tidak ditemukan").

Section WithPlatform.
Context `{StringApi} `{Dom} `{UrlApi} `{DateApi}.

(** The state of a test: the world and the [result] object. *)
Record TestFrame := mkTestFrame {
  t_world : World;
  result : PortalTestResult
}.

Definition set_result (g : PortalTestResult -> PortalTestResult) : M TestFrame unit :=
  modify (fun f => mkTestFrame (t_world f) (g (result f))).

(** [await fetchWithRetry(url, { timeout: 15000, retries: 1 })] *)
Definition fetchM (url : jsstring) : M TestFrame (list N) :=
  fun f =>
    let '(r, w) := fetchWithRetry url test_options (t_world f) in
    (r, mkTestFrame w (result f)).

(** The [try] block of one iteration; the value tells whether the loop
    is left by [break]. *)
Definition link_try (config : NewsPortalConfig) (link : jsstring) : M TestFrame bool :=
  articleHtml <- fetchM link ;;
  if is404Page articleHtml then ret false
  else
    match Parser.parseArticle articleHtml link config with
    | Some article =>
        if truthy (title article) then
          set_result (fun r =>
            mkTestResult (t_portal r) (listingAccessible r) (t_articlesFound r)
                         true (Some (slice0 80 (title article))) (t_error r)) ;;;
          ret true
        else ret false
    | None => ret false
    end.

(** [for (const link of linksToTry) { try { ... } catch { continue; } }] *)
Fixpoint try_links (config : NewsPortalConfig) (linksToTry : list (list N))
    : M TestFrame unit :=
  match linksToTry with
  | [] => ret tt
  | link :: rest =>
      left_by_break <- try_catch (link_try config link) (fun _ => ret false) ;;
      if left_by_break then ret tt else try_links config rest
  end.

(** The outer [try] block; it returns early when no link was found. *)
Definition portal_try (config : NewsPortalConfig) : M TestFrame unit :=
  listingHtml <- fetchM (baseUrl config) ;;
  set_result (fun r =>
    mkTestResult (t_portal r) true (t_articlesFound r) (articleParseable r)
                 (sampleTitle r) (t_error r)) ;;;
  let links := Parser.parseArticleLinks listingHtml config in
  set_result (fun r =>
    mkTestResult (t_portal r) (listingAccessible r) (Z.of_nat (length links))
                 (articleParseable r) (sampleTitle r) (t_error r)) ;;;
  if (length links =? 0)%nat then
    set_result (fun r =>
      mkTestResult (t_portal r) (listingAccessible r) (t_articlesFound r)
                   (articleParseable r) (sampleTitle r)
                   (Some (lit "No article links found with current selector")))
  else
    let linksToTry := take 3 links in
    try_links config linksToTry ;;;
    parseable <- gets (fun f => articleParseable (result f)) ;;
    if negb parseable then
      set_result (fun r =>
        mkTestResult (t_portal r) (listingAccessible r) (t_articlesFound r)
                     (articleParseable r) (sampleTitle r)
                     (Some (lit "All tested articles failed title extraction")))
    else ret tt.

Definition testPortal (config : NewsPortalConfig) (w : World)
    : Result PortalTestResult * World :=
  let start :=
    mkTestFrame w (mkTestResult (name config) false 0%Z false None None) in
  let '(r, f) :=
    (try_catch (portal_try config)
       (fun err =>
          set_result (fun r =>
            mkTestResult (t_portal r) (listingAccessible r) (t_articlesFound r)
                         (articleParseable r) (sampleTitle r) (Some (err_message err)))) ;;;
     gets result) start in
  (r, t_world f).

End WithPlatform.

End PortalTest.

(* ===================================================================== *)
(** ** Vocabulary for the portal test helper *)
(* ===================================================================== *)

Module PortalTestView.

Import PortalTest.

(** A result that holds a sample title: it is marked parseable, and the
    sample is a non-empty text of at most eighty units. *)
Definition sampled (r : PortalTestResult) : Prop :=
  articleParseable r = true
  /\ exists t, sampleTitle r = Some t /\ truthy t = true /\ (length t <= 80)%nat.

(** Two results that agree on what the listing phase wrote. *)
Definition same_listing (r r' : PortalTestResult) : Prop :=
  t_portal r' = t_portal r /\ listingAccessible r' = listingAccessible r
  /\ t_articlesFound r' = t_articlesFound r /\ t_error r' = t_error r.

End PortalTestView.

(* ===================================================================== *)
(** * Properties *)
(* ===================================================================== *)

(** ** Strings *)

Module JSFacts.

Lemma units_of_uint_digits (d : Decimal.uint) :
  Forall (fun u => is_digit u = true) (units_of_uint d).
Proof. induction d; simpl; constructor; auto. Qed.

Lemma uint_of_units_of_uint (d : Decimal.uint) :
  uint_of_units (units_of_uint d) = d.
Proof. induction d; simpl; try rewrite IHd; reflexivity. Qed.

Lemma units_of_uint_nonnil (d : Decimal.uint) :
  d <> Decimal.Nil -> units_of_uint d <> [].
Proof. destruct d; simpl; congruence. Qed.

Lemma string_of_N_nonempty (n : N) : string_of_N n <> [].
Proof.
  unfold string_of_N. apply units_of_uint_nonnil.
  destruct n as [|p]; simpl; [discriminate|].
  apply DecimalPos.Unsigned.to_uint_nonnil.
Qed.

(** Reading back a rendered number gives the number. *)
Lemma parseInt10_string_of_N (n : N) : parseInt10 (string_of_N n) = n.
Proof.
  unfold parseInt10, string_of_N.
  rewrite uint_of_units_of_uint. apply DecimalN.Unsigned.of_to.
Qed.

Lemma str_eqb_eq (a b : list N) : str_eqb a b = true <-> a = b.
Proof.
  revert b; induction a as [|x a IH]; intros [|y b]; simpl; try (split; congruence).
  unfold unit_eqb. rewrite andb_true_iff, N.eqb_eq, IH. split.
  - intros [-> ->]; reflexivity.
  - intros [= -> ->]; auto.
Qed.

Lemma str_eqb_refl (a : list N) : str_eqb a a = true.
Proof. apply str_eqb_eq; reflexivity. Qed.

End JSFacts.

(** ** White space *)

Module WhiteSpaceFacts.

(** Decides the comparisons of a goal about one code unit whose range is
    known from the hypotheses. *)
Ltac unit_cases :=
  repeat match goal with
         | |- context [N.leb ?a ?b] => destruct (N.leb_spec a b); try lia
         | |- context [N.eqb ?a ?b] => destruct (N.eqb_spec a b); try lia
         end;
  cbv [andb orb negb]; try reflexivity; try lia.

Lemma is_space_low (u : N) : 33 <= u < 160 -> is_space u = false.
Proof. intros Hu. unfold is_space. unit_cases. Qed.

Lemma trimStart_head (s : list N) :
  match trimStart s with [] => True | u :: _ => is_space u = false end.
Proof.
  induction s as [|u r IH]; cbn [trimStart]; [exact I|].
  destruct (is_space u) eqn:E; [exact IH | exact E].
Qed.

Lemma trimStart_snoc (l : list N) (u : N) :
  is_space u = false -> exists l', trimStart (l ++ [u]) = l' ++ [u].
Proof.
  intros Hu. induction l as [|x l IH]; cbn [app trimStart].
  - rewrite Hu. exists []. reflexivity.
  - destruct (is_space x); [exact IH|]. exists (x :: l). reflexivity.
Qed.

Lemma trimEnd_cons (u : N) (r : list N) :
  is_space u = false -> exists r', trimEnd (u :: r) = u :: r'.
Proof.
  intros Hu. unfold trimEnd. cbn [rev].
  destruct (trimStart_snoc (rev r) u Hu) as [l' ->].
  rewrite rev_app_distr. cbn. eauto.
Qed.

(** A trimmed string is empty or starts with a unit that is not white space. *)
Lemma trim_head (s : list N) :
  match trim s with [] => True | u :: _ => is_space u = false end.
Proof.
  unfold trim. pose proof (trimStart_head s) as Hs.
  destruct (trimStart s) as [|u r]; [exact I|].
  destruct (trimEnd_cons u r Hs) as [r' ->]. exact Hs.
Qed.

Lemma trim_cons (u : N) (r : list N) :
  is_space u = false -> exists r', trim (u :: r) = u :: r'.
Proof.
  intros Hu. unfold trim. cbn [trimStart]. rewrite Hu. apply trimEnd_cons, Hu.
Qed.

Lemma trimStart_map (h : N -> N) (x : list N) :
  (forall u, is_space (h u) = is_space u) ->
  trimStart (map h x) = map h (trimStart x).
Proof.
  intros Hs. induction x as [|u r IH]; cbn [map trimStart]; [reflexivity|].
  rewrite Hs. destruct (is_space u); [exact IH | reflexivity].
Qed.

(** Trimming commutes with a unit map that keeps white space apart. *)
Lemma trim_map (h : N -> N) (x : list N) :
  (forall u, is_space (h u) = is_space u) ->
  trim (map h x) = map h (trim x).
Proof.
  intros Hs. unfold trim, trimEnd.
  rewrite trimStart_map, <- map_rev, trimStart_map, map_rev by exact Hs.
  reflexivity.
Qed.

(** What is left of white space after collapsing: single spaces. *)
Lemma collapse_spaces (s : list N) : forall b,
  Forall (fun u => is_space u = true -> u = 32) (collapse_from b s).
Proof.
  induction s as [|u r IH]; intros b; cbn [collapse_from]; [constructor|].
  destruct (is_space u) eqn:E, b; try apply IH; constructor; try apply IH;
    try reflexivity; intros E'; congruence.
Qed.

Lemma replace_blank_lines_none (x : list N) :
  Forall (fun u => (u =? 10) = false) x -> replace_blank_lines x = x.
Proof.
  unfold replace_blank_lines.
  induction 1 as [|u r Hu _ IH]; cbn [replace_blank_lines_from]; [reflexivity|].
  rewrite Hu, IH. reflexivity.
Qed.

Lemma collapse_no_line_feed (s : list N) :
  Forall (fun u => (u =? 10) = false) (replace_space_runs s).
Proof.
  eapply List.Forall_impl; [|apply (collapse_spaces s false)].
  intros u Hu. destruct (N.eqb_spec u 10) as [->|]; [|reflexivity].
  specialize (Hu eq_refl). discriminate Hu.
Qed.

End WhiteSpaceFacts.

(** ** The fetcher *)

Module FetcherFacts.

Import Fetcher JSFacts.

Lemma take_digits_app (ds rest : list N) :
  Forall (fun u => is_digit u = true) ds ->
  match rest with [] => True | u :: _ => is_digit u = false end ->
  Fetcher.take_digits (ds ++ rest) = ds.
Proof.
  intros Hd Hr. induction Hd as [|u ds Hu _ IH]; simpl.
  - destruct rest; simpl; [reflexivity | rewrite Hr; reflexivity].
  - rewrite Hu, IH; reflexivity.
Qed.

Lemma match_http_status_prefix (tail : list N) :
  match_http_status (lit "[HTTP_ERROR] " ++ tail) = match_http_status tail.
Proof. reflexivity. Qed.

Lemma match_http_status_here (tail : list N) :
  take_digits tail <> [] ->
  match_http_status (lit "HTTP " ++ tail) = Some (take_digits tail).
Proof.
  intros Hne.
  change (match_http_status (lit "HTTP " ++ tail))
    with (match take_digits tail with
          | [] => match_http_status (skipn 1 (lit "HTTP ") ++ tail)
          | ds => Some ds
          end).
  destruct (take_digits tail); congruence.
Qed.

(** The status put into the message of an [HTTP_ERROR] is the status the
    [catch] block reads back from it. *)
Lemma status_of_http_error (status : N) (statusText : list N) :
  status_of_message
    (FetchError (lit "HTTP_ERROR")
       (lit "HTTP " ++ string_of_N status ++ lit ": " ++ statusText)) = status.
Proof.
  unfold status_of_message, FetchError; cbn [err_message].
  change (lit "[" ++ lit "HTTP_ERROR" ++ lit "] " ++
          lit "HTTP " ++ string_of_N status ++ lit ": " ++ statusText)
    with (lit "[HTTP_ERROR] " ++
          (lit "HTTP " ++ (string_of_N status ++ (lit ": " ++ statusText)))).
  rewrite match_http_status_prefix.
  assert (Hd : take_digits (string_of_N status ++ lit ": " ++ statusText)
               = string_of_N status).
  { apply take_digits_app; [apply units_of_uint_digits | reflexivity]. }
  rewrite match_http_status_here; rewrite Hd.
  - apply parseInt10_string_of_N.
  - apply string_of_N_nonempty.
Qed.

End FetcherFacts.

Module RetryFacts.

Import Fetcher JSFacts FetcherFacts FetcherSpec.

Lemma http_get_fst url w : fst (http_get url w) = outcome_at w url 0.
Proof. unfold http_get, outcome_at; simpl. rewrite Nat.add_0_r; reflexivity. Qed.

(** The guard of [throw lastError] fires exactly on client errors. *)
Lemma no_retry_failure (t : Setting) (o : FetchOutcome) :
  match attempt_result o with
  | inl e => no_retry (classify t e) = client_error o
  | inr _ => True
  end.
Proof.
  destruct o as [s st body | n m]; cbn [attempt_result client_error].
  - destruct (response_ok s) eqn:Hok; cbn [negb].
    + destruct body as [html | bn bm]; [exact I|].
      assert (Hc : (400 <=? s) && (s <? 500) && negb (s =? 429) = false).
      { unfold response_ok in Hok. apply andb_true_iff in Hok as [_ Hle].
        apply N.leb_le in Hle.
        destruct (400 <=? s) eqn:E; [apply N.leb_le in E; lia | reflexivity]. }
      rewrite Hc. unfold classify, platform_error, is_abort; cbn [err_name].
      destruct (str_eqb bn _); reflexivity.
    + unfold classify.
      change (is_abort (FetchError (lit "HTTP_ERROR")
                (lit "HTTP " ++ string_of_N s ++ lit ": " ++ st))) with false.
      cbv iota. unfold no_retry.
      change (has_code (FetchError (lit "HTTP_ERROR")
                (lit "HTTP " ++ string_of_N s ++ lit ": " ++ st)) (lit "HTTP_ERROR"))
        with true.
      rewrite status_of_http_error. reflexivity.
  - unfold classify, platform_error, is_abort; cbn [err_name].
    destruct (str_eqb n _); reflexivity.
Qed.

Lemma no_retry_classify (t : Setting) (o : FetchOutcome) (e : JsError) :
  attempt_result o = inl e -> no_retry (classify t e) = client_error o.
Proof.
  intros He. pose proof (no_retry_failure t o) as Hn. rewrite He in Hn. exact Hn.
Qed.

Section Loop.

Variables (url : list N) (opts : FetchOptions).

Let r : Z := nullish 2%Z (retries opts).
Let d : Z := nullish 1000%Z (retryDelayMs opts).

Lemma sleep_network ms w : network (sleep ms w) = network w.
Proof. reflexivity. Qed.

(** A retryable failure that is not the last allowed attempt: the loop
    waits and goes round again. *)
Lemma retry_loop_again fuel (i : nat) le w :
  (Z.of_nat i < r)%Z ->
  retryable (outcome_at w url 0) = true ->
  exists le',
    retry_loop (S fuel) (Z.of_nat i) url opts le w =
    retry_loop fuel (Z.of_nat (S i)) url opts le'
      (sleep (d * (Z.of_nat i + 1)) (snd (http_get url w))).
Proof.
  intros Hi Hr. unfold retryable in Hr.
  destruct (attempt_result (outcome_at w url 0)) as [e|] eqn:He; [|discriminate].
  apply negb_true_iff in Hr.
  cbn [retry_loop].
  destruct (http_get url w) as [o w1] eqn:Hg.
  assert (Ho : o = outcome_at w url 0) by (rewrite <- http_get_fst, Hg; reflexivity).
  subst o. rewrite He.
  rewrite (no_retry_classify _ _ _ He), Hr.
  fold r d. apply Z.ltb_lt in Hi. rewrite Hi.
  exists (Some (classify (timeout opts) e)).
  replace (Z.of_nat (S i)) with (Z.of_nat i + 1)%Z by lia.
  reflexivity.
Qed.

Lemma outcome_after_attempt ms w j :
  outcome_at (sleep ms (snd (http_get url w))) url j = outcome_at w url (S j).
Proof.
  unfold outcome_at; simpl. f_equal. lia.
Qed.

Lemma retry_loop_prefix (k : nat) : forall (i fuel : nat) le w,
  (Z.of_nat (i + k) <= r)%Z ->
  (forall j, (j < k)%nat -> retryable (outcome_at w url j) = true) ->
  exists le' w',
    retry_loop (k + fuel) (Z.of_nat i) url opts le w =
    retry_loop fuel (Z.of_nat (i + k)) url opts le' w'
    /\ trace w' = trace w ++ backoff_waits url d i k
    /\ (forall j, outcome_at w' url j = outcome_at w url (k + j)).
Proof.
  induction k as [|k IH]; intros i fuel le w Hk Hret.
  - exists le, w. rewrite Nat.add_0_r, app_nil_r. auto.
  - assert (Hi : (Z.of_nat i < r)%Z) by lia.
    assert (H0 : retryable (outcome_at w url 0) = true) by (apply Hret; try lia).
    destruct (retry_loop_again (k + fuel) i le w Hi H0) as [le1 E1].
    set (w2 := sleep (d * (Z.of_nat i + 1)) (snd (http_get url w))) in *.
    assert (Hk' : (Z.of_nat (S i + k) <= r)%Z) by lia.
    assert (Hret' : forall j, (j < k)%nat -> retryable (outcome_at w2 url j) = true).
    { intros j Hj. unfold w2. rewrite outcome_after_attempt. apply Hret. lia. }
    destruct (IH (S i) fuel le1 w2 Hk' Hret') as (le' & w' & E2 & Ht & Ho).
    exists le', w'. split; [|split].
    + cbn [Nat.add]. rewrite E1, E2. do 2 f_equal; lia.
    + rewrite Ht. cbn [backoff_waits]. unfold w2. simpl trace.
      rewrite <- !app_assoc. reflexivity.
    + intros j. rewrite Ho. unfold w2. rewrite outcome_after_attempt. f_equal; lia.
Qed.

(** The three ways the loop ends. *)
Lemma retry_loop_client_error fuel a le w :
  client_error (outcome_at w url 0) = true ->
  exists e, failure_of (timeout opts) (outcome_at w url 0) = Some e
    /\ retry_loop (S fuel) a url opts le w = (inl e, snd (http_get url w)).
Proof.
  intros Hc. unfold failure_of.
  destruct (attempt_result (outcome_at w url 0)) as [e|html] eqn:He.
  - exists (classify (timeout opts) e). split; [reflexivity|].
    cbn [retry_loop]. destruct (http_get url w) as [o w1] eqn:Hg.
    assert (Ho : o = outcome_at w url 0) by (rewrite <- http_get_fst, Hg; reflexivity).
    subst o. rewrite He, (no_retry_classify _ _ _ He), Hc. reflexivity.
  - exfalso. destruct (outcome_at w url 0) as [s st body | n m]; [|discriminate].
    cbn [attempt_result client_error] in *.
    destruct (response_ok s) eqn:Hok; [|discriminate].
    unfold response_ok in Hok. apply andb_true_iff in Hok as [_ Hle].
    apply N.leb_le in Hle.
    apply andb_true_iff in Hc as [Hc _]. apply andb_true_iff in Hc as [Hc _].
    apply N.leb_le in Hc. lia.
Qed.

Lemma retry_loop_success fuel a le w html :
  attempt_result (outcome_at w url 0) = inr html ->
  retry_loop (S fuel) a url opts le w = (inr html, snd (http_get url w)).
Proof.
  intros He. cbn [retry_loop]. destruct (http_get url w) as [o w1] eqn:Hg.
  assert (Ho : o = outcome_at w url 0) by (rewrite <- http_get_fst, Hg; reflexivity).
  subst o. rewrite He. reflexivity.
Qed.

Lemma retry_loop_exhausted a le w :
  (r <= a)%Z ->
  retryable (outcome_at w url 0) = true ->
  exists e, failure_of (timeout opts) (outcome_at w url 0) = Some e
    /\ retry_loop 1 a url opts le w = (inl e, snd (http_get url w)).
Proof.
  intros Ha Hr. unfold retryable in Hr. unfold failure_of.
  destruct (attempt_result (outcome_at w url 0)) as [e|] eqn:He; [|discriminate].
  apply negb_true_iff in Hr.
  exists (classify (timeout opts) e). split; [reflexivity|].
  cbn [retry_loop]. destruct (http_get url w) as [o w1] eqn:Hg.
  assert (Ho : o = outcome_at w url 0) by (rewrite <- http_get_fst, Hg; reflexivity).
  subst o. rewrite He, (no_retry_classify _ _ _ He), Hr.
  fold r. assert (Hlt : (a <? r)%Z = false) by (apply Z.ltb_ge; lia).
  rewrite Hlt. reflexivity.
Qed.

End Loop.

Lemma sleeps_app (a b : list Event) : sleeps (a ++ b) = sleeps a ++ sleeps b.
Proof. unfold sleeps. apply flat_map_app. Qed.

Lemma fetches_app (a b : list Event) : fetches (a ++ b) = fetches a ++ fetches b.
Proof. unfold fetches. apply flat_map_app. Qed.

Lemma sleeps_backoff_waits url d k : forall i,
  sleeps (backoff_waits url d i k) = map (fun a => (d * Z.of_nat a)%Z) (seq (S i) k).
Proof.
  induction k as [|k IH]; intros i; [reflexivity|].
  cbn [backoff_waits seq map].
  change (sleeps (EvFetch url :: EvSleep ?x :: ?t)) with (x :: sleeps t).
  rewrite IH. f_equal. lia.
Qed.

Lemma fetches_backoff_waits url d k : forall i,
  fetches (backoff_waits url d i k) = repeat url k.
Proof.
  induction k as [|k IH]; intros i; [reflexivity|].
  cbn. rewrite IH. reflexivity.
Qed.

Lemma sleeps_backoff_trace url d n :
  sleeps (backoff_trace url d n) = map (fun a => (d * Z.of_nat a)%Z) (seq 1 (n - 1)).
Proof.
  destruct n as [|k]; [reflexivity|]. unfold backoff_trace.
  rewrite sleeps_app, sleeps_backoff_waits. cbn [sleeps flat_map].
  rewrite app_nil_r. do 2 f_equal. lia.
Qed.

Lemma fetches_backoff_trace url d n : fetches (backoff_trace url d n) = repeat url n.
Proof.
  destruct n as [|k]; [reflexivity|]. unfold backoff_trace.
  rewrite fetches_app, fetches_backoff_waits. cbn [fetches flat_map app].
  rewrite <- repeat_cons. reflexivity.
Qed.

Lemma linear_waits_increasing (d : Z) (k : nat) : forall i,
  (0 < d)%Z ->
  StronglySorted Z.lt (map (fun a => (d * Z.of_nat a)%Z) (seq i k)).
Proof.
  induction k as [|k IH]; intros i Hd; cbn [seq map]; constructor.
  - apply IH; assumption.
  - apply List.Forall_forall. intros x Hx. apply in_map_iff in Hx as (a & <- & Ha).
    apply in_seq in Ha. nia.
Qed.

(** C2 (as amended): a response with a status in 400-499 other than 429 ends
    the call at once with that failure: after [k] retryable failures it is
    the [k+1]-th and last request.  Every other failure is retried: when
    all attempts fail that way there are one plus [retries] requests and
    the failure of the last one is thrown; a success ends the call with the
    body.  In every case the wait between attempt [a] and attempt [a + 1],
    counted from 1, is [retryDelayMs * a]; these waits increase strictly
    when [retryDelayMs] is positive. *)
Theorem fetchWithRetry_retry_policy (url : list N) (options : FetchOptions) (w : World) :
  let r := effective_retries options in
  let d := effective_delay options in
  let t := effective_timeout options in
  let run := fetchWithRetry url options w in
  (forall k : nat,
     (Z.of_nat k <= r)%Z ->
     (forall j, (j < k)%nat -> retryable (outcome_at w url j) = true) ->
     client_error (outcome_at w url k) = true ->
     exists e, failure_of t (outcome_at w url k) = Some e
       /\ fst run = inl e
       /\ trace (snd run) = trace w ++ backoff_trace url d (S k))
  /\ ((0 <= r)%Z ->
      (forall j, (Z.of_nat j <= r)%Z -> retryable (outcome_at w url j) = true) ->
      exists e, failure_of t (outcome_at w url (Z.to_nat r)) = Some e
        /\ fst run = inl e
        /\ trace (snd run) = trace w ++ backoff_trace url d (S (Z.to_nat r)))
  /\ (forall (k : nat) (html : list N),
        (Z.of_nat k <= r)%Z ->
        (forall j, (j < k)%nat -> retryable (outcome_at w url j) = true) ->
        attempt_result (outcome_at w url k) = inr html ->
        fst run = inr html
        /\ trace (snd run) = trace w ++ backoff_trace url d (S k))
  /\ (forall n : nat,
        fetches (backoff_trace url d n) = repeat url n
        /\ sleeps (backoff_trace url d n)
           = map (fun a => (d * Z.of_nat a)%Z) (seq 1 (n - 1))
        /\ ((0 < d)%Z -> StronglySorted Z.lt (sleeps (backoff_trace url d n)))).
Proof.
  intros r d t run.
  set (opts := spread DEFAULT_FETCH_OPTIONS options).
  assert (Hrun : run = retry_loop (Z.to_nat (r + 1)) 0%Z url opts None w) by reflexivity.
  assert (Hfuel : forall k : nat, (Z.of_nat k <= r)%Z ->
            Z.to_nat (r + 1) = (k + S (Z.to_nat r - k))%nat) by (intros; lia).
  assert (Hpre : forall k : nat, (Z.of_nat k <= r)%Z ->
            (forall j, (j < k)%nat -> retryable (outcome_at w url j) = true) ->
            exists le' w',
              run = retry_loop (S (Z.to_nat r - k)) (Z.of_nat k) url opts le' w'
              /\ trace w' = trace w ++ backoff_waits url d 0 k
              /\ outcome_at w' url 0 = outcome_at w url k).
  { intros k Hk Hret.
    destruct (retry_loop_prefix url opts k 0 (S (Z.to_nat r - k)) None w)
      as (le' & w' & E & Ht & Ho); [exact Hk | exact Hret |].
    exists le', w'. rewrite Hrun, (Hfuel k Hk). change (Z.of_nat 0) with 0%Z in E.
    rewrite E. repeat split; [exact Ht|]. rewrite Ho. f_equal; lia. }
  assert (Hend : forall w' k, trace w' = trace w ++ backoff_waits url d 0 k ->
            trace (snd (http_get url w')) = trace w ++ backoff_trace url d (S k)).
  { intros w' k Ht. cbn [http_get snd trace]. rewrite Ht.
    unfold backoff_trace. rewrite <- app_assoc. reflexivity. }
  split; [|split; [|split]].
  - intros k Hk Hret Hc.
    destruct (Hpre k Hk Hret) as (le' & w' & E & Ht & Ho).
    destruct (retry_loop_client_error url opts (Z.to_nat r - k) (Z.of_nat k) le' w')
      as (e & Hf & El); [rewrite Ho; exact Hc|].
    exists e. rewrite <- Ho. split; [exact Hf|].
    rewrite E, El. split; [reflexivity|]. apply Hend, Ht.
  - intros Hr Hret.
    assert (Hk : (Z.of_nat (Z.to_nat r) <= r)%Z) by lia.
    destruct (Hpre (Z.to_nat r) Hk) as (le' & w' & E & Ht & Ho).
    { intros j Hj. apply Hret. lia. }
    replace (S (Z.to_nat r - Z.to_nat r)) with 1%nat in E by lia.
    destruct (retry_loop_exhausted url opts (Z.of_nat (Z.to_nat r)) le' w')
      as (e & Hf & El).
    { change (nullish 2%Z (retries opts)) with r. lia. }
    { rewrite Ho. apply Hret. lia. }
    exists e. rewrite <- Ho. split; [exact Hf|].
    rewrite E, El. split; [reflexivity|]. apply Hend, Ht.
  - intros k html Hk Hret Hs.
    destruct (Hpre k Hk Hret) as (le' & w' & E & Ht & Ho).
    rewrite E, (retry_loop_success url opts _ _ _ _ html) by (rewrite Ho; exact Hs).
    split; [reflexivity|]. apply Hend, Ht.
  - intros n. split; [apply fetches_backoff_trace|].
    split; [apply sleeps_backoff_trace|].
    intros Hd. rewrite sleeps_backoff_trace. apply linear_waits_increasing, Hd.
Qed.

(** A 404 on the first attempt: one request, no wait, the failure thrown. *)
Lemma fetchWithRetry_retry_policy_witness :
  exists e,
    failure_of (effective_timeout no_options) not_found = Some e
    /\ fst (fetchWithRetry example_url no_options (quiet_world (always not_found))) = inl e
    /\ trace (snd (fetchWithRetry example_url no_options (quiet_world (always not_found))))
       = [EvFetch example_url].
Proof.
  destruct (fetchWithRetry_retry_policy example_url no_options
              (quiet_world (always not_found))) as [H1 _].
  apply (H1 0%nat).
  - vm_compute. discriminate.
  - intros j Hj. inversion Hj.
  - reflexivity.
Defined.

(** C2 as stated fails: with [retryDelayMs = 0] and a server that keeps
    answering 503, the call makes its three attempts and both waits are
    0 ms long, so the waits do not increase strictly. *)
Lemma fetchWithRetry_waits_not_increasing :
  sleeps (trace (snd (fetchWithRetry example_url zero_delay
                        (quiet_world (always unavailable))))) = [0; 0]%Z
  /\ ~ StronglySorted Z.lt
        (sleeps (trace (snd (fetchWithRetry example_url zero_delay
                               (quiet_world (always unavailable)))))).
Proof.
  assert (E : sleeps (trace (snd (fetchWithRetry example_url zero_delay
                        (quiet_world (always unavailable))))) = [0; 0]%Z)
    by (vm_compute; reflexivity).
  split; [exact E|]. rewrite E. intros Hs.
  apply StronglySorted_inv in Hs as [_ Hall].
  apply Forall_inv in Hall. discriminate Hall.
Qed.

End RetryFacts.

Module LimiterFacts.

Import Fetcher JSFacts FetcherSpec LimiterSpec.

Lemma timer_delay_nonneg ms : (0 <= timer_delay ms)%Z.
Proof. unfold timer_delay. destruct (_ <? _)%Z; lia. Qed.

(** A delay a timer can take is waited for in full. *)
Lemma timer_delay_in_range ms : (ms <= TIMEOUT_MAX)%Z -> (ms <= timer_delay ms)%Z.
Proof.
  intros Hms. unfold timer_delay.
  destruct (Z.ltb_spec TIMEOUT_MAX ms); lia.
Qed.

Lemma sleep_now ms w : (ms <= TIMEOUT_MAX)%Z -> (now w + ms <= now (sleep ms w))%Z.
Proof.
  intros Hms. pose proof (timer_delay_in_range ms Hms). cbn [sleep now]. lia.
Qed.

Lemma sleep_clock ms w : (now w <= now (sleep ms w))%Z.
Proof. pose proof (timer_delay_nonneg ms). cbn [sleep now]. lia. Qed.

(** What one call does to the clock and to the entry of its domain. *)
Lemma waitForDomain_records rl domain delayMs w :
  let delay := default (defaultDelayMs rl) delayMs in
  let rl' := fst (waitForDomain rl domain delayMs w) in
  let w' := snd (waitForDomain rl domain delayMs w) in
  lastRequestTime rl' !! domain = Some (now w')
  /\ (now w <= now w')%Z
  /\ (forall t, lastRequestTime rl !! domain = Some t ->
        (t <= now w)%Z -> (delay <= TIMEOUT_MAX)%Z -> (t + delay <= now w')%Z)
  /\ defaultDelayMs rl' = defaultDelayMs rl.
Proof.
  cbn zeta. unfold waitForDomain. cbn [fst snd lastRequestTime defaultDelayMs].
  split; [apply lookup_insert_eq|].
  destruct (Z.ltb_spec (now w - default 0%Z (lastRequestTime rl !! domain))
                       (default (defaultDelayMs rl) delayMs)) as [Hlt|Hge].
  - split; [apply sleep_clock|]. split; [|reflexivity].
    intros t Ht Hpast Hmax. rewrite Ht in *. cbn [from_option id] in *.
    pose proof (sleep_now (default (defaultDelayMs rl) delayMs - (now w - t)) w).
    lia.
  - split; [lia|]. split; [|reflexivity].
    intros t Ht _ _. rewrite Ht in *. cbn [from_option id] in *. lia.
Qed.

Lemma waitForDomain_other rl domain delayMs w other :
  other <> domain ->
  lastRequestTime (fst (waitForDomain rl domain delayMs w)) !! other
  = lastRequestTime rl !! other.
Proof.
  intros Hne. unfold waitForDomain. cbn [fst lastRequestTime].
  apply lookup_insert_ne. congruence.
Qed.

Lemma str_eqb_false (a b : list N) : str_eqb a b = false <-> a <> b.
Proof.
  rewrite <- str_eqb_eq. destruct (str_eqb a b); split; congruence.
Qed.

(** In a sequence of calls that starts with no entry later than the
    clock, no entry is ever later than the clock, and the dispatches of a
    domain are spaced. *)
Lemma run_spaced domain (acts : list Action) : forall rl w,
  timer_delays (defaultDelayMs rl) acts ->
  (forall t, lastRequestTime rl !! domain = Some t -> (t <= now w)%Z) ->
  spaced domain (lastRequestTime rl !! domain) (fst (run acts rl w)).
Proof.
  induction acts as [|[dom delayMs | ms] acts IH]; intros rl w Hd Hpast; cbn [run].
  - exact I.
  - apply Forall_cons in Hd as [Hd0 Hd].
    destruct (waitForDomain rl dom delayMs w) as [rl1 w1] eqn:Ew.
    pose proof (waitForDomain_records rl dom delayMs w) as (Hrec & Hclock & Hsp & Hdef).
    pose proof (waitForDomain_other rl dom delayMs w domain) as Hoth.
    rewrite Ew in Hrec, Hclock, Hsp, Hoth, Hdef.
    cbn [fst snd] in Hrec, Hclock, Hsp, Hoth, Hdef.
    assert (IH' : spaced domain (lastRequestTime rl1 !! domain) (fst (run acts rl1 w1))).
    { apply IH; [rewrite Hdef; exact Hd|].
      intros t Ht. destruct (str_eqb dom domain) eqn:E.
      - apply str_eqb_eq in E. subst dom. rewrite Hrec in Ht.
        injection Ht as <-. lia.
      - apply str_eqb_false in E. rewrite Hoth in Ht by congruence.
        specialize (Hpast t Ht). lia. }
    destruct (run acts rl1 w1) as [log final].
    cbn [fst spaced d_domain d_delay d_time] in *.
    destruct (str_eqb dom domain) eqn:E.
    + apply str_eqb_eq in E. subst dom. rewrite Hrec in IH'. split; [|exact IH'].
      destruct (lastRequestTime rl !! domain) as [t|] eqn:Et; [|exact I].
      apply Hsp; [reflexivity | apply Hpast; reflexivity | exact Hd0].
    + apply str_eqb_false in E. rewrite Hoth in IH' by congruence. exact IH'.
  - apply Forall_cons in Hd as [_ Hd]. apply IH; [exact Hd|].
    intros t Ht. specialize (Hpast t Ht). cbn [elapse now]. lia.
Qed.

(** C4 (as amended): with a delay a timer can take (at most 2^31 - 1 ms) a
    call to [waitForDomain] returns only when at least the delay has passed
    since the time recorded for its domain, and records the time of its
    return as the new entry; so in every sequence of such calls, each
    completed before the next action starts, interleaved with anything
    that lets time pass and with calls for other domains, consecutive
    times recorded for one domain lie at least the delay apart.  A call
    for a domain without an entry reads the missing entry as time 0: it
    returns at once, leaving the world as it is, whenever the delay does
    not exceed the clock reading.  A call leaves the entries of all other
    domains untouched, and how long a call waits depends on the entry of
    its own domain only. *)
Theorem waitForDomain_spacing :
  (forall rl domain delayMs w,
     let delay := default (defaultDelayMs rl) delayMs in
     let rl' := fst (waitForDomain rl domain delayMs w) in
     let w' := snd (waitForDomain rl domain delayMs w) in
     lastRequestTime rl' !! domain = Some (now w')
     /\ (forall t, lastRequestTime rl !! domain = Some t ->
           (t <= now w)%Z -> (delay <= TIMEOUT_MAX)%Z -> (t + delay <= now w')%Z))
  /\ (forall domain acts defaultDelay w,
        timer_delays defaultDelay acts ->
        spaced domain None (fst (run acts (newRateLimiter defaultDelay) w)))
  /\ (forall rl domain delayMs w,
        lastRequestTime rl !! domain = None ->
        (default (defaultDelayMs rl) delayMs <= now w)%Z ->
        snd (waitForDomain rl domain delayMs w) = w)
  /\ (forall rl domain delayMs w other,
        other <> domain ->
        lastRequestTime (fst (waitForDomain rl domain delayMs w)) !! other
        = lastRequestTime rl !! other)
  /\ (forall rl1 rl2 domain delayMs w,
        lastRequestTime rl1 !! domain = lastRequestTime rl2 !! domain ->
        defaultDelayMs rl1 = defaultDelayMs rl2 ->
        snd (waitForDomain rl1 domain delayMs w)
        = snd (waitForDomain rl2 domain delayMs w)).
Proof.
  split; [|split; [|split; [|split]]].
  - intros rl domain delayMs w.
    pose proof (waitForDomain_records rl domain delayMs w) as (H1 & _ & H2 & _).
    split; assumption.
  - intros domain acts defaultDelay w Hd.
    pose proof (run_spaced domain acts (newRateLimiter defaultDelay) w Hd) as Hs.
    cbn [newRateLimiter lastRequestTime] in Hs. rewrite lookup_empty in Hs.
    apply Hs. intros t [=].
  - intros rl domain delayMs w Hnone Hle.
    unfold waitForDomain. cbn [snd]. rewrite Hnone. cbn [from_option id].
    destruct (Z.ltb_spec (now w - 0) (default (defaultDelayMs rl) delayMs));
      [lia | reflexivity].
  - apply waitForDomain_other.
  - intros rl1 rl2 domain delayMs w Hl Hd.
    unfold waitForDomain. cbn [snd]. rewrite Hl, Hd. reflexivity.
Qed.

(** Two calls for one domain under the default delay of the global
    limiter, a tenth of a second apart: their dispatches are spaced. *)
Lemma waitForDomain_spacing_witness :
  spaced (lit "example.com") None
    (fst (run [Wait (lit "example.com") None; Pass 100; Wait (lit "example.com") None]
              (newRateLimiter 1500) (quiet_world (always not_found)))).
Proof.
  destruct waitForDomain_spacing as (_ & H2 & _).
  apply H2. repeat constructor; vm_compute; discriminate.
Defined.

(** The dispatch times of that sequence. *)
Lemma waitForDomain_example_times :
  times_of (lit "example.com")
    (fst (run [Wait (lit "example.com") None; Pass 100; Wait (lit "example.com") None]
              (newRateLimiter 1500) (quiet_world (always not_found))))
  = [1700000000000; 1700000001500]%Z.
Proof. vm_compute. reflexivity. Qed.

(** C4 as stated fails twice.  A first call for a domain, with a delay
    that exceeds the clock reading by five seconds, does not return at
    once: it sleeps for those five seconds.  And two calls in a row with
    a delay of 3000000000 ms, more than a timer takes, are dispatched one
    millisecond apart. *)
Lemma waitForDomain_not_as_stated :
  (lastRequestTime rateLimiter !! lit "example.com" = None
   /\ trace (snd (waitForDomain rateLimiter (lit "example.com") (Some 1700000005000%Z)
                    (quiet_world (always not_found))))
      = [EvSleep 5000]
   /\ now (snd (waitForDomain rateLimiter (lit "example.com") (Some 1700000005000%Z)
                  (quiet_world (always not_found))))
      = 1700000005000%Z)
  /\ times_of (lit "example.com")
       (fst (run [Wait (lit "example.com") (Some 3000000000%Z);
                  Wait (lit "example.com") (Some 3000000000%Z)]
                 rateLimiter (quiet_world (always not_found))))
     = [1700000000000; 1700000000001]%Z
  /\ ~ spaced (lit "example.com") None
         (fst (run [Wait (lit "example.com") (Some 3000000000%Z);
                    Wait (lit "example.com") (Some 3000000000%Z)]
                   rateLimiter (quiet_world (always not_found)))).
Proof.
  split; [split; [apply lookup_empty|]|split].
  - unfold waitForDomain. cbn [snd].
    change (lastRequestTime rateLimiter) with (∅ : gmap (list N) Z).
    rewrite lookup_empty. split; reflexivity.
  - vm_compute. reflexivity.
  - intros Hs. vm_compute in Hs. destruct Hs as (_ & Hs & _).
    apply Hs. reflexivity.
Qed.

End LimiterFacts.

(** ** The parser: link extraction *)

Module LinkFacts.

Import JSFacts ParserSpec.

Lemma startsWith_app (p t : list N) : startsWith (p ++ t) p = true.
Proof.
  induction p as [|a p IH]; [reflexivity|].
  cbn [app startsWith]. unfold unit_eqb. rewrite N.eqb_refl, IH. reflexivity.
Qed.

Lemma includes_app (pre p post : list N) : includes (pre ++ p ++ post) p = true.
Proof.
  induction pre as [|a pre IH].
  - cbn [app]. destruct (p ++ post) eqn:E; cbn [includes];
      rewrite <- E, startsWith_app; reflexivity.
  - cbn [app includes]. rewrite IH. apply orb_true_r.
Qed.

Lemma includes_startsWith (s p : list N) :
  includes s p = false -> startsWith s p = false.
Proof.
  destruct s; cbn [includes]; intros E; apply orb_false_iff in E as [E _]; exact E.
Qed.

(** Replacing a pattern that does not occur changes nothing. *)
Lemma replace_first_absent (s p r : list N) :
  includes s p = false -> replace_first s p r = s.
Proof.
  induction s as [|u s IH]; intros E; cbn [replace_first].
  - rewrite (includes_startsWith _ _ E). reflexivity.
  - rewrite (includes_startsWith _ _ E). f_equal. apply IH.
    cbn [includes] in E. apply orb_false_iff in E as [_ E]. exact E.
Qed.

(** When [www.] stands in front of the configured host or nowhere in it,
    the host test compares with the configured host less that prefix. *)
Lemma replace_www (configured : list N) :
  www_in_front configured = true ->
  replace_first configured (lit "www.") [] = strip_www configured.
Proof.
  unfold www_in_front, strip_www. intros Hw.
  destruct (startsWith configured (lit "www.")) eqn:Es.
  - destruct configured as [|u s]; [discriminate Es|].
    cbn [replace_first]. rewrite Es. reflexivity.
  - cbn [orb] in Hw. apply negb_true_iff in Hw.
    apply replace_first_absent, Hw.
Qed.

Lemma on_site_includes (host configured : list N) :
  on_site host configured -> includes host (strip_www configured) = true.
Proof.
  intros (labels & -> & _).
  rewrite <- (app_nil_r (strip_www configured)) at 1. apply includes_app.
Qed.

Lemma omap_cons {A B} (f : A -> option B) (x : A) (l : list A) :
  omap f (x :: l) = match f x with Some y => y :: omap f l | None => omap f l end.
Proof. reflexivity. Qed.

Lemma omap_map {A B C} (f : B -> option C) (g : A -> B) (l : list A) :
  omap f (map g l) = omap (fun x => f (g x)) l.
Proof.
  induction l as [|x l IH]; [reflexivity|].
  cbn [map]. rewrite !omap_cons, IH. reflexivity.
Qed.

Section WithPlatform.
Context `{StringApi} `{Dom} `{UrlApi}.

Variable config : NewsPortalConfig.

Local Abbreviation valid c := (Parser.isValidArticleUrl c config = true).

(** The callback, in terms of the candidate URL of the element. *)
Lemma visit_link_candidate links seen href :
  Parser.visit_link config (links, seen) href =
  match candidate config href with
  | Some c =>
      if negb (truthy c) || bool_decide (c ∈ seen) then (links, seen)
      else if Parser.isValidArticleUrl c config
           then (links ++ [c], {[ c ]} ∪ seen) else (links, seen)
  | None => (links, seen)
  end.
Proof.
  unfold Parser.visit_link, candidate, Parser.resolveUrl.
  destruct href as [[|u h]|]; [reflexivity| |reflexivity].
  cbn [truthy negb].
  destruct (startsWith (u :: h) (lit "http")); [reflexivity|].
  destruct (url_resolve (u :: h) (baseUrl config)); reflexivity.
Qed.

(** The elements of a listing are visited in document order. *)
Lemma link_hrefs_candidates (html : list N) :
  omap (candidate config) (Parser.link_hrefs html config) = candidates html config.
Proof. unfold Parser.link_hrefs, candidates. apply omap_map. Qed.

Lemma fold_visit (hrefs : list (option (list N))) :
  forall (links : list (list N)) (seen : gset (list N)),
    (forall u, u ∈ seen <-> u ∈ links) ->
    NoDup links ->
    exists added,
      fst (fold_left (Parser.visit_link config) hrefs (links, seen)) = links ++ added
      /\ NoDup (links ++ added)
      /\ added `sublist_of` omap (candidate config) hrefs
      /\ Forall (fun c => valid c) added
      /\ (forall c, c ∈ omap (candidate config) hrefs ->
            truthy c = true -> valid c -> c ∈ links ++ added).
Proof.
  induction hrefs as [|href rest IH]; intros links seen Hseen Hnd.
  - exists []. rewrite app_nil_r. cbn.
    repeat split; auto using sublist_nil_l.
    intros c Hc. apply elem_of_nil in Hc. contradiction.
  - cbn [fold_left]. rewrite visit_link_candidate, omap_cons.
    destruct (candidate config href) as [c|] eqn:Ec.
    + destruct (negb (truthy c) || bool_decide (c ∈ seen)) eqn:Eskip;
        [|destruct (Parser.isValidArticleUrl c config) eqn:Evalid].
      * destruct (IH links seen Hseen Hnd) as (added & E & Hn & Hs & Hv & Hc).
        exists added. repeat split; auto using sublist_cons.
        intros c' Hin Ht Hval. apply elem_of_cons in Hin as [->|Hin]; [|auto].
        apply orb_true_iff in Eskip as [Ef|Es].
        -- rewrite Ht in Ef. discriminate.
        -- apply bool_decide_eq_true in Es. apply elem_of_app. left.
           apply Hseen, Es.
      * assert (Hnew : c ∉ links).
        { apply orb_false_iff in Eskip as [_ Es].
          apply bool_decide_eq_false in Es. rewrite <- Hseen. exact Es. }
        destruct (IH (links ++ [c]) ({[ c ]} ∪ seen)) as (added & E & Hn & Hs & Hv & Hc).
        { intros u. rewrite elem_of_union, elem_of_singleton, elem_of_app,
            list_elem_of_singleton, Hseen. tauto. }
        { apply NoDup_app. repeat split; [exact Hnd | | apply NoDup_singleton].
          intros u Hu Hu'. apply list_elem_of_singleton in Hu'. subst u. auto. }
        exists (c :: added). rewrite E, <- app_assoc. cbn [app].
        rewrite <- app_assoc in Hn. cbn [app] in Hn.
        repeat split; auto using sublist_skip.
        intros c' Hin Ht Hval. apply elem_of_cons in Hin as [->|Hin].
        -- apply elem_of_app. right. apply elem_of_cons. left; reflexivity.
        -- specialize (Hc c' Hin Ht Hval). rewrite <- app_assoc in Hc. exact Hc.
      * destruct (IH links seen Hseen Hnd) as (added & E & Hn & Hs & Hv & Hc).
        exists added. repeat split; auto using sublist_cons.
        intros c' Hin Ht Hval. apply elem_of_cons in Hin as [->|Hin]; [|auto].
        rewrite Evalid in Hval. discriminate.
    + apply IH; assumption.
Qed.

(** What passing [isValidArticleUrl] means. *)
Lemma isValidArticleUrl_true (u : list N) :
  valid u <->
  document_like u
  /\ exists host configured,
       url_hostname u = Some host
       /\ url_hostname (baseUrl config) = Some configured
       /\ includes host (replace_first configured (lit "www.") []) = true.
Proof.
  unfold Parser.isValidArticleUrl, document_like.
  destruct (existsb _ Parser.skipPatterns) eqn:Ex.
  - split; [discriminate|]. intros [Hall _]. exfalso.
    apply existsb_exists in Ex as (p & Hp & Hinc).
    rewrite List.Forall_forall in Hall. rewrite (Hall p Hp) in Hinc. discriminate.
  - assert (Hall : Forall (fun pattern => includes (toLowerCase u) pattern = false)
                          Parser.skipPatterns).
    { apply List.Forall_forall. intros p Hp.
      destruct (includes (toLowerCase u) p) eqn:E; [|reflexivity].
      assert (existsb (fun pattern => includes (toLowerCase u) pattern)
                      Parser.skipPatterns = true)
        by (apply existsb_exists; eauto).
      congruence. }
    destruct (url_hostname u) as [host|];
      [destruct (url_hostname (baseUrl config)) as [configured|]|].
    + destruct (includes host (replace_first configured (lit "www.") [])) eqn:E;
        cbn [negb].
      * split; [|reflexivity]. intros _. split; [exact Hall|]. eauto.
      * split; [discriminate|]. intros (_ & h' & c' & [= <-] & [= <-] & E').
        congruence.
    + split; [discriminate|]. intros (_ & h' & c' & _ & [=] & _).
    + split; [discriminate|]. intros (_ & h' & c' & [=] & _).
Qed.

(** A document-like URL on the site of the portal passes. *)
Lemma isValidArticleUrl_on_site (u host configured : list N) :
  document_like u ->
  url_hostname u = Some host ->
  url_hostname (baseUrl config) = Some configured ->
  www_in_front configured = true ->
  on_site host configured ->
  valid u.
Proof.
  intros Hdoc Hu Hb Hw Hsite. apply isValidArticleUrl_true.
  split; [exact Hdoc|]. exists host, configured.
  split; [exact Hu|]. split; [exact Hb|].
  rewrite (replace_www configured Hw). apply on_site_includes, Hsite.
Qed.

End WithPlatform.

Lemma parseArticleLinks_NoDup `{StringApi} `{Dom} `{UrlApi}
    (html : list N) (config : NewsPortalConfig) :
  NoDup (Parser.parseArticleLinks html config).
Proof.
  destruct (fold_visit config (Parser.link_hrefs html config) [] ∅)
    as (added & E & Hn & _).
  { intros u. rewrite elem_of_nil. set_solver. }
  { apply NoDup_nil_2. }
  unfold Parser.parseArticleLinks. rewrite E. exact Hn.
Qed.


Local Existing Instances Toy.strings Toy.listing_dom Toy.urls.



(** The host test is a search for the configured name inside the host:
    a foreign host that merely contains the name passes as well, and a
    configured host with [www.] in the middle fails its own test. *)
Lemma isValidArticleUrl_host_search :
  Parser.parseArticleLinks (lit "LISTING") Toy.detik
  = [lit "https://www.detik.com/read/123";
     lit "https://finance.detik.com/read/1";
     lit "https://detik.com.example.org/read/2"]
  /\ includes (lit "newwww.detik.com")
       (replace_first (lit "newwww.detik.com") (lit "www.") []) = false.
Proof. split; vm_compute; reflexivity. Qed.

End LinkFacts.

(** ** The parser: article extraction *)

Module ArticleFacts.

Import JSFacts WhiteSpaceFacts ParserSpec.

(** *** Text *)

(** Once the runs of white space are single spaces no line feed is left,
    so the second replacement of [cleanText] finds nothing to replace. *)
Lemma cleanText_collapse (t : list N) :
  Parser.cleanText t = trim (replace_space_runs t).
Proof.
  unfold Parser.cleanText. rewrite replace_blank_lines_none; [reflexivity|].
  apply collapse_no_line_feed.
Qed.

(** Cleaning a non-empty trimmed text leaves a non-empty text. *)
Lemma cleanText_truthy (t : list N) :
  truthy (trim t) = true -> truthy (Parser.cleanText (trim t)) = true.
Proof.
  intros Ht. pose proof (trim_head t) as Hh.
  destruct (trim t) as [|u r]; [discriminate|].
  rewrite cleanText_collapse. unfold replace_space_runs.
  cbn [collapse_from]. rewrite Hh.
  destruct (trim_cons u (collapse_from false r) Hh) as [r' ->].
  reflexivity.
Qed.

Lemma longer_truthy (n : nat) (t : list N) :
  truthy t && (n <? length t)%nat = (n <? length t)%nat.
Proof.
  destruct t as [|u r]; [|reflexivity].
  cbn [truthy andb length]. symmetry. apply Nat.ltb_ge. lia.
Qed.

(** *** Patterns *)

Lemma span_spec (p : N -> bool) (s : list N) :
  s = fst (Parser.span p s) ++ snd (Parser.span p s)
  /\ all_of p (fst (Parser.span p s)).
Proof.
  induction s as [|u r [IH1 IH2]]; cbn [Parser.span]; [split; [reflexivity | constructor]|].
  destruct (p u) eqn:E; [|split; [reflexivity | constructor]].
  destruct (Parser.span p r) as [a b]. cbn [fst snd app] in *.
  split; [f_equal; exact IH1 | constructor; assumption].
Qed.

Lemma drop_length_app {A} (a b : list A) : drop (length a) (a ++ b) = b.
Proof. induction a as [|x a IH]; [reflexivity | exact IH]. Qed.

(** The units of a class at the start of the first [n] units of a text. *)
Lemma span_take_spec (p : N -> bool) (n : nat) (s : list N) :
  let a := fst (Parser.span p (take n s)) in
  s = a ++ drop (length a) s /\ all_of p a /\ (length a <= n)%nat.
Proof.
  cbn zeta. destruct (span_spec p (take n s)) as [E Ha].
  set (a := fst (Parser.span p (take n s))) in *.
  set (b := snd (Parser.span p (take n s))) in *.
  assert (Es : s = a ++ (b ++ drop n s)).
  { rewrite app_assoc, <- E. symmetry. apply take_drop. }
  split; [|split; [exact Ha|]].
  - rewrite Es at 2. rewrite drop_length_app. exact Es.
  - assert (Hl : (length (a ++ b) <= n)%nat) by (rewrite <- E, length_take; lia).
    rewrite length_app in Hl. lia.
Qed.

Lemma truthy_nonempty (s : list N) : truthy s = true -> s <> [].
Proof. destruct s; [discriminate | discriminate]. Qed.

(** A match of the date pattern at the start of a text is a
    day-month-year group of the text. *)
Lemma date_pattern_here_sound (s day word year : list N) :
  Parser.date_pattern_here s = Some (day, word, year) ->
  dmy_reading s day word year.
Proof.
  unfold Parser.date_pattern_here.
  destruct (span_take_spec is_digit 2 s) as (Es & Hd & Hl).
  set (d := fst (Parser.span is_digit (take 2 s))) in *.
  destruct (span_spec is_space (drop (length d) s)) as [E1 H1].
  destruct (Parser.span is_space (drop (length d) s)) as [sp1 r2].
  destruct (span_spec Parser.is_word r2) as [E2 H2].
  destruct (Parser.span Parser.is_word r2) as [w r3].
  destruct (span_spec is_space r3) as [E3 H3].
  destruct (Parser.span is_space r3) as [sp2 r4].
  destruct (span_take_spec is_digit 4 r4) as (E4 & H4 & _).
  set (y := fst (Parser.span is_digit (take 4 r4))) in *.
  cbn [fst snd] in *.
  destruct (truthy d && truthy sp1 && truthy w && truthy sp2 && (length y =? 4)%nat)
    eqn:Ec; [|discriminate].
  intros [= <- <- <-].
  repeat (apply andb_true_iff in Ec as [Ec ?]).
  exists [], sp1, sp2, (drop (length y) r4). cbn [app].
  split; [rewrite <- E4, <- E3, <- E2, <- E1; exact Es|].
  assert (Hd1 : d <> []) by (apply truthy_nonempty; assumption).
  repeat split; try assumption; try (apply truthy_nonempty; assumption).
  - destruct d; [congruence | cbn [length]; lia].
  - apply Nat.eqb_eq. assumption.
Qed.

Lemma dmy_reading_cons (u : N) (s day word year : list N) :
  dmy_reading s day word year -> dmy_reading (u :: s) day word year.
Proof.
  intros (pre & sp1 & sp2 & post & -> & Hrest).
  exists (u :: pre), sp1, sp2, post. split; [reflexivity | exact Hrest].
Qed.

Lemma date_pattern_sound (s day word year : list N) :
  Parser.date_pattern s = Some (day, word, year) -> dmy_reading s day word year.
Proof.
  induction s as [|u r IH]; cbn [Parser.date_pattern].
  - destruct (Parser.date_pattern_here []) as [m|] eqn:E; [|discriminate].
    intros [= ->]. apply date_pattern_here_sound, E.
  - destruct (Parser.date_pattern_here (u :: r)) as [m|] eqn:E.
    + intros [= ->]. apply date_pattern_here_sound, E.
    + intros Hr. apply dmy_reading_cons, IH, Hr.
Qed.

Lemma iso_pattern_here_sound (s m : list N) :
  Parser.iso_pattern_here s = Some m -> iso_reading s m.
Proof.
  unfold Parser.iso_pattern_here. pose proof (take_drop 10 s) as Es.
  destruct (take 10 s) as [|a [|b [|c [|d [|h1 [|e' [|f [|h2 [|g [|i [|? ?]]]]]]]]]]];
    try discriminate.
  destruct (forallb is_digit [a; b; c; d; e'; f; g; i] && (h1 =? 45) && (h2 =? 45))
    eqn:Ec; [|discriminate].
  intros [= <-].
  apply andb_true_iff in Ec as [Ec E2]. apply andb_true_iff in Ec as [Ec E1].
  apply N.eqb_eq in E1, E2. subst h1 h2.
  cbn [forallb] in Ec.
  repeat (apply andb_true_iff in Ec as [? Ec]).
  exists [], (drop 10 s), [a; b; c; d], [e'; f], [g; i]. cbn [app].
  split; [symmetry; exact Es|]. split; [reflexivity|].
  repeat split; repeat constructor; assumption.
Qed.

Lemma iso_reading_cons (u : N) (s m : list N) :
  iso_reading s m -> iso_reading (u :: s) m.
Proof.
  intros (pre & post & y & mo & d & -> & Hrest).
  exists (u :: pre), post, y, mo, d. split; [reflexivity | exact Hrest].
Qed.

Lemma iso_pattern_sound (s m : list N) :
  Parser.iso_pattern s = Some m -> iso_reading s m.
Proof.
  induction s as [|u r IH]; cbn [Parser.iso_pattern].
  - destruct (Parser.iso_pattern_here []) as [m'|] eqn:E; [|discriminate].
    intros [= ->]. apply iso_pattern_here_sound, E.
  - destruct (Parser.iso_pattern_here (u :: r)) as [m'|] eqn:E.
    + intros [= ->]. apply iso_pattern_here_sound, E.
    + intros Hr. apply iso_reading_cons, IH, Hr.
Qed.

Section WithPlatform.
Context `{StringApi} `{Dom} `{DateApi}.

(** *** The view of the document *)

Lemma first_rendered (doc : Document) (sel : list N) :
  trim (Parser.text_of doc (Parser.first doc sel)) = rendered doc sel.
Proof.
  unfold Parser.first, rendered. destruct (select doc sel); reflexivity.
Qed.

Lemma rendered_trimmed (doc : Document) (sel : list N) :
  exists t, rendered doc sel = trim t.
Proof.
  unfold rendered. destruct (select doc sel) as [|x others]; [exists [] | eauto].
  reflexivity.
Qed.

Lemma strip_stripped (html : list N) (config : NewsPortalConfig) :
  Parser.strip (load html) config = stripped html config.
Proof.
  unfold Parser.strip, stripped. destruct (removeSelectors config); reflexivity.
Qed.

(** *** Titles *)

(** The title loop returns the cleaned text of the first selector that
    qualifies, and nothing when none does. *)
Lemma title_from_first (doc : Document) (sels : list (list N)) :
  match Parser.title_from doc sels with
  | None => Forall (fun sel => qualifies doc sel = false) sels
  | Some t =>
      exists before sel rest,
        sels = before ++ sel :: rest
        /\ Forall (fun s => qualifies doc s = false) before
        /\ qualifies doc sel = true
        /\ t = Parser.cleanText (rendered doc sel)
  end.
Proof.
  induction sels as [|sel rest IH]; cbn [Parser.title_from]; [constructor|].
  rewrite first_rendered. fold (qualifies doc sel).
  destruct (qualifies doc sel) eqn:Eq.
  - exists [], sel, rest. repeat split; [constructor | exact Eq].
  - destruct (Parser.title_from doc rest) as [t|].
    + destruct IH as (before & s & rest' & -> & Hb & Hq & Ht).
      exists (sel :: before), s, rest'. repeat split; auto.
    + constructor; assumption.
Qed.

(** *** Bodies *)

Lemma long_paragraphs_none (doc : Document) (element : Element) :
  (0 <? length (Parser.long_paragraphs doc element))%nat
  = existsb (fun p => (20 <? length (trim (text doc p)))%nat)
            (find doc element (lit "p")).
Proof.
  unfold Parser.long_paragraphs.
  induction (find doc element (lit "p")) as [|p ps IH]; [reflexivity|].
  cbn [map existsb]. rewrite filter_cons.
  rewrite longer_truthy.
  destruct (20 <? length (trim (text doc p)))%nat eqn:E.
  - rewrite decide_True by reflexivity. reflexivity.
  - rewrite decide_False by discriminate. exact IH.
Qed.

(** A body is found exactly when some content selector yields one. *)
Lemma content_from_none (doc : Document) (sels : list (list N)) :
  Parser.content_from doc sels = None
  <-> Forall (fun sel => yields_body doc sel = false) sels.
Proof.
  induction sels as [|sel rest IH]; cbn [Parser.content_from].
  - split; [constructor | reflexivity].
  - unfold Parser.first. rewrite Forall_cons, <- IH. unfold yields_body.
    destruct (select doc sel) as [|element others]; cbn [head].
    + tauto.
    + rewrite long_paragraphs_none, longer_truthy.
      destruct (existsb _ (find doc element (lit "p"))); cbn [orb].
      * split; [discriminate | intros [[=] _]].
      * destruct (50 <? length (trim (text doc element)))%nat.
        -- split; [discriminate | intros [[=] _]].
        -- tauto.
Qed.

(** *** Timestamps *)

(** A text that cannot be read as a date is not read as one. *)
Lemma parseIndonesianDate_unparseable (text : list N) :
  unparseable text -> Parser.parseIndonesianDate text = None.
Proof.
  intros [Hdmy Hiso].
  assert (Hfall : Parser.iso_fallback text = None).
  { unfold Parser.iso_fallback.
    destruct (Parser.iso_pattern text) as [m|] eqn:E; [|reflexivity].
    rewrite (Hiso m (iso_pattern_sound _ _ E)). reflexivity. }
  unfold Parser.parseIndonesianDate.
  destruct (Parser.date_pattern text) as [[[d w] y]|] eqn:E; [|exact Hfall].
  destruct (Hdmy d w y (date_pattern_sound _ _ _ _ E)) as [Hm Hi].
  unfold month_name in Hm. unfold inherited_name in Hi.
  unfold Parser.month_value.
  destruct (Parser.own_month Parser.months (toLowerCase w)); [discriminate Hm|].
  rewrite Hi. exact Hfall.
Qed.

Lemma date_from_dateless (doc : Document) (sels : list (list N)) :
  Forall (dateless doc) sels -> Parser.date_from doc sels = None.
Proof.
  induction 1 as [|sel rest Hsel _ IH]; cbn [Parser.date_from]; [reflexivity|].
  unfold dateless in Hsel. unfold Parser.first.
  destruct (select doc sel) as [|element others]; cbn [head Parser.attr_of Parser.text_of].
  - exact IH.
  - destruct Hsel as [Hattr Htext].
    rewrite (parseIndonesianDate_unparseable _ Htext).
    assert (Ha : match attr doc element (lit "datetime") with
                 | Some datetime =>
                     if truthy datetime && date_string_valid datetime
                     then Some (DateOfString datetime) else None
                 | None => None
                 end = None).
    { destruct (attr doc element (lit "datetime")) as [[|u dt]|]; try reflexivity.
      rewrite Hattr. reflexivity. }
    rewrite Ha. destruct (truthy (trim (text doc element))); exact IH.
Qed.

End WithPlatform.

(** C6 (as amended): [parseArticle] returns nothing exactly when no
    selector of the title list yields a trimmed text that is non-empty and
    longer than ten units.  When it returns a document, its title is the
    text of the first selector that qualifies with every run of white
    space made one space and trimmed; its body is absent exactly when no
    content selector yields one; its timestamp is absent when no date
    selector is configured, and when no date selector finds a timestamp:
    each matches nothing, or an element without a [datetime] attribute the
    platform parses whose text has no day-month-year group with a month
    name (or a name every object inherits) and no ISO group the platform
    parses.  Neither body nor timestamp decides whether a document is
    returned. *)
Theorem parseArticle_title `{StringApi} `{Dom} `{DateApi}
    (html url : list N) (config : NewsPortalConfig) :
  let doc := stripped html config in
  let titles := fallback_list (titleSelector config) in
  (Parser.parseArticle html url config = None
   <-> Forall (fun sel => qualifies doc sel = false) titles)
  /\ (forall a, Parser.parseArticle html url config = Some a ->
        (exists before sel rest,
           titles = before ++ sel :: rest
           /\ Forall (fun s => qualifies doc s = false) before
           /\ qualifies doc sel = true
           /\ title a = trim (replace_space_runs (rendered doc sel)))
        /\ Types.url a = url
        /\ portal a = name config
        /\ (content a = None
            <-> Forall (fun sel => yields_body doc sel = false)
                       (fallback_list (contentSelector config)))
        /\ (dateSelector config = None -> publishedAt a = None)
        /\ (forall selector,
              dateSelector config = Some selector ->
              Forall (dateless doc) (fallback_list selector) ->
              publishedAt a = None)).
Proof.
  intros doc titles.
  pose proof (title_from_first doc titles) as Ht.
  unfold Parser.parseArticle, Parser.extractTitle.
  rewrite strip_stripped. fold doc.
  change (Parser.selectors_of (titleSelector config)) with titles.
  destruct (Parser.title_from doc titles) as [t|].
  - destruct Ht as (before & sel & rest & Es & Hb & Hq & ->).
    assert (Htr : truthy (Parser.cleanText (rendered doc sel)) = true).
    { destruct (rendered_trimmed doc sel) as [raw Er].
      unfold qualifies in Hq. apply andb_true_iff in Hq as [Hq _].
      rewrite Er in *. apply cleanText_truthy, Hq. }
    rewrite Htr. cbn [negb].
    split.
    + split; [discriminate|]. intros Hall. exfalso.
      rewrite Es in Hall. apply Forall_app in Hall as [_ Hall].
      apply Forall_cons in Hall as [Hs _]. congruence.
    + intros a [= <-]. cbn [title Types.url portal content publishedAt].
      split; [exists before, sel, rest; repeat split; auto; apply cleanText_collapse|].
      split; [reflexivity|]. split; [reflexivity|]. split; [|split].
      * apply content_from_none.
      * intros ->. reflexivity.
      * intros selector -> Hall. cbn [Parser.extractDate].
        destruct (truthy selector); cbn [negb]; [|reflexivity].
        apply date_from_dateless, Hall.
  - split.
    + split; [intros _; exact Ht | reflexivity].
    + discriminate.
Qed.

Local Existing Instances Toy.strings Toy.article_dom Toy.dates.

(** The article page of the example has a heading that qualifies and no
    time element: a document is returned, without a timestamp. *)
Lemma parseArticle_title_witness :
  option_map publishedAt
    (Parser.parseArticle (lit "ARTICLE") FetcherSpec.example_url Toy.detik)
  = Some None.
Proof.
  destruct (parseArticle_title (lit "ARTICLE") FetcherSpec.example_url Toy.detik)
    as (H1 & H2).
  destruct (Parser.parseArticle (lit "ARTICLE") FetcherSpec.example_url Toy.detik)
    as [a|].
  - destruct (H2 a eq_refl) as (_ & _ & _ & _ & _ & Hdate).
    cbn [option_map]. f_equal. apply (Hdate (lit "time")); [reflexivity|].
    repeat constructor.
  - exfalso. destruct H1 as [H1 _]. specialize (H1 eq_refl).
    apply Forall_cons in H1 as [_ H1]. apply Forall_cons in H1 as [H1 _].
    vm_compute in H1. discriminate H1.
Defined.

(** C6 as stated fails: the heading of the example page reads with two
    runs of two spaces; the title of the returned document has single
    spaces, so it is not the qualifying text itself. *)
Lemma parseArticle_title_is_cleaned :
  rendered (stripped (lit "ARTICLE") Toy.detik) (lit "h1") = lit "Saham  BBCA  naik"
  /\ qualifies (stripped (lit "ARTICLE") Toy.detik) (lit "h1") = true
  /\ option_map title
       (Parser.parseArticle (lit "ARTICLE") FetcherSpec.example_url Toy.detik)
     = Some (lit "Saham BBCA naik").
Proof. repeat split; vm_compute; reflexivity. Qed.

(** A time element that reads [3 constructor 2025]: the word names no
    month but a property every object inherits, and the timestamp of the
    document is an invalid date instead of none. *)
Lemma parseArticle_inherited_month :
  inherited_name (lit "constructor") = true
  /\ option_map publishedAt
       (Parser.parseArticle (lit "ODD") FetcherSpec.example_url Toy.detik)
     = Some (Some InvalidDate).
Proof. split; vm_compute; reflexivity. Qed.

End ArticleFacts.

(** ** The orchestrator *)

Module CrawlerFacts.

Import Fetcher FetcherSpec RetryFacts Crawler CrawlerSpec.

(** *** Requests made by the fetcher and the limiter *)

Lemma fetches_snoc_fetch (t : list Event) (url : list N) :
  fetches (t ++ [EvFetch url]) = fetches t ++ [url].
Proof. rewrite fetches_app. reflexivity. Qed.

Lemma fetches_snoc_sleep (t : list Event) (ms : Z) :
  fetches (t ++ [EvSleep ms]) = fetches t.
Proof. rewrite fetches_app. cbn. apply app_nil_r. Qed.

Lemma waitForDomain_fetches rl domain delayMs w :
  fetches (trace (snd (waitForDomain rl domain delayMs w))) = fetches (trace w).
Proof.
  unfold waitForDomain. cbn [snd].
  destruct (_ <? _)%Z; [|reflexivity].
  cbn [sleep trace]. apply fetches_snoc_sleep.
Qed.

Lemma retry_loop_fetches url opts (fuel : nat) : forall a le w,
  exists n, (n <= fuel)%nat /\ (1 <= fuel -> 1 <= n)%nat
    /\ fetches (trace (snd (retry_loop fuel a url opts le w)))
       = fetches (trace w) ++ repeat url n.
Proof.
  induction fuel as [|fuel IH]; intros a le w.
  - exists 0%nat. cbn. rewrite app_nil_r. repeat split; lia.
  - cbn [retry_loop]. destruct (http_get url w) as [o w1] eqn:Hg.
    assert (Ht : fetches (trace w1) = fetches (trace w) ++ [url]).
    { replace w1 with (snd (http_get url w)) by (rewrite Hg; reflexivity).
      cbn [http_get snd trace]. apply fetches_snoc_fetch. }
    destruct (attempt_result o) as [e|html].
    + destruct (no_retry (classify (timeout opts) e)).
      * exists 1%nat. cbn [snd repeat]. rewrite Ht. repeat split; lia.
      * match goal with |- context [retry_loop fuel ?a' url opts ?le' ?w'] =>
          destruct (IH a' le' w') as (n & Hn & _ & E);
          assert (Hw : fetches (trace w') = fetches (trace w1))
        end.
        { destruct (_ <? _)%Z; [|reflexivity].
          cbn [sleep trace]. apply fetches_snoc_sleep. }
        exists (S n). rewrite E, Hw, Ht, <- app_assoc. cbn [repeat app].
        repeat split; lia.
    + exists 1%nat. cbn [snd repeat]. rewrite Ht. repeat split; lia.
Qed.

Lemma retry_loop_clock url opts (fuel : nat) : forall a le w,
  (now w <= now (snd (retry_loop fuel a url opts le w)))%Z.
Proof.
  induction fuel as [|fuel IH]; intros a le w; [cbn; lia|].
  cbn [retry_loop]. destruct (http_get url w) as [o w1] eqn:Hg.
  assert (Ht : (now w <= now w1)%Z).
  { replace w1 with (snd (http_get url w)) by (rewrite Hg; reflexivity).
    cbn [http_get snd now]. lia. }
  destruct (attempt_result o) as [e|html]; [|exact Ht].
  destruct (no_retry (classify (timeout opts) e)); [exact Ht|].
  match goal with |- context [retry_loop fuel ?a' url opts ?le' ?w'] =>
    pose proof (IH a' le' w') as Hi;
    assert (Hw : (now w1 <= now w')%Z)
  end.
  { destruct (_ <? _)%Z; [apply LimiterFacts.sleep_clock | lia]. }
  lia.
Qed.

(** The clock does not run backwards during a call. *)
Lemma fetchWithRetry_clock url options w :
  (now w <= now (snd (fetchWithRetry url options w)))%Z.
Proof. unfold fetchWithRetry. apply retry_loop_clock. Qed.

(** With the default options a call makes one, two or three requests,
    all of them for its URL. *)
Lemma fetchWithRetry_fetches url w :
  exists n, (1 <= n <= 3)%nat
    /\ fetches (trace (snd (fetchWithRetry url no_options w)))
       = fetches (trace w) ++ repeat url n.
Proof.
  unfold fetchWithRetry.
  change (Z.to_nat (nullish 2%Z (retries (spread DEFAULT_FETCH_OPTIONS no_options)) + 1))
    with 3%nat.
  destruct (retry_loop_fetches url (spread DEFAULT_FETCH_OPTIONS no_options) 3
              0%Z None w) as (n & Hn & H1 & E).
  exists n. split; [lia | exact E].
Qed.

(** *** One link *)

Section WithPlatform.
Context `{StringApi} `{Dom} `{UrlApi} `{DateApi} `{Database}.

Variable config : NewsPortalConfig.
Variable domain : list N.

(** What one iteration of the article loop does to the frame: it never
    throws, and the kind of its link decides which counters move and
    whether an error is recorded. *)
Lemma article_step_run (url : list N) (f : Frame) :
  let k := link_kind config domain url f in
  exists f',
    article_step config domain url f = (inr tt, f')
    /\ loc_articlesFound f' = loc_articlesFound f
    /\ loc_articlesCrawled f' = (loc_articlesCrawled f + bump (parsed k))%Z
    /\ loc_newArticles f' = (loc_newArticles f + bump (stored k))%Z
    /\ (exists extra, loc_errors f' = loc_errors f ++ extra
                      /\ Z.of_nat (length extra) = bump (threw k))
    /\ world f' = snd (fetchWithRetry url no_options (fetch_world config domain f))
    /\ (stored k = false -> store f' = store f).
Proof.
  intros k. subst k.
  unfold link_kind, fetch_world, article_step, try_catch, article_try, bind,
    waitForDomainM, fetchWithRetryM, modify, push_error.
  destruct (waitForDomain (limiter f) domain (delayMs config) (world f))
    as [rl w1] eqn:Ew.
  cbn [snd world set_world set_limiter store limiter].
  destruct (fetchWithRetry url no_options w1) as [[e|html] w2] eqn:Ef; cbn [fst snd].
  - eexists. split; [reflexivity|].
    cbn [loc_articlesFound loc_articlesCrawled loc_newArticles loc_errors world store
         set_world set_limiter parsed stored threw bump].
    repeat split; try lia.
    eexists. split; [reflexivity|]. reflexivity.
  - destruct (Parser.parseArticle html url config) as [article|] eqn:Ep.
    + destruct (truthy (title article)) eqn:Et; cbn [negb].
      * unfold incr_articlesCrawled, isArticleDuplicate, gets, insertM, incr_newArticles,
          modify, ret.
        cbn [snd world set_world set_limiter store limiter].
        fold (insert_of article).
        change (Deduplicator.generateContentHash (title article) (content article))
          with (contentHash (insert_of article)).
        destruct (getNewsArticleByHash (store f) (contentHash (insert_of article)))
          as [row|] eqn:Ed.
        -- eexists. split; [reflexivity|].
           cbn [loc_articlesFound loc_articlesCrawled loc_newArticles loc_errors world
                store set_world set_limiter parsed stored threw bump].
           repeat split; try lia.
           exists []. rewrite app_nil_r. split; reflexivity.
        -- cbn [store]. destruct (insertNewsArticle (store f) (insert_of article))
             as [e|s'] eqn:Ei.
           ++ eexists. split; [reflexivity|].
              cbn [loc_articlesFound loc_articlesCrawled loc_newArticles loc_errors
                   world store set_world set_limiter parsed stored threw bump].
              repeat split; try lia.
              eexists. split; [reflexivity|]. reflexivity.
           ++ eexists. split; [reflexivity|].
              cbn [loc_articlesFound loc_articlesCrawled loc_newArticles loc_errors
                   world store set_world set_limiter set_store parsed stored threw bump].
              repeat split; try lia; try discriminate.
              exists []. rewrite app_nil_r. split; reflexivity.
      * eexists. split; [reflexivity|].
        cbn [loc_articlesFound loc_articlesCrawled loc_newArticles loc_errors world store
             set_world set_limiter parsed stored threw bump].
        repeat split; try lia.
        exists []. rewrite app_nil_r. split; reflexivity.
    + eexists. split; [reflexivity|].
      cbn [loc_articlesFound loc_articlesCrawled loc_newArticles loc_errors world store
           set_world set_limiter parsed stored threw bump].
      repeat split; try lia.
      exists []. rewrite app_nil_r. split; reflexivity.
Qed.

Lemma count_cons (p : LinkKind -> bool) (k : LinkKind) (ks : list LinkKind) :
  count p (k :: ks) = (bump (p k) + count p ks)%Z.
Proof.
  unfold count, bump. cbn [List.filter]. destruct (p k); cbn [length]; lia.
Qed.

(** *** The article loop *)

Lemma for_each_run (urls : list (list N)) : forall f : Frame,
  let ks := link_kinds config domain urls f in
  exists f',
    for_each urls (article_step config domain) f = (inr tt, f')
    /\ loc_articlesFound f' = loc_articlesFound f
    /\ loc_articlesCrawled f' = (loc_articlesCrawled f + count parsed ks)%Z
    /\ loc_newArticles f' = (loc_newArticles f + count stored ks)%Z
    /\ (exists extra, loc_errors f' = loc_errors f ++ extra
                      /\ Z.of_nat (length extra) = count threw ks)
    /\ (exists counts,
          length counts = length urls
          /\ Forall (fun n => 1 <= n <= 3)%nat counts
          /\ fetches (trace (world f'))
             = fetches (trace (world f)) ++ request_blocks urls counts)
    /\ (count stored ks = 0%Z -> store f' = store f).
Proof.
  induction urls as [|url rest IH]; intros f ks; subst ks.
  - exists f. cbn [for_each link_kinds]. unfold ret, count. cbn.
    repeat split; try lia.
    + exists []. rewrite app_nil_r. split; reflexivity.
    + exists []. rewrite app_nil_r. repeat split. constructor.
  - cbn [for_each link_kinds]. unfold bind.
    destruct (article_step_run url f)
      as (f1 & E1 & Hf & Hc & Hn & (x1 & He & Hx) & Hw & Hs).
    rewrite E1. cbn [snd].
    destruct (IH f1) as (f' & E' & Hf' & Hc' & Hn' & (x' & He' & Hx') & Hb & Hs').
    exists f'. split; [exact E'|]. rewrite !count_cons.
    split; [congruence|]. split; [lia|]. split; [lia|]. split; [|split].
    + exists (x1 ++ x'). rewrite He', He, <- app_assoc. split; [reflexivity|].
      rewrite length_app. lia.
    + destruct Hb as (counts & Hl & Hall & Ht).
      destruct (fetchWithRetry_fetches url (fetch_world config domain f))
        as (n & Hn13 & En).
      exists (n :: counts). split; [cbn; lia|]. split; [constructor; assumption|].
      rewrite Ht, Hw, En. unfold fetch_world. rewrite waitForDomain_fetches.
      cbn [request_blocks]. rewrite <- !app_assoc. reflexivity.
    + intros Hz.
      assert (Hpos : (0 <= count stored (link_kinds config domain rest f1))%Z)
        by (unfold count; lia).
      assert (Hk : stored (link_kind config domain url f) = false).
      { destruct (stored (link_kind config domain url f)); [cbn in Hz; lia | reflexivity]. }
      rewrite Hs' by (rewrite Hk in Hz; cbn [bump] in Hz; lia).
      apply Hs, Hk.
Qed.

(** *** What reaches the store *)

(** A link adds a record exactly when it is of the kind [Stored]. *)
Lemma link_row_stored (url : list N) (f : Frame) :
  stored (link_kind config domain url f) = true
  <-> exists row, link_row config domain url f = Some row.
Proof.
  unfold link_row, link_kind.
  destruct (fst (fetchWithRetry url no_options (fetch_world config domain f)))
    as [e|html]; [split; [discriminate | intros [row [=]]]|].
  destruct (Parser.parseArticle html url config) as [article|];
    [|split; [discriminate | intros [row [=]]]].
  destruct (stored _); split; eauto; try discriminate. intros [row [=]].
Qed.

(** The store after one iteration: the store before it, with the record
    of the link inserted when the link adds one. *)
Lemma article_step_store (url : list N) (f : Frame) :
  match link_row config domain url f with
  | Some row =>
      insertNewsArticle (store f) row
      = inr (store (snd (article_step config domain url f)))
  | None => store (snd (article_step config domain url f)) = store f
  end.
Proof.
  unfold link_row, link_kind, fetch_world, article_step, try_catch, article_try, bind,
    waitForDomainM, fetchWithRetryM, modify, push_error.
  destruct (waitForDomain (limiter f) domain (delayMs config) (world f))
    as [rl w1] eqn:Ew.
  cbn [snd world set_world set_limiter store limiter].
  destruct (fetchWithRetry url no_options w1) as [[e|html] w2] eqn:Ef; cbn [fst snd];
    [reflexivity|].
  destruct (Parser.parseArticle html url config) as [article|] eqn:Ep; [|reflexivity].
  destruct (truthy (title article)) eqn:Et; cbn [negb stored]; [|reflexivity].
  unfold incr_articlesCrawled, isArticleDuplicate, gets, insertM, incr_newArticles,
    modify, ret.
  cbn [snd world set_world set_limiter store limiter].
  fold (insert_of article).
  change (Deduplicator.generateContentHash (title article) (content article))
    with (contentHash (insert_of article)).
  destruct (getNewsArticleByHash (store f) (contentHash (insert_of article)))
    as [row|] eqn:Ed; cbn [stored]; [reflexivity|].
  cbn [store].
  destruct (insertNewsArticle (store f) (insert_of article)) as [e|s'] eqn:Ei;
    cbn [stored snd store set_store]; [reflexivity | exact Ei].
Qed.

(** The store after the loop: the records of the stored links, inserted
    in the order of the links; there are as many as [newArticles] counts. *)
Lemma for_each_store (urls : list (list N)) : forall f : Frame,
  insert_all (store f) (stored_rows config domain urls f)
  = Some (store (snd (for_each urls (article_step config domain) f)))
  /\ Z.of_nat (length (stored_rows config domain urls f))
     = count stored (link_kinds config domain urls f).
Proof.
  induction urls as [|url rest IH]; intros f.
  - split; reflexivity.
  - cbn [for_each stored_rows link_kinds]. unfold bind.
    destruct (article_step_run url f) as (f1 & E1 & _).
    pose proof (article_step_store url f) as Hstore.
    pose proof (link_row_stored url f) as Hkind.
    rewrite E1 in *. cbn [snd] in *.
    destruct (IH f1) as [IHs IHn]. rewrite count_cons.
    destruct (link_row config domain url f) as [row|].
    + assert (Hk : stored (link_kind config domain url f) = true)
        by (apply Hkind; eauto).
      rewrite Hk. cbn [insert_all length bump]. rewrite Hstore.
      split; [exact IHs | lia].
    + assert (Hk : stored (link_kind config domain url f) = false).
      { destruct (stored _); [|reflexivity].
        destruct Hkind as [Hkind _]. destruct (Hkind eq_refl) as [row [=]]. }
      rewrite Hk, <- Hstore. cbn [bump]. split; [exact IHs | lia].
Qed.

End WithPlatform.

(** *** One portal *)

Section Portal.
Context `{StringApi} `{Dom} `{UrlApi} `{DateApi} `{Database}.

Variable config : NewsPortalConfig.

(** Fetching the listing leaves the local variables alone and makes one to
    three requests, all for the base URL. *)
Lemma open_listing_run (f : Frame) :
  exists r f1,
    open_listing config f = (r, f1)
    /\ loc_errors f1 = loc_errors f
    /\ loc_articlesFound f1 = loc_articlesFound f
    /\ loc_articlesCrawled f1 = loc_articlesCrawled f
    /\ loc_newArticles f1 = loc_newArticles f
    /\ store f1 = store f
    /\ (now (world f) <= now (world f1))%Z
    /\ exists m, (1 <= m <= 3)%nat
         /\ fetches (trace (world f1))
            = fetches (trace (world f)) ++ repeat (baseUrl config) m.
Proof.
  unfold open_listing, bind, emit, waitForDomainM, fetchWithRetryM, modify.
  cbn [world limiter set_world set_limiter].
  destruct (waitForDomain (limiter f) (getDomain (baseUrl config)) (delayMs config)
              (world f)) as [rl w1] eqn:Ew.
  cbn [world limiter set_world set_limiter].
  destruct (fetchWithRetry (baseUrl config) no_options w1) as [r w2] eqn:Ef.
  eexists _, _. split; [reflexivity|].
  cbn [loc_errors loc_articlesFound loc_articlesCrawled loc_newArticles store world
       set_world set_limiter].
  repeat split.
  - pose proof (LimiterFacts.waitForDomain_records (limiter f)
        (getDomain (baseUrl config)) (delayMs config) (world f)) as (_ & Hle & _).
    rewrite Ew in Hle. cbn [snd] in Hle.
    pose proof (fetchWithRetry_clock (baseUrl config) no_options w1) as Hle2.
    rewrite Ef in Hle2. cbn [snd] in Hle2. lia.
  - destruct (fetchWithRetry_fetches (baseUrl config) w1) as (m & Hm & E).
    exists m. split; [exact Hm|]. rewrite Ef in E. cbn [snd] in E. rewrite E.
    pose proof (waitForDomain_fetches (limiter f) (getDomain (baseUrl config))
                  (delayMs config) (world f)) as Hw.
    rewrite Ew in Hw. cbn [snd] in Hw. rewrite Hw. reflexivity.
Qed.

(** When the listing cannot be fetched, the [catch] block of
    [crawlPortal] builds the result. *)
Lemma crawlPortal_listing_failed (f f1 : Frame) (e : JsError) :
  open_listing config (init_locals f) = (inl e, f1) ->
  exists f',
    crawlPortal config f =
      (inr {| r_portal := name config; success := false;
              articlesFound := 0; articlesCrawled := 0; newArticles := 0;
              errors := [lit "Portal error: " ++ err_message e];
              durationMs := (now (world f1) - now (world f))%Z |}, f')
    /\ world f' = world f1 /\ store f' = store f.
Proof.
  intros Eo.
  destruct (open_listing_run (init_locals f))
    as (r & f1' & Eo' & He & Hf & Hc & Hn & Hs & _).
  rewrite Eo in Eo'. injection Eo' as <- <-.
  unfold crawlPortal, bind, modify, date_now, gets, try_catch, portal_try, bind.
  rewrite Eo.
  unfold portal_catch, bind, emit, push_error, modify, finish.
  cbn [loc_errors loc_articlesFound loc_articlesCrawled loc_newArticles store world
       init_locals] in *.
  rewrite He, Hf, Hc, Hn.
  eexists. split; [reflexivity|]. split; [reflexivity | exact Hs].
Qed.

(** When the listing is fetched, the result is built from the local
    variables the article loop leaves. *)
Lemma crawlPortal_listing_fetched (f f1 : Frame) (html : list N) :
  open_listing config (init_locals f) = (inr html, f1) ->
  exists f3 f',
    for_each (take MAX_ARTICLES_PER_PORTAL (listing_links config html))
             (article_step config (getDomain (baseUrl config)))
             (loop_frame config html f1) = (inr tt, f3)
    /\ crawlPortal config f =
        (inr {| r_portal := name config; success := true;
                articlesFound := loc_articlesFound f3;
                articlesCrawled := loc_articlesCrawled f3;
                newArticles := loc_newArticles f3;
                errors := loc_errors f3;
                durationMs := (now (world f3) - now (world f))%Z |}, f')
    /\ world f' = world f3 /\ store f' = store f3.
Proof.
  intros Eo.
  destruct (for_each_run config (getDomain (baseUrl config))
              (take MAX_ARTICLES_PER_PORTAL (listing_links config html))
              (loop_frame config html f1)) as (f3 & E3 & _).
  exists f3. pose proof E3 as E3'.
  unfold crawlPortal, bind, modify, date_now, gets, try_catch, portal_try, bind.
  rewrite Eo.
  unfold crawl_articles, bind.
  unfold loop_frame, listing_links, bind in E3.
  destruct (set_articlesFound _ f1) as [[e1|[]] g1] eqn:E1; [discriminate E1|].
  unfold gets at 1. unfold gets at 1 in E3.
  destruct (emit LogInfo _ g1) as [[e2|[]] g2] eqn:E2; [discriminate E2|].
  cbn [snd] in E3. rewrite E3.
  unfold gets, emit, modify, finish.
  cbn [loc_errors loc_articlesFound loc_articlesCrawled loc_newArticles store world
       init_locals].
  eexists. split; [exact E3'|]. split; [reflexivity|]. split; reflexivity.
Qed.

Lemma loop_frame_fields (html : list N) (f1 : Frame) :
  loc_articlesFound (loop_frame config html f1)
    = Z.of_nat (length (listing_links config html))
  /\ loc_articlesCrawled (loop_frame config html f1) = loc_articlesCrawled f1
  /\ loc_newArticles (loop_frame config html f1) = loc_newArticles f1
  /\ loc_errors (loop_frame config html f1) = loc_errors f1
  /\ world (loop_frame config html f1) = world f1
  /\ store (loop_frame config html f1) = store f1.
Proof. repeat split. Qed.

Lemma link_kinds_length (domain : list N) (urls : list (list N)) : forall f : Frame,
  length (link_kinds config domain urls f) = length urls.
Proof.
  induction urls as [|u rest IH]; intros f; cbn [link_kinds length]; [reflexivity|].
  rewrite IH. reflexivity.
Qed.

Lemma count_bounds (ks : list LinkKind) :
  (0 <= count stored ks <= count parsed ks)%Z
  /\ (count parsed ks <= Z.of_nat (length ks))%Z.
Proof.
  induction ks as [|k ks [[IH0 IH1] IH2]].
  - unfold count. cbn. lia.
  - rewrite !count_cons. cbn [length]. destruct k; cbn [stored parsed bump]; lia.
Qed.

(** A frame after the opening statements of [crawlPortal] and the fetch of
    the listing: the local variables still have their initial values. *)
Lemma open_listing_initial (f f1 : Frame) r :
  open_listing config (init_locals f) = (r, f1) ->
  loc_errors f1 = [] /\ loc_articlesFound f1 = 0%Z
  /\ loc_articlesCrawled f1 = 0%Z /\ loc_newArticles f1 = 0%Z
  /\ store f1 = store f
  /\ exists m, (1 <= m <= 3)%nat
       /\ fetches (trace (world f1))
          = fetches (trace (world f)) ++ repeat (baseUrl config) m.
Proof.
  intros Eo.
  destruct (open_listing_run (init_locals f))
    as (r' & f1' & Eo' & He & Hf & Hc & Hn & Hs & _ & Hm).
  rewrite Eo in Eo'. injection Eo' as <- <-.
  repeat split; assumption.
Qed.

End Portal.

End CrawlerFacts.

(** ** What a portal's crawl guarantees *)

Module PortalFacts.

Import Fetcher FetcherSpec Crawler CrawlerSpec CrawlerFacts.

Lemma request_blocks_subset (urls : list (list N)) : forall counts u,
  u ∈ request_blocks urls counts -> u ∈ urls.
Proof.
  induction urls as [|x urls IH]; intros [|n counts] u Hu; cbn [request_blocks] in Hu;
    try (apply elem_of_nil in Hu; contradiction).
  apply elem_of_app in Hu as [Hu|Hu].
  - apply list_elem_of_In, repeat_spec in Hu. subst u. left.
  - right. eapply IH, Hu.
Qed.

(** C10: the counts of a [CrawlResult] satisfy
    [0 <= newArticles <= articlesCrawled <= min(articlesFound, 15)].  When
    the listing was fetched, [articlesFound] is the number of links
    extracted, [articlesCrawled] the number of processed links that were
    fetched and parsed into a document with a title (duplicates included),
    and [newArticles] the number of those that were no duplicates and that
    the store accepted; the store the crawl leaves is the store it found
    with the records of exactly these links inserted, in the order of the
    links.  When the listing could not be fetched the store is left as it
    was. *)
Theorem crawlPortal_counts `{StringApi} `{Dom} `{UrlApi} `{DateApi} `{Database}
    (config : NewsPortalConfig) (f : Frame) :
  exists res f',
    crawlPortal config f = (inr res, f')
    /\ (0 <= newArticles res <= articlesCrawled res)%Z
    /\ (articlesCrawled res <= Z.min (articlesFound res) 15)%Z
    /\ (forall e f1,
          open_listing config (init_locals f) = (inl e, f1) -> store f' = store f)
    /\ (forall html f1,
          open_listing config (init_locals f) = (inr html, f1) ->
          let urls := take MAX_ARTICLES_PER_PORTAL (listing_links config html) in
          let start := loop_frame config html f1 in
          let ks := link_kinds config (getDomain (baseUrl config)) urls start in
          let rows := stored_rows config (getDomain (baseUrl config)) urls start in
          articlesFound res = Z.of_nat (length (listing_links config html))
          /\ articlesCrawled res = count parsed ks
          /\ newArticles res = count stored ks
          /\ newArticles res = Z.of_nat (length rows)
          /\ insert_all (store f) rows = Some (store f')).
Proof.
  destruct (open_listing config (init_locals f)) as [[e|html] f1] eqn:Eo.
  - destruct (crawlPortal_listing_failed config f f1 e Eo) as (f' & E & _ & Hst).
    eexists _, f'. split; [exact E|]. cbn [newArticles articlesCrawled articlesFound].
    split; [lia|]. split; [lia|]. split; [intros _ _ _; exact Hst|].
    intros html f1' [=].
  - destruct (crawlPortal_listing_fetched config f f1 html Eo)
      as (f3 & f' & E3 & E & _ & Hst).
    destruct (for_each_run config (getDomain (baseUrl config))
                (take MAX_ARTICLES_PER_PORTAL (listing_links config html))
                (loop_frame config html f1)) as (f3' & E3' & Hf & Hc & Hn & _).
    rewrite E3 in E3'. injection E3' as <-.
    destruct (for_each_store config (getDomain (baseUrl config))
                (take MAX_ARTICLES_PER_PORTAL (listing_links config html))
                (loop_frame config html f1)) as [Hrows Hlen].
    rewrite E3 in Hrows. cbn [snd] in Hrows.
    destruct (open_listing_initial config f f1 _ Eo) as (_ & _ & Hc0 & Hn0 & Hs0 & _).
    destruct (loop_frame_fields config html f1) as (Lf & Lc & Ln & _ & _ & Ls).
    rewrite Lf in Hf. rewrite Lc, Hc0 in Hc. rewrite Ln, Hn0 in Hn.
    rewrite Ls, Hs0, <- Hst in Hrows.
    set (ks := link_kinds config (getDomain (baseUrl config))
                 (take MAX_ARTICLES_PER_PORTAL (listing_links config html))
                 (loop_frame config html f1)) in *.
    destruct (count_bounds ks) as [[B0 B1] B2].
    assert (Hlen' : (Z.of_nat (length ks)
                    <= Z.min (Z.of_nat (length (listing_links config html))) 15)%Z).
    { unfold ks. rewrite link_kinds_length, length_take.
      unfold MAX_ARTICLES_PER_PORTAL. lia. }
    eexists _, f'. split; [exact E|]. cbn [newArticles articlesCrawled articlesFound].
    rewrite Hf, Hc, Hn.
    split; [lia|]. split; [lia|]. split; [intros e f1' [=]|].
    intros html' f1' [= <- <-]. cbn zeta. fold ks.
    split; [reflexivity|]. split; [lia|]. split; [lia|].
    split; [lia | exact Hrows].
Qed.

(** C9: when the listing yields more than fifteen links, the requests of
    the crawl are those for the listing followed, in document order, by
    those for the first fifteen links, one to three requests each; none of
    the requests for documents is for one of the remaining links, and
    [articlesFound] is the number of all links. *)
Theorem crawlPortal_cap `{StringApi} `{Dom} `{UrlApi} `{DateApi} `{Database}
    (config : NewsPortalConfig) (f f1 : Frame) (html : list N) :
  open_listing config (init_locals f) = (inr html, f1) ->
  (15 < length (listing_links config html))%nat ->
  exists res f',
    crawlPortal config f = (inr res, f')
    /\ articlesFound res = Z.of_nat (length (listing_links config html))
    /\ exists m counts,
         (1 <= m <= 3)%nat
         /\ length counts = 15%nat
         /\ Forall (fun n => 1 <= n <= 3)%nat counts
         /\ fetches (trace (world f'))
            = fetches (trace (world f)) ++ repeat (baseUrl config) m
              ++ request_blocks (take 15 (listing_links config html)) counts
         /\ (forall u, u ∈ drop 15 (listing_links config html) ->
               u ∉ request_blocks (take 15 (listing_links config html)) counts).
Proof.
  intros Eo Hlong.
  destruct (crawlPortal_listing_fetched config f f1 html Eo)
    as (f3 & f' & E3 & E & Hw & _).
  destruct (for_each_run config (getDomain (baseUrl config))
              (take MAX_ARTICLES_PER_PORTAL (listing_links config html))
              (loop_frame config html f1))
    as (f3' & E3' & Hf & _ & _ & _ & (counts & Hl & Hall & Ht) & _).
  rewrite E3 in E3'. injection E3' as <-.
  destruct (open_listing_initial config f f1 _ Eo) as (_ & _ & _ & _ & _ & m & Hm & Em).
  destruct (loop_frame_fields config html f1) as (Lf & _ & _ & _ & Lw & _).
  eexists _, f'. split; [exact E|]. cbn [articlesFound].
  split; [rewrite Hf; exact Lf|].
  exists m, counts. split; [exact Hm|].
  split; [rewrite Hl, length_take; unfold MAX_ARTICLES_PER_PORTAL; lia|].
  split; [exact Hall|]. split.
  - rewrite Hw, Ht, Lw, Em, <- app_assoc. reflexivity.
  - intros u Hu Hin. apply request_blocks_subset in Hin.
    pose proof (LinkFacts.parseArticleLinks_NoDup html config) as Hnd.
    fold (listing_links config html) in Hnd.
    rewrite <- (take_drop 15 (listing_links config html)) in Hnd.
    apply NoDup_app in Hnd as (_ & Hdis & _).
    exact (Hdis u Hin Hu).
Qed.

(** C8 (as amended): when the listing is fetched and no link is extracted
    from it, [crawlPortal] returns, without throwing and without
    requesting any document, a result with [success = true], all three
    counts zero and an empty list of errors; the store is left as it was. *)
Theorem crawlPortal_no_links `{StringApi} `{Dom} `{UrlApi} `{DateApi} `{Database}
    (config : NewsPortalConfig) (f f1 : Frame) (html : list N) :
  open_listing config (init_locals f) = (inr html, f1) ->
  listing_links config html = [] ->
  exists res f',
    crawlPortal config f = (inr res, f')
    /\ success res = true
    /\ errors res = []
    /\ articlesFound res = 0%Z
    /\ articlesCrawled res = 0%Z
    /\ newArticles res = 0%Z
    /\ store f' = store f
    /\ exists m, (1 <= m <= 3)%nat
         /\ fetches (trace (world f'))
            = fetches (trace (world f)) ++ repeat (baseUrl config) m.
Proof.
  intros Eo Hnone.
  destruct (crawlPortal_listing_fetched config f f1 html Eo)
    as (f3 & f' & E3 & E & Hw & Hs).
  rewrite Hnone in E3. cbn [take for_each] in E3. unfold ret in E3.
  injection E3 as <-.
  destruct (open_listing_initial config f f1 _ Eo)
    as (He & _ & Hc & Hn & Hst & m & Hm & Em).
  destruct (loop_frame_fields config html f1) as (Lf & Lc & Ln & Le & Lw & Ls).
  eexists _, f'. split; [exact E|].
  cbn [success errors articlesFound articlesCrawled newArticles].
  rewrite Lf, Lc, Ln, Le, Hnone, He, Hc, Hn.
  repeat split; try reflexivity.
  - rewrite Hs, Ls. exact Hst.
  - exists m. split; [exact Hm|]. rewrite Hw, Lw. exact Em.
Qed.

(** C7 (as amended): a link that is fetched but does not parse into a
    document with a title is skipped in silence: the step neither throws
    nor records an error, no counter and nothing in the store changes, and
    the loop goes on with the next link from the frame the step leaves.
    The errors of a result come from the links whose processing threw
    only, and a result is marked successful as soon as the listing was
    fetched, whatever happens to its documents. *)
Theorem crawlPortal_parse_failure `{StringApi} `{Dom} `{UrlApi} `{DateApi} `{Database}
    (config : NewsPortalConfig) :
  (forall (domain url : list N) (f : Frame),
     link_kind config domain url f = ParseFailed ->
     exists f',
       article_step config domain url f = (inr tt, f')
       /\ loc_errors f' = loc_errors f
       /\ loc_articlesFound f' = loc_articlesFound f
       /\ loc_articlesCrawled f' = loc_articlesCrawled f
       /\ loc_newArticles f' = loc_newArticles f
       /\ store f' = store f
       /\ forall rest,
            for_each (url :: rest) (article_step config domain) f
            = for_each rest (article_step config domain) f')
  /\ (forall (f f1 : Frame) (html : list N),
        open_listing config (init_locals f) = (inr html, f1) ->
        exists res f',
          crawlPortal config f = (inr res, f')
          /\ success res = true
          /\ Z.of_nat (length (errors res))
             = count threw
                 (link_kinds config (getDomain (baseUrl config))
                    (take MAX_ARTICLES_PER_PORTAL (listing_links config html))
                    (loop_frame config html f1))).
Proof.
  split.
  - intros domain url f Hk.
    destruct (article_step_run config domain url f)
      as (f' & E & Hf & Hc & Hn & (extra & He & Hx) & _ & Hs).
    rewrite Hk in *. cbn [parsed stored threw bump] in *.
    exists f'. split; [exact E|].
    destruct extra; [|cbn in Hx; lia]. rewrite app_nil_r in He.
    repeat split; try assumption; try lia.
    + apply Hs. reflexivity.
    + intros rest. cbn [for_each]. unfold bind. rewrite E. reflexivity.
  - intros f f1 html Eo.
    destruct (crawlPortal_listing_fetched config f f1 html Eo)
      as (f3 & f' & E3 & E & _).
    destruct (for_each_run config (getDomain (baseUrl config))
                (take MAX_ARTICLES_PER_PORTAL (listing_links config html))
                (loop_frame config html f1))
      as (f3' & E3' & _ & _ & _ & (extra & He & Hx) & _).
    rewrite E3 in E3'. injection E3' as <-.
    destruct (open_listing_initial config f f1 _ Eo) as (He0 & _).
    destruct (loop_frame_fields config html f1) as (_ & _ & _ & Le & _).
    eexists _, f'. split; [exact E|]. cbn [success errors].
    split; [reflexivity|]. rewrite He, Le, He0. cbn [app]. exact Hx.
Qed.

End PortalFacts.

(** ** The portal theorems on the example site *)

Module SiteFacts.

Import Fetcher FetcherSpec Crawler CrawlerSpec PortalFacts.

(** The crawl of a listing with one link whose page has no heading. *)
Lemma crawl_bare :
  fst (Site.crawl (Site.serving (lit "ONE") (lit "BARE")))
  = inr {| r_portal := lit "Detik"; success := true;
           articlesFound := 1; articlesCrawled := 0; newArticles := 0;
           errors := []; durationMs := 1500 |}.
Proof. vm_compute. reflexivity. Qed.

Import Site.

Local Existing Instances Toy.strings Site.dom Toy.urls Toy.dates Toy.database.

(** C7 as stated fails: on the example site the only link of the listing
    is fetched and does not parse (its page has no heading), yet the
    result of the crawl has an empty list of errors. *)
Lemma crawlPortal_parse_failure_not_recorded :
  let net := Site.serving (lit "ONE") (lit "BARE") in
  let f1 := snd (open_listing Toy.detik (init_locals (Site.fresh net))) in
  listing_links Toy.detik (lit "ONE") = [url123]
  /\ link_kind Toy.detik host url123 (loop_frame Toy.detik (lit "ONE") f1) = ParseFailed
  /\ fst (Site.crawl net)
     = inr {| r_portal := lit "Detik"; success := true;
              articlesFound := 1; articlesCrawled := 0; newArticles := 0;
              errors := []; durationMs := 1500 |}.
Proof. repeat split; vm_compute; reflexivity. Qed.

Lemma crawlPortal_parse_failure_witness :
  let net := Site.serving (lit "ONE") (lit "BARE") in
  let f := loop_frame Toy.detik (lit "ONE")
             (snd (open_listing Toy.detik (init_locals (Site.fresh net)))) in
  exists f',
    article_step Toy.detik host url123 f = (inr tt, f')
    /\ loc_errors f' = loc_errors f.
Proof.
  intros net f.
  destruct (crawlPortal_parse_failure Toy.detik) as [H1 _].
  destruct (H1 host url123 f) as (f' & E & He & _).
  - vm_compute. reflexivity.
  - exists f'. split; assumption.
Defined.

(** C8 as stated fails: on the example site a listing without links gives
    a successful result with an empty list of errors. *)
Lemma crawlPortal_no_links_not_recorded :
  listing_links Toy.detik (lit "EMPTY") = []
  /\ fst (Site.crawl (Site.serving (lit "EMPTY") (lit "BARE")))
     = inr {| r_portal := lit "Detik"; success := true;
              articlesFound := 0; articlesCrawled := 0; newArticles := 0;
              errors := []; durationMs := 0 |}.
Proof. split; vm_compute; reflexivity. Qed.

Lemma crawlPortal_no_links_witness :
  exists res f',
    Site.crawl (Site.serving (lit "EMPTY") (lit "BARE")) = (inr res, f')
    /\ success res = true /\ errors res = [].
Proof.
  destruct (crawlPortal_no_links Toy.detik
              (Site.fresh (Site.serving (lit "EMPTY") (lit "BARE")))
              (snd (open_listing Toy.detik
                      (init_locals (Site.fresh (Site.serving (lit "EMPTY") (lit "BARE"))))))
              (lit "EMPTY"))
    as (res & f' & E & Hs & He & _).
  - vm_compute. reflexivity.
  - vm_compute. reflexivity.
  - exists res, f'. repeat split; assumption.
Defined.

(** A listing of seventeen links: all are counted, fifteen are requested. *)
Lemma crawlPortal_cap_witness :
  exists res f',
    Site.crawl (Site.serving (lit "MANY") (lit "ARTICLE")) = (inr res, f')
    /\ articlesFound res = 17%Z.
Proof.
  destruct (crawlPortal_cap Toy.detik
              (Site.fresh (Site.serving (lit "MANY") (lit "ARTICLE")))
              (snd (open_listing Toy.detik
                      (init_locals (Site.fresh (Site.serving (lit "MANY") (lit "ARTICLE"))))))
              (lit "MANY"))
    as (res & f' & E & Hf & _).
  - vm_compute. reflexivity.
  - vm_compute. lia.
  - exists res, f'. split; [exact E|]. rewrite Hf. vm_compute. reflexivity.
Defined.

(** A listing with one link whose page parses and is new to the store:
    the article is counted, and the store holds one record. *)
Lemma crawlPortal_counts_witness :
  exists res f',
    Site.crawl (Site.serving (lit "ONE") (lit "ARTICLE")) = (inr res, f')
    /\ articlesFound res = 1%Z /\ articlesCrawled res = 1%Z /\ newArticles res = 1%Z
    /\ map ins_url (store f') = [url123].
Proof.
  destruct (crawlPortal_counts Toy.detik
              (Site.fresh (Site.serving (lit "ONE") (lit "ARTICLE"))))
    as (res & f' & E & _ & _ & _ & Hk).
  specialize (Hk (lit "ONE")
                (snd (open_listing Toy.detik
                        (init_locals (Site.fresh (Site.serving (lit "ONE") (lit "ARTICLE"))))))).
  destruct Hk as (Hf & Hc & Hn & _ & Hs); [vm_compute; reflexivity|].
  exists res, f'. split; [exact E|].
  rewrite Hf, Hc, Hn.
  assert (Hst : map ins_url (store f') = [url123]).
  { remember (store f') as s eqn:Es. clear -Hs.
    vm_compute in Hs. injection Hs as <-. reflexivity. }
  repeat split; try exact Hst; vm_compute; reflexivity.
Defined.

(** The requests of the crawl of a listing with seventeen links: the
    listing, then the first fifteen articles, each asked for once since
    the site answers 404. *)
Lemma crawl_many_requests :
  fetches (trace (world (snd (Site.crawl (Site.serving (lit "MANY") (lit "ARTICLE"))))))
  = lit "https://www.detik.com/"
    :: map (fun k => lit "https://www.detik.com/read/" ++ string_of_N (N.of_nat k))
           (seq 1 15).
Proof. vm_compute. reflexivity. Qed.

(** Crawling the same site again finds the article in the store. *)
Lemma crawl_twice :
  let first := crawlPortal kontan (fresh second_only) in
  option_map newArticles
    (match fst (crawlPortal kontan (snd first)) with
     | inr r => Some r
     | inl _ => None
     end)
  = Some 0%Z.
Proof. vm_compute. reflexivity. Qed.

End SiteFacts.

(** ** Crawls that run together *)

Module AsyncFacts.

Import Fetcher FetcherSpec Crawler CrawlerSpec AsyncSpec.

Section Logic.
Context `{StringApi} `{Dom} `{UrlApi} `{DateApi} `{Database}.

(** *** The rely and the guarantee *)

Lemma same_network_refl (f : Frame) : same_network f f.
Proof. reflexivity. Qed.

Lemma same_network_trans (f1 f2 f3 : Frame) :
  same_network f1 f2 -> same_network f2 f3 -> same_network f1 f3.
Proof. unfold same_network. congruence. Qed.

Lemma same_locals_refl (f : Frame) : same_locals f f.
Proof. repeat split. Qed.

Lemma same_locals_trans (f1 f2 f3 : Frame) :
  same_locals f1 f2 -> same_locals f2 f3 -> same_locals f1 f3.
Proof. unfold same_locals. intros (?&?&?&?) (?&?&?&?). repeat split; congruence. Qed.

Lemma safe_settled_inv {A} (Q : Result A -> Frame -> Prop) (r : Result A) (f : Frame) :
  safe Q (Async.Settled r f) -> Q r f.
Proof. inversion 1. assumption. Qed.

(** A call that ends well still does when the others have run. *)
Lemma safe_pending_inv {A} (Q : Result A -> Frame -> Prop) (own : Frame)
    (resume : Frame -> Async.Co A) :
  safe Q (Async.Pending own resume) ->
  forall f', same_locals own f' -> same_network own f' ->
    same_network f' (Async.frame_of (resume f')) /\ safe Q (resume f').
Proof.
  inversion 1 as [|f r Hg Hn]. intros f' Hl Hnet.
  split; [apply Hg | apply Hn]; assumption.
Qed.

Lemma safe_weaken {A} (Q Q' : Result A -> Frame -> Prop) (c : Async.Co A) :
  (forall r f, Q r f -> Q' r f) -> safe Q c -> safe Q' c.
Proof.
  intros HQ. induction 1 as [r f Hq | f resume Hg _ IH].
  - apply safe_settled, HQ, Hq.
  - apply safe_pending; assumption.
Qed.

(** *** Rules *)

Lemma safe_and_then {A B} (Q1 : Result A -> Frame -> Prop)
    (Q : Result B -> Frame -> Prop) (k : Result A -> Async.Async B) (c : Async.Co A) :
  safe Q1 c ->
  (forall r f, Q1 r f -> same_network f (Async.frame_of (k r f)) /\ safe Q (k r f)) ->
  same_network (Async.frame_of c) (Async.frame_of (Async.and_then c k))
  /\ safe Q (Async.and_then c k).
Proof.
  intros Hs Hk. induction Hs as [r f Hq | f resume Hg _ IH]; cbn [Async.and_then Async.frame_of].
  - apply Hk, Hq.
  - split; [reflexivity|]. apply safe_pending.
    + intros f' Hl Hn. destruct (IH f' Hl Hn) as [Hn' _].
      eapply same_network_trans; [apply Hg; assumption | exact Hn'].
    + intros f' Hl Hn. apply IH; assumption.
Qed.

Lemma triple_conseq {A} (P P' : Frame -> Prop) (Q Q' : Result A -> Frame -> Prop)
    (m : Async.Async A) :
  triple P m Q ->
  (forall f, P' f -> P f) -> (forall r f, Q r f -> Q' r f) ->
  triple P' m Q'.
Proof.
  intros Hm HP HQ f Hf. destruct (Hm f (HP f Hf)) as [Hn Hs].
  split; [exact Hn | eapply safe_weaken; eassumption].
Qed.

Lemma triple_ret {A} (P : Frame -> Prop) (a : A) :
  triple P (Async.ret a) (fun r f => r = inr a /\ P f).
Proof. intros f Hf. split; [reflexivity | apply safe_settled; auto]. Qed.

Lemma triple_throw {A} (P : Frame -> Prop) (e : JsError) :
  triple P (@Async.throw _ A e) (fun r f => r = inl e /\ P f).
Proof. intros f Hf. split; [reflexivity | apply safe_settled; auto]. Qed.

Lemma triple_lift {A} (P : Frame -> Prop) (Q : Result A -> Frame -> Prop) (m : M A) :
  (forall f, P f -> same_network f (snd (m f)) /\ Q (fst (m f)) (snd (m f))) ->
  triple P (Async.lift m) Q.
Proof.
  intros Hm f Hf. unfold Async.lift. destruct (Hm f Hf) as [Hn Hq].
  destruct (m f) as [r f']. cbn [fst snd Async.frame_of] in *.
  split; [exact Hn | apply safe_settled, Hq].
Qed.

Lemma triple_and_then {A B} (P : Frame -> Prop) (Q1 : Result A -> Frame -> Prop)
    (Q : Result B -> Frame -> Prop) (m : Async.Async A) (k : Result A -> Async.Async B) :
  triple P m Q1 ->
  (forall r, triple (Q1 r) (k r) Q) ->
  triple P (fun f => Async.and_then (m f) k) Q.
Proof.
  intros Hm Hk f Hf. destruct (Hm f Hf) as [Hn Hs].
  destruct (safe_and_then Q1 Q k (m f) Hs) as [Hn' Hs'].
  { intros r f' Hq. apply Hk, Hq. }
  split; [eapply same_network_trans; eassumption | exact Hs'].
Qed.

Lemma triple_bind {A B} (P : Frame -> Prop) (Q1 : Result A -> Frame -> Prop)
    (Q : Result B -> Frame -> Prop) (m : Async.Async A) (k : A -> Async.Async B) :
  triple P m Q1 ->
  (forall a, triple (Q1 (inr a)) (k a) Q) ->
  (forall e f, Q1 (inl e) f -> Q (inl e) f) ->
  triple P (Async.bind m k) Q.
Proof.
  intros Hm Hk He. unfold Async.bind.
  eapply triple_and_then; [exact Hm|]. intros [e|a]; [|apply Hk].
  intros f Hf. split; [reflexivity | apply safe_settled, He, Hf].
Qed.

Lemma triple_try_catch {A} (P : Frame -> Prop) (Q1 Q : Result A -> Frame -> Prop)
    (m : Async.Async A) (handler : JsError -> Async.Async A) :
  triple P m Q1 ->
  (forall a f, Q1 (inr a) f -> Q (inr a) f) ->
  (forall e, triple (Q1 (inl e)) (handler e) Q) ->
  triple P (Async.try_catch m handler) Q.
Proof.
  intros Hm Ha He. unfold Async.try_catch.
  eapply triple_and_then; [exact Hm|]. intros [e|a]; [apply He|].
  intros f Hf. split; [reflexivity | apply safe_settled, Ha, Hf].
Qed.

(** An [await] lets the other calls run before the caller goes on. *)
Lemma triple_await {A} (P : Frame -> Prop) (Q : Result A -> Frame -> Prop)
    (m : Async.Async A) :
  triple P m Q -> (forall r, stable (Q r)) -> triple P (Async.await m) Q.
Proof.
  intros Hm Hst. unfold Async.await.
  eapply triple_and_then; [exact Hm|]. intros r f Hf.
  split; [reflexivity|]. apply safe_pending.
  - intros f' _ _. reflexivity.
  - intros f' Hl Hn. apply safe_settled. eapply Hst; eassumption.
Qed.

End Logic.

(** *** The functions of fetcher.ts *)

Section Network.
Context `{StringApi} `{Dom} `{UrlApi} `{DateApi} `{Database}.

Variable net : nat -> jsstring -> FetchOutcome.
Variable L : Frame -> Prop.
Hypothesis L_local : local L.

Lemma on_network_stable : stable (on_network net L).
Proof.
  intros f f' [Hn Hl] Hloc Hnet. unfold same_network in Hnet.
  split; [rewrite Hnet; exact Hn | eapply L_local; eassumption].
Qed.

Lemma same_locals_set_world (w : World) (f : Frame) : same_locals f (set_world w f).
Proof. repeat split. Qed.

Lemma same_locals_set_limiter (rl : RateLimiter) (f : Frame) :
  same_locals f (set_limiter rl f).
Proof. repeat split. Qed.

Lemma on_network_set_world (w : World) (f f0 : Frame) :
  on_network net L f0 -> same_locals f0 f -> network w = net ->
  on_network net L (set_world w f).
Proof.
  intros [_ Hl] Hloc Hw. split; [exact Hw|].
  eapply L_local; [|exact Hl].
  eapply same_locals_trans; [exact Hloc | apply same_locals_set_world].
Qed.

Lemma triple_pure {A} (phi : Prop) (P : Frame -> Prop) (m : Async.Async A)
    (Q : Result A -> Frame -> Prop) :
  (phi -> triple P m Q) -> triple (fun f => phi /\ P f) m Q.
Proof. intros Hm f [Hphi Hf]. apply Hm; assumption. Qed.

Lemma triple_settled {A} (P : Frame -> Prop) (m : Async.Async A)
    (Q : Result A -> Frame -> Prop) :
  (forall f, P f -> exists r f', m f = Async.Settled r f' /\ same_network f f' /\ Q r f') ->
  triple P m Q.
Proof.
  intros Hm f Hf. destruct (Hm f Hf) as (r & f' & -> & Hn & Hq).
  split; [exact Hn | apply safe_settled, Hq].
Qed.

Lemma triple_sleep (ms : Z) :
  triple (on_network net L) (Async.sleep ms)
         (fun r f => r = inr tt /\ on_network net L f).
Proof.
  intros f Hf. unfold Async.sleep. cbn [Async.frame_of].
  split; [reflexivity|]. apply safe_pending.
  - intros f' _ _. reflexivity.
  - intros f' Hloc Hnet. apply safe_settled. split; [reflexivity|].
    eapply on_network_set_world; [exact Hf | | ].
    + eapply same_locals_trans; [apply same_locals_set_world | exact Hloc].
    + unfold same_network in Hnet. cbn [Async.fire network]. rewrite Hnet.
      destruct Hf as [Hn _]. exact Hn.
Qed.

Lemma triple_fetch (url : jsstring) :
  triple (on_network net L) (Async.fetch url)
         (fun r f => (exists k, r = inr (net k url)) /\ on_network net L f).
Proof.
  intros f Hf. unfold Async.fetch, Async.send. cbn [Async.frame_of].
  split; [reflexivity|]. apply safe_pending.
  - intros f' _ _. reflexivity.
  - intros f' Hloc Hnet. apply safe_settled. split.
    + exists (requests (world f)). destruct Hf as [<- _]. reflexivity.
    + eapply on_network_set_world; [exact Hf | | ].
      * eapply same_locals_trans; [apply same_locals_set_world | exact Hloc].
      * unfold same_network in Hnet. cbn [Async.receive network]. rewrite Hnet.
        destruct Hf as [Hn _]. exact Hn.
Qed.

(** What follows the request in one attempt. *)
Lemma triple_attempt_rest (o : FetchOutcome) :
  triple (on_network net L)
         (match o with
          | Rejected name message => Async.throw (platform_error name message)
          | Response status statusText body =>
              if negb (response_ok status)
              then Async.throw (FetchError (lit "HTTP_ERROR")
                                  (lit "HTTP " ++ string_of_N status ++ lit ": "
                                   ++ statusText))
              else Async.await (Async.response_text body)
          end)
         (fun r f => r = attempt_result o /\ on_network net L f).
Proof.
  destruct o as [status statusText body | name message]; cbn [attempt_result].
  - destruct (negb (response_ok status)).
    + apply triple_throw.
    + apply triple_await.
      * destruct body; [apply triple_ret | apply triple_throw].
      * intros r f f' [Hr Hf] Hloc Hnet. split; [exact Hr|].
        eapply on_network_stable; eassumption.
  - apply triple_throw.
Qed.

Lemma triple_attempt (url : jsstring) :
  triple (on_network net L) (Async.attempt url)
         (fun r f => (exists k, r = attempt_result (net k url)) /\ on_network net L f).
Proof.
  unfold Async.attempt. eapply triple_bind; [apply triple_fetch | |].
  - intros o. apply triple_pure. intros [k Hk]. injection Hk as ->.
    eapply triple_conseq; [apply triple_attempt_rest | intros f0 Hp; exact Hp |].
    intros r f [Hr Hf]. split; [exists k; exact Hr | exact Hf].
  - intros e f [[k Hk] _]. discriminate Hk.
Qed.

Lemma triple_retry_loop (url : jsstring) (opts : FetchOptions) (fuel : nat) :
  forall (attempt_no : Z) (lastError : option JsError),
  (fuel = 0%nat -> exists k e, attempt_result (net k url) = inl e) ->
  triple (on_network net L) (Async.retry_loop fuel attempt_no url opts lastError)
         (fun r f => fetched net url r /\ on_network net L f).
Proof.
  induction fuel as [|fuel IH]; intros attempt_no lastError Hfuel;
    cbn [Async.retry_loop].
  - eapply triple_conseq; [apply triple_throw | intros f0 Hp; exact Hp |].
    intros r f [-> Hf]. split; [apply Hfuel; reflexivity | exact Hf].
  - eapply triple_try_catch; [apply triple_attempt | |].
    + intros html f [[k Hk] Hf]. split; [exists k; symmetry; exact Hk | exact Hf].
    + intros e. apply triple_pure. intros [k Hk].
      assert (Hfailed : exists k e, attempt_result (net k url) = inl e)
        by (exists k, e; symmetry; exact Hk).
      destruct (no_retry (classify (Fetcher.timeout opts) e)).
      * eapply triple_conseq; [apply triple_throw | intros f0 Hp; exact Hp |].
        intros r f [Hr Hf]. rewrite Hr. split; [exact Hfailed | exact Hf].
      * eapply triple_bind with (Q1 := fun r f => r = inr tt /\ on_network net L f).
        -- destruct (attempt_no <? nullish 2 (retries opts))%Z;
             [apply triple_sleep | apply triple_ret].
        -- intros []. eapply triple_conseq;
             [apply IH; intros _; exact Hfailed
             | intros f [_ Hf]; exact Hf | intros r f Hq; exact Hq].
        -- intros e' f [He' _]. discriminate He'.
Qed.

Lemma triple_fetchWithRetry (url : jsstring) :
  triple (on_network net L) (Async.fetchWithRetry url no_options)
         (fun r f => fetched net url r /\ on_network net L f).
Proof.
  unfold Async.fetchWithRetry. apply triple_retry_loop. intros E. discriminate E.
Qed.

Lemma triple_waitForDomain (domain : jsstring) (delayMs : option Z) :
  triple (on_network net L) (Async.waitForDomain domain delayMs)
         (fun r f => r = inr tt /\ on_network net L f).
Proof.
  intros f Hf. unfold Async.waitForDomain.
  set (wait := if (_ <? _)%Z then _ else _).
  refine (triple_bind (on_network net L)
            (fun r f => r = inr tt /\ on_network net L f) _ wait _ _ _ _ f Hf).
  - subst wait. destruct (_ <? _)%Z; [apply triple_sleep | apply triple_ret].
  - intros []. apply triple_lift. intros f1 [_ [Hn Hl]]. cbn. split; [reflexivity|].
    split; [reflexivity|]. split; [exact Hn|].
    eapply L_local; [|exact Hl]. apply same_locals_set_limiter.
  - intros e f1 [He _]. discriminate He.
Qed.

(** Both are awaited by [crawlPortal]. *)
Lemma triple_await_waitForDomain (domain : jsstring) (delayMs : option Z) :
  triple (on_network net L) (Async.await (Async.waitForDomain domain delayMs))
         (fun r f => r = inr tt /\ on_network net L f).
Proof.
  apply triple_await; [apply triple_waitForDomain|].
  intros r f f' [Hr Hf] Hloc Hnet. split; [exact Hr|].
  eapply on_network_stable; eassumption.
Qed.

Lemma triple_await_fetchWithRetry (url : jsstring) :
  triple (on_network net L) (Async.await (Async.fetchWithRetry url no_options))
         (fun r f => fetched net url r /\ on_network net L f).
Proof.
  apply triple_await; [apply triple_fetchWithRetry|].
  intros r f f' [Hr Hf] Hloc Hnet. split; [exact Hr|].
  eapply on_network_stable; eassumption.
Qed.

End Network.

(** *** crawlPortal *)

Section Portal.
Context `{StringApi} `{Dom} `{UrlApi} `{DateApi} `{Database}.

Variable net : nat -> jsstring -> FetchOutcome.
Variable config : NewsPortalConfig.

Local Abbreviation found_is n := (fun f : Frame => loc_articlesFound f = n).

Lemma found_is_local (n : Z) : local (found_is n).
Proof. intros f f' (_ & E & _) Hf. congruence. Qed.

Lemma initial_locals_local : local initial_locals.
Proof.
  intros f f' (E1 & E2 & E3 & E4) (I1 & I2 & I3 & I4).
  repeat split; congruence.
Qed.

(** A statement without an [await], and what follows it. *)
Lemma triple_bind_lift {A B} (P : Frame -> Prop) (P1 : A -> Frame -> Prop)
    (Q : Result B -> Frame -> Prop) (m : M A) (k : A -> Async.Async B) :
  (forall f, P f -> exists a f', m f = (inr a, f') /\ same_network f f' /\ P1 a f') ->
  (forall a, triple (P1 a) (k a) Q) ->
  triple P (Async.bind (Async.lift m) k) Q.
Proof.
  intros Hm Hk. eapply triple_bind with (Q1 := fun r f => exists a, r = inr a /\ P1 a f).
  - apply triple_settled. intros f Hf. destruct (Hm f Hf) as (a & f' & E & Hn & Hp).
    exists (inr a), f'. unfold Async.lift. rewrite E.
    split; [reflexivity|]. split; [exact Hn|]. exists a. split; [reflexivity | exact Hp].
  - intros a. eapply triple_conseq; [apply (Hk a) | | intros r f Hq; exact Hq].
    intros f (a' & E & Hp). injection E as <-. exact Hp.
  - intros e f (a & E & _). discriminate E.
Qed.

Lemma triple_article_try (n : Z) (domain url : jsstring) :
  triple (on_network net (found_is n)) (Async.article_try config domain url)
         (fun _ f => on_network net (found_is n) f).
Proof.
  pose proof (found_is_local n) as Hlocal.
  unfold Async.article_try.
  eapply triple_bind; [apply triple_await_waitForDomain; exact Hlocal | |].
  2: { intros e f [_ Hf]. exact Hf. }
  intros []. eapply triple_conseq with (P := on_network net (found_is n));
    [ | intros f [_ Hf]; exact Hf | intros r f Hq; exact Hq].
  eapply triple_bind; [apply triple_await_fetchWithRetry; exact Hlocal | |].
  2: { intros e f [_ Hf]. exact Hf. }
  intros articleHtml. apply triple_settled. intros f [_ [Hn Hl]].
  destruct (Parser.parseArticle articleHtml url config) as [article|].
  2: { exists (inr tt), f. repeat split; assumption. }
  destruct (negb (truthy (title article))).
  { exists (inr tt), f. repeat split; assumption. }
  unfold Async.bind, Async.lift, Async.ret, Async.throw, incr_articlesCrawled,
    isArticleDuplicate, insertM, incr_newArticles, modify, gets.
  cbn [Async.and_then store].
  destruct (getNewsArticleByHash _ _).
  { eexists _, _. split; [reflexivity|]. repeat split; assumption. }
  cbn [Async.and_then store].
  destruct (insertNewsArticle _ _).
  - eexists _, _. split; [reflexivity|]. repeat split; assumption.
  - eexists _, _. split; [reflexivity|]. repeat split; assumption.
Qed.

Lemma triple_article_step (n : Z) (domain url : jsstring) :
  triple (on_network net (found_is n)) (Async.article_step config domain url)
         (fun r f => r = inr tt /\ on_network net (found_is n) f).
Proof.
  unfold Async.article_step. eapply triple_try_catch; [apply triple_article_try | |].
  - intros [] f Hf. split; [reflexivity | exact Hf].
  - intros e. apply triple_settled. intros f [Hn Hl].
    eexists _, _. split; [reflexivity|]. repeat split; assumption.
Qed.

Lemma triple_for_each (n : Z) (domain : jsstring) (urls : list (list N)) :
  triple (on_network net (found_is n))
         (Async.for_each urls (Async.article_step config domain))
         (fun r f => r = inr tt /\ on_network net (found_is n) f).
Proof.
  induction urls as [|url rest IH]; cbn [Async.for_each].
  - apply triple_ret.
  - eapply triple_bind; [apply triple_article_step | |].
    + intros []. eapply triple_conseq;
        [apply IH | intros f [_ Hf]; exact Hf | intros r f Hq; exact Hq].
    + intros e f [E _]. discriminate E.
Qed.

Lemma triple_open_listing :
  triple (on_network net initial_locals) (Async.open_listing config)
         (fun r f => fetched net (baseUrl config) r /\ on_network net initial_locals f).
Proof.
  pose proof initial_locals_local as Hlocal.
  unfold Async.open_listing.
  eapply triple_bind_lift with (P1 := fun _ => on_network net initial_locals).
  { intros f [Hn Hl]. eexists _, _. split; [reflexivity|]. repeat split; try assumption;
      apply Hl. }
  intros []. eapply triple_bind; [apply triple_await_waitForDomain; exact Hlocal | |].
  2: { intros e f [E _]. discriminate E. }
  intros []. eapply triple_conseq;
    [apply triple_await_fetchWithRetry; exact Hlocal
    | intros f [_ Hf]; exact Hf | intros r f Hq; exact Hq].
Qed.

Lemma triple_crawl_articles (L : Frame -> Prop) (listingHtml : jsstring) :
  triple (on_network net L) (Async.crawl_articles config listingHtml)
         (fun r f =>
            r = inr tt
            /\ on_network net
                 (found_is (Z.of_nat (length (Parser.parseArticleLinks listingHtml config))))
                 f).
Proof.
  unfold Async.crawl_articles.
  set (n := Z.of_nat (length (Parser.parseArticleLinks listingHtml config))).
  eapply triple_bind_lift with (P1 := fun _ => on_network net (found_is n)).
  { intros f [Hn _]. eexists _, _. split; [reflexivity|]. repeat split. exact Hn. }
  intros []. eapply triple_bind_lift with (P1 := fun _ => on_network net (found_is n)).
  { intros f Hf. eexists _, _. split; [reflexivity|]. split; [reflexivity | exact Hf]. }
  intros found. eapply triple_bind_lift with (P1 := fun _ => on_network net (found_is n)).
  { intros f [Hn Hl]. eexists _, _. split; [reflexivity|]. repeat split; assumption. }
  intros []. eapply triple_bind; [apply triple_for_each | |].
  2: { intros e f [E _]. discriminate E. }
  intros []. eapply triple_bind_lift with (P1 := fun _ => on_network net (found_is n)).
  { intros f [_ Hf]. eexists _, _. split; [reflexivity|]. split; [reflexivity | exact Hf]. }
  intros new. apply triple_settled. intros f [Hn Hl].
  eexists _, _. split; [reflexivity|]. repeat split; assumption.
Qed.

(** How the [try] block of [crawlPortal] ends. *)
Lemma triple_portal_try (startTime : Z) :
  triple (on_network net initial_locals) (Async.portal_try config startTime)
         (fun r f =>
            network (world f) = net
            /\ match r with
               | inr res =>
                   r_portal res = name config /\ success res = true
                   /\ exists k listingHtml,
                        attempt_result (net k (baseUrl config)) = inr listingHtml
                        /\ articlesFound res
                           = Z.of_nat (length (Parser.parseArticleLinks listingHtml config))
               | inl _ =>
                   initial_locals f
                   /\ exists k e, attempt_result (net k (baseUrl config)) = inl e
               end).
Proof.
  unfold Async.portal_try. eapply triple_bind; [apply triple_open_listing | |].
  2: { intros e f [Hfail [Hn Hl]]. split; [exact Hn|]. split; [exact Hl | exact Hfail]. }
  intros listingHtml. apply triple_pure. intros [k Hk].
  eapply triple_bind; [apply triple_crawl_articles | |].
  2: { intros e f [E _]. discriminate E. }
  intros []. apply triple_settled. intros f [_ [Hn Hl]].
  eexists _, _. split; [reflexivity|]. split; [reflexivity|]. split; [exact Hn|].
  cbn [r_portal success articlesFound]. split; [reflexivity|]. split; [reflexivity|].
  exists k, listingHtml. split; [exact Hk | exact Hl].
Qed.

Lemma crawled_intro (res : CrawlResult) :
  r_portal res = name config ->
  (success res = true
   /\ exists k listingHtml,
        attempt_result (net k (baseUrl config)) = inr listingHtml
        /\ articlesFound res
           = Z.of_nat (length (Parser.parseArticleLinks listingHtml config)))
  \/ (listing_failure config res
      /\ exists k e, attempt_result (net k (baseUrl config)) = inl e) ->
  crawled net config res.
Proof.
  intros Hname Hcases. split; [exact Hname|]. split; [exact Hcases|]. split.
  - intros Hserves. destruct Hcases as [[Hs _] | [_ (k & e & Hk)]]; [exact Hs|].
    destruct (Hserves k) as [html Hh]. congruence.
  - intros Hrefuses. destruct Hcases as [[_ (k & html & Hk & _)] | [Hf _]]; [|exact Hf].
    destruct (Hrefuses k) as [e He]. congruence.
Qed.

(** [crawlPortal] never throws, whatever runs beside it, and its result
    depends on the other crawls only through the answers of the network. *)
Lemma triple_crawlPortal :
  triple (fun f => network (world f) = net) (Async.crawlPortal config)
         (fun r f => network (world f) = net
                     /\ exists res, r = inr res /\ crawled net config res).
Proof.
  unfold Async.crawlPortal.
  eapply triple_bind_lift with (P1 := fun _ => on_network net initial_locals).
  { intros f Hn. eexists _, _. split; [reflexivity|]. repeat split. exact Hn. }
  intros [].
  eapply triple_bind_lift with (P1 := fun _ => on_network net initial_locals).
  { intros f Hf. eexists _, _. split; [reflexivity|]. split; [reflexivity | exact Hf]. }
  intros startTime. eapply triple_try_catch; [apply triple_portal_try | |].
  - intros res f [Hn (Hname & Hs & Hl)]. split; [exact Hn|]. exists res.
    split; [reflexivity|]. apply crawled_intro; [exact Hname|]. left. split; assumption.
  - intros e. apply triple_settled. intros f [Hn [(I1 & I2 & I3 & I4) Hfail]].
    eexists _, _. split; [reflexivity|]. split; [reflexivity|]. split; [exact Hn|].
    eexists. split; [reflexivity|]. apply crawled_intro; [reflexivity|]. right.
    split; [|exact Hfail].
    unfold listing_failure. cbn [success articlesFound articlesCrawled newArticles errors
                                 loc_errors loc_articlesFound loc_articlesCrawled
                                 loc_newArticles].
    repeat split; try assumption.
    rewrite I1. exists (err_message e). reflexivity.
Qed.

End Portal.

(** *** The event loop *)

Section EventLoop.
Context `{StringApi} `{Dom} `{UrlApi} `{DateApi} `{Database}.

Variable net : nat -> jsstring -> FetchOutcome.
Context {C A : Type}.
Variable R : C -> A -> Prop.

(** What the calls of a batch are to end with, and what is known of each
    while the batch runs. *)
Local Abbreviation ends c :=
  (fun (r : Result A) (f : Frame) =>
     network (world f) = net /\ exists a, r = inr a /\ R c a).

Local Abbreviation well c call :=
  (safe (ends c) call /\ network (world (Async.frame_of call)) = net).

Lemma with_locals_rely (own shared : Frame) :
  network (world own) = net -> network (world shared) = net ->
  same_locals own (Async.with_locals own shared)
  /\ same_network own (Async.with_locals own shared).
Proof.
  intros Ho Hs. split; [repeat split|].
  unfold same_network, Async.with_locals. cbn [world]. congruence.
Qed.

(** A call goes on in the shared state. *)
Lemma resume_in_well (c : C) (call : Async.Co A) (shared : Frame) :
  well c call -> network (world shared) = net ->
  well c (Async.resume_in shared call).
Proof.
  intros [Hs Ho] Hn. destruct call as [r f | own resume]; cbn [Async.resume_in].
  - split; assumption.
  - cbn [Async.frame_of] in Ho.
    destruct (with_locals_rely own shared Ho Hn) as [Hloc Hnet].
    destruct (safe_pending_inv _ own resume Hs _ Hloc Hnet) as [Hg Hnext].
    split; [exact Hnext|].
    unfold same_network in Hg, Hnet. rewrite Hg, Hnet. exact Ho.
Qed.

Lemma finish_well (c : C) (call : Async.Co A) :
  safe (ends c) call -> network (world (Async.frame_of call)) = net ->
  exists a f', Async.finish call = (inr a, f') /\ R c a /\ network (world f') = net.
Proof.
  induction 1 as [r f (Hn & a & -> & Ha) | f resume Hg _ IH]; intros Ho;
    cbn [Async.finish Async.frame_of] in *.
  - exists a, f. repeat split; assumption.
  - apply IH; [apply same_locals_refl | apply same_network_refl |].
    pose proof (Hg f (same_locals_refl f) (same_network_refl f)) as Hg'.
    unfold same_network in Hg'. rewrite Hg'. exact Ho.
Qed.

Lemma settle_well (c : C) (call : Async.Co A) (shared : Frame) :
  well c call -> network (world shared) = net ->
  exists a f', Async.settle shared call = (inr a, f') /\ R c a
               /\ network (world f') = net.
Proof.
  intros Hw Hn. destruct call as [r f | own resume]; cbn [Async.settle].
  - destruct Hw as [Hs _].
    destruct (safe_settled_inv _ r f Hs) as (_ & a & -> & Ha).
    exists a, shared. repeat split; assumption.
  - destruct (resume_in_well c _ shared Hw Hn) as [Hs Ho].
    apply finish_well; assumption.
Qed.

(** [Promise.all] does not reject, and when it is fulfilled every call
    has ended as it should. *)
Lemma all_settled_well (cs : list C) (calls : list (Async.Co A)) :
  Forall2 (fun c call => well c call) cs calls ->
  forall r, Async.all_settled calls = Some r ->
  exists values, r = inr values /\ Forall2 R cs values.
Proof.
  induction 1 as [|c call cs calls [Hs _] _ IH]; intros r E; cbn [Async.all_settled] in E.
  - injection E as <-. exists []. split; [reflexivity | constructor].
  - destruct call as [r0 f | own resume].
    + destruct (safe_settled_inv _ r0 f Hs) as (_ & a & -> & Ha).
      destruct (Async.all_settled calls) as [[e|values]|] eqn:Er.
      * destruct (IH _ eq_refl) as (values & Ev & _). discriminate Ev.
      * destruct (IH _ eq_refl) as (values' & Ev & Hall). injection Ev as <-.
        injection E as <-. exists (a :: values). split; [reflexivity|].
        constructor; assumption.
      * discriminate E.
    + destruct (Async.all_settled calls) as [[e|values]|] eqn:Er.
      * destruct (IH _ eq_refl) as (values & Ev & _). discriminate Ev.
      * discriminate E.
      * discriminate E.
Qed.

(** A turn of the event loop keeps what is known of the calls. *)
Lemma resume_nth_well (cs : list C) (calls : list (Async.Co A)) :
  Forall2 (fun c call => well c call) cs calls ->
  forall (n : nat) (shared : Frame), network (world shared) = net ->
  Forall2 (fun c call => well c call) cs (fst (Async.resume_nth n calls shared))
  /\ network (world (snd (Async.resume_nth n calls shared))) = net.
Proof.
  induction 1 as [|c call cs calls Hw Hrest IH]; intros n shared Hn;
    cbn [Async.resume_nth].
  - split; [constructor | exact Hn].
  - destruct (Async.is_pending call).
    + destruct n as [|n].
      * cbn [fst snd]. destruct (resume_in_well c call shared Hw Hn) as [Hs Ho].
        split; [constructor; [split; assumption | exact Hrest] | exact Ho].
      * destruct (IH n shared Hn) as [Hall Hn'].
        destruct (Async.resume_nth n calls shared) as [rest' f']. cbn [fst snd] in *.
        split; [constructor; assumption | exact Hn'].
    + destruct (IH n shared Hn) as [Hall Hn'].
      destruct (Async.resume_nth n calls shared) as [rest' f']. cbn [fst snd] in *.
      split; [constructor; assumption | exact Hn'].
Qed.

Lemma drain_well (cs : list C) (calls : list (Async.Co A)) :
  Forall2 (fun c call => well c call) cs calls ->
  forall shared : Frame, network (world shared) = net ->
  exists values f',
    Async.drain calls shared = (inr values, f')
    /\ Forall2 R cs values /\ network (world f') = net.
Proof.
  induction 1 as [|c call cs calls Hw _ IH]; intros shared Hn; cbn [Async.drain].
  - exists [], shared. repeat split; [constructor | exact Hn].
  - destruct (settle_well c call shared Hw Hn) as (a & f1 & -> & Ha & Hn1).
    destruct (IH f1 Hn1) as (values & f' & -> & Hall & Hn').
    exists (a :: values), f'. repeat split; [constructor; assumption | exact Hn'].
Qed.

(** Whatever order the platform chooses, the batch ends with one value
    per call. *)
Lemma event_loop_well (cs : list C) (schedule : list nat) :
  forall (calls : list (Async.Co A)) (shared : Frame),
  Forall2 (fun c call => well c call) cs calls ->
  network (world shared) = net ->
  exists values f',
    Async.event_loop schedule calls shared = (inr values, f')
    /\ Forall2 R cs values /\ network (world f') = net.
Proof.
  induction schedule as [|n later IH]; intros calls shared Hall Hn;
    cbn [Async.event_loop]; destruct (Async.all_settled calls) as [r|] eqn:E.
  - destruct (all_settled_well cs calls Hall r E) as (values & -> & Hv).
    exists values, shared. repeat split; assumption.
  - apply drain_well; assumption.
  - destruct (all_settled_well cs calls Hall r E) as (values & -> & Hv).
    exists values, shared. repeat split; assumption.
  - set (k := (n mod _)%nat).
    destruct (resume_nth_well cs calls Hall k shared Hn) as [Hall' Hn'].
    destruct (Async.resume_nth k calls shared) as [calls' shared']. cbn [fst snd] in *.
    apply IH; assumption.
Qed.

End EventLoop.

(** *** crawlAllPortals *)

Section Run.
Context `{StringApi} `{Dom} `{UrlApi} `{DateApi} `{Database}.

Variable net : nat -> jsstring -> FetchOutcome.

Lemma start_all_well (batch : list NewsPortalConfig) : forall f : Frame,
  network (world f) = net ->
  Forall2 (fun config call =>
             safe (fun r f' => network (world f') = net
                               /\ exists res, r = inr res /\ crawled net config res) call
             /\ network (world (Async.frame_of call)) = net)
          batch (fst (Async.start_all batch f))
  /\ network (world (snd (Async.start_all batch f))) = net.
Proof.
  induction batch as [|config rest IH]; intros f Hn; cbn [Async.start_all].
  - split; [constructor | exact Hn].
  - destruct (triple_crawlPortal net config f Hn) as [Hnet Hs].
    assert (Ho : network (world (Async.frame_of (Async.crawlPortal config f))) = net).
    { unfold same_network in Hnet. rewrite Hnet. exact Hn. }
    destruct (IH _ Ho) as [Hall Hn'].
    destruct (Async.start_all rest _) as [calls f']. cbn [fst snd] in *.
    split; [constructor; [split; assumption | exact Hall] | exact Hn'].
Qed.

(** [Promise.all] over a batch is fulfilled with the results of the
    crawls, in the order of the batch. *)
Lemma promise_all_run (schedule : list nat) (batch : list NewsPortalConfig) (f : Frame) :
  network (world f) = net ->
  exists batchResults f',
    Async.promise_all schedule batch f = (inr batchResults, f')
    /\ Forall2 (crawled net) batch batchResults
    /\ network (world f') = net.
Proof.
  intros Hn. unfold Async.promise_all.
  destruct (start_all_well batch f Hn) as [Hall Hn'].
  destruct (Async.start_all batch f) as [calls f1]. cbn [fst snd] in *.
  apply (event_loop_well net (crawled net) batch schedule calls f1 Hall Hn').
Qed.

Lemma batches_loop_run (order : nat -> list nat) (batches : list (list NewsPortalConfig)) :
  forall (n : nat) (results : list CrawlResult) (f : Frame),
  network (world f) = net ->
  exists later f',
    Async.batches_loop order n batches results f = (inr (results ++ later), f')
    /\ Forall2 (crawled net) (concat batches) later.
Proof.
  induction batches as [|batch rest IH]; intros n results f Hn;
    cbn [Async.batches_loop concat].
  - exists [], f. unfold ret. rewrite app_nil_r. split; [reflexivity | constructor].
  - unfold bind. destruct (promise_all_run (order n) batch f Hn) as (rs1 & f1 & -> & Hall1 & Hn1).
    unfold sleepM, modify.
    destruct (IH (S n) (results ++ rs1) (set_world (sleep 2000 (world f1)) f1))
      as (rs2 & f' & -> & Hall2); [exact Hn1|].
    exists (rs1 ++ rs2), f'. rewrite app_assoc.
    split; [reflexivity | apply Forall2_app; assumption].
Qed.

End Run.

(** *** A crawl that runs alone *)

(** Resumed each time in the state it stopped in, a call computes what the
    sequential reading of the code computes. *)
Section Alone.
Context `{StringApi} `{Dom} `{UrlApi} `{DateApi} `{Database}.

Lemma finish_and_then {A B} (c : Async.Co A) (k : Result A -> Async.Async B) :
  Async.finish (Async.and_then c k)
  = let '(r, f) := Async.finish c in Async.finish (k r f).
Proof.
  induction c as [r f | f resume IH]; cbn [Async.and_then Async.finish];
    [reflexivity | apply IH].
Qed.

Lemma run_ret {A} (a : A) (f : Frame) : Async.run (Async.ret a) f = ret a f.
Proof. reflexivity. Qed.

Lemma run_lift {A} (m : M A) (f : Frame) : Async.run (Async.lift m) f = m f.
Proof. unfold Async.run, Async.lift. destruct (m f). reflexivity. Qed.

Lemma run_await {A} (m : Async.Async A) (f : Frame) :
  Async.run (Async.await m) f = Async.run m f.
Proof.
  unfold Async.run, Async.await. rewrite finish_and_then.
  destruct (Async.finish (m f)). reflexivity.
Qed.

Lemma run_bind {A B} (m : Async.Async A) (k : A -> Async.Async B)
    (m' : M A) (k' : A -> M B) (f : Frame) :
  (forall f, Async.run m f = m' f) ->
  (forall a f, Async.run (k a) f = k' a f) ->
  Async.run (Async.bind m k) f = bind m' k' f.
Proof.
  intros Hm Hk. unfold Async.run, Async.bind, bind in *. rewrite finish_and_then.
  rewrite Hm. destruct (m' f) as [[e|a] f']; [reflexivity | apply Hk].
Qed.

Lemma run_try_catch {A} (m : Async.Async A) (handler : JsError -> Async.Async A)
    (m' : M A) (handler' : JsError -> M A) (f : Frame) :
  (forall f, Async.run m f = m' f) ->
  (forall e f, Async.run (handler e) f = handler' e f) ->
  Async.run (Async.try_catch m handler) f = try_catch m' handler' f.
Proof.
  intros Hm Hh. unfold Async.run, Async.try_catch, try_catch in *.
  rewrite finish_and_then.
  rewrite Hm. destruct (m' f) as [[e|a] f']; [apply Hh | reflexivity].
Qed.

Lemma set_world_world (f : Frame) : set_world (world f) f = f.
Proof. destruct f. reflexivity. Qed.

Lemma fire_arm (ms : Z) (w : World) :
  Async.fire (now w + timer_delay ms) (Async.arm ms w) = sleep ms w.
Proof.
  unfold Async.fire, Async.arm, sleep. cbn [now jitter suspensions requests network trace].
  pose proof (LimiterFacts.timer_delay_nonneg ms).
  rewrite Z.max_r by lia. reflexivity.
Qed.

Lemma run_sleep (ms : Z) (f : Frame) : Async.run (Async.sleep ms) f = sleepM ms f.
Proof.
  unfold Async.run, Async.sleep, sleepM, modify. cbn [Async.finish].
  f_equal. unfold set_world at 1. cbn [world limiter store log loc_errors loc_articlesFound
    loc_articlesCrawled loc_newArticles set_world]. rewrite fire_arm. reflexivity.
Qed.

Lemma run_fetch (url : jsstring) (f : Frame) :
  Async.run (Async.fetch url) f
  = (inr (fst (http_get url (world f))), set_world (snd (http_get url (world f))) f).
Proof. reflexivity. Qed.

Lemma run_attempt (url : jsstring) (f : Frame) :
  Async.run (Async.attempt url) f
  = (attempt_result (fst (http_get url (world f))),
     set_world (snd (http_get url (world f))) f).
Proof.
  unfold Async.attempt, Async.run, Async.bind. rewrite finish_and_then.
  change (Async.finish (Async.fetch url f)) with (Async.run (Async.fetch url) f).
  rewrite run_fetch.
  destruct (fst (http_get url (world f))) as [status statusText body | name message];
    cbn [attempt_result]; [|reflexivity].
  destruct (negb (response_ok status)); [reflexivity|].
  destruct body; reflexivity.
Qed.

Lemma run_retry_loop (url : jsstring) (opts : FetchOptions) (fuel : nat) :
  forall (attempt_no : Z) (lastError : option JsError) (f : Frame),
  Async.run (Async.retry_loop fuel attempt_no url opts lastError) f
  = (fst (retry_loop fuel attempt_no url opts lastError (world f)),
     set_world (snd (retry_loop fuel attempt_no url opts lastError (world f))) f).
Proof.
  induction fuel as [|fuel IH]; intros attempt_no lastError f;
    cbn [Async.retry_loop retry_loop].
  - cbn [fst snd]. rewrite set_world_world. reflexivity.
  - unfold Async.run, Async.try_catch. rewrite finish_and_then.
    change (Async.finish (Async.attempt url f)) with (Async.run (Async.attempt url) f).
    rewrite run_attempt. unfold http_get. cbn [fst snd].
    destruct (attempt_result _) as [error|html]; [|reflexivity].
    destruct (no_retry _); [reflexivity|].
    unfold Async.bind. rewrite finish_and_then.
    destruct (attempt_no <? nullish 2 (retries opts))%Z.
    + change (Async.finish (Async.sleep ?ms ?g)) with (Async.run (Async.sleep ms) g).
      rewrite run_sleep. unfold sleepM, modify.
      change (Async.finish (Async.retry_loop ?a ?b ?c ?d ?e ?g))
        with (Async.run (Async.retry_loop a b c d e) g).
      rewrite IH. reflexivity.
    + cbn [Async.ret Async.finish].
      change (Async.finish (Async.retry_loop ?a ?b ?c ?d ?e ?g))
        with (Async.run (Async.retry_loop a b c d e) g).
      rewrite IH. reflexivity.
Qed.

Lemma run_fetchWithRetry (url : jsstring) (f : Frame) :
  Async.run (Async.fetchWithRetry url no_options) f = fetchWithRetryM url f.
Proof.
  unfold Async.fetchWithRetry, fetchWithRetryM, fetchWithRetry. rewrite run_retry_loop.
  destruct (retry_loop _ _ _ _ _ _). reflexivity.
Qed.

Lemma run_waitForDomain (domain : jsstring) (delayMs : option Z) (f : Frame) :
  Async.run (Async.waitForDomain domain delayMs) f = waitForDomainM domain delayMs f.
Proof.
  unfold Async.waitForDomain, waitForDomainM, waitForDomain, modify, Async.run, Async.bind.
  rewrite finish_and_then.
  destruct (_ <? _)%Z.
  - change (Async.finish (Async.sleep ?ms ?g)) with (Async.run (Async.sleep ms) g).
    rewrite run_sleep. reflexivity.
  - reflexivity.
Qed.

Lemma run_article_try (config : NewsPortalConfig) (domain url : jsstring) (f : Frame) :
  Async.run (Async.article_try config domain url) f = article_try config domain url f.
Proof.
  unfold Async.article_try, article_try.
  apply run_bind; [intros g; rewrite run_await; apply run_waitForDomain|].
  intros _ g. apply run_bind; [intros g'; rewrite run_await; apply run_fetchWithRetry|].
  intros articleHtml g'.
  destruct (Parser.parseArticle articleHtml url config) as [article|]; [|reflexivity].
  destruct (negb (truthy (title article))); [reflexivity|].
  apply run_bind; [intros g''; apply run_lift|].
  intros _ g''. apply run_bind; [intros g3; apply run_lift|].
  intros duplicate g3. destruct duplicate; [reflexivity|].
  apply run_bind; [intros g4; apply run_lift|].
  intros _ g4. apply run_lift.
Qed.

Lemma run_article_step (config : NewsPortalConfig) (domain url : jsstring) (f : Frame) :
  Async.run (Async.article_step config domain url) f = article_step config domain url f.
Proof.
  unfold Async.article_step, article_step.
  apply run_try_catch; [intros g; apply run_article_try|].
  intros e g. apply run_lift.
Qed.

Lemma run_for_each (config : NewsPortalConfig) (domain : jsstring)
    (urls : list (list N)) : forall f : Frame,
  Async.run (Async.for_each urls (Async.article_step config domain)) f
  = for_each urls (article_step config domain) f.
Proof.
  induction urls as [|url rest IH]; intros f; cbn [Async.for_each for_each].
  - reflexivity.
  - apply run_bind; [intros g; apply run_article_step|]. intros _ g. apply IH.
Qed.

Lemma run_open_listing (config : NewsPortalConfig) (f : Frame) :
  Async.run (Async.open_listing config) f = open_listing config f.
Proof.
  unfold Async.open_listing, open_listing.
  apply run_bind; [intros g; apply run_lift|].
  intros _ g. apply run_bind; [intros g'; rewrite run_await; apply run_waitForDomain|].
  intros _ g'. rewrite run_await. apply run_fetchWithRetry.
Qed.

Lemma run_crawl_articles (config : NewsPortalConfig) (listingHtml : jsstring) (f : Frame) :
  Async.run (Async.crawl_articles config listingHtml) f
  = crawl_articles config listingHtml f.
Proof.
  unfold Async.crawl_articles, crawl_articles.
  apply run_bind; [intros g; apply run_lift|].
  intros _ g. apply run_bind; [intros g1; apply run_lift|].
  intros found g1. apply run_bind; [intros g2; apply run_lift|].
  intros _ g2. apply run_bind; [intros g3; apply run_for_each|].
  intros _ g3. apply run_bind; [intros g4; apply run_lift|].
  intros new g4. apply run_lift.
Qed.

(** [crawlPortal], when nothing else runs while it is suspended, is the
    sequential [crawlPortal]. *)
Lemma run_crawlPortal (config : NewsPortalConfig) (f : Frame) :
  Async.run (Async.crawlPortal config) f = crawlPortal config f.
Proof.
  unfold Async.crawlPortal, crawlPortal.
  apply run_bind; [intros g; apply run_lift|].
  intros _ g. apply run_bind; [intros g1; apply run_lift|].
  intros startTime g1. apply run_try_catch.
  - intros g2. unfold Async.portal_try, portal_try.
    apply run_bind; [intros g3; apply run_open_listing|].
    intros listingHtml g3. apply run_bind; [intros g4; apply run_crawl_articles|].
    intros _ g4. apply run_lift.
  - intros e g2. apply run_lift.
Qed.

Lemma with_locals_own (f : Frame) : Async.with_locals f f = f.
Proof. destruct f. reflexivity. Qed.

(** A single call under [Promise.all]: whatever the schedule, it is
    resumed in the state it stopped in. *)
Lemma event_loop_one {A} (schedule : list nat) : forall c : Async.Co A,
  Async.event_loop schedule [c] (Async.frame_of c)
  = match Async.finish c with
    | (inl e, f) => (inl e, f)
    | (inr a, f) => (inr [a], f)
    end.
Proof.
  induction schedule as [|n later IH]; intros [[e|a] f | own resume];
    cbn [Async.event_loop Async.all_settled Async.finish Async.frame_of];
    try reflexivity.
  - cbn [Async.drain Async.settle Async.resume_in]. rewrite with_locals_own.
    destruct (Async.finish (resume own)) as [[e|a] f]; reflexivity.
  - cbn [List.filter Async.is_pending length]. rewrite Nat.mod_1_r.
    cbn [Async.resume_nth Async.is_pending Async.resume_in].
    rewrite with_locals_own. apply IH.
Qed.

(** X28: a batch of one portal is the sequential crawl of that portal:
    whatever the schedule, [Promise.all] over the single call returns the
    result of [crawlPortal] run from its start to its end, in the state
    that crawl leaves. *)
Theorem promise_all_one (schedule : list nat) (config : NewsPortalConfig) (f : Frame) :
  Async.promise_all schedule [config] f
  = (result <- crawlPortal config ;; ret [result]) f.
Proof.
  unfold Async.promise_all. cbn [Async.start_all]. rewrite event_loop_one.
  change (Async.finish (Async.crawlPortal config f))
    with (Async.run (Async.crawlPortal config) f).
  rewrite run_crawlPortal. unfold bind, ret.
  destruct (crawlPortal config f) as [[e|a] f']; reflexivity.
Qed.

End Alone.

(** *** Calls for one domain that overlap *)

(** X29: calls of [waitForDomain] that overlap are not kept apart.  Of two
    calls for a domain whose entry is a tenth of a second old, the second
    made while the first is suspended, both read the same entry and sleep
    until the same time, and the second records the time the first has
    recorded. *)
Theorem waitForDomain_overlapping_calls :
  let domain := lit "example.com" in
  let f := snd (waitForDomainM domain None (Site.fresh (always not_found))) in
  let f1 := set_world (LimiterSpec.elapse 100 (world f)) f in
  let first := Async.waitForDomain domain None f1 in
  let second := Async.waitForDomain domain None (Async.frame_of first) in
  let first' := Async.resume_in (Async.frame_of second) first in
  let second' := Async.resume_in (Async.frame_of first') second in
  lastRequestTime (limiter f1) !! domain = Some 1700000000000%Z
  /\ now (world f1) = 1700000000100%Z
  /\ Async.is_pending first = true
  /\ Async.is_pending second = true
  /\ lastRequestTime (limiter (Async.frame_of first')) !! domain = Some 1700000001500%Z
  /\ lastRequestTime (limiter (Async.frame_of second')) !! domain = Some 1700000001500%Z.
Proof. repeat split; vm_compute; reflexivity. Qed.

End AsyncFacts.

(** ** The whole run *)

Module RunFacts.

Import Fetcher FetcherSpec Crawler CrawlerSpec AsyncSpec.

Lemma slice_take_drop {A} (i size : nat) (l : list A) :
  slice i (i + size) l = take size (drop i l).
Proof. unfold slice. f_equal. lia. Qed.

(** [chunkArray] cuts the array into consecutive pieces. *)
Lemma chunk_loop_concat {A} (l : list A) (size : nat) (fuel : nat) : forall i,
  (0 < size)%nat ->
  (length l - i <= fuel)%nat ->
  concat (chunk_loop fuel l size i) = drop i l.
Proof.
  induction fuel as [|fuel IH]; intros i Hs Hf; cbn [chunk_loop concat].
  - symmetry. apply drop_ge. lia.
  - destruct (Nat.ltb_spec i (length l)) as [Hlt|Hge].
    + cbn [concat]. rewrite IH by lia.
      rewrite slice_take_drop.
      rewrite <- (take_drop size (drop i l)) at 2.
      rewrite drop_drop. reflexivity.
    + symmetry. apply drop_ge. lia.
Qed.

Lemma chunkArray_concat {A} (l : list A) (size : nat) :
  (0 < size)%nat -> concat (chunkArray l size) = l.
Proof.
  intros Hs. unfold chunkArray. rewrite chunk_loop_concat by lia. apply drop_0.
Qed.

Lemma sum_of_foldr (field : CrawlResult -> Z) (rs : list CrawlResult) :
  sum_of field rs = foldr Z.add 0%Z (map field rs).
Proof.
  unfold sum_of.
  assert (Hg : forall a, fold_left (fun sum r => (sum + field r)%Z) rs a
                         = (a + foldr Z.add 0 (map field rs))%Z).
  { induction rs as [|r rs IH]; intros a; cbn [fold_left map foldr]; [lia|].
    rewrite IH. lia. }
  rewrite Hg. lia.
Qed.

Lemma filter_success_split (rs : list CrawlResult) :
  (length (filter (fun r => success r = true) rs)
   + length (filter (fun r => success r = false) rs) = length rs)%nat.
Proof.
  induction rs as [|r rs IH]; [reflexivity|].
  rewrite !filter_cons. destruct (success r) eqn:E.
  - rewrite decide_True by reflexivity. rewrite decide_False by discriminate.
    cbn [length]. lia.
  - rewrite decide_False by discriminate. rewrite decide_True by reflexivity.
    cbn [length]. lia.
Qed.


Import Site.

Local Existing Instances Toy.strings Site.dom Toy.urls Toy.dates Toy.database.

(** Two portals in one batch, the first of which cannot be fetched at
    all: the second is crawled all the same and its article is stored,
    whether the two calls take turns or the second goes first. *)
Lemma crawlAllPortals_second_only :
  Forall (fun schedule =>
            option_map (fun s => (successfulPortals s, failedPortals s,
                                  totalArticlesFound s, totalNewArticles s,
                                  map r_portal (results s), map success (results s),
                                  map errors (results s)))
              (match fst (Async.crawlAllPortals (fun _ => schedule) [Toy.detik; kontan]
                            (fresh second_only)) with
               | inr s => Some s
               | inl _ => None
               end)
            = Some (1%Z, 1%Z, 1%Z, 1%Z, [lit "Detik"; lit "Kontan"], [false; true],
                    [[lit "Portal error: [HTTP_ERROR] HTTP 404: Not Found"]; []]))
         [[]; [0; 1; 0; 1; 0; 1; 0; 1]%nat; [1; 1; 1; 1; 1; 1; 1; 1]%nat].
Proof. repeat constructor; vm_compute; reflexivity. Qed.

End RunFacts.

(** ** The deduplicator *)

Module NormalizeFacts.

Import JSFacts WhiteSpaceFacts Deduplicator DeduplicatorSpec.

Lemma is_quote_cases (u : N) : is_quote u = true -> u = 34 \/ u = 39.
Proof.
  unfold is_quote. destruct (N.eqb_spec u 34), (N.eqb_spec u 39); auto; discriminate.
Qed.

Lemma is_dash_cases (u : N) : is_dash u = true -> u = 0x2013 \/ u = 0x2014.
Proof.
  unfold is_dash.
  destruct (N.eqb_spec u 0x2013), (N.eqb_spec u 0x2014); auto; discriminate.
Qed.

Lemma quote_space (u : N) : is_space (quote_unit u) = is_space u.
Proof.
  unfold quote_unit. destruct (is_quote u) eqn:E; [|reflexivity].
  apply is_quote_cases in E as [->| ->]; reflexivity.
Qed.

(** The two punctuation replacements do not get in each other's way. *)
Lemma dash_after_quote (u : N) :
  (if is_dash (quote_unit u) then 45 else quote_unit u)
  = quote_unit (if spec_is_dash u then 45 else u).
Proof.
  unfold quote_unit. change spec_is_dash with is_dash.
  destruct (is_quote u) eqn:Eq.
  - apply is_quote_cases in Eq as [->| ->]; reflexivity.
  - destruct (is_dash u) eqn:Ed; [reflexivity|]. rewrite Eq. reflexivity.
Qed.

Section WithPlatform.
Context `{StringApi}.

(** [normalizeText] is the normal form of the text with the quote
    replacement applied to it. *)
Lemma normalizeText_spec (text : list N) :
  normalizeText text = map quote_unit (spec_normalizeText text).
Proof.
  unfold normalizeText, spec_normalizeText, replace_class.
  rewrite <- trim_map by exact quote_space. f_equal.
  rewrite !map_map. apply map_ext. intros u. apply dash_after_quote.
Qed.

Lemma normalizeContent_spec (content : option (list N)) :
  normalizeContent content = map quote_unit (spec_normalizeContent content).
Proof.
  destruct content as [[|u c]|]; cbn [normalizeContent spec_normalizeContent truthy];
    try reflexivity.
  apply normalizeText_spec.
Qed.

(** Inputs with the same normal forms have the same fingerprint. *)
Lemma generateContentHash_normal (t1 t2 : list N) (c1 c2 : option (list N)) :
  spec_normalizeText t1 = spec_normalizeText t2 ->
  slice0 500 (spec_normalizeContent c1) = slice0 500 (spec_normalizeContent c2) ->
  generateContentHash t1 c1 = generateContentHash t2 c2.
Proof.
  intros Ht Hc. unfold generateContentHash. cbn zeta.
  rewrite !normalizeText_spec, !normalizeContent_spec. unfold slice0 in *.
  rewrite <- !fmap_take. unfold fmap, list_fmap. rewrite Ht, Hc. reflexivity.
Qed.

(** On Basic Latin text every platform computes the same fingerprint. *)
Lemma generateContentHash_basic_latin (t c : list N) :
  basic_latin t = true -> basic_latin c = true ->
  generateContentHash t (Some c) = @generateContentHash Toy.strings t (Some c).
Proof.
  intros Ht Hc. unfold generateContentHash, normalizeContent, normalizeText.
  rewrite !toLowerCase_basic_latin by assumption. reflexivity.
Qed.

End WithPlatform.

(** *** The fingerprint *)

(** The digest of the three-letter test message of the standard. *)
Lemma sha256_abc :
  Sha256.hex_digest (utf8 (lit "abc"))
  = lit "ba7816bf8f01cfea414140de5dae2223b00361a396177a9cb410ff61f20015ad".
Proof. vm_compute. reflexivity. Qed.

(** The digest of a message that fills more than one block. *)
Lemma sha256_two_blocks :
  Sha256.hex_digest
    (utf8 (lit "abcdbcdecdefdefgefghfghighijhijkijkljklmklmnlmnomnopnopq"))
  = lit "248d6a61d20638b8e5c026930c3e6039a33ce45964ff2167f6ecedd419db06c1".
Proof. vm_compute. reflexivity. Qed.

(** C1 (as amended): inputs whose normalised titles agree and whose
    normalised bodies agree on their first 500 units have the same
    fingerprint, the normal form of a text being the text in lower case,
    with every run of white space made one space, en and em dashes made
    hyphens, trimmed.  In particular the fingerprints of (Bank  BCA,
    Profit up.) and (bank bca, Profit up.) are equal, and those of
    (Bank BCA, Profit up.) and (Bank BCA, Profit down.) differ. *)
Theorem generateContentHash_stable `{StringApi} :
  (forall (t1 t2 : list N) (c1 c2 : option (list N)),
     spec_normalizeText t1 = spec_normalizeText t2 ->
     slice0 500 (spec_normalizeContent c1) = slice0 500 (spec_normalizeContent c2) ->
     generateContentHash t1 c1 = generateContentHash t2 c2)
  /\ generateContentHash (lit "Bank  BCA") (Some (lit "Profit up."))
     = generateContentHash (lit "bank bca") (Some (lit "Profit up."))
  /\ generateContentHash (lit "Bank BCA") (Some (lit "Profit up."))
     <> generateContentHash (lit "Bank BCA") (Some (lit "Profit down.")).
Proof.
  split; [exact generateContentHash_normal|].
  rewrite !(generateContentHash_basic_latin (H := H)) by reflexivity.
  split.
  - vm_compute. reflexivity.
  - intros E. vm_compute in E. discriminate E.
Qed.

Local Existing Instance Toy.strings.

Lemma generateContentHash_stable_witness :
  generateContentHash (lit "Bank  BCA") (Some (lit "Profit up."))
  = generateContentHash (lit "bank bca") (Some (lit "Profit up.")).
Proof.
  destruct generateContentHash_stable as [H1 _].
  apply H1; vm_compute; reflexivity.
Defined.

(** C1 as stated fails: two inputs whose normalised titles differ, and
    whose normalised bodies differ, have the same fingerprint when the
    separator falls differently in the same combined text. *)
Lemma generateContentHash_not_as_stated :
  spec_normalizeText (lit "a|b") <> spec_normalizeText (lit "a")
  /\ spec_normalizeContent (Some (lit "c")) <> spec_normalizeContent (Some (lit "b|c"))
  /\ generateContentHash (lit "a|b") (Some (lit "c"))
     = generateContentHash (lit "a") (Some (lit "b|c")).
Proof.
  split; [|split].
  - intros E. vm_compute in E. discriminate E.
  - intros E. vm_compute in E. discriminate E.
  - vm_compute. reflexivity.
Qed.

(** The quote replacement of [normalizeText] acts on the two straight
    quotes only: a title in curly quotes keeps them, and its fingerprint
    is not that of the same title in straight quotes. *)
Lemma normalizeText_curly_quotes :
  normalizeText curly_title = [0x201C] ++ lit "bank bca" ++ [0x201D]
  /\ normalizeText straight_title = [34] ++ lit "bank bca" ++ [34]
  /\ generateContentHash curly_title (Some (lit "Profit up."))
     <> generateContentHash straight_title (Some (lit "Profit up.")).
Proof.
  split; [|split]; try (vm_compute; reflexivity).
  intros E. vm_compute in E. discriminate E.
Qed.

End NormalizeFacts.

(** ** White space: normal forms *)

Module SpaceFacts.

Import JSFacts WhiteSpaceFacts.

Lemma collapse_idem (s : list N) : forall b,
  collapse_from b (collapse_from b s) = collapse_from b s.
Proof.
  induction s as [|u r IH]; intros b; cbn [collapse_from]; [reflexivity|].
  destruct (is_space u) eqn:E, b; cbn [collapse_from]; rewrite ?E, ?IH;
    reflexivity.
Qed.

Lemma trimEnd_snoc (s : list N) (w : N) :
  trimEnd (s ++ [w]) = if is_space w then trimEnd s else s ++ [w].
Proof.
  unfold trimEnd. rewrite rev_app_distr. cbn [rev app trimStart].
  destruct (is_space w); [reflexivity|].
  cbn [rev]. rewrite rev_involutive. reflexivity.
Qed.

Lemma collapse_length (s : list N) : forall b,
  (length (collapse_from b s) <= length s)%nat.
Proof.
  induction s as [|u r IH]; intros b; cbn [collapse_from length]; [lia|].
  destruct (is_space u), b; cbn [length];
    try (specialize (IH true); lia); specialize (IH false); lia.
Qed.

(** A text is collapsed when collapsing it again changes nothing. *)
Lemma collapsed_in_run (x : list N) :
  collapse_from true x = x -> collapse_from false x = x.
Proof.
  destruct x as [|v x']; [reflexivity|]. cbn [collapse_from].
  destruct (is_space v); [|auto].
  intros E. pose proof (collapse_length x' true) as Hl.
  apply (f_equal (@length N)) in E. cbn [length] in E. lia.
Qed.

Lemma collapsed_trimStart (x : list N) :
  collapse_from false x = x -> collapse_from false (trimStart x) = trimStart x.
Proof.
  induction x as [|u r IH]; [reflexivity|].
  cbn [collapse_from trimStart]. destruct (is_space u) eqn:Hu.
  - intros [= _ E]. apply IH, collapsed_in_run, E.
  - intros E. cbn [collapse_from]. rewrite Hu. exact E.
Qed.

Lemma collapsed_snoc (x : list N) (w : N) : forall b,
  collapse_from b (x ++ [w]) = x ++ [w] -> collapse_from b x = x.
Proof.
  induction x as [|u r IH]; intros b; [reflexivity|].
  cbn [app collapse_from]. destruct (is_space u), b.
  - intros E. pose proof (collapse_length (r ++ [w]) true) as Hl.
    apply (f_equal (@length N)) in E. cbn [length] in E. lia.
  - intros [= E1 E]. rewrite (IH true E). congruence.
  - intros [= E]. rewrite (IH false E). reflexivity.
  - intros [= E]. rewrite (IH false E). reflexivity.
Qed.

Lemma collapsed_trimEnd (x : list N) :
  collapse_from false x = x -> collapse_from false (trimEnd x) = trimEnd x.
Proof.
  induction x as [|w y IH] using rev_ind; [reflexivity|].
  intros E. rewrite trimEnd_snoc. destruct (is_space w); [|exact E].
  apply IH. eapply collapsed_snoc, E.
Qed.

Lemma collapsed_trim (x : list N) :
  collapse_from false x = x -> collapse_from false (trim x) = trim x.
Proof. intros E. unfold trim. apply collapsed_trimEnd, collapsed_trimStart, E. Qed.

Lemma trimStart_idem (x : list N) : trimStart (trimStart x) = trimStart x.
Proof.
  induction x as [|u r IH]; [reflexivity|]. cbn [trimStart].
  destruct (is_space u) eqn:E; [exact IH|]. cbn [trimStart]. rewrite E. reflexivity.
Qed.

Lemma trimEnd_idem (x : list N) : trimEnd (trimEnd x) = trimEnd x.
Proof. unfold trimEnd. rewrite rev_involutive, trimStart_idem. reflexivity. Qed.

Lemma trimStart_trimmed (x : list N) :
  match x with [] => True | u :: _ => is_space u = false end -> trimStart x = x.
Proof. destruct x as [|u r]; [reflexivity|]. cbn [trimStart]. intros ->. reflexivity. Qed.

Lemma trim_idem (x : list N) : trim (trim x) = trim x.
Proof.
  unfold trim at 1. rewrite (trimStart_trimmed (trim x)) by apply trim_head.
  unfold trim. apply trimEnd_idem.
Qed.

(** A unit map that keeps white space white space and the space a space
    commutes with collapsing. *)
Lemma collapse_map (h : N -> N) (s : list N) :
  (forall u, is_space (h u) = is_space u) -> h 32 = 32 ->
  forall b, collapse_from b (map h s) = map h (collapse_from b s).
Proof.
  intros Hs H32. induction s as [|u r IH]; intros b; cbn [map collapse_from];
    [reflexivity|].
  rewrite Hs. destruct (is_space u), b; cbn [map]; rewrite IH, ?H32; reflexivity.
Qed.

Lemma Forall_trimStart (P : N -> Prop) (x : list N) :
  Forall P x -> Forall P (trimStart x).
Proof.
  induction 1 as [|u r Hu Hr IH]; cbn [trimStart]; [constructor|].
  destruct (is_space u); [exact IH | constructor; assumption].
Qed.

Lemma Forall_trim (P : N -> Prop) (x : list N) : Forall P x -> Forall P (trim x).
Proof.
  intros Hx. unfold trim, trimEnd.
  apply List.Forall_rev, Forall_trimStart, List.Forall_rev, Forall_trimStart, Hx.
Qed.

End SpaceFacts.

(** ** The deduplicator: normal forms, URL fingerprints, signatures *)

Module DeduplicatorFacts.

Import JSFacts WhiteSpaceFacts SpaceFacts NormalizeFacts.
Import Deduplicator DeduplicatorSpec UrlDeduplicator Shapes.

(** *** What the punctuation replacements make of a unit *)

Lemma dash_space (u : N) : is_space (if is_dash u then 45 else u) = is_space u.
Proof.
  destruct (is_dash u) eqn:E; [|reflexivity].
  apply is_dash_cases in E as [->| ->]; reflexivity.
Qed.

Lemma punct_space (u : N) :
  is_space (if is_dash (quote_unit u) then 45 else quote_unit u) = is_space u.
Proof. rewrite dash_space. apply quote_space. Qed.

Lemma punct_plain (u : N) :
  let v := if is_dash (quote_unit u) then 45 else quote_unit u in
  (v =? 39) = false /\ is_dash v = false.
Proof.
  cbn zeta. unfold quote_unit. destruct (is_quote u) eqn:Eq.
  - split; reflexivity.
  - destruct (is_dash u) eqn:Ed; [split; reflexivity|]. split; [|exact Ed].
    unfold is_quote in Eq. apply orb_false_iff in Eq as [_ Eq]. exact Eq.
Qed.

Lemma ascii_lower_space (u : N) : is_space (ascii_lower u) = is_space u.
Proof.
  unfold ascii_lower.
  destruct (N.leb_spec 65 u) as [H1|H1]; [|reflexivity].
  destruct (N.leb_spec u 90) as [H2|H2]; [|reflexivity]. cbn [andb].
  rewrite !is_space_low by lia. reflexivity.
Qed.

(** Inside a run of white space, more white space adds nothing. *)
Lemma collapse_blank_run (c : list N) : blank c -> collapse_from true c = [].
Proof.
  induction 1 as [|u r Hu _ IH]; cbn [collapse_from]; [reflexivity|].
  rewrite Hu. exact IH.
Qed.

Lemma trim_collapse_blank (c : list N) (h : N -> N) :
  blank c -> h 32 = 32 -> trim (map h (replace_space_runs c)) = [].
Proof.
  intros Hc H32. unfold replace_space_runs.
  destruct Hc as [|u r Hu Hr]; [reflexivity|].
  cbn [collapse_from]. rewrite Hu, (collapse_blank_run r Hr).
  cbn [map]. rewrite H32. reflexivity.
Qed.

Section WithPlatform.
Context `{StringApi}.

(** [normalizeText], with the two replacements done unit by unit. *)
Lemma normalizeText_units (s : list N) :
  normalizeText s
  = trim (map (fun u => if is_dash (quote_unit u) then 45 else quote_unit u)
              (replace_space_runs (toLowerCase s))).
Proof.
  unfold normalizeText, replace_class. rewrite map_map. reflexivity.
Qed.

Lemma normalizeText_shape (s : list N) :
  replace_space_runs (normalizeText s) = normalizeText s
  /\ trim (normalizeText s) = normalizeText s
  /\ Forall (fun u => is_space u = true -> u = 32) (normalizeText s)
  /\ Forall (fun u => (u =? 39) = false /\ is_dash u = false) (normalizeText s).
Proof.
  rewrite normalizeText_units.
  set (h := fun u => if is_dash (quote_unit u) then 45 else quote_unit u).
  assert (Hy : Forall (fun u => is_space u = true -> u = 32)
                 (map h (replace_space_runs (toLowerCase s)))).
  { apply List.Forall_forall. intros v Hv. apply in_map_iff in Hv as (u & <- & Hu).
    intros Hs. unfold h in Hs. rewrite punct_space in Hs.
    pose proof (collapse_spaces (toLowerCase s) false) as Hc.
    rewrite List.Forall_forall in Hc. rewrite (Hc u Hu Hs). reflexivity. }
  split; [|split; [|split]].
  - unfold replace_space_runs. apply collapsed_trim.
    rewrite collapse_map by (try (intros u; apply punct_space); reflexivity).
    f_equal. apply collapse_idem.
  - apply trim_idem.
  - apply Forall_trim, Hy.
  - apply Forall_trim. apply List.Forall_forall. intros v Hv.
    apply in_map_iff in Hv as (u & <- & _). apply punct_plain.
Qed.

Lemma normalizeText_blank (c : list N) :
  blank c -> basic_latin c = true -> normalizeText c = [].
Proof.
  intros Hc Hb. rewrite normalizeText_units, toLowerCase_basic_latin by exact Hb.
  apply trim_collapse_blank; [|reflexivity].
  apply Forall_map. eapply List.Forall_impl; [|exact Hc].
  intros u Hu. cbn. rewrite ascii_lower_space. exact Hu.
Qed.

End WithPlatform.

(** X1: [normalizeText] returns a text whose white space is single
    spaces between other units, with none at either end, and which
    contains neither an apostrophe nor an en or em dash. *)
Theorem normalizeText_normal_form `{StringApi} (s : list N) :
  single_spaced (normalizeText s)
  /\ Forall (fun u => is_space u = true -> u = 32) (normalizeText s)
  /\ Forall (fun u => (u =? 39) = false /\ is_dash u = false) (normalizeText s).
Proof.
  destruct (normalizeText_shape s) as (Hc & Ht & Hs & Hp).
  split; [split; assumption|]. split; assumption.
Qed.

(** *** Bodies without text *)

(** X2: a body that is absent, empty or made of Basic Latin white space
    only does not show in the fingerprint: all of them give the
    fingerprint of the title alone. *)
Theorem generateContentHash_blank_content `{StringApi} (title c : list N) :
  blank c -> basic_latin c = true ->
  generateContentHash title (Some c) = generateContentHash title None.
Proof.
  intros Hc Hb. unfold generateContentHash, normalizeContent.
  destruct (truthy c); [|reflexivity].
  rewrite (normalizeText_blank c Hc Hb). reflexivity.
Qed.

Lemma generateContentHash_blank_content_witness :
  @generateContentHash Toy.strings (lit "Bank BCA") (Some (lit "   "))
  = @generateContentHash Toy.strings (lit "Bank BCA") None.
Proof.
  apply generateContentHash_blank_content; [repeat constructor | reflexivity].
Defined.

(** *** The shape of a digest *)

Lemma compress_length (h block : list N) :
  length (Sha256.compress h block) = Nat.min (length h) 8.
Proof.
  unfold Sha256.compress. rewrite length_map, length_combine. reflexivity.
Qed.

Lemma fold_compress_length (bs : list (list N)) : forall h,
  length h = 8%nat -> length (fold_left Sha256.compress bs h) = 8%nat.
Proof.
  induction bs as [|b bs IH]; intros h Hh; cbn [fold_left]; [exact Hh|].
  apply IH. rewrite compress_length, Hh. reflexivity.
Qed.

Lemma digest_length (msg : list N) : length (Sha256.digest msg) = 8%nat.
Proof. unfold Sha256.digest. apply fold_compress_length. reflexivity. Qed.

Lemma hex_unit_digit (x : N) : is_hex_digit (Sha256.hex_unit (N.land x 0xF)) = true.
Proof.
  assert (Hlt : N.land x 0xF < 16).
  { change 0xF with (N.ones 4). rewrite N.land_ones. apply N.mod_lt. discriminate. }
  unfold Sha256.hex_unit, is_hex_digit, is_digit.
  destruct (N.ltb_spec (N.land x 15) 10).
  - apply orb_true_iff. left. apply andb_true_iff. split; apply N.leb_le; lia.
  - apply orb_true_iff. right. apply andb_true_iff. split; apply N.leb_le; lia.
Qed.

Lemma hex_word_shape (n : nat) : forall x,
  length (Sha256.hex_word n x) = n
  /\ Forall (fun u => is_hex_digit u = true) (Sha256.hex_word n x).
Proof.
  induction n as [|n IH]; intros x; cbn [Sha256.hex_word]; [split; [reflexivity | constructor]|].
  destruct (IH (N.shiftr x 4)) as [Hl Hd]. split.
  - rewrite length_app, Hl. cbn [length]. lia.
  - apply Forall_app. split; [exact Hd|]. constructor; [apply hex_unit_digit | constructor].
Qed.

Lemma hex_digest_shape (msg : list N) :
  length (Sha256.hex_digest msg) = 64%nat
  /\ Forall (fun u => is_hex_digit u = true) (Sha256.hex_digest msg).
Proof.
  unfold Sha256.hex_digest. pose proof (digest_length msg) as Hl.
  assert (Hg : forall ws : list N,
             length (flat_map (Sha256.hex_word 8) ws) = (8 * length ws)%nat
             /\ Forall (fun u => is_hex_digit u = true) (flat_map (Sha256.hex_word 8) ws)).
  { induction ws as [|w ws [IH1 IH2]]; [split; [reflexivity | constructor]|].
    cbn [flat_map]. destruct (hex_word_shape 8 w) as [H1 H2]. split.
    - rewrite length_app, H1, IH1. cbn [length]. lia.
    - apply Forall_app. split; assumption. }
  destruct (Hg (Sha256.digest msg)) as [H1 H2]. rewrite Hl in H1. split; assumption.
Qed.

(** X3: both fingerprints are sixty-four lowercase hexadecimal digits,
    whatever the input. *)
Theorem fingerprints_are_hex `{StringApi} `{UrlObjects} (title url : list N) (content : option (list N)) :
  (length (generateContentHash title content) = 64%nat
   /\ Forall (fun u => is_hex_digit u = true) (generateContentHash title content))
  /\ (length (generateUrlHash url) = 64%nat
      /\ Forall (fun u => is_hex_digit u = true) (generateUrlHash url)).
Proof. split; apply hex_digest_shape. Qed.

(** *** URLs *)

Lemma strip_snoc (s : list N) (w : N) :
  strip_trailing_slashes (s ++ [w])
  = if w =? 47 then strip_trailing_slashes s else s ++ [w].
Proof.
  unfold strip_trailing_slashes. rewrite rev_app_distr. cbn [rev app drop_slashes].
  destruct (w =? 47); [reflexivity|]. cbn [rev]. rewrite rev_involutive. reflexivity.
Qed.

Lemma ends_with_snoc (u : N) (s : list N) (w : N) : ends_with u (s ++ [w]) = (w =? u).
Proof. unfold ends_with. rewrite last_snoc. reflexivity. Qed.

Lemma strip_shape (s : list N) :
  ends_with 47 (strip_trailing_slashes s) = false
  /\ strip_trailing_slashes (strip_trailing_slashes s) = strip_trailing_slashes s
  /\ exists k, s = strip_trailing_slashes s ++ repeat 47 k.
Proof.
  induction s as [|w y (IH1 & IH2 & k & IH3)] using rev_ind.
  - repeat split. exists 0%nat. reflexivity.
  - rewrite strip_snoc. destruct (N.eqb_spec w 47) as [->|Hw].
    + split; [exact IH1|]. split; [exact IH2|]. exists (S k).
      rewrite IH3 at 1. rewrite <- app_assoc. f_equal.
      change [47] with (repeat 47 1). rewrite <- repeat_app. f_equal. lia.
    + split; [|split].
      * rewrite ends_with_snoc. apply N.eqb_neq, Hw.
      * rewrite strip_snoc. apply N.eqb_neq in Hw. rewrite Hw. reflexivity.
      * exists 0%nat. rewrite app_nil_r. reflexivity.
Qed.

Lemma strip_slashes (s : list N) (k : nat) :
  strip_trailing_slashes (s ++ repeat 47 k) = strip_trailing_slashes s.
Proof.
  induction k as [|k IH]; [rewrite app_nil_r; reflexivity|].
  replace (S k) with (k + 1)%nat by lia. rewrite repeat_app, app_assoc.
  cbn [repeat]. rewrite strip_snoc. exact IH.
Qed.


(** X4: a normalised URL does not end in a slash, whether the URL class
    accepted the input or not: it is the lowercased text, of the
    serialised URL without its tracking parameters or of the input, with
    the slashes at its end removed; stripping it again changes nothing. *)
Theorem normalizeUrl_normal_form `{StringApi} `{UrlObjects} (url : list N) :
  let text := match url_parse url with
              | Some parsed =>
                  url_toString (fold_left searchParams_delete trackingParams parsed)
              | None => url
              end in
  ends_with 47 (normalizeUrl url) = false
  /\ (exists k, toLowerCase text = normalizeUrl url ++ repeat 47 k)
  /\ strip_trailing_slashes (normalizeUrl url) = normalizeUrl url.
Proof.
  unfold normalizeUrl. destruct (url_parse url) as [parsed|]; cbn zeta.
  - split; [apply strip_shape|]. split; apply strip_shape.
  - split; [apply strip_shape|]. split; apply strip_shape.
Qed.

(** Tracking parameters go, other parameters stay; the slash before a
    query that disappears goes as well. *)
Lemma normalizeUrl_examples :
  @normalizeUrl Toy.strings ToyUrl.objects
    (lit "https://Example.com/News/?utm_source=x&id=3&ref=y")
  = lit "https://example.com/news/?id=3"
  /\ @normalizeUrl Toy.strings ToyUrl.objects (lit "https://example.com/a/?utm_medium=mail")
     = lit "https://example.com/a"
  /\ @normalizeUrl Toy.strings ToyUrl.objects (lit "Example.com/News//")
     = lit "example.com/news".
Proof. repeat split; vm_compute; reflexivity. Qed.

(** *** Signatures *)

Lemma split_on_free (sep : N) (x : list N) :
  Forall (fun u => (u =? sep) = false) x -> split_on sep x = [x].
Proof.
  induction 1 as [|u r Hu _ IH]; [reflexivity|].
  cbn [split_on]. unfold unit_eqb. rewrite Hu, IH. reflexivity.
Qed.

Lemma split_on_app (sep : N) (x rest : list N) :
  Forall (fun u => (u =? sep) = false) x ->
  split_on sep (x ++ sep :: rest) = x :: split_on sep rest.
Proof.
  induction 1 as [|u r Hu _ IH]; cbn [app split_on]; unfold unit_eqb.
  - rewrite N.eqb_refl. reflexivity.
  - rewrite Hu, IH. reflexivity.
Qed.

Lemma split_on_words (sep : N) (P : N -> Prop) (s : list N) :
  Forall P s ->
  Forall (fun w => Forall (fun u => (u =? sep) = false /\ P u) w) (split_on sep s).
Proof.
  induction 1 as [|u r Hu _ IH]; cbn [split_on]; [repeat constructor|].
  unfold unit_eqb. destruct (u =? sep) eqn:E.
  - constructor; [constructor | exact IH].
  - destruct (split_on sep r) as [|w ws]; [repeat constructor; assumption|].
    apply Forall_cons in IH as [Hw Hws].
    constructor; [|exact Hws]. constructor; [split; assumption | exact Hw].
Qed.

Lemma join_split (ws : list (list N)) :
  ws <> [] ->
  Forall (fun w => Forall (fun u => (u =? 32) = false) w) ws ->
  split_on 32 (join [32] ws) = ws.
Proof.
  intros Hne Hall. induction Hall as [|w ws Hw Hws IH]; [congruence|].
  destruct ws as [|w' ws'].
  - cbn [join]. apply split_on_free, Hw.
  - change (join [32] (w :: w' :: ws')) with (w ++ 32 :: join [32] (w' :: ws')).
    rewrite split_on_app by exact Hw. rewrite IH by discriminate. reflexivity.
Qed.

Lemma sublist_filter_bool {A} (p : A -> bool) (l : list A) : sublist (List.filter p l) l.
Proof.
  induction l as [|x l IH]; cbn [List.filter]; [constructor|].
  destruct (p x); [apply sublist_skip | apply sublist_cons]; exact IH.
Qed.


(** X5: [extractSignatures] returns exactly one signature.  It is made of
    at most five words joined by single spaces; each word is longer than
    three units and free of white space; the words are words of the
    normalised title, in their order; splitting the signature at its
    spaces gives the words back. *)
Theorem extractSignatures_shape `{StringApi} (title : list N) :
  exists words,
    extractSignatures title = [join (lit " ") words]
    /\ (length words <= 5)%nat
    /\ Forall (fun w => (3 < length w)%nat
                        /\ Forall (fun u => is_space u = false) w) words
    /\ sublist words (split_on 32 (normalizeText title))
    /\ (words = [] \/ split_on 32 (join (lit " ") words) = words).
Proof.
  set (all := split_on 32 (normalizeText title)).
  set (long := List.filter (fun w => (3 <? length w)%nat) all).
  exists (take 5 long).
  assert (Hfree : Forall (fun w => Forall (fun u => (u =? 32) = false
                                           /\ (is_space u = true -> u = 32)) w) all).
  { apply split_on_words.
    destruct (normalizeText_shape title) as (_ & _ & Hs & _). exact Hs. }
  assert (Hlong : Forall (fun w => (3 < length w)%nat
                            /\ Forall (fun u => (u =? 32) = false
                                                /\ (is_space u = true -> u = 32)) w) long).
  { apply List.Forall_forall. intros w Hw. apply filter_In in Hw as [Hin Hlen].
    split; [apply Nat.ltb_lt, Hlen|].
    rewrite List.Forall_forall in Hfree. apply Hfree, Hin. }
  assert (Htake : Forall (fun w => (3 < length w)%nat
                            /\ Forall (fun u => (u =? 32) = false
                                                /\ (is_space u = true -> u = 32)) w)
                         (take 5 long)).
  { apply Forall_take, Hlong. }
  split; [reflexivity|]. split; [rewrite length_take; lia|]. split; [|split].
  - eapply List.Forall_impl; [|exact Htake]. intros w [Hl Hw]. split; [exact Hl|].
    eapply List.Forall_impl; [|exact Hw]. intros u [H32 Hsp].
    destruct (is_space u) eqn:E; [|reflexivity].
    rewrite (Hsp eq_refl) in H32. discriminate H32.
  - transitivity long; [apply sublist_take | apply sublist_filter_bool].
  - destruct (take 5 long) as [|w ws] eqn:E; [left; reflexivity|]. right.
    apply join_split; [discriminate|].
    eapply List.Forall_impl; [|exact Htake]. intros x [_ Hx].
    eapply List.Forall_impl; [|exact Hx]. intros u [H32 _]. exact H32.
Qed.

(** The signature of a headline, and of a title without a long word. *)
Lemma extractSignatures_examples :
  @extractSignatures Toy.strings
    (lit "  Saham BBCA Naik di Tengah  Aksi Beli Investor Asing Hari Ini ")
  = [lit "saham bbca naik tengah aksi"]
  /\ @extractSignatures Toy.strings (lit "IDX up 2%") = [[]].
Proof. split; vm_compute; reflexivity. Qed.

End DeduplicatorFacts.

(** ** The fetcher: bounds and edge cases *)

Module FetcherBounds.

Import Fetcher JSFacts FetcherFacts FetcherSpec RetryFacts LimiterFacts LimiterView.

(** X6: the status of a response that is not ok travels through the
    message of the [FetchError] unharmed: the error carries the code
    HTTP_ERROR, its message spells the status and the status text, and the
    status the [catch] block reads back from the message is the status of
    the response, whatever the status text says. *)
Theorem http_error_status_round_trip (status : N) (statusText : list N) (body : Body) :
  response_ok status = false ->
  exists e,
    attempt_result (Response status statusText body) = inl e
    /\ err_code e = Some (lit "HTTP_ERROR")
    /\ err_message e
       = lit "[HTTP_ERROR] HTTP " ++ string_of_N status ++ lit ": " ++ statusText
    /\ status_of_message e = status.
Proof.
  intros Hok. cbn [attempt_result]. rewrite Hok. cbn [negb].
  eexists. split; [reflexivity|]. split; [reflexivity|]. split; [reflexivity|].
  apply status_of_http_error.
Qed.

(** A status text that itself spells another status. *)
Lemma http_error_status_round_trip_witness :
  exists e,
    attempt_result (Response 503 (lit "see HTTP 404") (BodyText [])) = inl e
    /\ status_of_message e = 503.
Proof.
  destruct (http_error_status_round_trip 503 (lit "see HTTP 404") (BodyText []))
    as (e & E & _ & _ & Hs); [reflexivity|].
  exists e. split; assumption.
Defined.

(** *** Errors that leave [fetchWithRetry] *)

Lemma classify_not_abort (t : Setting) (e : JsError) : is_abort (classify t e) = false.
Proof. unfold classify. destruct (is_abort e) eqn:E; [reflexivity | exact E]. Qed.

Lemma retry_loop_not_abort url opts (fuel : nat) : forall a le w e,
  match le with Some e' => is_abort e' = false | None => True end ->
  fst (retry_loop fuel a url opts le w) = inl e -> is_abort e = false.
Proof.
  induction fuel as [|fuel IH]; intros a le w e Hle.
  - cbn [retry_loop fst]. destruct le as [e'|]; cbn [from_option id].
    + intros [= <-]. exact Hle.
    + intros [= <-]. reflexivity.
  - cbn [retry_loop]. destruct (http_get url w) as [o w1].
    destruct (attempt_result o) as [error|html]; [|discriminate].
    destruct (no_retry (classify (timeout opts) error)).
    + cbn [fst]. intros [= <-]. apply classify_not_abort.
    + apply IH. apply classify_not_abort.
Qed.

(** X7: [fetchWithRetry] never throws an [AbortError]: what the timeout
    provokes leaves the function as a [FetchError]. *)
Theorem fetchWithRetry_never_abort (url : list N) (options : FetchOptions) (w : World)
    (e : JsError) :
  fst (fetchWithRetry url options w) = inl e -> is_abort e = false.
Proof. unfold fetchWithRetry. apply retry_loop_not_abort. exact I. Qed.

Lemma fetchWithRetry_never_abort_witness :
  is_abort (FetchError (lit "TIMEOUT") (lit "Request timed out after 15000ms")) = false.
Proof.
  apply (fetchWithRetry_never_abort example_url no_options (quiet_world (always aborted))).
  vm_compute. reflexivity.
Defined.

(** *** The events of a call, whatever the network does *)

Section Loop.

Variables (url : list N) (opts : FetchOptions).

Let r : Z := nullish 2%Z (retries opts).
Let d : Z := nullish 1000%Z (retryDelayMs opts).

Lemma retry_loop_trace (fuel : nat) : forall (i : nat) le w,
  (Z.of_nat i + Z.of_nat fuel = r + 1)%Z ->
  (0 < fuel)%nat ->
  exists k, (k < fuel)%nat
    /\ trace (snd (retry_loop fuel (Z.of_nat i) url opts le w))
       = trace w ++ backoff_waits url d i k ++ [EvFetch url].
Proof.
  induction fuel as [|fuel IH]; intros i le w Hsum Hpos; [lia|].
  cbn [retry_loop]. destruct (http_get url w) as [o w1] eqn:Hg.
  assert (Ht : trace w1 = trace w ++ [EvFetch url]).
  { replace w1 with (snd (http_get url w)) by (rewrite Hg; reflexivity). reflexivity. }
  destruct (attempt_result o) as [error|html];
    [|exists 0%nat; split; [lia | exact Ht]].
  destruct (no_retry (classify (timeout opts) error));
    [exists 0%nat; split; [lia | exact Ht]|].
  fold r d. destruct (Z.ltb_spec (Z.of_nat i) r) as [Hlt|Hge].
  - destruct (IH (S i) (Some (classify (timeout opts) error))
                (sleep (d * (Z.of_nat i + 1)) w1)) as (k & Hk & E); [lia | lia |].
    exists (S k). split; [lia|].
    replace (Z.of_nat i + 1)%Z with (Z.of_nat (S i)) at 1 by lia.
    rewrite E. cbn [sleep trace backoff_waits]. rewrite Ht, <- !app_assoc. reflexivity.
  - assert (fuel = 0%nat) by lia. subst fuel.
    exists 0%nat. split; [lia | exact Ht].
Qed.

End Loop.

(** X8: whatever the network does, a call makes at most [retries + 1]
    requests, at least one when [retries] is not negative, all of them for
    its URL, and the wait after the [a]-th request, counted from 1, is
    [retryDelayMs * a]: the events of a call are a linear backoff of as
    many requests as it makes, never longer than the options allow. *)
Theorem fetchWithRetry_bounded (url : list N) (options : FetchOptions) (w : World) :
  exists n : nat,
    (Z.of_nat n <= Z.max 0 (effective_retries options + 1))%Z
    /\ ((0 <= effective_retries options)%Z -> (1 <= n)%nat)
    /\ trace (snd (fetchWithRetry url options w))
       = trace w ++ backoff_trace url (effective_delay options) n
    /\ fetches (backoff_trace url (effective_delay options) n) = repeat url n.
Proof.
  unfold fetchWithRetry, effective_retries, effective_delay.
  set (opts := spread DEFAULT_FETCH_OPTIONS options).
  set (r := nullish 2%Z (retries opts)).
  destruct (Z.to_nat (r + 1)) as [|fuel] eqn:Ef.
  - exists 0%nat. cbn [retry_loop snd backoff_trace]. rewrite app_nil_r.
    repeat split; lia.
  - destruct (retry_loop_trace url opts (S fuel) 0 None w) as (k & Hk & E).
    { fold r. lia. }
    { lia. }
    exists (S k). split; [lia|]. split; [lia|]. split.
    + change (Z.of_nat 0) with 0%Z in E. rewrite E. reflexivity.
    + apply fetches_backoff_trace.
Qed.

(** X9: with a negative number of retries the loop is not entered: no
    request is made, the world is left as it is, and the error thrown is
    the [FetchError] with code UNKNOWN. *)
Theorem fetchWithRetry_negative_retries (url : list N) (options : FetchOptions) (w : World) :
  (effective_retries options < 0)%Z ->
  fetchWithRetry url options w
  = (inl (FetchError (lit "UNKNOWN") (lit "Unknown fetch error")), w).
Proof.
  intros Hr. unfold fetchWithRetry. unfold effective_retries in Hr.
  replace (Z.to_nat _) with 0%nat by lia. reflexivity.
Qed.

Lemma fetchWithRetry_negative_retries_witness :
  fetchWithRetry example_url no_retries (quiet_world (always not_found))
  = (inl (FetchError (lit "UNKNOWN") (lit "Unknown fetch error")),
     quiet_world (always not_found)).
Proof. apply fetchWithRetry_negative_retries. reflexivity. Defined.

(** *** How long the limiter makes a caller wait *)

(** X10: when no entry of the limiter lies in the future and the clock
    reads a time after the epoch, a call to [waitForDomain] sets at most
    one timer, for a positive time not longer than the delay, and none at
    all when the delay is not positive; afterwards again no entry lies in
    the future. *)
Theorem waitForDomain_bounded_wait (rl : RateLimiter) (domain : list N)
    (delayMs : option Z) (w : World) :
  (0 <= now w)%Z ->
  no_future_entries rl w ->
  let delay := default (defaultDelayMs rl) delayMs in
  let rl' := fst (waitForDomain rl domain delayMs w) in
  let w' := snd (waitForDomain rl domain delayMs w) in
  no_future_entries rl' w'
  /\ (trace w' = trace w
      \/ exists ms, (0 < ms <= delay)%Z /\ trace w' = trace w ++ [EvSleep ms])
  /\ ((delay <= 0)%Z -> w' = w).
Proof.
  intros Hnow Hinv. cbn zeta.
  pose proof (waitForDomain_records rl domain delayMs w) as (Hrec & Hclock & _ & _).
  assert (Hlast : (default 0%Z (lastRequestTime rl !! domain) <= now w)%Z).
  { destruct (lastRequestTime rl !! domain) as [t|] eqn:Et; cbn [from_option id];
      [exact (Hinv domain t Et) | exact Hnow]. }
  split; [|split].
  - intros other t Ht.
    destruct (decide (other = domain)) as [->|Hne].
    + rewrite Hrec in Ht.
      assert (Et : t = now (snd (waitForDomain rl domain delayMs w))) by congruence.
      rewrite Et. lia.
    + rewrite waitForDomain_other in Ht by exact Hne.
      specialize (Hinv other t Ht). lia.
  - unfold waitForDomain. cbn [snd].
    destruct (Z.ltb_spec (now w - default 0%Z (lastRequestTime rl !! domain))
                         (default (defaultDelayMs rl) delayMs)) as [Hlt|Hge].
    + right. eexists. split; [|reflexivity]. lia.
    + left. reflexivity.
  - intros Hd. unfold waitForDomain. cbn [snd].
    destruct (Z.ltb_spec (now w - default 0%Z (lastRequestTime rl !! domain))
                         (default (defaultDelayMs rl) delayMs)) as [Hlt|Hge];
      [lia | reflexivity].
Qed.

(** The first call under the global limiter: it does not wait. *)
Lemma waitForDomain_bounded_wait_witness :
  snd (waitForDomain rateLimiter (lit "example.com") (Some 0%Z)
         (quiet_world (always not_found)))
  = quiet_world (always not_found).
Proof.
  apply (waitForDomain_bounded_wait rateLimiter (lit "example.com") (Some 0%Z)
           (quiet_world (always not_found))).
  - vm_compute. discriminate.
  - intros domain t Ht. exfalso.
    change (lastRequestTime rateLimiter) with (∅ : gmap (list N) Z) in Ht.
    rewrite lookup_empty in Ht. discriminate Ht.
  - cbn. lia.
Defined.

End FetcherBounds.

(** ** The parser: cleaned text, bodies and dates *)

Module ParserFacts.

Import JSFacts ArticleFacts WhiteSpaceFacts SpaceFacts Shapes ParserView.

(** *** cleanText *)

Lemma cleanText_idem (t : list N) :
  Parser.cleanText (Parser.cleanText t) = Parser.cleanText t.
Proof.
  rewrite !cleanText_collapse. unfold replace_space_runs.
  rewrite collapsed_trim by apply collapse_idem. apply trim_idem.
Qed.

(** X11: [cleanText] makes every run of white space, line breaks
    included, one space and trims the result; its second replacement, the
    one of blank lines, never finds a line feed to act on.  Cleaned text
    therefore has no white space but single spaces between other units,
    and cleaning it again changes nothing. *)
Theorem cleanText_normal_form (t : list N) :
  Parser.cleanText t = trim (replace_space_runs t)
  /\ Parser.cleanText (Parser.cleanText t) = Parser.cleanText t
  /\ single_spaced (Parser.cleanText t)
  /\ Forall (fun u => is_space u = true -> u = 32) (Parser.cleanText t).
Proof.
  split; [apply cleanText_collapse|]. split; [apply cleanText_idem|].
  rewrite cleanText_collapse. split; [split|].
  - unfold replace_space_runs. apply collapsed_trim, collapse_idem.
  - apply trim_idem.
  - apply Forall_trim, collapse_spaces.
Qed.

(** *** extractContent *)

Lemma cleanText_cons (u : N) (r : list N) :
  is_space u = false -> truthy (Parser.cleanText (u :: r)) = true.
Proof.
  intros Hu. rewrite cleanText_collapse. unfold replace_space_runs.
  cbn [collapse_from]. rewrite Hu.
  destruct (trim_cons u (collapse_from false r) Hu) as [r' ->]. reflexivity.
Qed.

Lemma join_head (sep x : list N) (rest : list (list N)) (u : N) (x' : list N) :
  x = u :: x' -> exists tail, join sep (x :: rest) = u :: tail.
Proof.
  intros ->. destruct rest as [|y rest]; cbn [join]; [eauto|].
  cbn [app]. eauto.
Qed.

Section WithDom.
Context `{StringApi} `{Dom}.

Lemma long_paragraphs_head (doc : Document) (element : Element) (p : list N)
    (ps : list (list N)) :
  Parser.long_paragraphs doc element = p :: ps ->
  exists u p', p = u :: p' /\ is_space u = false.
Proof.
  intros E.
  assert (Hin : p ∈ Parser.long_paragraphs doc element) by (rewrite E; left).
  unfold Parser.long_paragraphs in Hin.
  apply list_elem_of_filter in Hin as [Hp Hin].
  apply list_elem_of_In, in_map_iff in Hin as (x & <- & _).
  apply andb_true_iff in Hp as [Ht _].
  pose proof (trim_head (text doc x)) as Hh.
  destruct (trim (text doc x)) as [|u p']; [discriminate Ht|]. eauto.
Qed.

Lemma content_from_cleaned (doc : Document) (selectors : list (list N)) (c : list N) :
  Parser.content_from doc selectors = Some c ->
  truthy c = true /\ exists raw, c = Parser.cleanText raw.
Proof.
  induction selectors as [|sel rest IH]; cbn [Parser.content_from]; [discriminate|].
  destruct (Parser.first doc sel) as [element|]; [|exact IH].
  destruct (Parser.long_paragraphs doc element) as [|p ps] eqn:Ep.
  - change (0 <? length (@nil (list N)))%nat with false. cbv match.
    destruct (truthy (trim (text doc element))
              && (50 <? length (trim (text doc element)))%nat) eqn:Ec; [|exact IH].
    intros [= <-]. apply andb_true_iff in Ec as [Ht _].
    split; [apply cleanText_truthy, Ht | eauto].
  - change (0 <? length (p :: ps))%nat with true. cbv match. intros E.
    assert (Ec : c = Parser.cleanText (join [10; 10] (p :: ps))) by congruence.
    clear E IH. rewrite Ec.
    destruct (long_paragraphs_head doc element p ps Ep) as (u & p' & Eu & Hu).
    destruct (join_head [10; 10] p ps u p' Eu) as [tail ->].
    split; [apply cleanText_cons, Hu | eauto].
Qed.

End WithDom.

(** X12: a body returned by [extractContent] is never empty, and it is
    cleaned text: no white space but single spaces inside it, so no line
    break and no paragraph separator survives, and cleaning it again
    changes nothing. *)
Theorem extractContent_cleaned `{StringApi} `{Dom} (doc : Document) (selector c : list N) :
  Parser.extractContent doc selector = Some c ->
  truthy c = true
  /\ Parser.cleanText c = c
  /\ single_spaced c
  /\ Forall (fun u => is_space u = true -> u = 32) c.
Proof.
  intros E. apply content_from_cleaned in E as (Ht & raw & ->).
  destruct (cleanText_normal_form raw) as (_ & Hi & Hs & Hf).
  repeat split; try assumption; apply Hs.
Qed.

(** The body of the example page: its two long paragraphs, the double
    space and the separator between them each reduced to one space. *)
Lemma extractContent_cleaned_witness :
  Parser.cleanText
    (lit "Harga saham naik dua persen hari ini. Investor asing mencatat beli bersih.")
  = lit "Harga saham naik dua persen hari ini. Investor asing mencatat beli bersih.".
Proof.
  apply (@extractContent_cleaned Toy.strings story_dom (@load story_dom (lit "STORY")) (lit "div.body")).
  vm_compute. reflexivity.
Defined.

(** *** Dates *)

Lemma span_stops (p : N -> bool) (a rest : list N) :
  Forall (fun u => p u = true) a -> stops p rest ->
  Parser.span p (a ++ rest) = (a, rest).
Proof.
  intros Ha Hr. induction Ha as [|u a Hu _ IH]; cbn [app Parser.span].
  - destruct rest as [|v rest]; [reflexivity|]. cbn [stops] in Hr.
    cbn [Parser.span]. rewrite Hr. reflexivity.
  - rewrite Hu, IH. reflexivity.
Qed.

Lemma span_fst_all (p : N -> bool) (s : list N) :
  Forall (fun u => p u = true) (fst (Parser.span p s))
  /\ (length (fst (Parser.span p s)) <= length s)%nat.
Proof.
  induction s as [|u r [IH1 IH2]]; cbn [Parser.span fst length];
    [split; [constructor | lia]|].
  destruct (p u) eqn:E; cbn [fst length]; [|split; [constructor | lia]].
  destruct (Parser.span p r) as [a b]. cbn [fst length] in *.
  split; [constructor; assumption | lia].
Qed.

(** The digits at the start of the first [n] units. *)
Lemma span_take_digits (n : nat) (a rest : list N) :
  Forall (fun u => is_digit u = true) a ->
  (length a <= n)%nat ->
  (length a = n \/ stops is_digit rest) ->
  fst (Parser.span is_digit (take n (a ++ rest))) = a.
Proof.
  intros Ha. revert n. induction Ha as [|u a Hu _ IH]; intros n Hn Hstop.
  - cbn [app]. destruct n as [|n]; [destruct rest; reflexivity|].
    destruct Hstop as [Hl|Hs]; [discriminate Hl|].
    destruct rest as [|v rest]; [reflexivity|].
    cbn [take Parser.span]. cbn [stops] in Hs. rewrite Hs. reflexivity.
  - destruct n as [|n]; [cbn in Hn; lia|].
    cbn [app take Parser.span]. rewrite Hu.
    specialize (IH n). destruct (Parser.span is_digit (take n (a ++ rest))) as [x y].
    cbn [fst] in *. f_equal. apply IH; [cbn in Hn; lia|].
    destruct Hstop as [Hl|Hs]; [left; cbn in Hl; lia | right; exact Hs].
Qed.

Lemma digit_not_space (u : N) : is_digit u = true -> is_space u = false.
Proof.
  unfold is_digit. intros Hd. apply andb_true_iff in Hd as [H1 H2].
  apply N.leb_le in H1, H2. apply is_space_low. lia.
Qed.

Lemma word_not_space (u : N) : Parser.is_word u = true -> is_space u = false.
Proof.
  unfold Parser.is_word, is_digit. intros Hw. apply is_space_low.
  repeat (apply orb_true_iff in Hw as [Hw|Hw]);
    try (apply andb_true_iff in Hw as [H1 H2]; apply N.leb_le in H1, H2; lia).
  apply N.eqb_eq in Hw. lia.
Qed.

Lemma space_not_word (u : N) : is_space u = true -> Parser.is_word u = false.
Proof.
  intros Hs. destruct (Parser.is_word u) eqn:E; [|reflexivity].
  apply word_not_space in E. congruence.
Qed.

Lemma space_not_digit (u : N) : is_space u = true -> is_digit u = false.
Proof.
  intros Hs. destruct (is_digit u) eqn:E; [|reflexivity].
  apply digit_not_space in E. congruence.
Qed.

Lemma stops_app (p : N -> bool) (a rest : list N) :
  a <> [] -> Forall (fun u => p u = false) a -> stops p (a ++ rest).
Proof. intros Hne Ha. destruct Ha as [|u a Hu _]; [congruence | exact Hu]. Qed.

(** The first pattern matched where its parts stand. *)
Lemma date_pattern_here_parts (ds sp1 word sp2 ys post : list N) :
  Forall (fun u => is_digit u = true) ds -> (1 <= length ds <= 2)%nat ->
  Forall (fun u => is_space u = true) sp1 -> sp1 <> [] ->
  Forall (fun u => Parser.is_word u = true) word -> word <> [] ->
  Forall (fun u => is_space u = true) sp2 -> sp2 <> [] ->
  Forall (fun u => is_digit u = true) ys -> length ys = 4%nat ->
  Parser.date_pattern_here (ds ++ sp1 ++ word ++ sp2 ++ ys ++ post)
  = Some (ds, word, ys).
Proof.
  intros Hds Hlds Hsp1 Hn1 Hw Hnw Hsp2 Hn2 Hys Hlys.
  unfold Parser.date_pattern_here.
  assert (S1 : stops is_digit (sp1 ++ word ++ sp2 ++ ys ++ post)).
  { apply stops_app; [assumption|].
    eapply List.Forall_impl; [|exact Hsp1]. apply space_not_digit. }
  assert (S2 : stops is_space (word ++ sp2 ++ ys ++ post)).
  { apply stops_app; [assumption|].
    eapply List.Forall_impl; [|exact Hw]. apply word_not_space. }
  assert (S3 : stops Parser.is_word (sp2 ++ ys ++ post)).
  { apply stops_app; [assumption|].
    eapply List.Forall_impl; [|exact Hsp2]. apply space_not_word. }
  assert (S4 : stops is_space (ys ++ post)).
  { apply stops_app; [intros ->; discriminate Hlys|].
    eapply List.Forall_impl; [|exact Hys]. apply digit_not_space. }
  rewrite (span_take_digits 2 ds _ Hds) by (try lia; right; exact S1).
  rewrite drop_app_length.
  rewrite (span_stops is_space sp1 _ Hsp1 S2).
  rewrite (span_stops Parser.is_word word _ Hw S3).
  rewrite (span_stops is_space sp2 _ Hsp2 S4).
  rewrite (span_take_digits 4 ys _ Hys) by (try lia; left; exact Hlys).
  rewrite Hlys.
  destruct ds; [cbn in Hlds; lia|]. destruct sp1; [congruence|].
  destruct word; [congruence|]. destruct sp2; [congruence|]. reflexivity.
Qed.

Lemma date_pattern_here_no_digit (s : list N) :
  stops is_digit s -> Parser.date_pattern_here s = None.
Proof.
  intros Hs. unfold Parser.date_pattern_here.
  assert (E : fst (Parser.span is_digit (take 2 s)) = []).
  { destruct s as [|u r]; [reflexivity|]. cbn [stops] in Hs.
    cbn [take Parser.span]. rewrite Hs. reflexivity. }
  rewrite E. cbn [length]. rewrite drop_0.
  destruct (Parser.span is_space s) as [sp1 r2].
  destruct (Parser.span Parser.is_word r2) as [word r3].
  destruct (Parser.span is_space r3) as [sp2 r4]. reflexivity.
Qed.

Lemma date_pattern_skip (pre s : list N) :
  Forall (fun u => is_digit u = false) pre ->
  Parser.date_pattern (pre ++ s) = Parser.date_pattern s.
Proof.
  induction 1 as [|u pre Hu _ IH]; [reflexivity|].
  cbn [app Parser.date_pattern].
  rewrite date_pattern_here_no_digit by exact Hu. exact IH.
Qed.

Lemma date_pattern_found (s : list N) m :
  Parser.date_pattern_here s = Some m -> Parser.date_pattern s = Some m.
Proof. intros E. destruct s; cbn [Parser.date_pattern]; rewrite E; reflexivity. Qed.

Lemma own_month_nonempty (key : list N) (m : Z) :
  Parser.own_month Parser.months key = Some m -> key <> [].
Proof. intros E ->. vm_compute in E. discriminate E. Qed.

(** X13: a text that holds, after a part without digits, one or two
    digits, white space, a month name of the table in any letter case,
    white space and four digits is read as that day, month and year,
    provided the day is not zero and the year lies after 2000; what
    follows the year does not matter. *)
Theorem parseIndonesianDate_day_month_year `{StringApi} `{DateApi}
    (pre ds sp1 word sp2 ys post : list N) (m : Z) :
  Forall (fun u => is_digit u = false) pre ->
  Forall (fun u => is_digit u = true) ds -> (1 <= length ds <= 2)%nat ->
  blank sp1 -> sp1 <> [] ->
  Forall (fun u => Parser.is_word u = true) word ->
  Parser.own_month Parser.months (toLowerCase word) = Some m ->
  blank sp2 -> sp2 <> [] ->
  Forall (fun u => is_digit u = true) ys -> length ys = 4%nat ->
  0 < parseInt10 ds -> 2000 < parseInt10 ys ->
  Parser.parseIndonesianDate (pre ++ ds ++ sp1 ++ word ++ sp2 ++ ys ++ post)
  = Some (DateOfParts (Z.of_N (parseInt10 ys)) m (Z.of_N (parseInt10 ds))).
Proof.
  intros Hpre Hds Hlds Hsp1 Hn1 Hw Hm Hsp2 Hn2 Hys Hlys Hday Hyear.
  assert (Hnw : word <> []).
  { intros ->. rewrite toLowerCase_basic_latin in Hm by reflexivity.
    apply own_month_nonempty in Hm. apply Hm. reflexivity. }
  unfold Parser.parseIndonesianDate.
  rewrite date_pattern_skip by exact Hpre.
  rewrite (date_pattern_found _ (ds, word, ys))
    by (apply date_pattern_here_parts; assumption).
  unfold Parser.month_value. rewrite Hm.
  assert (Hd : (0 <? Z.of_N (parseInt10 ds))%Z = true) by (apply Z.ltb_lt; lia).
  assert (Hy : (2000 <? Z.of_N (parseInt10 ys))%Z = true) by (apply Z.ltb_lt; lia).
  rewrite Hd, Hy. reflexivity.
Qed.

(** The example of the source: a date with the day of the week before it
    and the time of day after it. *)
Lemma parseIndonesianDate_day_month_year_witness :
  @Parser.parseIndonesianDate Toy.strings Toy.dates (lit "Senin, 03 Feb 2025 10:30 WIB")
  = Some (DateOfParts 2025 1 3).
Proof.
  apply (@parseIndonesianDate_day_month_year Toy.strings Toy.dates
           (lit "Senin, ") (lit "03") (lit " ") (lit "Feb") (lit " ") (lit "2025")
           (lit " 10:30 WIB") 1%Z);
    try (repeat constructor; fail); try (cbn; lia); try discriminate.
Defined.

Lemma iso_pattern_here_digit (s m : list N) :
  Parser.iso_pattern_here s = Some m -> stops is_digit s -> False.
Proof.
  unfold Parser.iso_pattern_here.
  destruct s as [|a [|b [|c [|d [|h1 [|e [|f [|h2 [|g [|i r]]]]]]]]]];
    try discriminate.
  cbn [take stops forallb]. intros E Ha. rewrite Ha in E. discriminate E.
Qed.

Lemma iso_pattern_no_digit (s : list N) :
  Forall (fun u => is_digit u = false) s -> Parser.iso_pattern s = None.
Proof.
  induction 1 as [|u r Hu Hr IH]; [reflexivity|].
  cbn [Parser.iso_pattern].
  destruct (Parser.iso_pattern_here (u :: r)) as [m|] eqn:E; [|exact IH].
  exfalso. eapply iso_pattern_here_digit; [exact E | exact Hu].
Qed.

Lemma date_pattern_no_digit (s : list N) :
  Forall (fun u => is_digit u = false) s -> Parser.date_pattern s = None.
Proof.
  intros Hs. rewrite <- (app_nil_r s). rewrite date_pattern_skip by exact Hs. reflexivity.
Qed.

(** X14: a text without a digit is not a date: [parseIndonesianDate]
    returns nothing for it, whatever the platform can parse. *)
Theorem parseIndonesianDate_no_digit `{StringApi} `{DateApi} (text : list N) :
  Forall (fun u => is_digit u = false) text ->
  Parser.parseIndonesianDate text = None.
Proof.
  intros Hs. unfold Parser.parseIndonesianDate, Parser.iso_fallback.
  rewrite date_pattern_no_digit, iso_pattern_no_digit by exact Hs. reflexivity.
Qed.

Lemma parseIndonesianDate_no_digit_witness :
  @Parser.parseIndonesianDate Toy.strings Toy.dates (lit "kemarin sore") = None.
Proof. apply parseIndonesianDate_no_digit. repeat constructor. Defined.

(** *** The range of a date read from the first pattern *)

Lemma digit_in_digits (u : N) : is_digit u = true -> In u digits.
Proof.
  unfold is_digit. intros Hd. apply andb_true_iff in Hd as [H1 H2].
  apply N.leb_le in H1, H2.
  assert (Hu : u = N.of_nat (N.to_nat u)) by lia. rewrite Hu.
  apply in_map, in_seq. lia.
Qed.

Lemma digit_strings_complete (k : nat) : forall s,
  Forall (fun u => is_digit u = true) s -> length s = k -> In s (digit_strings k).
Proof.
  induction k as [|k IH]; intros s Hs Hl.
  - destruct s; [left; reflexivity | discriminate Hl].
  - destruct Hs as [|u s Hu Hs]; [discriminate Hl|].
    cbn [digit_strings]. apply in_flat_map. exists u.
    split; [apply digit_in_digits, Hu|].
    apply in_map, IH; [exact Hs | cbn in Hl; lia].
Qed.

Lemma parseInt10_two_digits (s : list N) :
  Forall (fun u => is_digit u = true) s -> (1 <= length s <= 2)%nat -> parseInt10 s < 100.
Proof.
  intros Hs Hl.
  assert (Hall : forallb (fun x => parseInt10 x <? 100)
                   (digit_strings 1 ++ digit_strings 2) = true)
    by (vm_compute; reflexivity).
  rewrite forallb_forall in Hall. apply N.ltb_lt, Hall, in_or_app.
  destruct (Nat.eq_dec (length s) 1%nat) as [E|E];
    [left | right]; apply digit_strings_complete; try assumption; lia.
Qed.

Lemma parseInt10_four_digits (s : list N) :
  Forall (fun u => is_digit u = true) s -> length s = 4%nat -> parseInt10 s < 10000.
Proof.
  intros Hs Hl.
  assert (Hall : forallb (fun x => parseInt10 x <? 10000) (digit_strings 4) = true)
    by (vm_compute; reflexivity).
  rewrite forallb_forall in Hall. apply N.ltb_lt, Hall.
  apply digit_strings_complete; assumption.
Qed.

Lemma date_pattern_here_shape (s d w y : list N) :
  Parser.date_pattern_here s = Some (d, w, y) ->
  Forall (fun u => is_digit u = true) d /\ (1 <= length d <= 2)%nat
  /\ Forall (fun u => is_digit u = true) y /\ length y = 4%nat.
Proof.
  unfold Parser.date_pattern_here.
  destruct (span_fst_all is_digit (take 2 s)) as [Hd Hld].
  set (day := fst (Parser.span is_digit (take 2 s))) in *.
  destruct (Parser.span is_space (drop (length day) s)) as [sp1 r2].
  destruct (Parser.span Parser.is_word r2) as [word r3].
  destruct (Parser.span is_space r3) as [sp2 r4].
  destruct (span_fst_all is_digit (take 4 r4)) as [Hy _].
  set (year := fst (Parser.span is_digit (take 4 r4))) in *.
  destruct (truthy day && truthy sp1 && truthy word && truthy sp2
            && (length year =? 4)%nat) eqn:Ec; [|discriminate].
  intros E. assert (Ed : d = day) by congruence. assert (Ey : y = year) by congruence.
  subst d y.
  repeat (apply andb_true_iff in Ec as [Ec ?]).
  rewrite length_take in Hld.
  split; [exact Hd|]. split; [|split; [exact Hy | apply Nat.eqb_eq; assumption]].
  destruct day; [discriminate Ec | cbn [length] in *; lia].
Qed.

Lemma date_pattern_shape (s d w y : list N) :
  Parser.date_pattern s = Some (d, w, y) ->
  Forall (fun u => is_digit u = true) d /\ (1 <= length d <= 2)%nat
  /\ Forall (fun u => is_digit u = true) y /\ length y = 4%nat.
Proof.
  induction s as [|u r IH]; cbn [Parser.date_pattern].
  - destruct (Parser.date_pattern_here []) as [m|] eqn:E; [|discriminate].
    intros [= ->]. eapply date_pattern_here_shape, E.
  - destruct (Parser.date_pattern_here (u :: r)) as [m|] eqn:E; [|exact IH].
    intros [= ->]. eapply date_pattern_here_shape, E.
Qed.

Lemma own_month_in (table : list (list N * Z)) (key : list N) (m : Z) :
  Parser.own_month table key = Some m -> In m (map snd table).
Proof.
  induction table as [|[k v] rest IH]; cbn [Parser.own_month map snd]; [discriminate|].
  destruct (str_eqb k key); [intros [= ->]; left; reflexivity | right; auto].
Qed.

Lemma iso_fallback_string `{StringApi} `{DateApi} (text : list N) (y m d : Z) :
  Parser.iso_fallback text = Some (DateOfParts y m d) -> False.
Proof.
  unfold Parser.iso_fallback. destruct (Parser.iso_pattern text) as [x|]; [|discriminate].
  destruct (date_string_valid x); discriminate.
Qed.

(** X15: a date that [parseIndonesianDate] builds from day, month and
    year has a four-digit year after 2000, a month index between 0 and 11
    and a day between 1 and 99; nothing else about the day is checked. *)
Theorem parseIndonesianDate_range `{StringApi} `{DateApi} (text : list N) (y m d : Z) :
  Parser.parseIndonesianDate text = Some (DateOfParts y m d) ->
  (2000 < y < 10000)%Z /\ (0 <= m <= 11)%Z /\ (0 < d < 100)%Z.
Proof.
  unfold Parser.parseIndonesianDate.
  destruct (Parser.date_pattern text) as [[[ds w] ys]|] eqn:Ep;
    [|intros E; exfalso; eapply iso_fallback_string, E].
  apply date_pattern_shape in Ep as (Hds & Hlds & Hys & Hlys).
  pose proof (parseInt10_two_digits ds Hds Hlds) as Bd.
  pose proof (parseInt10_four_digits ys Hys Hlys) as By.
  unfold Parser.month_value.
  destruct (Parser.own_month Parser.months (toLowerCase w)) as [m0|] eqn:Em.
  - destruct (Z.ltb_spec 0 (Z.of_N (parseInt10 ds))) as [Hd|Hd]; cbn [andb];
      [|intros E; exfalso; eapply iso_fallback_string, E].
    destruct (Z.ltb_spec 2000 (Z.of_N (parseInt10 ys))) as [Hy|Hy];
      [|intros E; exfalso; eapply iso_fallback_string, E].
    intros [= <- <- <-]. split; [lia|]. split; [|lia].
    apply own_month_in in Em.
    assert (Hall : forallb (fun v => (0 <=? v)%Z && (v <=? 11)%Z)
                     (map snd Parser.months) = true) by reflexivity.
    rewrite forallb_forall in Hall. specialize (Hall m0 Em).
    apply andb_true_iff in Hall as [Hlo Hhi]. apply Z.leb_le in Hlo, Hhi. lia.
  - destruct (str_eqb _ _ || str_eqb _ _).
    + destruct ((0 <? _)%Z && (2000 <? _)%Z); [discriminate|].
      intros E; exfalso; eapply iso_fallback_string, E.
    + intros E; exfalso; eapply iso_fallback_string, E.
Qed.

Lemma parseIndonesianDate_range_witness :
  (2000 < 2025 < 10000)%Z /\ (0 <= 1 <= 11)%Z /\ (0 < 3 < 100)%Z.
Proof.
  apply (@parseIndonesianDate_range Toy.strings Toy.dates (lit "3 Februari 2025")).
  vm_compute. reflexivity.
Defined.

End ParserFacts.

(** ** The orchestrator: chunks, failures, messages and durations *)

Module OrchestratorFacts.

Import Fetcher FetcherSpec RetryFacts LimiterFacts Crawler CrawlerSpec CrawlerFacts RunFacts.
Import CrawlerView.

(** *** chunkArray *)

Lemma chunk_loop_lookup {A} (l : list A) (size : nat) (fuel : nat) : forall i k,
  (0 < size)%nat ->
  (length l - i <= fuel)%nat ->
  chunk_loop fuel l size i !! k
  = if (i + k * size <? length l)%nat
    then Some (take size (drop (i + k * size) l)) else None.
Proof.
  induction fuel as [|fuel IH]; intros i k Hs Hf; cbn [chunk_loop].
  - destruct (Nat.ltb_spec (i + k * size) (length l)); [nia | reflexivity].
  - destruct (Nat.ltb_spec i (length l)) as [Hlt|Hge].
    + destruct k as [|k].
      * cbn [lookup list_lookup]. rewrite Nat.add_0_r.
        apply Nat.ltb_lt in Hlt. rewrite Hlt, slice_take_drop. reflexivity.
      * cbn [lookup list_lookup]. change (list_lookup k ?x) with (x !! k).
        rewrite IH by lia.
        replace (i + size + k * size)%nat with (i + S k * size)%nat by lia.
        reflexivity.
    + destruct (Nat.ltb_spec (i + k * size) (length l)); [nia | reflexivity].
Qed.

(** X16: for a positive size [chunkArray] cuts the array into consecutive
    pieces: put together they are the array; the [i]-th piece is the
    [size] elements from position [i * size] on, or what is left of them;
    no piece is empty or longer than [size]; and there are just as many
    pieces as it takes to cover the array. *)
Theorem chunkArray_chunks {A} (array : list A) (size : nat) :
  (0 < size)%nat ->
  concat (chunkArray array size) = array
  /\ (forall i, chunkArray array size !! i
                = if (i * size <? length array)%nat
                  then Some (take size (drop (i * size) array)) else None)
  /\ Forall (fun c => (1 <= length c <= size)%nat) (chunkArray array size)
  /\ (length array <= length (chunkArray array size) * size < length array + size)%nat.
Proof.
  intros Hs.
  assert (Hlook : forall i, chunkArray array size !! i
                    = if (i * size <? length array)%nat
                      then Some (take size (drop (i * size) array)) else None).
  { intros i. unfold chunkArray. rewrite chunk_loop_lookup by lia. reflexivity. }
  split; [apply chunkArray_concat, Hs|]. split; [exact Hlook|]. split.
  - apply Forall_lookup. intros i c Hc. rewrite Hlook in Hc.
    destruct (Nat.ltb_spec (i * size) (length array)) as [Hlt|]; [|discriminate].
    injection Hc as <-. rewrite length_take, length_drop. lia.
  - set (m := length (chunkArray array size)).
    assert (Hend : chunkArray array size !! m = None) by (apply lookup_ge_None; lia).
    rewrite Hlook in Hend.
    destruct (Nat.ltb_spec (m * size) (length array)) as [|Hge]; [discriminate|].
    split; [exact Hge|].
    destruct m as [|m'] eqn:Em; [lia|].
    assert (Hlast : is_Some (chunkArray array size !! m')).
    { apply lookup_lt_is_Some. fold m in Em. unfold m in Em. lia. }
    rewrite Hlook in Hlast.
    destruct (Nat.ltb_spec (m' * size) (length array)) as [Hlt|];
      [lia | destruct Hlast as [x Hx]; discriminate].
Qed.

(** Thirteen sources in batches of three: four full batches and one of
    a single source. *)
Lemma chunkArray_chunks_witness :
  map (@length nat) (chunkArray (seq 1 13) MAX_CONCURRENT_PORTALS) = [3; 3; 3; 3; 1]%nat
  /\ concat (chunkArray (seq 1 13) MAX_CONCURRENT_PORTALS) = seq 1 13.
Proof.
  split; [reflexivity|].
  apply (chunkArray_chunks (seq 1 13) MAX_CONCURRENT_PORTALS).
  unfold MAX_CONCURRENT_PORTALS. lia.
Defined.

(** *** What one link does to the log, the errors and the clock *)

Section WithPlatform.
Context `{StringApi} `{Dom} `{UrlApi} `{DateApi} `{Database}.

Variable config : NewsPortalConfig.

Lemma fetch_world_clock (domain : list N) (f : Frame) :
  (now (world f) <= now (fetch_world config domain f))%Z.
Proof.
  unfold fetch_world.
  pose proof (waitForDomain_records (limiter f) domain (delayMs config) (world f))
    as (_ & Hle & _). exact Hle.
Qed.

Lemma article_try_frame (domain url : list N) (f : Frame) :
  log (snd (article_try config domain url f)) = log f
  /\ loc_errors (snd (article_try config domain url f)) = loc_errors f
  /\ world (snd (article_try config domain url f))
     = snd (fetchWithRetry url no_options (fetch_world config domain f))
  /\ (forall e, fst (article_try config domain url f) = inl e ->
        link_kind config domain url f = FetchFailed
        \/ link_kind config domain url f = InsertRefused).
Proof.
  unfold link_kind, fetch_world, article_try, bind, waitForDomainM, fetchWithRetryM, modify.
  destruct (waitForDomain (limiter f) domain (delayMs config) (world f))
    as [rl w1] eqn:Ew.
  cbn [snd world set_world set_limiter store limiter].
  destruct (fetchWithRetry url no_options w1) as [[e|html] w2] eqn:Ef; cbn [fst snd].
  - repeat split. intros e' _. left. reflexivity.
  - destruct (Parser.parseArticle html url config) as [article|] eqn:Ep.
    + destruct (truthy (title article)) eqn:Et; cbn [negb].
      * unfold incr_articlesCrawled, isArticleDuplicate, gets, insertM, incr_newArticles,
          modify, ret.
        cbn [snd world set_world set_limiter store limiter].
        fold (insert_of article).
        change (Deduplicator.generateContentHash (title article) (content article))
          with (contentHash (insert_of article)).
        destruct (getNewsArticleByHash (store f) (contentHash (insert_of article)))
          as [row|] eqn:Ed.
        -- repeat split. intros e' [=].
        -- cbn [store]. destruct (insertNewsArticle (store f) (insert_of article))
             as [e|s'] eqn:Ei.
           ++ repeat split. intros e' _. right. reflexivity.
           ++ repeat split. intros e' [=].
      * repeat split. intros e' [=].
    + repeat split. intros e' [=].
Qed.

Lemma article_step_frame (domain url : list N) (f : Frame) :
  exists f',
    article_step config domain url f = (inr tt, f')
    /\ log f' = log f
    /\ (loc_errors f' = loc_errors f
        \/ exists e, loc_errors f' = loc_errors f ++ [article_error url e])
    /\ (now (world f) <= now (world f'))%Z.
Proof.
  pose proof (article_try_frame domain url f) as (Hl & He & Hw & _).
  assert (Hc : (now (world f) <= now (world (snd (article_try config domain url f))))%Z).
  { rewrite Hw. pose proof (fetch_world_clock domain f).
    pose proof (fetchWithRetry_clock url no_options (fetch_world config domain f)). lia. }
  unfold article_step, try_catch.
  destruct (article_try config domain url f) as [[e|[]] f1]; cbn [snd] in *.
  - unfold push_error, modify. eexists. split; [reflexivity|].
    cbn [log loc_errors world]. split; [exact Hl|]. split; [|exact Hc].
    right. exists e. rewrite He. reflexivity.
  - exists f1. split; [reflexivity|]. split; [exact Hl|]. split; [left; exact He | exact Hc].
Qed.

Lemma for_each_frame (domain : list N) (urls : list (list N)) : forall f : Frame,
  exists f' failed,
    for_each urls (article_step config domain) f = (inr tt, f')
    /\ log f' = log f
    /\ loc_errors f'
       = loc_errors f ++ map (fun p => article_error (fst p) (snd p)) failed
    /\ sublist (map fst failed) urls
    /\ (now (world f) <= now (world f'))%Z.
Proof.
  induction urls as [|url rest IH]; intros f; cbn [for_each].
  - exists f, []. unfold ret. cbn [map]. rewrite app_nil_r.
    repeat split; [constructor | lia].
  - unfold bind.
    destruct (article_step_frame domain url f) as (f1 & E1 & Hl1 & He1 & Hc1).
    rewrite E1.
    destruct (IH f1) as (f' & failed & E' & Hl' & He' & Hs' & Hc').
    destruct He1 as [He1 | [e He1]].
    + exists f', failed. split; [exact E'|]. split; [congruence|].
      split; [rewrite He', He1; reflexivity|].
      split; [apply sublist_cons, Hs' | lia].
    + exists f', ((url, e) :: failed). split; [exact E'|]. split; [congruence|].
      split; [rewrite He', He1, <- app_assoc; reflexivity|].
      split; [cbn [map fst]; apply sublist_skip, Hs' | lia].
Qed.

(** *** The two ways a crawl ends *)

Lemma open_listing_frame (f : Frame) :
  let domain := getDomain (baseUrl config) in
  fst (open_listing config f)
  = fst (fetchWithRetry (baseUrl config) no_options (fetch_world config domain f))
  /\ world (snd (open_listing config f))
     = snd (fetchWithRetry (baseUrl config) no_options (fetch_world config domain f))
  /\ log (snd (open_listing config f))
     = log f ++ [(LogInfo, lit "Crawling " ++ name config ++ lit "...")].
Proof.
  cbn zeta. unfold open_listing, fetch_world, bind, emit, waitForDomainM,
    fetchWithRetryM, modify.
  cbn [world limiter set_world set_limiter].
  destruct (waitForDomain (limiter f) (getDomain (baseUrl config)) (delayMs config)
              (world f)) as [rl w1].
  cbn [world limiter set_world set_limiter snd].
  destruct (fetchWithRetry (baseUrl config) no_options w1) as [r w2].
  repeat split.
Qed.

Lemma crawlPortal_failed_log (f f1 : Frame) (e : JsError) :
  open_listing config (init_locals f) = (inl e, f1) ->
  log (snd (crawlPortal config f)) = log f ++ failure_log config e.
Proof.
  intros Eo.
  pose proof (open_listing_frame (init_locals f)) as (_ & _ & Hl).
  rewrite Eo in Hl. cbn [snd] in Hl.
  unfold crawlPortal, bind, modify, date_now, gets, try_catch, portal_try, bind.
  rewrite Eo.
  unfold portal_catch, bind, emit, push_error, modify, finish.
  cbn [snd log]. rewrite Hl. cbn [init_locals log].
  rewrite <- app_assoc. reflexivity.
Qed.

Lemma crawlPortal_fetched_log (f f1 f3 : Frame) (html : list N) :
  open_listing config (init_locals f) = (inr html, f1) ->
  for_each (take MAX_ARTICLES_PER_PORTAL (listing_links config html))
           (article_step config (getDomain (baseUrl config)))
           (loop_frame config html f1) = (inr tt, f3) ->
  log (snd (crawlPortal config f))
  = log f3 ++ [(LogSuccess, name config ++ lit ": " ++ string_of_Z (loc_newArticles f3)
                            ++ lit " new articles saved")].
Proof.
  intros Eo E3.
  unfold crawlPortal, bind, modify, date_now, gets, try_catch, portal_try, bind.
  rewrite Eo.
  unfold crawl_articles, bind.
  unfold loop_frame, listing_links, bind in E3.
  destruct (set_articlesFound _ f1) as [[e1|[]] g1] eqn:E1; [discriminate E1|].
  unfold gets at 1. unfold gets at 1 in E3.
  destruct (emit LogInfo _ g1) as [[e2|[]] g2] eqn:E2; [discriminate E2|].
  cbn [snd] in E3. rewrite E3.
  unfold gets, emit, modify, finish. reflexivity.
Qed.

Lemma open_listing_result (f : Frame) (r : Result (list N)) :
  fst (fetchWithRetry (baseUrl config) no_options
         (fetch_world config (getDomain (baseUrl config)) f)) = r ->
  exists f1, open_listing config (init_locals f) = (r, f1).
Proof.
  intros E. pose proof (open_listing_frame (init_locals f)) as (Hf & _).
  exists (snd (open_listing config (init_locals f))).
  rewrite (surjective_pairing (open_listing config (init_locals f))).
  rewrite Hf. f_equal. exact E.
Qed.

(** The clock does not run backwards during a crawl, and the duration
    reported is the time the crawl took. *)
Lemma crawlPortal_clock (f : Frame) :
  exists res f',
    crawlPortal config f = (inr res, f')
    /\ durationMs res = (now (world f') - now (world f))%Z
    /\ (now (world f) <= now (world f'))%Z.
Proof.
  destruct (open_listing config (init_locals f)) as [[e|html] f1] eqn:Eo.
  - destruct (crawlPortal_listing_failed config f f1 e Eo) as (f' & E & Hw & _).
    destruct (open_listing_run config (init_locals f))
      as (r & f1' & Eo' & _ & _ & _ & _ & _ & Hc & _).
    rewrite Eo in Eo'. injection Eo' as <- <-. cbn [init_locals world] in Hc.
    eexists _, f'. split; [exact E|]. cbn [durationMs]. rewrite Hw. split; [reflexivity | lia].
  - destruct (crawlPortal_listing_fetched config f f1 html Eo)
      as (f3 & f' & E3 & E & Hw & _).
    destruct (open_listing_run config (init_locals f))
      as (r & f1' & Eo' & _ & _ & _ & _ & _ & Hc & _).
    rewrite Eo in Eo'. injection Eo' as <- <-. cbn [init_locals world] in Hc.
    destruct (for_each_frame (getDomain (baseUrl config))
                (take MAX_ARTICLES_PER_PORTAL (listing_links config html))
                (loop_frame config html f1)) as (f3' & failed & E3' & _ & _ & _ & Hc3).
    rewrite E3 in E3'. injection E3' as <-.
    destruct (loop_frame_fields config html f1) as (_ & _ & _ & _ & Lw & _).
    rewrite Lw in Hc3.
    eexists _, f'. split; [exact E|]. cbn [durationMs]. rewrite Hw. split; [reflexivity | lia].
Qed.

End WithPlatform.

(** X17: when the listing of a source cannot be fetched, [crawlPortal]
    does not throw: it returns a result marked as failed, with all counts
    zero and the single error [Portal error: ] followed by the message of
    the fetch error; it reports the start and the failure to the log,
    leaves the store alone and has asked for nothing but the listing. *)
Theorem crawlPortal_listing_failure `{StringApi} `{Dom} `{UrlApi} `{DateApi} `{Database}
    (config : NewsPortalConfig) (f : Frame) (e : JsError) :
  fst (fetchWithRetry (baseUrl config) no_options
         (fetch_world config (getDomain (baseUrl config)) f)) = inl e ->
  exists f',
    crawlPortal config f =
      (inr {| r_portal := name config; success := false;
              articlesFound := 0; articlesCrawled := 0; newArticles := 0;
              errors := [lit "Portal error: " ++ err_message e];
              durationMs := (now (world f') - now (world f))%Z |}, f')
    /\ store f' = store f
    /\ log f' = log f ++ failure_log config e
    /\ exists m, (1 <= m <= 3)%nat
         /\ fetches (trace (world f'))
            = fetches (trace (world f)) ++ repeat (baseUrl config) m.
Proof.
  intros Ef. destruct (open_listing_result config f _ Ef) as [f1 Eo].
  destruct (crawlPortal_listing_failed config f f1 e Eo) as (f' & E & Hw & Hs).
  pose proof (crawlPortal_failed_log config f f1 e Eo) as Hl.
  destruct (open_listing_initial config f f1 _ Eo) as (_ & _ & _ & _ & _ & m & Hm & Em).
  exists f'. rewrite E in Hl. cbn [snd] in Hl. rewrite Hw.
  split; [exact E|]. split; [exact Hs|]. split; [exact Hl|].
  exists m. split; [exact Hm | exact Em].
Qed.


(** X19: a crawl that fetched its listing sends three entries to the log
    and no other: that it starts, how many links it found, and how many
    new articles it saved; the numbers are those of the result. *)
Theorem crawlPortal_success_log `{StringApi} `{Dom} `{UrlApi} `{DateApi} `{Database}
    (config : NewsPortalConfig) (f : Frame) (html : list N) :
  fst (fetchWithRetry (baseUrl config) no_options
         (fetch_world config (getDomain (baseUrl config)) f)) = inr html ->
  exists res f',
    crawlPortal config f = (inr res, f')
    /\ articlesFound res = Z.of_nat (length (Parser.parseArticleLinks html config))
    /\ log f' = log f ++ success_log config (articlesFound res) (newArticles res).
Proof.
  intros Ef. destruct (open_listing_result config f _ Ef) as [f1 Eo].
  destruct (crawlPortal_listing_fetched config f f1 html Eo) as (f3 & f' & E3 & E & _).
  pose proof (crawlPortal_fetched_log config f f1 f3 html Eo E3) as Hl.
  rewrite E in Hl. cbn [snd] in Hl.
  destruct (for_each_frame config (getDomain (baseUrl config))
              (take MAX_ARTICLES_PER_PORTAL (listing_links config html))
              (loop_frame config html f1)) as (f3' & failed & E3' & Hl3 & _).
  rewrite E3 in E3'. injection E3' as <-.
  destruct (for_each_run config (getDomain (baseUrl config))
              (take MAX_ARTICLES_PER_PORTAL (listing_links config html))
              (loop_frame config html f1)) as (f3' & E3' & Hf & _).
  rewrite E3 in E3'. injection E3' as <-.
  destruct (loop_frame_fields config html f1) as (Lf & _).
  pose proof (open_listing_frame config (init_locals f)) as (_ & _ & Hl1).
  rewrite Eo in Hl1. cbn [snd init_locals log] in Hl1.
  eexists _, f'. split; [exact E|]. cbn [articlesFound newArticles].
  split; [rewrite Hf; exact Lf|].
  rewrite Hl, Hl3. unfold success_log, loop_frame, bind, set_articlesFound, gets, emit, modify.
  cbn [snd log loc_articlesFound]. rewrite Hl1, Hf, Lf.
  rewrite <- !app_assoc. reflexivity.
Qed.

(** X20: the duration [crawlPortal] reports is the time that passed on
    the clock between its start and its end, and it is never negative. *)
Theorem crawlPortal_duration `{StringApi} `{Dom} `{UrlApi} `{DateApi} `{Database}
    (config : NewsPortalConfig) (f : Frame) :
  exists res f',
    crawlPortal config f = (inr res, f')
    /\ durationMs res = (now (world f') - now (world f))%Z
    /\ (0 <= durationMs res)%Z.
Proof.
  destruct (crawlPortal_clock config f) as (res & f' & E & Hd & Hc).
  exists res, f'. split; [exact E|]. split; [exact Hd | lia].
Qed.

(** *** On the example site *)

Section Examples.

Local Existing Instances Toy.strings Site.dom Toy.urls Toy.dates Toy.database.

(** A site that answers 404 to everything. *)
Lemma crawlPortal_listing_failure_witness :
  exists f',
    Site.crawl gone =
      (inr {| r_portal := lit "Detik"; success := false;
              articlesFound := 0; articlesCrawled := 0; newArticles := 0;
              errors := [lit "Portal error: [HTTP_ERROR] HTTP 404: Not Found"];
              durationMs := (now (world f') - now (world (Site.fresh gone)))%Z |}, f').
Proof.
  destruct (crawlPortal_listing_failure Toy.detik (Site.fresh gone)
              (FetchError (lit "HTTP_ERROR") (lit "HTTP 404: Not Found")))
    as (f' & E & _); [vm_compute; reflexivity|].
  exists f'. exact E.
Defined.


Lemma crawl_gone_article :
  option_map errors
    (match fst (Site.crawl (Site.serving (lit "NINE") (lit "ARTICLE"))) with
     | inr r => Some r
     | inl _ => None
     end)
  = Some [lit "Article error (https://www.detik.com/read/9): [HTTP_ERROR] HTTP 404: Not Found"].
Proof. vm_compute. reflexivity. Qed.

(** A listing with one link whose page parses and is stored. *)
Lemma crawlPortal_success_log_witness :
  exists res f',
    Site.crawl (Site.serving (lit "ONE") (lit "ARTICLE")) = (inr res, f')
    /\ log f' = success_log Toy.detik (articlesFound res) (newArticles res).
Proof.
  destruct (crawlPortal_success_log Toy.detik
              (Site.fresh (Site.serving (lit "ONE") (lit "ARTICLE"))) (lit "ONE"))
    as (res & f' & E & _ & Hl); [vm_compute; reflexivity|].
  exists res, f'. split; [exact E | exact Hl].
Defined.

Lemma crawl_log :
  map snd (log (snd (Site.crawl (Site.serving (lit "ONE") (lit "ARTICLE")))))
  = [lit "Crawling Detik..."; lit "Found 1 articles on Detik";
     lit "Detik: 1 new articles saved"].
Proof. vm_compute. reflexivity. Qed.

End Examples.

End OrchestratorFacts.

(** ** The log emitter *)

Module LogEmitterFacts.

Import Fetcher StateExn LogEmitter LogEmitterView.

Lemma received_of_app (l : Listener) (a b : list (Listener * LogEntry)) :
  received_of l (a ++ b) = received_of l a ++ received_of l b.
Proof. unfold received_of. rewrite List.filter_app, map_app. reflexivity. Qed.

Lemma received_of_same (l : Listener) (entries : list LogEntry) :
  received_of l (map (fun e => (l, e)) entries) = entries.
Proof.
  unfold received_of. induction entries as [|e r IH]; [reflexivity|].
  cbn [map List.filter fst]. rewrite Nat.eqb_refl. cbn [map snd]. rewrite IH. reflexivity.
Qed.

Lemma received_of_other (l l' : Listener) (entries : list LogEntry) :
  l <> l' -> received_of l (map (fun e => (l', e)) entries) = [].
Proof.
  intros Hne. unfold received_of. induction entries as [|e r IH]; [reflexivity|].
  cbn [map List.filter fst]. apply Nat.eqb_neq in Hne. rewrite Hne. exact IH.
Qed.

Lemma has_spec (l : Listener) (ls : list Listener) : has l ls = true <-> In l ls.
Proof.
  unfold has. rewrite existsb_exists. split.
  - intros (x & Hx & E). apply Nat.eqb_eq in E. subst x. exact Hx.
  - intros Hl. exists l. split; [exact Hl | apply Nat.eqb_refl].
Qed.

(** One entry sent to a duplicate-free list of listeners reaches [l]
    once if it is in the list, and not at all otherwise. *)
Lemma received_of_broadcast (l : Listener) (entry : LogEntry) (ls : list Listener) :
  List.NoDup ls ->
  received_of l (map (fun x => (x, entry)) ls) = if has l ls then [entry] else [].
Proof.
  unfold received_of, has. induction 1 as [|x ls Hx Hnd IH]; [reflexivity|].
  cbn [map List.filter fst existsb]. destruct (Nat.eqb_spec l x) as [->|Hne].
  - cbn [map snd orb]. f_equal.
    destruct (existsb (Nat.eqb x) ls) eqn:E; [|exact IH].
    exfalso. apply Hx. apply has_spec. exact E.
  - cbn [orb]. exact IH.
Qed.

(** *** The loops *)

Lemma notify_run (entry : LogEntry) (ls : list Listener) : forall s,
  for_of ls (fun listener => try_catch (call listener entry) (fun _ => ret tt)) s
  = (inr tt,
     mkState (listeners s) (currentJobId s) (logs s) (stamps s) (readings s)
             (console s) (throws s) (calls s ++ map (fun l => (l, entry)) ls)).
Proof.
  induction ls as [|l ls IH]; intros s; cbn [for_of map].
  - unfold ret. rewrite app_nil_r. destruct s; reflexivity.
  - unfold bind, try_catch, call.
    destruct (throws s l (calls s) entry); unfold ret; rewrite IH;
      cbn [listeners currentJobId logs stamps readings console throws calls];
      rewrite <- app_assoc; reflexivity.
Qed.

(** The replay of [subscribe]: it stops at the first call that throws. *)
Lemma replay_run (l : Listener) (entries : list LogEntry) : forall s res s',
  for_of entries (fun log => call l log) s = (res, s') ->
  exists k,
    (k <= length entries)%nat
    /\ s' = mkState (listeners s) (currentJobId s) (logs s) (stamps s) (readings s)
                    (console s) (throws s)
                    (calls s ++ map (fun e => (l, e)) (take k entries))
    /\ (res = inr tt -> k = length entries).
Proof.
  induction entries as [|e r IH]; intros s res s'; cbn [for_of].
  - unfold ret. intros [= <- <-]. exists 0%nat. cbn [take map length]. rewrite app_nil_r.
    destruct s; repeat split; lia.
  - unfold bind, call. destruct (throws s l (calls s) e) as [err|].
    + intros [= <- <-]. exists 1%nat. cbn [take map length].
      repeat split; [lia | discriminate].
    + intros E. apply IH in E as (k & Hk & -> & Hok).
      exists (S k). cbn [length]. split; [lia|]. split.
      * cbn [listeners currentJobId logs stamps readings console throws calls take map].
        rewrite <- app_assoc. reflexivity.
      * intros Hr. rewrite Hok by exact Hr. reflexivity.
Qed.

Lemma emit_run (lv : LogLevel) (msg : list N) (st tot : option Z) (s : State) :
  emit lv msg st tot s
  = (inr tt,
     mkState (listeners s) (currentJobId s)
       (logs s ++ [mkEntry (stamps s (readings s)) lv msg st tot])
       (stamps s) (S (readings s))
       (console s ++ [prefix_of lv st tot ++ lit " " ++ msg]) (throws s)
       (calls s ++ map (fun l => (l, mkEntry (stamps s (readings s)) lv msg st tot))
                       (listeners s))).
Proof.
  unfold emit, bind, now_iso, console_log, modify, gets, set_logs.
  cbn [listeners currentJobId logs stamps readings console throws calls].
  rewrite notify_run. reflexivity.
Qed.


(** The lines two calls print, and the calls they make when the first of
    two listeners throws. *)
Lemma emit_examples :
  let s := run [OpSubscribe 1%nat; OpSubscribe 2%nat; OpInfo (lit "Crawling Detik...");
                OpStep 2 5 (lit "Extracting tickers")] quiet in
  console s = [lit "[INFO] Crawling Detik..."; lit "[2/5] Extracting tickers"]
  /\ map fst (calls s) = [1; 2; 1; 2]%nat.
Proof. split; vm_compute; reflexivity. Qed.

(** *** Subscribers *)

Lemma set_add_spec (l : Listener) (ls : list Listener) :
  List.NoDup ls ->
  List.NoDup (set_add l ls) /\ In l (set_add l ls)
  /\ (forall x, In x ls -> In x (set_add l ls))
  /\ (In l ls -> set_add l ls = ls).
Proof.
  intros Hnd. unfold set_add. destruct (has l ls) eqn:E.
  - apply has_spec in E. repeat split; auto.
  - assert (Hn : ~ In l ls) by (rewrite <- has_spec, E; discriminate).
    split; [|split; [|split]].
    + apply List.NoDup_app; [exact Hnd | repeat constructor; intros [] |].
      intros x Hx [<-|[]]. contradiction.
    + apply in_or_app. right. left. reflexivity.
    + intros x Hx. apply in_or_app. left. exact Hx.
    + intros Hl. contradiction.
Qed.

Lemma set_delete_spec (l : Listener) (ls : list Listener) :
  (List.NoDup ls -> List.NoDup (set_delete l ls))
  /\ ~ In l (set_delete l ls)
  /\ (forall x, x <> l -> In x ls -> In x (set_delete l ls))
  /\ (forall x, In x (set_delete l ls) -> In x ls).
Proof.
  unfold set_delete. split; [apply List.NoDup_filter|]. split; [|split].
  - intros Hl. apply filter_In in Hl as [_ Hl]. rewrite Nat.eqb_refl in Hl. discriminate Hl.
  - intros x Hne Hx. apply filter_In. split; [exact Hx|].
    apply negb_true_iff, Nat.eqb_neq. congruence.
  - intros x Hx. apply filter_In in Hx as [Hx _]. exact Hx.
Qed.

Lemma subscribe_run (l : Listener) (s : State) :
  exists k,
    (k <= length (logs s))%nat
    /\ snd (subscribe l s)
       = mkState (set_add l (listeners s)) (currentJobId s) (logs s) (stamps s)
                 (readings s) (console s) (throws s)
                 (calls s ++ map (fun e => (l, e)) (take k (logs s)))
    /\ (fst (subscribe l s) = inr tt -> k = length (logs s)).
Proof.
  unfold subscribe, bind, modify, gets, set_listeners.
  cbn [listeners currentJobId logs stamps readings console throws calls].
  match goal with |- context [for_of ?es ?b ?s1] =>
    destruct (for_of es b s1) as [res s'] eqn:E
  end.
  apply replay_run in E as (k & Hk & -> & Hok).
  exists k. cbn [fst snd listeners currentJobId logs stamps readings console throws calls].
  repeat split; assumption.
Qed.

Lemma received_emit (l : Listener) (lv : LogLevel) (msg : list N) (st tot : option Z)
    (s : State) :
  List.NoDup (listeners s) -> In l (listeners s) ->
  received l (snd (emit lv msg st tot s))
  = received l s ++ [mkEntry (stamps s (readings s)) lv msg st tot].
Proof.
  intros Hnd Hl. rewrite emit_run. unfold received. cbn [snd calls].
  rewrite received_of_app, received_of_broadcast by exact Hnd.
  apply has_spec in Hl. rewrite Hl. reflexivity.
Qed.

(** What one operation of another client does to a subscriber. *)
Lemma perform_synced (l : Listener) (op : Op) (s : State) (old : list LogEntry) :
  subscribes l op = false -> unsubscribes l op = false ->
  List.NoDup (listeners s) -> In l (listeners s) ->
  received l s = old ++ logs s ->
  List.NoDup (listeners (perform op s)) /\ In l (listeners (perform op s))
  /\ exists old', received l (perform op s) = old' ++ logs (perform op s)
       /\ (starts_job op = false -> old' = old).
Proof.
  intros Hsub Hunsub Hnd Hl Hr.
  assert (Hemit : forall lv msg st tot,
            List.NoDup (listeners (snd (emit lv msg st tot s)))
            /\ In l (listeners (snd (emit lv msg st tot s)))
            /\ exists old', received l (snd (emit lv msg st tot s))
                            = old' ++ logs (snd (emit lv msg st tot s))
                 /\ (false = false -> old' = old)).
  { intros lv msg st tot. rewrite received_emit by assumption.
    rewrite emit_run. cbn [snd listeners logs].
    split; [exact Hnd|]. split; [exact Hl|]. exists old.
    rewrite Hr, <- app_assoc. split; reflexivity. }
  destruct op as [m|m|m|m|n t m|j|b|l'|l']; cbn [perform starts_job].
  1-5: unfold info, LogEmitter.success, warn, LogEmitter.error, step; apply Hemit.
  - (* startJob *)
    unfold startJob, bind, modify.
    set (s1 := set_logs [] (set_currentJobId (Some j) s)).
    assert (Hnd1 : List.NoDup (listeners s1)) by exact Hnd.
    assert (Hl1 : In l (listeners s1)) by exact Hl.
    rewrite (received_emit l _ _ _ _ s1 Hnd1 Hl1).
    rewrite emit_run. cbn [snd listeners logs].
    split; [exact Hnd|]. split; [exact Hl|].
    exists (received l s1). split; [reflexivity | discriminate].
  - (* endJob *)
    assert (E : exists lv msg,
               snd (endJob b s) = set_currentJobId None (snd (emit lv msg None None s))).
    { destruct b;
        [exists LevelSuccess, (lit "Job completed successfully!")
        |exists LevelError, (lit "Job failed.")];
        unfold endJob, bind, modify; rewrite !emit_run; reflexivity. }
    destruct E as (lv & msg & ->).
    destruct (Hemit lv msg None None) as (Hnd' & Hl' & old' & Hr' & Ho').
    split; [exact Hnd'|]. split; [exact Hl'|]. exists old'. split; [exact Hr' | exact Ho'].
  - (* subscribe, by another listener *)
    cbn [subscribes] in Hsub. apply Nat.eqb_neq in Hsub.
    destruct (subscribe_run l' s) as (k & _ & -> & _). cbn [listeners logs].
    destruct (set_add_spec l' (listeners s) Hnd) as (Hnd' & _ & Hin & _).
    split; [exact Hnd'|]. split; [apply Hin, Hl|]. exists old. split; [|reflexivity].
    unfold received. cbn [calls]. rewrite received_of_app.
    rewrite received_of_other by exact Hsub. rewrite app_nil_r. exact Hr.
  - (* unsubscribe, by another listener *)
    cbn [unsubscribes] in Hunsub. apply Nat.eqb_neq in Hunsub.
    unfold unsubscribe, set_listeners. cbn [snd listeners logs].
    destruct (set_delete_spec l' (listeners s)) as (Hnd' & _ & Hin & _).
    split; [apply Hnd', Hnd|]. split; [apply Hin; [exact Hunsub | exact Hl]|].
    exists old. split; [exact Hr | reflexivity].
Qed.

Lemma run_synced (l : Listener) (ops : list Op) : forall (s : State) (old : list LogEntry),
  forallb (fun op => negb (subscribes l op) && negb (unsubscribes l op)) ops = true ->
  List.NoDup (listeners s) -> In l (listeners s) ->
  received l s = old ++ logs s ->
  exists old', received l (run ops s) = old' ++ logs (run ops s)
    /\ (forallb (fun op => negb (starts_job op)) ops = true -> old' = old).
Proof.
  induction ops as [|op ops IH]; intros s old Hops Hnd Hl Hr.
  - exists old. split; [exact Hr | reflexivity].
  - cbn [forallb] in Hops. apply andb_true_iff in Hops as [Hop Hops].
    apply andb_true_iff in Hop as [H1 H2]. apply negb_true_iff in H1, H2.
    destruct (perform_synced l op s old H1 H2 Hnd Hl Hr) as (Hnd' & Hl' & old1 & Hr1 & Ho1).
    destruct (IH (perform op s) old1 Hops Hnd' Hl' Hr1) as (old2 & Hr2 & Ho2).
    exists old2. split; [exact Hr2|].
    cbn [forallb]. intros Hs. apply andb_true_iff in Hs as [Hs1 Hs2].
    apply negb_true_iff in Hs1. rewrite Ho2 by exact Hs2. apply Ho1, Hs1.
Qed.

(** X22: a listener whose [subscribe] returned has been sent the log of
    the current job, and is sent every later entry: whatever the other
    clients do afterwards (log, start and end jobs, subscribe,
    unsubscribe, throw), the entries it has received end with the whole
    log, in order; and when the listener was new and no job was started
    in between, what it has received is exactly the log. *)
Theorem subscriber_receives_log (l : Listener) (s s0 : State) (ops : list Op) :
  List.NoDup (listeners s) ->
  subscribe l s = (inr tt, s0) ->
  forallb (fun op => negb (subscribes l op) && negb (unsubscribes l op)) ops = true ->
  (exists old, received l (run ops s0) = old ++ logs (run ops s0))
  /\ (received l s = [] ->
      forallb (fun op => negb (starts_job op)) ops = true ->
      received l (run ops s0) = logs (run ops s0)).
Proof.
  intros Hnd Es Hops.
  destruct (subscribe_run l s) as (k & _ & E0 & Hk).
  rewrite Es in E0, Hk. cbn [fst snd] in E0, Hk. specialize (Hk eq_refl). subst k.
  rewrite firstn_all in E0.
  destruct (set_add_spec l (listeners s) Hnd) as (Hnd0 & Hl0 & _).
  assert (Hr0 : received l s0 = received l s ++ logs s0).
  { rewrite E0. unfold received. cbn [calls logs].
    rewrite received_of_app, received_of_same. reflexivity. }
  assert (Hnd0' : List.NoDup (listeners s0)) by (rewrite E0; exact Hnd0).
  assert (Hl0' : In l (listeners s0)) by (rewrite E0; exact Hl0).
  destruct (run_synced l ops s0 (received l s) Hops Hnd0' Hl0' Hr0) as (old & Hr & Ho).
  split; [exists old; exact Hr|].
  intros Hnew Hjobs. rewrite Hr, (Ho Hjobs), Hnew. reflexivity.
Qed.

(** A second client subscribes while the first one, which throws on
    every call, is being served; then a job runs its course. *)
Lemma subscriber_receives_log_witness :
  let ops := [OpSubscribe 1%nat; OpInfo (lit "Crawling Detik..."); OpUnsubscribe 1%nat;
              OpStep 2 5 (lit "Extracting tickers"); OpEndJob true] in
  received 2%nat (run ops (snd (subscribe 2%nat quiet)))
  = logs (run ops (snd (subscribe 2%nat quiet))).
Proof.
  intros ops.
  destruct (subscriber_receives_log 2%nat quiet (snd (subscribe 2%nat quiet)) ops)
    as [_ Hx];
    [constructor | reflexivity | reflexivity |].
  apply Hx; reflexivity.
Defined.

(** *** Leaving *)

Lemma received_of_absent (l : Listener) (entry : LogEntry) (ls : list Listener) :
  ~ In l ls -> received_of l (map (fun x => (x, entry)) ls) = [].
Proof.
  unfold received_of. induction ls as [|x ls IH]; intros Hl; [reflexivity|].
  cbn [map List.filter fst]. destruct (Nat.eqb_spec l x) as [->|Hne].
  - exfalso. apply Hl. left. reflexivity.
  - apply IH. intros Hin. apply Hl. right. exact Hin.
Qed.

Lemma perform_absent (l : Listener) (op : Op) (s : State) :
  subscribes l op = false ->
  ~ In l (listeners s) ->
  ~ In l (listeners (perform op s)) /\ received l (perform op s) = received l s.
Proof.
  intros Hsub Hl.
  assert (Hemit : forall lv msg st tot,
            ~ In l (listeners (snd (emit lv msg st tot s)))
            /\ received l (snd (emit lv msg st tot s)) = received l s).
  { intros lv msg st tot. rewrite emit_run. unfold received. cbn [snd listeners calls].
    split; [exact Hl|]. rewrite received_of_app, received_of_absent by exact Hl.
    apply app_nil_r. }
  destruct op as [m|m|m|m|n t m|j|b|l'|l']; cbn [perform].
  1-5: unfold info, LogEmitter.success, warn, LogEmitter.error, step; apply Hemit.
  - unfold startJob, bind, modify.
    rewrite emit_run. unfold received. cbn [snd listeners calls set_logs set_currentJobId].
    split; [exact Hl|]. rewrite received_of_app, received_of_absent by exact Hl.
    apply app_nil_r.
  - assert (E : exists lv msg,
               snd (endJob b s) = set_currentJobId None (snd (emit lv msg None None s))).
    { destruct b;
        [exists LevelSuccess, (lit "Job completed successfully!")
        |exists LevelError, (lit "Job failed.")];
        unfold endJob, bind, modify; rewrite !emit_run; reflexivity. }
    destruct E as (lv & msg & ->). apply (Hemit lv msg None None).
  - cbn [subscribes] in Hsub. apply Nat.eqb_neq in Hsub.
    destruct (subscribe_run l' s) as (k & _ & -> & _). unfold received. cbn [listeners calls].
    split.
    + unfold set_add. destruct (has l' (listeners s)); [exact Hl|].
      intros Hin. apply in_app_or in Hin as [Hin|[Hin|[]]]; [contradiction | congruence].
    + rewrite received_of_app, received_of_other by exact Hsub. apply app_nil_r.
  - unfold unsubscribe, set_listeners, received. cbn [snd listeners calls].
    split; [|reflexivity].
    intros Hin. apply Hl. apply (set_delete_spec l' (listeners s)). exact Hin.
Qed.

(** X23: a listener that has unsubscribed is not called again, whatever
    is logged and whoever subscribes afterwards, until it subscribes
    itself again. *)
Theorem unsubscribed_hears_nothing (l : Listener) (s : State) (ops : list Op) :
  forallb (fun op => negb (subscribes l op)) ops = true ->
  received l (run ops (snd (unsubscribe l s))) = received l s
  /\ has l (listeners (run ops (snd (unsubscribe l s)))) = false.
Proof.
  intros Hops.
  assert (H0 : ~ In l (listeners (snd (unsubscribe l s)))
               /\ received l (snd (unsubscribe l s)) = received l s).
  { unfold unsubscribe, set_listeners. cbn [snd listeners].
    split; [apply set_delete_spec | reflexivity]. }
  revert H0. generalize (snd (unsubscribe l s)) as s0.
  induction ops as [|op ops IH]; intros s0 [Hl Hr].
  - cbn [run fold_left]. split; [exact Hr|].
    destruct (has l (listeners s0)) eqn:E; [|reflexivity].
    apply has_spec in E. contradiction.
  - cbn [forallb] in Hops. apply andb_true_iff in Hops as [Hop Hops].
    apply negb_true_iff in Hop.
    destruct (perform_absent l op s0 Hop Hl) as [Hl' Hr'].
    change (run (op :: ops) s0) with (run ops (perform op s0)).
    apply IH; [exact Hops|]. split; [exact Hl' | congruence].
Qed.

(** The second of two listeners leaves before the job starts. *)
Lemma unsubscribed_hears_nothing_witness :
  let s := run [OpSubscribe 1%nat; OpSubscribe 2%nat; OpInfo (lit "ready")] quiet in
  let ops := [OpStartJob 7; OpStep 1 5 (lit "Crawling news portals..."); OpEndJob false] in
  received 2%nat (run ops (snd (unsubscribe 2%nat s))) = received 2%nat s.
Proof.
  intros s ops. apply (unsubscribed_hears_nothing 2%nat s ops). reflexivity.
Defined.

(** *** Joining *)

(** X24: [subscribe] registers the listener before it replays the log:
    whether the replay completes or the listener throws in the middle of
    it, the listener is subscribed afterwards, once, however often it had
    subscribed before; and it has been called with the entries of the log
    in order, up to the call that threw, or with all of them. *)
Theorem subscribe_registers_once (l : Listener) (s : State) :
  List.NoDup (listeners s) ->
  In l (listeners (snd (subscribe l s)))
  /\ List.NoDup (listeners (snd (subscribe l s)))
  /\ (In l (listeners s) -> listeners (snd (subscribe l s)) = listeners s)
  /\ logs (snd (subscribe l s)) = logs s
  /\ exists k, (k <= length (logs s))%nat
       /\ received l (snd (subscribe l s)) = received l s ++ take k (logs s)
       /\ (fst (subscribe l s) = inr tt -> k = length (logs s)).
Proof.
  intros Hnd. destruct (subscribe_run l s) as (k & Hk & -> & Hok).
  destruct (set_add_spec l (listeners s) Hnd) as (Hnd' & Hl' & _ & Hsame).
  cbn [listeners logs]. split; [exact Hl'|]. split; [exact Hnd'|].
  split; [exact Hsame|]. split; [reflexivity|].
  exists k. split; [exact Hk|]. split; [|exact Hok].
  unfold received. cbn [calls]. rewrite received_of_app, received_of_same. reflexivity.
Qed.

(** The listener that throws on every call subscribes when the log holds
    two entries: it is called with the first, [subscribe] throws, and the
    listener is subscribed all the same. *)
Lemma subscribe_registers_once_witness :
  let s := run [OpInfo (lit "one"); OpInfo (lit "two")] quiet in
  In 1%nat (listeners (snd (subscribe 1%nat s))).
Proof.
  intros s. apply (subscribe_registers_once 1%nat s). constructor.
Defined.

Lemma subscribe_throws_example :
  let s := run [OpInfo (lit "one"); OpInfo (lit "two")] quiet in
  fst (subscribe 1%nat s) = inl (platform_error (lit "TypeError") (lit "stream closed"))
  /\ map message (received 1%nat (snd (subscribe 1%nat s))) = [lit "one"]
  /\ listeners (snd (subscribe 1%nat s)) = [1%nat].
Proof. repeat split; vm_compute; reflexivity. Qed.

(** *** Jobs *)

Lemma perform_job (op : Op) (s : State) :
  starts_job op = false ->
  map message (logs (perform op s)) = map message (logs s) ++ message_of op
  /\ getJobId (perform op s) = if ends_job op then None else getJobId s.
Proof.
  intros Hs.
  destruct op as [m|m|m|m|n t m|j|b|l'|l']; cbn [perform message_of ends_job];
    try discriminate Hs.
  1-5: unfold info, LogEmitter.success, warn, LogEmitter.error, step; rewrite emit_run;
       cbn [snd logs getJobId currentJobId]; rewrite map_app; split; reflexivity.
  - unfold endJob, bind, modify. destruct b; rewrite emit_run;
      cbn [snd logs getJobId currentJobId set_currentJobId]; rewrite map_app;
      split; reflexivity.
  - destruct (subscribe_run l' s) as (k & _ & -> & _).
    cbn [logs getJobId currentJobId]. rewrite app_nil_r. split; reflexivity.
  - unfold unsubscribe, set_listeners. cbn [snd logs getJobId currentJobId].
    rewrite app_nil_r. split; reflexivity.
Qed.

Lemma run_job (ops : list Op) : forall s : State,
  forallb (fun op => negb (starts_job op)) ops = true ->
  map message (logs (run ops s)) = map message (logs s) ++ flat_map message_of ops
  /\ getJobId (run ops s) = if existsb ends_job ops then None else getJobId s.
Proof.
  induction ops as [|op ops IH]; intros s Hops.
  - cbn [run fold_left flat_map existsb]. rewrite app_nil_r. split; reflexivity.
  - cbn [forallb] in Hops. apply andb_true_iff in Hops as [Hop Hops].
    apply negb_true_iff in Hop.
    change (run (op :: ops) s) with (run ops (perform op s)).
    destruct (IH (perform op s) Hops) as [Hm Hj].
    destruct (perform_job op s Hop) as [Hm1 Hj1].
    cbn [flat_map existsb]. split.
    + rewrite Hm, Hm1, <- app_assoc. reflexivity.
    + rewrite Hj, Hj1. destruct (ends_job op), (existsb ends_job ops); reflexivity.
Qed.

(** X25: the log is the log of the last job.  After [startJob] and any
    operations that start no other job, the messages of the log are the
    announcement of the job followed by the messages logged since, in
    order, the report of [endJob] included; what was logged before the
    job started is gone.  The job counts as running, under its number,
    until [endJob] is called. *)
Theorem job_log (jobId : Z) (ops : list Op) (s : State) :
  forallb (fun op => negb (starts_job op)) ops = true ->
  map message (logs (run (OpStartJob jobId :: ops) s))
  = (lit "Starting job " ++ string_of_Z jobId ++ lit "...") :: flat_map message_of ops
  /\ getJobId (run (OpStartJob jobId :: ops) s)
     = (if existsb ends_job ops then None else Some jobId)
  /\ isRunning (run (OpStartJob jobId :: ops) s) = negb (existsb ends_job ops).
Proof.
  intros Hops.
  change (run (OpStartJob jobId :: ops) s) with (run ops (snd (startJob jobId s))).
  destruct (run_job ops (snd (startJob jobId s)) Hops) as [Hm Hj].
  assert (E : map message (logs (snd (startJob jobId s)))
              = [lit "Starting job " ++ string_of_Z jobId ++ lit "..."]
              /\ getJobId (snd (startJob jobId s)) = Some jobId).
  { unfold startJob, bind, modify. rewrite emit_run. split; reflexivity. }
  destruct E as [E1 E2]. rewrite E1 in Hm. rewrite E2 in Hj.
  split; [exact Hm|]. split; [exact Hj|].
  unfold isRunning. unfold getJobId in Hj. rewrite Hj.
  destruct (existsb ends_job ops); reflexivity.
Qed.

(** A job of two steps that fails, after an earlier message. *)
Lemma job_log_witness :
  map message
    (logs (run (OpStartJob 7 :: [OpStep 1 5 (lit "Crawling news portals...");
                                 OpError (lit "network down"); OpEndJob false])
               (perform (OpInfo (lit "idle")) quiet)))
  = (lit "Starting job " ++ string_of_Z 7 ++ lit "...")
    :: flat_map message_of [OpStep 1 5 (lit "Crawling news portals...");
                            OpError (lit "network down"); OpEndJob false].
Proof.
  destruct (job_log 7 [OpStep 1 5 (lit "Crawling news portals...");
                       OpError (lit "network down"); OpEndJob false]
              (perform (OpInfo (lit "idle")) quiet)) as [Hm _]; [reflexivity|].
  exact Hm.
Defined.

Lemma job_log_example :
  map message
    (logs (run [OpInfo (lit "idle"); OpStartJob 7; OpStep 1 5 (lit "Crawling news portals...");
                OpError (lit "network down"); OpEndJob false] quiet))
  = [lit "Starting job 7..."; lit "Crawling news portals..."; lit "network down";
     lit "Job failed."].
Proof. vm_compute. reflexivity. Qed.

End LogEmitterFacts.

(** ** The portal test helper *)

Module PortalTestFacts.

Import Fetcher FetcherSpec StateExn CrawlerSpec CrawlerFacts PortalTest PortalTestView.

Section WithPlatform.
Context `{StringApi} `{Dom} `{UrlApi} `{DateApi}.

Variable config : NewsPortalConfig.

(** The helper's fetch: one or two requests, both for the URL. *)
Lemma fetchM_run (url : list N) (f : TestFrame) :
  exists n, (1 <= n <= 2)%nat
    /\ result (snd (fetchM url f)) = result f
    /\ t_world (snd (fetchM url f)) = snd (fetchWithRetry url test_options (t_world f))
    /\ fst (fetchM url f) = fst (fetchWithRetry url test_options (t_world f))
    /\ fetches (trace (t_world (snd (fetchM url f))))
       = fetches (trace (t_world f)) ++ repeat url n.
Proof.
  unfold fetchM.
  destruct (retry_loop_fetches url (spread DEFAULT_FETCH_OPTIONS test_options) 2
              0%Z None (t_world f)) as (n & Hn & Hone & E).
  change (retry_loop 2 0 url (spread DEFAULT_FETCH_OPTIONS test_options) None (t_world f))
    with (fetchWithRetry url test_options (t_world f)) in E.
  destruct (fetchWithRetry url test_options (t_world f)) as [r w1].
  exists n. cbn [fst snd result t_world] in *. repeat split; try lia. exact E.
Qed.

Lemma link_step_run (link : list N) (f : TestFrame) :
  exists n stop f',
    (1 <= n <= 2)%nat
    /\ try_catch (link_try config link) (fun _ => ret false) f = (inr stop, f')
    /\ fetches (trace (t_world f')) = fetches (trace (t_world f)) ++ repeat link n
    /\ same_listing (result f) (result f')
    /\ (if stop then sampled (result f') else result f' = result f).
Proof.
  destruct (fetchM_run link f) as (n & Hn & Hr & _ & Hf & Ht).
  exists n. unfold try_catch, link_try, bind.
  destruct (fetchM link f) as [[e|articleHtml] f1]; cbn [fst snd] in *.
  - exists false, f1. unfold ret. rewrite Hr.
      repeat split; first [assumption | reflexivity | lia].
  - destruct (is404Page articleHtml).
    + exists false, f1. unfold ret. rewrite Hr.
      repeat split; first [assumption | reflexivity | lia].
    + destruct (Parser.parseArticle articleHtml link config) as [article|].
      * destruct (truthy (title article)) eqn:Et.
        -- unfold set_result, modify, ret. eexists true, _.
           split; [exact Hn|]. split; [reflexivity|]. cbn [t_world result].
           split; [exact Ht|]. rewrite Hr. split; [repeat split|].
           split; [reflexivity|]. eexists. split; [reflexivity|].
           unfold slice0. split; [|rewrite length_take; lia].
           destruct (title article); [discriminate Et | reflexivity].
        -- exists false, f1. unfold ret. rewrite Hr.
      repeat split; first [assumption | reflexivity | lia].
      * exists false, f1. unfold ret. rewrite Hr.
      repeat split; first [assumption | reflexivity | lia].
Qed.

Lemma try_links_run (links : list (list N)) : forall f : TestFrame,
  exists tried counts f',
    try_links config links f = (inr tt, f')
    /\ tried `prefix_of` links
    /\ length counts = length tried
    /\ Forall (fun n => 1 <= n <= 2)%nat counts
    /\ fetches (trace (t_world f'))
       = fetches (trace (t_world f)) ++ request_blocks tried counts
    /\ same_listing (result f) (result f')
    /\ (sampled (result f') \/ result f' = result f).
Proof.
  induction links as [|link rest IH]; intros f; cbn [try_links].
  - exists [], [], f. unfold ret. cbn [request_blocks]. rewrite app_nil_r.
    split; [reflexivity|]. split; [apply prefix_nil|]. split; [reflexivity|].
    split; [constructor|]. split; [reflexivity|].
    split; [repeat split | right; reflexivity].
  - unfold bind.
    destruct (link_step_run link f) as (n & stop & f1 & Hn & E & Ht & Hs & Hv).
    rewrite E. destruct stop.
    + exists [link], [n], f1. unfold ret. cbn [request_blocks]. rewrite app_nil_r.
      split; [reflexivity|]. split; [apply prefix_cons, prefix_nil|].
      split; [reflexivity|]. split; [constructor; [lia | constructor]|].
      split; [exact Ht|]. split; [exact Hs | left; exact Hv].
    + destruct (IH f1) as (tried & counts & f' & E' & Hp & Hl & Hc & Ht' & Hs' & Hv').
      exists (link :: tried), (n :: counts), f'.
      split; [exact E'|]. split; [apply prefix_cons, Hp|].
      split; [cbn [length]; lia|]. split; [constructor; [lia | exact Hc]|].
      split; [rewrite Ht', Ht; cbn [request_blocks]; rewrite <- !app_assoc; reflexivity|].
      rewrite Hv in *. split; [exact Hs' | exact Hv'].
Qed.

(** The two phases of a test. *)
Lemma testPortal_run (w : World) :
  match fst (fetchWithRetry (baseUrl config) test_options w) with
  | inl e =>
      testPortal config w
      = (inr (mkTestResult (name config) false 0%Z false None (Some (err_message e))),
         snd (fetchWithRetry (baseUrl config) test_options w))
  | inr html =>
      let links := Parser.parseArticleLinks html config in
      exists tried counts r w',
        testPortal config w = (inr r, w')
        /\ t_portal r = name config
        /\ listingAccessible r = true
        /\ t_articlesFound r = Z.of_nat (length links)
        /\ tried `prefix_of` take 3 links
        /\ length counts = length tried
        /\ Forall (fun n => 1 <= n <= 2)%nat counts
        /\ fetches (trace w')
           = fetches (trace (snd (fetchWithRetry (baseUrl config) test_options w)))
             ++ request_blocks tried counts
        /\ ((links = [] /\ articleParseable r = false /\ sampleTitle r = None
             /\ t_error r = Some (lit "No article links found with current selector"))
            \/ (links <> [] /\ sampled r /\ t_error r = None)
            \/ (links <> [] /\ articleParseable r = false /\ sampleTitle r = None
                /\ t_error r = Some (lit "All tested articles failed title extraction")))
  end.
Proof.
  unfold testPortal, try_catch, portal_try, bind, fetchM. cbn [t_world result].
  destruct (fetchWithRetry (baseUrl config) test_options w) as [[e|html] w1];
    cbn [fst snd]; [reflexivity|].
  unfold set_result, modify. cbn [t_world result t_portal listingAccessible
    t_articlesFound articleParseable sampleTitle t_error].
  cbv zeta.
  destruct (Parser.parseArticleLinks html config) as [|l0 ls] eqn:El.
  - cbn [length Nat.eqb]. exists [], [].
    eexists _, _. split; [reflexivity|].
    cbn [result t_world t_portal listingAccessible t_articlesFound articleParseable
         sampleTitle t_error request_blocks length take].
    rewrite app_nil_r.
    split; [reflexivity|]. split; [reflexivity|]. split; [reflexivity|].
    split; [apply prefix_nil|]. split; [reflexivity|]. split; [constructor|].
    split; [reflexivity|]. left. repeat split.
  - cbn [length Nat.eqb].
    match goal with |- context [try_links config ?ls0 ?f0] =>
      destruct (try_links_run ls0 f0)
        as (tried & counts & f' & E & Hp & Hl & Hc & Ht & (Sp & Sl & Sf & Se) & Hv)
    end.
    rewrite E. unfold gets.
    cbn [result t_world t_portal listingAccessible t_articlesFound articleParseable
         sampleTitle t_error] in *.
    assert (Hne : l0 :: ls <> []) by discriminate.
    destruct Hv as [Hv | Hv].
    + pose proof Hv as [Hpar _]. rewrite Hpar. cbn [negb]. unfold ret.
      exists tried, counts. eexists _, _. split; [reflexivity|].
      split; [exact Sp|]. split; [exact Sl|]. split; [exact Sf|].
      split; [exact Hp|]. split; [exact Hl|]. split; [exact Hc|]. split; [exact Ht|].
      right. left. split; [exact Hne|]. split; [exact Hv | exact Se].
    + rewrite Hv. cbn [articleParseable negb].
      exists tried, counts. eexists _, _. split; [reflexivity|].
      cbn [result t_world t_portal listingAccessible t_articlesFound articleParseable
           sampleTitle t_error].
      rewrite Hv.
      cbn [t_portal listingAccessible t_articlesFound articleParseable sampleTitle].
      split; [reflexivity|]. split; [reflexivity|]. split; [reflexivity|].
      split; [exact Hp|]. split; [exact Hl|]. split; [exact Hc|]. split; [exact Ht|].
      right. right. repeat split. exact Hne.
Qed.

End WithPlatform.

(** X26: [testPortal] never throws, and its verdict has one of four
    shapes.  Either an article was parsed: then there is no error, the
    sample title is a non-empty text of at most eighty units, the listing
    was accessible and had links.  Or no article was parsed: then there is
    no sample title and the error says why; it is the message of the
    fetch error when the listing was not accessible, the complaint about
    the selector when the listing had no links, and otherwise the
    complaint that all tested articles failed. *)
Theorem testPortal_verdict `{StringApi} `{Dom} `{UrlApi} `{DateApi} (config : NewsPortalConfig)
    (w : World) :
  exists r w',
    testPortal config w = (inr r, w')
    /\ t_portal r = name config
    /\ ((articleParseable r = true
         /\ t_error r = None
         /\ sampled r
         /\ listingAccessible r = true
         /\ (0 < t_articlesFound r)%Z)
        \/ (articleParseable r = false
            /\ sampleTitle r = None
            /\ ((listingAccessible r = false
                 /\ t_articlesFound r = 0%Z
                 /\ exists e,
                      fst (fetchWithRetry (baseUrl config) test_options w) = inl e
                      /\ t_error r = Some (err_message e))
                \/ (listingAccessible r = true
                    /\ t_articlesFound r = 0%Z
                    /\ t_error r
                       = Some (lit "No article links found with current selector"))
                \/ (listingAccessible r = true
                    /\ (0 < t_articlesFound r)%Z
                    /\ t_error r
                       = Some (lit "All tested articles failed title extraction"))))).
Proof.
  pose proof (testPortal_run config w) as Hrun.
  destruct (fst (fetchWithRetry (baseUrl config) test_options w)) as [e|html] eqn:Ef.
  - eexists _, _. split; [exact Hrun|].
    cbn [t_portal articleParseable sampleTitle listingAccessible t_articlesFound t_error].
    split; [reflexivity|]. right. split; [reflexivity|]. split; [reflexivity|].
    left. split; [reflexivity|]. split; [reflexivity|]. exists e. split; reflexivity.
  - cbv zeta in Hrun.
    destruct Hrun as (tried & counts & r & w' & E & Hp & Hl & Hf & _ & _ & _ & _ & Hv).
    exists r, w'. split; [exact E|]. split; [exact Hp|].
    assert (Hpos : Parser.parseArticleLinks html config <> [] -> (0 < t_articlesFound r)%Z).
    { intros Hne. rewrite Hf. destruct (Parser.parseArticleLinks html config);
        [congruence | cbn [length]; lia]. }
    destruct Hv as [(Hnil & Hpar & Hs & He) | [(Hne & Hs & He) | (Hne & Hpar & Hs & He)]].
    + right. split; [exact Hpar|]. split; [exact Hs|]. right. left.
      split; [exact Hl|]. split; [rewrite Hf, Hnil; reflexivity | exact He].
    + left. split; [apply Hs|]. split; [exact He|]. split; [exact Hs|].
      split; [exact Hl | apply Hpos, Hne].
    + right. split; [exact Hpar|]. split; [exact Hs|]. right. right.
      split; [exact Hl|]. split; [apply Hpos, Hne | exact He].
Qed.

(** X27: a test asks for little: the listing, once or twice, and then at
    most the first three links of the listing, in their order, each once
    or twice, stopping at the first one that yields an article; so never
    more than eight requests, and none for an article when the listing
    could not be fetched. *)
Theorem testPortal_requests `{StringApi} `{Dom} `{UrlApi} `{DateApi} (config : NewsPortalConfig)
    (w : World) :
  exists (m : nat) (tried : list (list N)) (counts : list nat),
    (1 <= m <= 2)%nat
    /\ length counts = length tried
    /\ (length tried <= 3)%nat
    /\ Forall (fun n => 1 <= n <= 2)%nat counts
    /\ fetches (trace (snd (testPortal config w)))
       = fetches (trace w) ++ repeat (baseUrl config) m ++ request_blocks tried counts
    /\ (forall html,
          fst (fetchWithRetry (baseUrl config) test_options w) = inr html ->
          tried `prefix_of` take 3 (Parser.parseArticleLinks html config))
    /\ (forall e,
          fst (fetchWithRetry (baseUrl config) test_options w) = inl e -> tried = []).
Proof.
  pose proof (testPortal_run config w) as Hrun.
  destruct (retry_loop_fetches (baseUrl config) (spread DEFAULT_FETCH_OPTIONS test_options)
              2 0%Z None w) as (m & Hm & Hone & Em).
  change (retry_loop 2 0 (baseUrl config) (spread DEFAULT_FETCH_OPTIONS test_options) None w)
    with (fetchWithRetry (baseUrl config) test_options w) in Em.
  exists m.
  destruct (fst (fetchWithRetry (baseUrl config) test_options w)) as [e|html] eqn:Ef.
  - exists [], []. rewrite Hrun. cbn [snd request_blocks length]. rewrite app_nil_r.
    split; [lia|]. split; [reflexivity|]. split; [lia|]. split; [constructor|].
    split; [exact Em|]. split; [discriminate | reflexivity].
  - cbv zeta in Hrun.
    destruct Hrun as (tried & counts & r & w' & E & _ & _ & _ & Hp & Hl & Hc & Ht & _).
    exists tried, counts. rewrite E. cbn [snd].
    split; [lia|]. split; [exact Hl|].
    split; [apply prefix_length in Hp; rewrite length_take in Hp; lia|].
    split; [exact Hc|]. split; [rewrite Ht, Em, <- app_assoc; reflexivity|].
    split; [intros html' [= <-]; exact Hp | discriminate].
Qed.

(** The helper on the example site: a listing whose article parses, a
    listing without links, and a site that is gone. *)
Lemma testPortal_examples :
  option_map (fun r => (articleParseable r, sampleTitle r, t_error r))
    (match fst (@testPortal Toy.strings Site.dom Toy.urls Toy.dates Toy.detik
                  (quiet_world (Site.serving (lit "ONE") (lit "ARTICLE")))) with
     | inr r => Some r
     | inl _ => None
     end)
  = Some (true, Some (lit "Saham BBCA naik"), None)
  /\ option_map t_error
       (match fst (@testPortal Toy.strings Site.dom Toy.urls Toy.dates Toy.detik
                     (quiet_world (Site.serving (lit "EMPTY") (lit "ARTICLE")))) with
        | inr r => Some r
        | inl _ => None
        end)
     = Some (Some (lit "No article links found with current selector"))
  /\ option_map t_error
       (match fst (@testPortal Toy.strings Site.dom Toy.urls Toy.dates Toy.detik
                     (quiet_world (always not_found))) with
        | inr r => Some r
        | inl _ => None
        end)
     = Some (Some (lit "[HTTP_ERROR] HTTP 404: Not Found")).
Proof. repeat split; vm_compute; reflexivity. Qed.

End PortalTestFacts.
